(** * WebhookLib documentation site: a model of [script.js]

    The site script is embedded class by class and method by method.
    JavaScript strings are lists of code units, the regular-expression
    replacements run on a small backtracking matcher that follows the
    ECMAScript rules the patterns of the script rely on, and the
    browser objects the script talks to (storage, location, the content
    element, the navigation elements) are explicit records threaded
    through each method.  The statements at the end settle the claims
    C1 to C10 of the specification against this model. *)

From Stdlib Require Import Ascii String.
From Stdlib Require Import Bool Arith ZArith Lia List.
Import ListNotations.

Open Scope string_scope.
Open Scope nat_scope.
Open Scope list_scope.

(** ** Strings

    A JavaScript string is a sequence of code units; the model keeps the
    code units below 256, which is where every pattern of the script
    draws its characters from. *)

Definition str := list ascii.

Coercion list_ascii_of_string : string >-> list.

Definition code (c : ascii) : nat := nat_of_ascii c.

Definition between (lo hi : nat) (c : ascii) : bool :=
  (lo <=? code c) && (code c <=? hi).

Definition chr (n : nat) : ascii := ascii_of_nat n.

(** The double quote, written by code so that templates stay readable. *)
Definition Q : str := [chr 34].
Definition LF : ascii := chr 10.
Definition CR : ascii := chr 13.

(** Three characters of the script lie beyond the range: the warning
    sign (the code units U+26A0 and U+FE0F) and the arrows U+2190 and
    U+2192 of some templates.  Each of their code units stands as one
    code unit of the range that the operations of the script treat as
    they treat the original: no letter for [toLowerCase], nothing that
    [escapeHtml] rewrites, no space, no word character and no line
    terminator. *)
Definition warning_sign : str := [chr 164; chr 166].
Definition left_arrow : str := [chr 171].
Definition right_arrow : str := [chr 187].

Definition is_char (a c : ascii) : bool := Ascii.eqb a c.
Arguments is_char : simpl never.
Definition is_digit : ascii -> bool := between 48 57.
Definition is_lower : ascii -> bool := between 97 122.
Definition is_upper : ascii -> bool := between 65 90.

(** [\w] *)
Definition is_word (c : ascii) : bool :=
  is_lower c || is_upper c || is_digit c || is_char "_" c.

(** [\s] and the characters [trim] removes: TAB, LF, VT, FF, CR, space
    and the no-break space. *)
Definition is_space (c : ascii) : bool :=
  between 9 13 c || (code c =? 32) || (code c =? 160).

(** Line terminators: what [.] refuses and where [^] and [$] anchor
    under the [m] flag. *)
Definition is_line_terminator (c : ascii) : bool :=
  is_char LF c || is_char CR c.

Definition any_char (_ : ascii) : bool := true.
Definition dot (c : ascii) : bool := negb (is_line_terminator c).
Definition none_of (l : list ascii) (c : ascii) : bool :=
  negb (existsb (fun a => is_char a c) l).

(** [String.prototype.toLowerCase], per code unit: the ASCII capitals
    and the Latin-1 capitals (192..222 but the multiplication sign). *)
Definition lower_char (c : ascii) : ascii :=
  if is_upper c then chr (code c + 32)
  else if between 192 222 c && negb (code c =? 215) then chr (code c + 32)
  else c.

Definition toLowerCase (s : str) : str := map lower_char s.

Fixpoint trimStart (s : str) : str :=
  match s with
  | c :: t => if is_space c then trimStart t else s
  | [] => []
  end.

Definition trimEnd (s : str) : str := rev (trimStart (rev s)).

Definition trim (s : str) : str := trimEnd (trimStart s).

Fixpoint startsWith (w s : str) : bool :=
  match w, s with
  | [], _ => true
  | a :: w', c :: s' => is_char a c && startsWith w' s'
  | _ :: _, [] => false
  end.

(** [String.prototype.includes] *)
Fixpoint includes (s w : str) : bool :=
  startsWith w s ||
  match s with
  | [] => false
  | _ :: t => includes t w
  end.

Definition str_eqb (a b : str) : bool :=
  if list_eq_dec ascii_dec a b then true else false.

(** JavaScript truthiness of a string. *)
Definition truthy (s : str) : bool :=
  match s with [] => false | _ => true end.

(** ** Regular expressions

    The patterns of the script use classes, sequence, alternation,
    greedy and lazy stars, capture groups, the anchors, the word
    boundary, a back reference and a negative lookahead. *)

Inductive regex : Type :=
| Empty
| Class (p : ascii -> bool)
| Seq (a b : regex)
| Alt (a b : regex)
| Star (greedy : bool) (a : regex)
| Group (n : nat) (a : regex)
| LineStart
| LineEnd
| WordBoundary
| BackRef (n : nat)
| NotFollowedBy (a : regex).

Definition Chr (c : ascii) : regex := Class (is_char c).
Definition Plus (a : regex) : regex := Seq a (Star true a).
Definition Maybe (a : regex) : regex := Alt a Empty.

Fixpoint cat (l : list regex) : regex :=
  match l with
  | [] => Empty
  | [a] => a
  | a :: l' => Seq a (cat l')
  end.

Fixpoint alts (l : list regex) : regex :=
  match l with
  | [] => Class (fun _ => false)
  | [a] => a
  | a :: l' => Alt a (alts l')
  end.

Definition Lit (w : str) : regex := cat (map Chr w).

(** The matcher's position: the code unit just before it, the input
    that is left, and the captures made so far (latest first). *)
Record mstate : Type := MState {
  before : option ascii;
  rest : str;
  caps : list (nat * str)
}.

Definition step (c : ascii) (t : str) (st : mstate) : mstate :=
  MState (Some c) t (caps st).

Fixpoint capture_of (n : nat) (l : list (nat * str)) : option str :=
  match l with
  | [] => None
  | (i, w) :: l' => if i =? n then Some w else capture_of n l'
  end.

Definition consumed (from : str) (st : mstate) : str :=
  firstn (length from - length (rest st)) from.

Definition capture (n : nat) (from : str) (st : mstate) : mstate :=
  MState (before st) (rest st) ((n, consumed from st) :: caps st).

Definition at_line_start (multiline : bool) (st : mstate) : bool :=
  match before st with
  | None => true
  | Some c => multiline && is_line_terminator c
  end.

Definition at_line_end (multiline : bool) (st : mstate) : bool :=
  match rest st with
  | [] => true
  | c :: _ => multiline && is_line_terminator c
  end.

Definition word_before (st : mstate) : bool :=
  match before st with Some c => is_word c | None => false end.

Definition word_after (st : mstate) : bool :=
  match rest st with c :: _ => is_word c | [] => false end.

Fixpoint skip_word (w : str) (st : mstate) : option mstate :=
  match w with
  | [] => Some st
  | a :: w' =>
      match rest st with
      | c :: t => if is_char a c then skip_word w' (step c t st) else None
      | [] => None
      end
  end.

(** The loop of a star over [body], greedy or lazy.  An iteration that
    consumes nothing is refused, as in ECMAScript, so the loop runs at
    most once per remaining code unit. *)
Fixpoint star_loop (body : mstate -> (mstate -> option mstate) -> option mstate)
    (greedy : bool) (k : mstate -> option mstate) (fuel : nat) (st : mstate)
    {struct fuel} : option mstate :=
  match fuel with
  | 0 => k st
  | S fuel' =>
      if greedy then
        match body st (fun st' =>
                if length (rest st') <? length (rest st)
                then star_loop body greedy k fuel' st' else None) with
        | Some e => Some e
        | None => k st
        end
      else
        match k st with
        | Some e => Some e
        | None =>
            body st (fun st' =>
              if length (rest st') <? length (rest st)
              then star_loop body greedy k fuel' st' else None)
        end
  end.

(** Backtracking matcher in continuation-passing style. *)
Fixpoint exec (ml : bool) (r : regex) (st : mstate)
    (k : mstate -> option mstate) {struct r} : option mstate :=
  match r with
  | Empty => k st
  | Class p =>
      match rest st with
      | c :: t => if p c then k (step c t st) else None
      | [] => None
      end
  | Seq a b => exec ml a st (fun st' => exec ml b st' k)
  | Alt a b =>
      match exec ml a st k with
      | Some e => Some e
      | None => exec ml b st k
      end
  | Star greedy a =>
      star_loop (exec ml a) greedy k (S (length (rest st))) st
  | Group n a => exec ml a st (fun st' => k (capture n (rest st) st'))
  | LineStart => if at_line_start ml st then k st else None
  | LineEnd => if at_line_end ml st then k st else None
  | WordBoundary =>
      if xorb (word_before st) (word_after st) then k st else None
  | BackRef n =>
      match capture_of n (caps st) with
      | None => k st
      | Some w =>
          match skip_word w st with
          | Some st' => k st'
          | None => None
          end
      end
  | NotFollowedBy a =>
      match exec ml a st Some with
      | Some _ => None
      | None => k st
      end
  end.

(** One attempt at one position. *)
Definition match_at (ml : bool) (r : regex) (prev : option ascii) (s : str)
    : option mstate :=
  exec ml r (MState prev s []) Some.

(** What a replacement sees: the matched text and the groups. *)
Record found : Type := Found {
  matched : str;
  groups : list (nat * str)
}.

(** [$n] in a replacement string: the group, or nothing when it did
    not take part in the match. *)
Definition group (n : nat) (m : found) : str :=
  match capture_of n (groups m) with Some w => w | None => [] end.

(** [String.prototype.replace] with a [g] pattern: leftmost matches,
    left to right; after an empty match the scan moves on by one code
    unit. *)
Fixpoint replace_from (fuel : nat) (ml : bool) (r : regex)
    (f : found -> str) (prev : option ascii) (s : str) : str :=
  match fuel with
  | 0 => s
  | S fuel' =>
      match match_at ml r prev s with
      | Some e =>
          f (Found (firstn (length s - length (rest e)) s) (caps e)) ++
          (if length (rest e) <? length s
           then replace_from fuel' ml r f (before e) (rest e)
           else match s with
                | [] => []
                | c :: t => c :: replace_from fuel' ml r f (Some c) t
                end)
      | None =>
          match s with
          | [] => []
          | c :: t => c :: replace_from fuel' ml r f (Some c) t
          end
      end
  end.

Definition replace_all (ml : bool) (r : regex) (f : found -> str) (s : str)
    : str :=
  replace_from (S (length s)) ml r f None s.

(** [String.prototype.replace] with a pattern without the [g] flag:
    the leftmost match only. *)
Fixpoint replace_first (ml : bool) (r : regex) (f : found -> str)
    (prev : option ascii) (s : str) : str :=
  match match_at ml r prev s with
  | Some e =>
      f (Found (firstn (length s - length (rest e)) s) (caps e)) ++ rest e
  | None =>
      match s with
      | [] => []
      | c :: t => c :: replace_first ml r f (Some c) t
      end
  end.

(** ** The markdown renderer ([DocumentationSystem.renderMarkdown]) *)

(** [escapeHtml] of [highlightCode]: the text is stored in a detached
    element through [textContent] and read back through [innerHTML],
    which serialises a text node with these four replacements. *)
Definition escape_char (c : ascii) : str :=
  if is_char "&" c then "&amp;"
  else if is_char "<" c then "&lt;"
  else if is_char ">" c then "&gt;"
  else if code c =? 160 then "&nbsp;"
  else [c].

Definition escapeHtml (text : str) : str := flat_map escape_char text.

Definition words (l : list str) : regex := alts (map Lit l).

Definition lua_keywords : list str :=
  ["local" : str; "function" : str; "end" : str; "if" : str; "then" : str;
   "else" : str; "elseif" : str; "while" : str; "for" : str; "do" : str;
   "repeat" : str; "until" : str; "break" : str; "return" : str;
   "and" : str; "or" : str; "not" : str; "true" : str; "false" : str;
   "nil" : str].

Definition js_keywords : list str :=
  ["function" : str; "const" : str; "let" : str; "var" : str; "if" : str;
   "else" : str; "for" : str; "while" : str; "do" : str; "switch" : str;
   "case" : str; "break" : str; "continue" : str; "return" : str;
   "try" : str; "catch" : str; "finally" : str; "class" : str;
   "extends" : str; "import" : str; "export" : str; "default" : str;
   "async" : str; "await" : str; "true" : str; "false" : str; "null" : str;
   "undefined" : str].

(** [/\b(k1|k2|...)\b/g] *)
Definition keyword_re (l : list str) : regex :=
  cat [WordBoundary; Group 1 (words l); WordBoundary].

(** [/([Q'])((?:\\.|(?!\1)[^\\])*?)\1/g] where Q is the double quote,
    and with the backtick as a third quote for JavaScript. *)
Definition string_re (quotes : list ascii) : regex :=
  cat [Group 1 (Class (fun c => existsb (fun q => is_char q c) quotes));
       Group 2 (Star false
                  (Alt (Seq (Chr "\") (Class dot))
                       (Seq (NotFollowedBy (BackRef 1))
                            (Class (none_of ["\"%char])))));
       BackRef 1].

(** [/(--.*$)/gm] *)
Definition lua_comment_re : regex :=
  Group 1 (cat [Lit "--"; Star true (Class dot); LineEnd]).

(** [/(\/\/.*$|\/\*[\s\S]*?\*\/)/gm] *)
Definition js_comment_re : regex :=
  Group 1 (Alt (cat [Lit "//"; Star true (Class dot); LineEnd])
               (cat [Lit "/*"; Star false (Class any_char); Lit "*/"])).

(** [/\b\d+\.?\d*\b/g] *)
Definition number_re : regex :=
  cat [WordBoundary; Plus (Class is_digit); Maybe (Chr "."%char);
       Star true (Class is_digit); WordBoundary].

Definition span (cls body : str) : str :=
  "<span class=" ++ Q ++ cls ++ Q ++ ">" ++ body ++ "</span>".

(** The replacement of the number pattern in [highlightCode] (lines
    1078-1081 and 1091-1094) and of the first list pattern in
    [renderMarkdown] (lines 1034-1037) is written in the file as a
    literal between single quotes that runs over four lines.  No
    JavaScript parser takes such a literal, so as committed the two
    methods have no behaviour where these replacements are reached.
    The stages below need a value in that place; it is the text between
    the tags of the literal, line breaks included.  Nothing that is
    stated about [renderMarkdown] or [highlightCode] further down rests
    on it: the hypotheses of each statement keep the list pattern and
    the number pattern from matching. *)
Definition stray_text : str :=
"        } else {
            content.scrollTop = 0;
            window.scrollTo({ top: 0, behavior: 'smooth' });
        }".

Definition highlightCode (code language : str) : str :=
  let escaped := escapeHtml code in
  if str_eqb language "lua" then
    replace_all false number_re (fun _ => span "number" stray_text)
      (replace_all true lua_comment_re (fun m => span "comment" (group 1 m))
        (replace_all false (string_re [chr 34; "'"%char])
           (fun m => span "string" (group 1 m ++ group 2 m ++ group 1 m))
          (replace_all false (keyword_re lua_keywords)
             (fun m => span "keyword" (group 1 m)) escaped)))
  else if str_eqb language "javascript" || str_eqb language "js" then
    replace_all false number_re (fun _ => span "number" stray_text)
      (replace_all true js_comment_re (fun m => span "comment" (group 1 m))
        (replace_all false (string_re [chr 34; "'"%char; "`"%char])
           (fun m => span "string" (group 1 m ++ group 2 m ++ group 1 m))
          (replace_all false (keyword_re js_keywords)
             (fun m => span "keyword" (group 1 m)) escaped)))
  else escaped.

(** The patterns of [renderMarkdown], in the order they are applied. *)

(** [/```(\w+)?\n([\s\S]*?)```/g] *)
Definition fence_re : regex :=
  cat [Lit "```"; Maybe (Group 1 (Plus (Class is_word))); Chr LF;
       Group 2 (Star false (Class any_char)); Lit "```"].

(** [/`([^`]+)`/g] *)
Definition inline_code_re : regex :=
  cat [Chr "`"; Group 1 (Plus (Class (none_of ["`"%char]))); Chr "`"].

(** [/\*\*([^*]+)\*\*/g] *)
Definition bold_re : regex :=
  cat [Lit "**"; Group 1 (Plus (Class (none_of ["*"%char]))); Lit "**"].

(** [/\*([^*]+)\*/g] *)
Definition italic_re : regex :=
  cat [Chr "*"; Group 1 (Plus (Class (none_of ["*"%char]))); Chr "*"].

(** [/^### (.+)$/gm], [/^## (.+)$/gm], [/^# (.+)$/gm], [/^- (.+)$/gm]
    and [/^> (.+)$/gm]: a marker at the start of a line and the rest of
    the line. *)
Definition line_re (marker : str) : regex :=
  cat [LineStart; Lit marker; Group 1 (Plus (Class dot)); LineEnd].

(** [/\[([^\]]+)\]\(([^)]+)\)/g] *)
Definition link_re : regex :=
  cat [Chr "["; Group 1 (Plus (Class (none_of ["]"%char]))); Lit "](";
       Group 2 (Plus (Class (none_of [")"%char]))); Chr ")"].

(** [/(G)+/gs] with [<li>.*<\/li>\s*] for G. *)
Definition list_run_re : regex :=
  Plus (Group 1 (cat [Lit "<li>"; Star true (Class any_char); Lit "</li>";
                      Star true (Class is_space)])).

(** [/^\d+\. (.+)$/gm] *)
Definition ordered_re : regex :=
  cat [LineStart; Plus (Class is_digit); Lit ". ";
       Group 1 (Plus (Class dot)); LineEnd].

(** [/^---$/gm] *)
Definition rule_re : regex := cat [LineStart; Lit "---"; LineEnd].

(** [/\n\n/g] and [/\n/g] *)
Definition blank_line_re : regex := Lit [LF; LF].
Definition newline_re : regex := Chr LF.

Definition tag (name body : str) : str :=
  "<" ++ name ++ ">" ++ body ++ "</" ++ name ++ ">".

Definition code_block (language highlightedCode : str) : str :=
"
                    <div class=" ++ Q ++ "code-block" ++ Q ++ " data-language=" ++ Q ++
language ++
Q ++ ">
                        <div class=" ++ Q ++ "code-header" ++ Q ++ ">
                            <span class=" ++ Q ++ "code-lang" ++ Q ++ ">" ++
language ++
"</span>
                        </div>
                        <pre><code class=" ++ Q ++ "language-" ++
language ++
Q ++ ">" ++
highlightedCode ++
"</code></pre>
                    </div>
                ".

(** The callback of the first replacement: [lang || 'text'], then the
    trimmed code through [highlightCode]. *)
Definition render_fence (m : found) : str :=
  let language :=
    match capture_of 1 (groups m) with
    | Some lang => if truthy lang then lang else "text"
    | None => "text"
    end in
  code_block language (highlightCode (trim (group 2 m)) language).

Definition anchor (m : found) : str :=
  "<a href=" ++ Q ++ group 2 m ++ Q ++ " target=" ++ Q ++ "_blank" ++ Q ++
  " rel=" ++ Q ++ "noopener noreferrer" ++ Q ++ ">" ++ group 1 m ++ "</a>".

(** The callback of the second list replacement. *)
Definition wrap_ordered (m : found) : str :=
  if includes (matched m) "<ul>" then matched m
  else "<ol>" ++ matched m ++ "</ol>".

Definition markdown_stages : list (str -> str) :=
  [ replace_all false fence_re render_fence;
    replace_all false inline_code_re
      (fun m => "<code class=" ++ Q ++ "inline-code" ++ Q ++ ">" ++
                group 1 m ++ "</code>");
    replace_all false bold_re (fun m => tag "strong" (group 1 m));
    replace_all false italic_re (fun m => tag "em" (group 1 m));
    replace_all true (line_re "### ") (fun m => tag "h4" (group 1 m));
    replace_all true (line_re "## ") (fun m => tag "h3" (group 1 m));
    replace_all true (line_re "# ") (fun m => tag "h2" (group 1 m));
    replace_all false link_re anchor;
    replace_all true (line_re "- ") (fun m => tag "li" (group 1 m));
    replace_all false list_run_re (fun _ => tag "ul" stray_text);
    replace_all true ordered_re (fun m => tag "li" (group 1 m));
    replace_all false list_run_re wrap_ordered;
    replace_all true (line_re "> ") (fun m => tag "blockquote" (group 1 m));
    replace_all true rule_re (fun _ => "<hr>" : str);
    replace_all false blank_line_re (fun _ => "</p><p>" : str);
    replace_all false newline_re (fun _ => "<br>" : str) ].

Definition pipeline (stages : list (str -> str)) (s : str) : str :=
  fold_left (fun acc stage => stage acc) stages s.

(** The last step: a paragraph around what does not open with an
    angle bracket. *)
Definition wrap_paragraph (html : str) : str :=
  if negb (startsWith "<" html) then "<p>" ++ html ++ "</p>" else html.

Definition renderMarkdown (content : str) : str :=
  if negb (truthy content) then []
  else wrap_paragraph (pipeline markdown_stages content).

(** ** The document tree *)

Record Subsection : Type := {
  subsection_title : str;
  subsection_content : str
}.

(** A section of [docs.json]; [subsections] may be missing. *)
Record DocSection : Type := {
  id : str;
  title : str;
  content : str;
  subsections : option (list Subsection)
}.

Record Docs : Type := {
  sections : list DocSection
}.

(** ** [DocumentationSystem.getSampleDocs] *)

Definition sample_0_0 : Subsection :=
  Build_Subsection
    ("Installation")
    ("To install WebhookLib in your Roblox project:

```lua
-- Method 1: Direct require
local WebhookLib = require(game.ServerScriptService.WebhookLib)

-- Method 2: Using a module ID
local WebhookLib = require(1234567890) -- Replace with actual module ID
```

**Note:** Make sure HTTP requests are enabled in your game settings.").

Definition sample_0_1 : Subsection :=
  Build_Subsection
    ("Quick Start")
    ("Here's a simple example to get you started:

```lua
local WebhookLib = require(game.ServerScriptService.WebhookLib)

-- Create a new webhook
local webhook = WebhookLib.new(" ++ Q ++ "YOUR_WEBHOOK_URL" ++ Q ++ ")

-- Send a simple message
webhook:Send(" ++ Q ++ "Hello, Discord!" ++ Q ++ ")

-- Send a rich embed
webhook:SendEmbed({
    title = " ++ Q ++ "Game Event" ++ Q ++ ",
    description = " ++ Q ++ "A player joined the game!" ++ Q ++ ",
    color = 0x00ff00,
    fields = {
        {
            name = " ++ Q ++ "Player" ++ Q ++ ",
            value = " ++ Q ++ "ExamplePlayer" ++ Q ++ ",
            inline = true
        }
    }
})
```").

Definition sample_0 : DocSection :=
  Build_DocSection ("getting-started") ("Getting Started")
    ("Welcome to WebhookLib documentation. This library provides production-quality Discord webhook functionality for Roblox.")
    (Some [sample_0_0; sample_0_1]).

Definition sample_1_0 : Subsection :=
  Build_Subsection
    ("Webhook Class")
    ("The main Webhook class provides all functionality for sending Discord webhooks.

## Constructor

```lua
local webhook = WebhookLib.new(url, options)
```

**Parameters:**
- `url` (string): The Discord webhook URL
- `options` (table, optional): Configuration options

**Options:**
- `username` (string): Override webhook username
- `avatar_url` (string): Override webhook avatar
- `rate_limit` (number): Rate limit in seconds (default: 1)").

Definition sample_1_1 : Subsection :=
  Build_Subsection
    ("Methods")
    ("## Send(content, username, avatar_url)

Sends a simple text message.

```lua
webhook:Send(" ++ Q ++ "Hello World!" ++ Q ++ ")
webhook:Send(" ++ Q ++ "Custom message" ++ Q ++ ", " ++ Q ++ "CustomBot" ++ Q ++ ", " ++ Q ++ "https://example.com/avatar.png" ++ Q ++ ")
```

## SendEmbed(embed, content, username, avatar_url)

Sends a rich embed message.

```lua
webhook:SendEmbed({
    title = " ++ Q ++ "Embed Title" ++ Q ++ ",
    description = " ++ Q ++ "Embed description" ++ Q ++ ",
    color = 0x0099ff,
    timestamp = os.date(" ++ Q ++ "!%Y-%m-%dT%H:%M:%SZ" ++ Q ++ "),
    footer = {
        text = " ++ Q ++ "Footer text" ++ Q ++ ",
        icon_url = " ++ Q ++ "https://example.com/footer.png" ++ Q ++ "
    },
    fields = {
        {name = " ++ Q ++ "Field 1" ++ Q ++ ", value = " ++ Q ++ "Value 1" ++ Q ++ ", inline = true},
        {name = " ++ Q ++ "Field 2" ++ Q ++ ", value = " ++ Q ++ "Value 2" ++ Q ++ ", inline = true}
    }
})
```").

Definition sample_1 : DocSection :=
  Build_DocSection ("api") ("API Reference")
    ("Complete API reference for all WebhookLib functions and methods.")
    (Some [sample_1_0; sample_1_1]).

Definition sample_2_0 : Subsection :=
  Build_Subsection
    ("Player Events")
    ("Track player join/leave events:

```lua
local WebhookLib = require(game.ServerScriptService.WebhookLib)
local webhook = WebhookLib.new(" ++ Q ++ "YOUR_WEBHOOK_URL" ++ Q ++ ")

game.Players.PlayerAdded:Connect(function(player)
    webhook:SendEmbed({
        title = " ++ Q ++ "Player Joined" ++ Q ++ ",
        description = player.Name .. " ++ Q ++ " has joined the game!" ++ Q ++ ",
        color = 0x00ff00,
        timestamp = os.date(" ++ Q ++ "!%Y-%m-%dT%H:%M:%SZ" ++ Q ++ "),
        thumbnail = {
            url = " ++ Q ++ "https://www.roblox.com/headshot-thumbnail/image?userId=" ++ Q ++ " .. player.UserId .. " ++ Q ++ "&width=150&height=150&format=png" ++ Q ++ "
        }
    })
end)

game.Players.PlayerRemoving:Connect(function(player)
    webhook:SendEmbed({
        title = " ++ Q ++ "Player Left" ++ Q ++ ",
        description = player.Name .. " ++ Q ++ " has left the game." ++ Q ++ ",
        color = 0xff0000,
        timestamp = os.date(" ++ Q ++ "!%Y-%m-%dT%H:%M:%SZ" ++ Q ++ ")
    })
end)
```").

Definition sample_2_1 : Subsection :=
  Build_Subsection
    ("Error Logging")
    ("Log errors and important events:

```lua
local function logError(errorMessage, scriptName)
    webhook:SendEmbed({
        title = " ++ Q ++ warning_sign ++ " Error Occurred" ++ Q ++ ",
        description = " ++ Q ++ "An error occurred in the game." ++ Q ++ ",
        color = 0xff4444,
        fields = {
            {
                name = " ++ Q ++ "Error Message" ++ Q ++ ",
                value = " ++ Q ++ "```" ++ Q ++ " .. errorMessage .. " ++ Q ++ "```" ++ Q ++ ",
                inline = false
            },
            {
                name = " ++ Q ++ "Script" ++ Q ++ ",
                value = scriptName or " ++ Q ++ "Unknown" ++ Q ++ ",
                inline = true
            },
            {
                name = " ++ Q ++ "Time" ++ Q ++ ",
                value = os.date(" ++ Q ++ "%Y-%m-%d %H:%M:%S" ++ Q ++ "),
                inline = true
            }
        },
        timestamp = os.date(" ++ Q ++ "!%Y-%m-%dT%H:%M:%SZ" ++ Q ++ ")
    })
end

-- Usage
pcall(function()
    -- Your code here
    someRiskyFunction()
end) or logError(" ++ Q ++ "Failed to execute risky function" ++ Q ++ ", script.Name)
```").

Definition sample_2 : DocSection :=
  Build_DocSection ("examples") ("Examples")
    ("Practical examples and use cases for WebhookLib.")
    (Some [sample_2_0; sample_2_1]).

Definition getSampleDocs : Docs := Build_Docs [sample_0; sample_1; sample_2].

(** ** The search index *)

Inductive record_type : Type :=
| section_type       (* 'section' *)
| subsection_type.   (* 'subsection' *)

(** An entry of [this.searchIndex]; only subsection entries carry
    [sectionId]. *)
Record SearchRecord : Type := {
  type : record_type;
  sectionId : option str;
  record_id : str;
  record_title : str;
  record_content : str;
  searchText : str
}.

(** [/[^a-z0-9]+/g] *)
Definition not_alnum_run_re : regex :=
  Plus (Class (fun c => negb (is_lower c || is_digit c))).

(** [/(^-|-$)/g] *)
Definition edge_hyphen_re : regex :=
  Group 1 (Alt (Seq LineStart (Chr "-")) (Seq (Chr "-") LineEnd)).

Definition createSubsectionId (title : str) : str :=
  replace_all false edge_hyphen_re (fun _ => [])
    (replace_all false not_alnum_run_re (fun _ => "-" : str)
       (toLowerCase title)).

Definition section_record (section : DocSection) : SearchRecord :=
  {| type := section_type;
     sectionId := None;
     record_id := id section;
     record_title := title section;
     record_content := content section;
     searchText := toLowerCase (title section ++ " " ++ content section) |}.

Definition subsection_record (section : DocSection) (subsection : Subsection)
    : SearchRecord :=
  {| type := subsection_type;
     sectionId := Some (id section);
     record_id := createSubsectionId (subsection_title subsection);
     record_title := subsection_title subsection;
     record_content := subsection_content subsection;
     searchText := toLowerCase (subsection_title subsection ++ " " ++
                                subsection_content subsection) |}.

Definition subsections_of (section : DocSection) : list Subsection :=
  match subsections section with
  | Some l => l
  | None => []
  end.

(** [Array.prototype.push] *)
Definition push {A : Type} (l : list A) (x : A) : list A := l ++ [x].

(** The two nested [forEach] of [buildSearchIndex], starting from the
    emptied index. *)
Definition index_of (d : Docs) : list SearchRecord :=
  fold_left
    (fun index section =>
       fold_left
         (fun index subsection =>
            push index (subsection_record section subsection))
         (subsections_of section)
         (push index (section_record section)))
    (sections d) [].

(** ** The page

    What the script reads and writes in the browser.  The navigation
    elements are the ones the browser builds from the markup of
    [buildNavigation]; the rest of the page is not known to the script
    and is left out. *)

Record NavItem : Type := {
  data_section : str;
  data_subsection : option str;
  text : str;
  display : str;              (* style.display *)
  search_highlight : bool;    (* class search-highlight *)
  active : bool               (* class active *)
}.

Record NavSection : Type := {
  section_title : NavItem;    (* .nav-item.nav-section-title *)
  nav_items : list NavItem;   (* .nav-item.nav-subsection *)
  section_display : str;
  search_filtered : bool;     (* class search-filtered *)
  expanded : bool             (* class expanded *)
}.

(** The element [.search-empty-state]. *)
Record EmptyState : Type := {
  empty_html : str;
  empty_display : str
}.

(** The element [#sidebarNav]. *)
Record NavPanel : Type := {
  nav_html : str;
  nav_sections : list NavSection;
  empty_state : option EmptyState
}.

Inductive Scroll : Type :=
| ScrollTop                                   (* content and window to 0 *)
| ScrollToAnchor (target : str) (offset : nat)  (* next animation frame *)
| ScrollNavIntoView.

Record Page : Type := {
  location_hash : str;           (* window.location.hash *)
  history : list str;            (* urls given to pushState, latest first *)
  innerWidth : nat;              (* window.innerWidth *)
  docsContent : option str;      (* innerHTML of #docsContent, if present *)
  sidebarNav : option NavPanel;
  scrolls : list Scroll
}.

(** The fields of the [DocumentationSystem] object. *)
Record System : Type := {
  docs : option Docs;
  currentSection : str;
  searchIndex : list SearchRecord;
  isLoading : bool
}.

Record World : Type := {
  this : System;
  page : Page
}.

Definition set_docs (d : option Docs) (w : World) : World :=
  {| this := {| docs := d; currentSection := currentSection (this w);
                searchIndex := searchIndex (this w);
                isLoading := isLoading (this w) |};
     page := page w |}.

Definition set_currentSection (s : str) (w : World) : World :=
  {| this := {| docs := docs (this w); currentSection := s;
                searchIndex := searchIndex (this w);
                isLoading := isLoading (this w) |};
     page := page w |}.

Definition set_searchIndex (l : list SearchRecord) (w : World) : World :=
  {| this := {| docs := docs (this w);
                currentSection := currentSection (this w);
                searchIndex := l; isLoading := isLoading (this w) |};
     page := page w |}.

Definition set_isLoading (b : bool) (w : World) : World :=
  {| this := {| docs := docs (this w);
                currentSection := currentSection (this w);
                searchIndex := searchIndex (this w); isLoading := b |};
     page := page w |}.

Definition set_docsContent (h : option str) (w : World) : World :=
  {| this := this w;
     page := {| location_hash := location_hash (page w);
                history := history (page w);
                innerWidth := innerWidth (page w);
                docsContent := h;
                sidebarNav := sidebarNav (page w);
                scrolls := scrolls (page w) |} |}.

Definition set_sidebarNav (n : option NavPanel) (w : World) : World :=
  {| this := this w;
     page := {| location_hash := location_hash (page w);
                history := history (page w);
                innerWidth := innerWidth (page w);
                docsContent := docsContent (page w);
                sidebarNav := n;
                scrolls := scrolls (page w) |} |}.

Definition add_scroll (s : Scroll) (w : World) : World :=
  {| this := this w;
     page := {| location_hash := location_hash (page w);
                history := history (page w);
                innerWidth := innerWidth (page w);
                docsContent := docsContent (page w);
                sidebarNav := sidebarNav (page w);
                scrolls := s :: scrolls (page w) |} |}.

(** The code units a URL keeps as written in its fragment: printable
    ASCII but the double quote, the angle brackets and the backtick.
    The browser percent-encodes every other code unit of a fragment,
    and the script never decodes one. *)
Definition fragment_char (c : ascii) : bool :=
  between 33 126 c &&
  negb (is_char (chr 34) c || is_char "<" c || is_char ">" c ||
        is_char "`" c).

Definition fragment_safe (s : str) : bool := forallb fragment_char s.

(** [history.pushState({}, '', url)] with a url that is only a
    fragment.  The fragment is kept as written, which is what the
    browser does with a [fragment_safe] one; what is stated about a
    fragment that is read back carries that as a hypothesis.
    [location.hash] is empty when the fragment is. *)
Definition pushState (url : str) (w : World) : World :=
  {| this := this w;
     page := {| location_hash := if truthy (tl url) then url else [];
                history := url :: history (page w);
                innerWidth := innerWidth (page w);
                docsContent := docsContent (page w);
                sidebarNav := sidebarNav (page w);
                scrolls := scrolls (page w) |} |}.

(** [MobileUtils.isMobile] *)
Definition isMobile (w : World) : bool := innerWidth (page w) <=? 768.

(** A method either returns or throws. *)
Inductive outcome (A : Type) : Type :=
| Done (a : A)
| Thrown (error : str).

Arguments Done {A} a.
Arguments Thrown {A} error.

Definition bind {A B : Type} (o : outcome A) (f : A -> outcome B)
    : outcome B :=
  match o with
  | Done a => f a
  | Thrown e => Thrown e
  end.

Notation "x <- o ;; k" := (bind o (fun x => k))
  (at level 61, o at next level, right associativity).

(** ** Loading the document *)

(** What [fetch('docs.json')] and [response.json()] come to: a network
    error, or a response whose body does not parse or parses to a
    document.  A body that parses to JSON of another shape ([null], an
    object without [sections]) is not represented: [Docs] is the shape
    the script expects, and what is stated about [init] is about these
    outcomes only. *)
Inductive FetchResult : Type :=
| NetworkError
| Response (ok : bool) (body : option Docs).

(** [DocumentationSystem.loadDocs]: any failure of the inner [try]
    is caught and replaced by the sample document. *)
Definition loadDocs (f : FetchResult) (w : World) : World :=
  let docs :=
    match f with
    | NetworkError => getSampleDocs
    | Response false _ => getSampleDocs
    | Response true None => getSampleDocs
    | Response true (Some d) => d
    end in
  set_docs (Some docs) w.

Definition buildSearchIndex (w : World) : World :=
  match docs (this w) with
  | None => w
  | Some d => set_searchIndex (index_of d) w
  end.

(** ** Navigation *)

Definition nav_subsection_html (section : DocSection) (subsection : Subsection)
    : str :=
  let subsectionId := createSubsectionId (subsection_title subsection) in
"<div class=" ++ Q ++ "nav-item nav-subsection" ++ Q ++ " data-section=" ++ Q ++
id section ++
Q ++ " data-subsection=" ++ Q ++
subsectionId ++
Q ++ ">" ++
subsection_title subsection ++
"</div>".

Definition nav_section_html (section : DocSection) : str :=
  let subsectionHTML :=
    match subsections section with
    | Some l => concat (map (nav_subsection_html section) l)
    | None => []
    end in
"
                <div class=" ++ Q ++ "nav-section" ++ Q ++ ">
                    " ++ "<div class=" ++ Q ++ "nav-item nav-section-title" ++ Q ++ " data-section=" ++ Q ++
id section ++
Q ++ ">" ++
title section ++
"</div>" ++ "
                    <div class=" ++ Q ++ "nav-items" ++ Q ++ ">
                        " ++
subsectionHTML ++
"
                    </div>
                </div>
            ".

(** The markup [buildNavigation] assigns to [nav.innerHTML]. *)
Definition navHTML (d : Docs) : str :=
  concat (map nav_section_html (sections d)).

(** The elements the browser builds from that markup when no id holds
    a double quote or an ampersand and no title an angle bracket or an
    ampersand.  The statements on the search and on the active entry
    are about any navigation elements, not about these. *)
Definition nav_item (sid : str) (sub : option str) (label : str) : NavItem :=
  {| data_section := sid; data_subsection := sub; text := label;
     display := []; search_highlight := false; active := false |}.

Definition nav_section (section : DocSection) : NavSection :=
  {| section_title := nav_item (id section) None (title section);
     nav_items :=
       map (fun subsection =>
              nav_item (id section)
                (Some (createSubsectionId (subsection_title subsection)))
                (subsection_title subsection))
           (subsections_of section);
     section_display := [];
     search_filtered := false;
     expanded := false |}.

Definition buildNavigation (w : World) : World :=
  match sidebarNav (page w), docs (this w) with
  | Some _, Some d =>
      set_sidebarNav
        (Some {| nav_html := navHTML d;
                 nav_sections := map nav_section (sections d);
                 empty_state := None |}) w
  | _, _ => w
  end.

(** ** Queries on the navigation elements *)

Definition set_item_display (v : str) (highlight : bool) (it : NavItem)
    : NavItem :=
  {| data_section := data_section it; data_subsection := data_subsection it;
     text := text it; display := v; search_highlight := highlight;
     active := active it |}.

Definition show_item (it : NavItem) : NavItem :=
  {| data_section := data_section it; data_subsection := data_subsection it;
     text := text it; display := "block";
     search_highlight := search_highlight it; active := active it |}.

Definition set_active (b : bool) (it : NavItem) : NavItem :=
  {| data_section := data_section it; data_subsection := data_subsection it;
     text := text it; display := display it;
     search_highlight := search_highlight it; active := b |}.

Definition map_items (f : NavItem -> NavItem) (s : NavSection) : NavSection :=
  {| section_title := f (section_title s);
     nav_items := map f (nav_items s);
     section_display := section_display s;
     search_filtered := search_filtered s;
     expanded := expanded s |}.

Definition set_section_display (v : str) (filtered : bool) (s : NavSection)
    : NavSection :=
  {| section_title := section_title s; nav_items := nav_items s;
     section_display := v; search_filtered := filtered;
     expanded := expanded s |}.

Definition set_expanded (s : NavSection) : NavSection :=
  {| section_title := section_title s; nav_items := nav_items s;
     section_display := section_display s;
     search_filtered := search_filtered s; expanded := true |}.

Definition with_title (it : NavItem) (s : NavSection) : NavSection :=
  {| section_title := it; nav_items := nav_items s;
     section_display := section_display s;
     search_filtered := search_filtered s; expanded := expanded s |}.

Definition with_items (l : list NavItem) (s : NavSection) : NavSection :=
  {| section_title := section_title s; nav_items := l;
     section_display := section_display s;
     search_filtered := search_filtered s; expanded := expanded s |}.

Fixpoint on_first (p : NavItem -> bool) (f : NavItem -> NavItem)
    (l : list NavItem) : option (list NavItem) :=
  match l with
  | [] => None
  | x :: t =>
      if p x then Some (f x :: t)
      else option_map (cons x) (on_first p f t)
  end.

(** [document.querySelector] over the navigation: the first item in
    document order that satisfies [p] gets [f], and the [.nav-section]
    around it ([closest]) gets [g]. *)
Fixpoint query_update (p : NavItem -> bool) (f : NavItem -> NavItem)
    (g : NavSection -> NavSection) (nav : list NavSection)
    : option (list NavSection) :=
  match nav with
  | [] => None
  | s :: t =>
      if p (section_title s)
      then Some (g (with_title (f (section_title s)) s) :: t)
      else
        match on_first p f (nav_items s) with
        | Some items' => Some (g (with_items items' s) :: t)
        | None => option_map (cons s) (query_update p f g t)
        end
  end.

(** The ids are pasted into a CSS string between double quotes.  A
    double quote, a backslash, a line break or NUL in an id changes
    what the selector says, or makes [querySelector] throw; every other
    id is [selector_safe], and for those the selector compares the
    attribute with the id, as the three definitions below do. *)
Definition selector_char (c : ascii) : bool :=
  negb (is_char (chr 34) c || is_char "\" c || is_line_terminator c ||
        is_char (chr 12) c || is_char (chr 0) c).

Definition selector_safe (s : str) : bool := forallb selector_char s.

(** [[data-section=sec]:not([data-subsection])] *)
Definition section_selector (sec : str) (it : NavItem) : bool :=
  str_eqb (data_section it) sec &&
  match data_subsection it with None => true | Some _ => false end.

(** [[data-section=sec][data-subsection=sub]] *)
Definition subsection_selector (sec sub : str) (it : NavItem) : bool :=
  str_eqb (data_section it) sec &&
  match data_subsection it with Some u => str_eqb u sub | None => false end.

(** [[data-section=sec]] *)
Definition any_selector (sec : str) (it : NavItem) : bool :=
  str_eqb (data_section it) sec.

Definition nav_of (w : World) : list NavSection :=
  match sidebarNav (page w) with
  | Some n => nav_sections n
  | None => []
  end.

Definition set_nav (l : list NavSection) (w : World) : World :=
  match sidebarNav (page w) with
  | Some n =>
      set_sidebarNav
        (Some {| nav_html := nav_html n; nav_sections := l;
                 empty_state := empty_state n |}) w
  | None => w
  end.

Definition updateActiveNavItem (sectionId : str) (subsectionId : option str)
    (w : World) : World :=
  let cleared := map (map_items (set_active false)) (nav_of w) in
  let selector :=
    match subsectionId with
    | Some u => if truthy u then subsection_selector sectionId u
                else section_selector sectionId
    | None => section_selector sectionId
    end in
  match query_update selector (set_active true) set_expanded cleared with
  | Some nav' =>
      let w' := set_nav nav' w in
      if isMobile w then add_scroll ScrollNavIntoView w' else w'
  | None => set_nav cleared w
  end.

(** ** Rendering a section *)

Definition showError (message : str) (w : World) : World :=
  match docsContent (page w) with
  | Some _ =>
      set_docsContent (Some (
"
                <div class=" ++ Q ++ "error-container" ++ Q ++ ">
                    <div class=" ++ Q ++ "error-icon" ++ Q ++ ">" ++ warning_sign ++ "</div>
                    <h2>Oops! Something went wrong</h2>
                    <p class=" ++ Q ++ "error-message" ++ Q ++ ">" ++
message ++
"</p>
                    <button class=" ++ Q ++ "retry-button" ++ Q ++ " onclick=" ++ Q ++ "location.reload()" ++ Q ++ ">
                        Retry
                    </button>
                </div>
            ")) w
  | None => w
  end.

Definition loading_html : str :=
"
                <div class=" ++ Q ++ "loading-container" ++ Q ++ ">
                    <div class=" ++ Q ++ "loading-spinner" ++ Q ++ ">
                        <div class=" ++ Q ++ "spinner" ++ Q ++ "></div>
                    </div>
                    <p class=" ++ Q ++ "loading-text" ++ Q ++ ">Loading documentation...</p>
                </div>
            ".

Definition showLoadingState (w : World) : World :=
  match docsContent (page w) with
  | Some _ => set_docsContent (Some loading_html) w
  | None => w
  end.

(** [hideLoadingState]: the loading container, when it is still what
    the content shows, fades and is removed. *)
Definition hideLoadingState (w : World) : World :=
  match docsContent (page w) with
  | Some h => if str_eqb h loading_html then set_docsContent (Some []) w else w
  | None => w
  end.

Fixpoint findIndex (sid : str) (l : list DocSection) : option nat :=
  match l with
  | [] => None
  | s :: t =>
      if str_eqb (id s) sid then Some 0
      else option_map S (findIndex sid t)
  end.

Definition prev_button (prevSection : DocSection) : str :=
"
                    <button class=" ++ Q ++ "nav-button prev-button" ++ Q ++ " onclick=" ++ Q ++ "window.docsSystem.loadSection('" ++
id prevSection ++
"')" ++ Q ++ ">
                        <span class=" ++ Q ++ "nav-button-icon" ++ Q ++ ">" ++ left_arrow ++ "</span>
                        <div class=" ++ Q ++ "nav-button-text" ++ Q ++ ">
                            <small>Previous</small>
                            <span>" ++
title prevSection ++
"</span>
                        </div>
                    </button>
                ".

Definition next_button (nextSection : DocSection) : str :=
"
                    <button class=" ++ Q ++ "nav-button next-button" ++ Q ++ " onclick=" ++ Q ++ "window.docsSystem.loadSection('" ++
id nextSection ++
"')" ++ Q ++ ">
                        <div class=" ++ Q ++ "nav-button-text" ++ Q ++ ">
                            <small>Next</small>
                            <span>" ++
title nextSection ++
"</span>
                        </div>
                        <span class=" ++ Q ++ "nav-button-icon" ++ Q ++ ">" ++ right_arrow ++ "</span>
                    </button>
                ".

(** [renderMobileNavigation]: [findIndex] gives -1 ([None]) when the
    current section is not in the tree, and then the first section is
    the next one. *)
Definition renderMobileNavigation (d : Docs) (current : str) : str :=
  let currentIndex := findIndex current (sections d) in
  let prevSection :=
    match currentIndex with
    | Some (S i) => nth_error (sections d) i
    | _ => None
    end in
  let nextSection :=
    match currentIndex with
    | Some i => nth_error (sections d) (S i)
    | None => nth_error (sections d) 0
    end in
"
            <div class=" ++ Q ++ "mobile-nav-buttons" ++ Q ++ ">
                " ++
match prevSection with Some p => prev_button p | None => [] end ++
"
                " ++
match nextSection with Some n => next_button n | None => [] end ++
"
            </div>
        ".

Definition section_header (section : DocSection) : str :=
"
            <div class=" ++ Q ++ "section-header" ++ Q ++ ">
                " ++ "<h1>" ++
title section ++
"</h1>" ++ "
                " ++ "<p class=" ++ Q ++ "section-description" ++ Q ++ ">" ++
content section ++
"</p>" ++ "
            </div>
        ".

Definition subsection_html (last : bool) (subsection : Subsection) : str :=
  let subsectionId := createSubsectionId (subsection_title subsection) in
"
                    <section id=" ++ Q ++
subsectionId ++
Q ++ " class=" ++ Q ++ "subsection" ++ Q ++ ">
                        " ++ "<h2>" ++
subsection_title subsection ++
"</h2>" ++ "
                        <div class=" ++ Q ++ "subsection-content" ++ Q ++ ">" ++
renderMarkdown (subsection_content subsection) ++
"</div>
                        " ++
(if last then [] else "<hr class=" ++ Q ++ "subsection-divider" ++ Q ++ ">") ++
"
                    </section>
                ".

(** The [forEach] over the subsections: every block but the last one
    ends with a divider. *)
Fixpoint subsections_html (l : list Subsection) : str :=
  match l with
  | [] => []
  | [x] => subsection_html true x
  | x :: t => subsection_html false x ++ subsections_html t
  end.

(** The markup [renderSection] assigns to the content element. *)
Definition section_html (w : World) (section : DocSection) : str :=
  section_header section ++
  subsections_html (subsections_of section) ++
  (if isMobile w then
     match docs (this w) with
     | Some d => renderMobileNavigation d (currentSection (this w))
     | None => []
     end
   else []).

(** [renderSection].  The copy buttons that [initCodeCopyButtons] then
    adds to the code blocks are not tracked. *)
Definition renderSection (section : DocSection)
    (targetSubsectionId : option str) (w : World) : World :=
  match docsContent (page w) with
  | None => w
  | Some _ =>
      let w' := set_docsContent (Some (section_html w section)) w in
      match targetSubsectionId with
      | Some target =>
          if truthy target
          then add_scroll
                 (ScrollToAnchor target (if isMobile w then 80 else 60)) w'
          else add_scroll ScrollTop w'
      | None => add_scroll ScrollTop w'
      end
  end.

(** ** The router *)

Definition getCurrentSectionFromURL (w : World) : str :=
  let hash := tl (location_hash (page w)) in
  if truthy hash then hash else "getting-started".

Definition section_url (sectionId : str) (subsectionId : option str) : str :=
  match subsectionId with
  | Some u => if truthy u then "#" ++ sectionId ++ "-" ++ u
              else "#" ++ sectionId
  | None => "#" ++ sectionId
  end.

(** [loadSection(sectionId, subsectionId = null, updateURL = true)];
    reading [this.docs.sections] throws while [this.docs] is null. *)
Definition loadSection (sectionId : str) (subsectionId : option str)
    (updateURL : bool) (w : World) : outcome World :=
  match docs (this w) with
  | None => Thrown "TypeError"
  | Some d =>
      match find (fun s => str_eqb (id s) sectionId) (sections d) with
      | None => Done (showError "Section not found." w)
      | Some section =>
          let w1 := set_currentSection sectionId w in
          let w2 := if updateURL
                    then pushState (section_url sectionId subsectionId) w1
                    else w1 in
          let w3 := renderSection section subsectionId w2 in
          Done (updateActiveNavItem sectionId subsectionId w3)
      end
  end.

(** ** Search *)

Definition record_matches (searchQuery : str) (item : SearchRecord) : bool :=
  includes (searchText item) searchQuery ||
  includes (toLowerCase (record_title item)) searchQuery.

(** The [filter] of [searchDocumentation]. *)
Definition searchResults (index : list SearchRecord) (searchQuery : str)
    : list SearchRecord :=
  filter (record_matches searchQuery) index.

Definition empty_state_html (query : str) : str :=
"
            <div class=" ++ Q ++ "empty-state-content" ++ Q ++ ">
                <p>No results found for " ++ Q ++ "<strong>" ++
query ++
"</strong>" ++ Q ++ "</p>
                <small>Try a different search term or browse the navigation.</small>
            </div>
        ".

(** [showSearchEmptyState] appends its element to [#sidebarNav] and
    throws when there is none. *)
Definition showSearchEmptyState (query : str) (w : World) : outcome World :=
  match sidebarNav (page w) with
  | None => Thrown "TypeError"
  | Some n =>
      Done (set_sidebarNav
              (Some {| nav_html := nav_html n;
                       nav_sections := nav_sections n;
                       empty_state :=
                         Some {| empty_html := empty_state_html query;
                                 empty_display := "block" |} |}) w)
  end.

Definition hideSearchEmptyState (w : World) : World :=
  match sidebarNav (page w) with
  | Some n =>
      match empty_state n with
      | Some e =>
          set_sidebarNav
            (Some {| nav_html := nav_html n;
                     nav_sections := nav_sections n;
                     empty_state :=
                       Some {| empty_html := empty_html e;
                               empty_display := "none" |} |}) w
      | None => w
      end
  | None => w
  end.

(** The empty-query branch: every section and every item is shown. *)
Definition show_all (nav : list NavSection) : list NavSection :=
  map (fun s => set_section_display "block" false
                  (map_items (set_item_display "block" false) s)) nav.

Definition hide_all (nav : list NavSection) : list NavSection :=
  map (fun s => set_section_display "none" true
                  (map_items (set_item_display "none" false) s)) nav.

(** [visibleSections.add]: a [Set] keeps the first insertion. *)
Definition set_add (x : str) (l : list str) : list str :=
  if existsb (str_eqb x) l then l else l ++ [x].

(** The first [forEach]: show the item of each result and remember
    its section. *)
Fixpoint show_results (results : list SearchRecord) (nav : list NavSection)
    (visibleSections : list str) : list NavSection * list str :=
  match results with
  | [] => (nav, visibleSections)
  | result :: more =>
      let selector :=
        match type result with
        | section_type => section_selector (record_id result)
        | subsection_type =>
            subsection_selector
              (match sectionId result with Some s => s | None => "undefined" end)
              (record_id result)
        end in
      let section_of :=
        match type result with
        | section_type => record_id result
        | subsection_type =>
            match sectionId result with Some s => s | None => "undefined" end
        end in
      match query_update selector (set_item_display "block" true)
              (fun s => s) nav with
      | Some nav' => show_results more nav' (set_add section_of visibleSections)
      | None => show_results more nav visibleSections
      end
  end.

(** The second [forEach]: show the section around the first element
    that carries the section id, and its title. *)
Fixpoint show_sections (visibleSections : list str) (nav : list NavSection)
    : outcome (list NavSection) :=
  match visibleSections with
  | [] => Done nav
  | sid :: more =>
      match query_update (any_selector sid) (fun it => it)
              (fun s => with_title (show_item (section_title s))
                          (set_section_display "block" false s)) nav with
      | Some nav' => show_sections more nav'
      | None => Thrown "TypeError"
      end
  end.

Definition searchDocumentation (query : str) (w : World) : outcome World :=
  let searchQuery := trim (toLowerCase query) in
  if negb (truthy searchQuery) then Done (set_nav (show_all (nav_of w)) w)
  else
    let results := searchResults (searchIndex (this w)) searchQuery in
    let '(shown, visibleSections) :=
      show_results results (hide_all (nav_of w)) [] in
    nav' <- show_sections visibleSections shown ;;
    let w' := set_nav nav' w in
    match results with
    | [] => showSearchEmptyState searchQuery w'
    | _ => Done (hideSearchEmptyState w')
    end.

(** ** Start-up *)

(** [init]: nothing happens on a page without [#docsContent];
    otherwise whatever the [try] block throws ends in the error
    message, and the [finally] block runs either way. *)
Definition init (f : FetchResult) (w : World) : World :=
  match docsContent (page w) with
  | None => w
  | Some _ =>
      let w1 := showLoadingState (set_isLoading true w) in
      let w2 := buildNavigation (buildSearchIndex (loadDocs f w1)) in
      let w3 :=
        match loadSection (getCurrentSectionFromURL w2) None true w2 with
        | Done w' => w'
        | Thrown _ =>
            showError "Failed to load documentation. Please refresh the page."
              w2
        end in
      hideLoadingState (set_isLoading false w3)
  end.

(** The object as the constructor leaves it, on a page that was
    opened at [hash]. *)
Definition fresh (hash : str) (width : nat) (content : option str)
    (nav : option NavPanel) : World :=
  {| this := {| docs := None; currentSection := "getting-started";
                searchIndex := []; isLoading := false |};
     page := {| location_hash := hash; history := []; innerWidth := width;
                docsContent := content; sidebarNav := nav; scrolls := [] |} |}.

(** [popstate]: back and forward. *)
Definition onPopState (w : World) : outcome World :=
  loadSection (getCurrentSectionFromURL w) None false w.

(** A click on a navigation item. *)
Definition onNavItemClick (it : NavItem) (w : World) : outcome World :=
  if truthy (data_section it)
  then loadSection (data_section it) (data_subsection it) true w
  else Done w.

(** ** ThemeManager *)

Module ThemeManager.

(** The entry ['webhooklib-theme'] of [localStorage].  Reading or
    writing it may throw (storage switched off, quota); the script
    catches both. *)
Record Storage : Type := {
  readable : bool;
  writable : bool;
  item : option str
}.

Record State : Type := {
  theme : str;
  transitionEnabled : bool;
  store : Storage;
  prefers_dark : bool;            (* matchMedia('(prefers-color-scheme: dark)') *)
  data_theme : option str;        (* attribute of the root element *)
  theme_transitions : bool;       (* class of the root element *)
  icons : list str;               (* innerHTML of each .theme-icon *)
  meta_theme_color : option str;  (* content of meta[name=theme-color] *)
  can_vibrate : bool;
  vibrations : list nat
}.

Definition getSystemTheme (prefers : bool) : str :=
  if prefers then "dark" else "light".

Definition getStoredTheme (s : Storage) : option str :=
  if readable s then item s else None.

Definition storeTheme (t : str) (s : Storage) : Storage :=
  if writable s
  then {| readable := readable s; writable := writable s; item := Some t |}
  else s.

Definition moon_icon : str :=
"<path d=" ++ Q ++ "M21 12.79A9 9 0 1 1 11.21 3 7 7 0 0 0 21 12.79z" ++ Q ++ "/>".

Definition sun_icon : str :=
"<circle cx=" ++ Q ++ "12" ++ Q ++ " cy=" ++ Q ++ "12" ++ Q ++ " r=" ++ Q ++ "5" ++ Q ++ "/>
                    <path d=" ++ Q ++ "M12 1v2M12 21v2M4.22 4.22l1.42 1.42M18.36 18.36l1.42 1.42M1 12h2M21 12h2M4.22 19.78l1.42-1.42M18.36 5.64l1.42-1.42" ++ Q ++ "/>".

Definition is_dark (t : str) : bool := str_eqb t "dark".

(** [applyTheme] with [updateThemeIcons]. *)
Definition applyTheme (t : str) (st : State) : State :=
  {| theme := theme st;
     transitionEnabled := transitionEnabled st;
     store := store st;
     prefers_dark := prefers_dark st;
     data_theme := Some t;
     theme_transitions := theme_transitions st;
     icons := map (fun _ => if is_dark t then moon_icon else sun_icon)
                  (icons st);
     meta_theme_color :=
       Some (if is_dark t then "#1a1a2e" : str else "#ffffff" : str);
     can_vibrate := can_vibrate st;
     vibrations := vibrations st |}.

Definition set_theme (t : str) (st : State) : State :=
  {| theme := t;
     transitionEnabled := transitionEnabled st;
     store := store st;
     prefers_dark := prefers_dark st;
     data_theme := data_theme st;
     theme_transitions := theme_transitions st;
     icons := icons st;
     meta_theme_color := meta_theme_color st;
     can_vibrate := can_vibrate st;
     vibrations := vibrations st |}.

Definition set_store (s : Storage) (st : State) : State :=
  {| theme := theme st;
     transitionEnabled := transitionEnabled st;
     store := s;
     prefers_dark := prefers_dark st;
     data_theme := data_theme st;
     theme_transitions := theme_transitions st;
     icons := icons st;
     meta_theme_color := meta_theme_color st;
     can_vibrate := can_vibrate st;
     vibrations := vibrations st |}.

Definition vibrate (ms : nat) (st : State) : State :=
  if can_vibrate st then
    {| theme := theme st;
       transitionEnabled := transitionEnabled st;
       store := store st;
       prefers_dark := prefers_dark st;
       data_theme := data_theme st;
       theme_transitions := theme_transitions st;
       icons := icons st;
       meta_theme_color := meta_theme_color st;
       can_vibrate := can_vibrate st;
       vibrations := ms :: vibrations st |}
  else st.

Definition toggle (st : State) : State :=
  let t : str := if is_dark (theme st) then "light" else "dark" in
  let st1 := set_theme t st in
  let st2 := applyTheme (theme st1) st1 in
  let st3 := set_store (storeTheme (theme st2) (store st2)) st2 in
  vibrate 50 st3.

(** The listener of the color-scheme media query. *)
Definition onSystemThemeChange (matches : bool) (st : State) : State :=
  match getStoredTheme (store st) with
  | Some t =>
      if truthy t then st
      else let st1 := set_theme (getSystemTheme matches) st in
           applyTheme (theme st1) st1
  | None =>
      let st1 := set_theme (getSystemTheme matches) st in
      applyTheme (theme st1) st1
  end.

(** The timer of [init], 100 ms after construction. *)
Definition onTransitionTimer (st : State) : State :=
  {| theme := theme st;
     transitionEnabled := true;
     store := store st;
     prefers_dark := prefers_dark st;
     data_theme := data_theme st;
     theme_transitions := true;
     icons := icons st;
     meta_theme_color := meta_theme_color st;
     can_vibrate := can_vibrate st;
     vibrations := vibrations st |}.

(** The constructor with [init]: the stored theme when there is one,
    the system theme otherwise. *)
Definition create (s : Storage) (prefers : bool) (page_icons : list str)
    (haptic : bool) : State :=
  let t :=
    match getStoredTheme s with
    | Some t => if truthy t then t else getSystemTheme prefers
    | None => getSystemTheme prefers
    end in
  applyTheme t
    {| theme := t; transitionEnabled := false; store := s;
       prefers_dark := prefers; data_theme := None;
       theme_transitions := false; icons := page_icons;
       meta_theme_color := None; can_vibrate := haptic; vibrations := [] |}.

(** What the listeners of [bindEvents] receive. *)
Inductive Event : Type :=
| ToggleClick                          (* click or touchend on .theme-toggle *)
| SystemThemeChange (matches : bool)
| TransitionTimer.

Definition handle (st : State) (e : Event) : State :=
  match e with
  | ToggleClick => toggle st
  | SystemThemeChange m =>
      let st' := onSystemThemeChange m st in
      {| theme := theme st';
         transitionEnabled := transitionEnabled st';
         store := store st';
         prefers_dark := m;
         data_theme := data_theme st';
         theme_transitions := theme_transitions st';
         icons := icons st';
         meta_theme_color := meta_theme_color st';
         can_vibrate := can_vibrate st';
         vibrations := vibrations st' |}
  | TransitionTimer => onTransitionTimer st
  end.

Definition run (st : State) (es : list Event) : State :=
  fold_left handle es st.

End ThemeManager.

(** ** MobileMenuManager *)

Module MobileMenuManager.

(** The element [#mobileNav]. *)
Record NavEl : Type := {
  opening : bool;
  open : bool;
  closing : bool;
  aria_hidden : option str
}.

(** The element [#mobileMenuToggle]. *)
Record ToggleEl : Type := {
  active : bool;
  aria_expanded : option str;
  aria_controls : option str
}.

(** The callbacks [toggle] hands to [setTimeout], each for 300 ms. *)
Inductive Timer : Type :=
| FocusFirstLink
| ClearTransitionClasses
| EndAnimation.

Record State : Type := {
  isOpen : bool;
  isAnimating : bool;
  touchStartY : nat;
  mobileNav : option NavEl;
  mobileToggle : option ToggleEl;
  body_overflow : str;
  first_link_focused : bool;
  can_vibrate : bool;
  vibrations : list nat;
  timers : list Timer             (* pending, oldest first *)
}.

Definition bool_toString (b : bool) : str := if b then "true" else "false".

Definition create (nav : option NavEl) (tog : option ToggleEl)
    (overflow : str) (haptic : bool) : State :=
  {| isOpen := false; isAnimating := false; touchStartY := 0;
     (* setupAccessibility *)
     mobileNav :=
       option_map (fun n => {| opening := opening n; open := open n;
                               closing := closing n;
                               aria_hidden := Some ("true" : str) |}) nav;
     mobileToggle :=
       option_map (fun t => {| active := active t;
                               aria_expanded := Some ("false" : str);
                               aria_controls := Some ("mobileNav" : str) |})
                  tog;
     body_overflow := overflow; first_link_focused := false;
     can_vibrate := haptic; vibrations := []; timers := [] |}.

Definition toggle (st : State) : State :=
  if isAnimating st then st
  else
    let isOpen' := negb (isOpen st) in
    let both :=
      match mobileNav st, mobileToggle st with
      | Some n, Some t => Some (n, t)
      | _, _ => None
      end in
    {| isOpen := isOpen';
       isAnimating := true;
       touchStartY := touchStartY st;
       mobileNav :=
         match both with
         | Some (n, _) =>
             Some (if isOpen'
                   then {| opening := true; open := true;
                           closing := closing n;
                           aria_hidden := Some (bool_toString (negb isOpen')) |}
                   else {| opening := opening n; open := false;
                           closing := true;
                           aria_hidden := Some (bool_toString (negb isOpen')) |})
         | None => mobileNav st
         end;
       mobileToggle :=
         match both with
         | Some (_, t) =>
             Some {| active := isOpen';
                     aria_expanded := Some (bool_toString isOpen');
                     aria_controls := aria_controls t |}
         | None => mobileToggle st
         end;
       body_overflow :=
         match both with
         | Some _ => if isOpen' then "hidden" else []
         | None => body_overflow st
         end;
       first_link_focused := first_link_focused st;
       can_vibrate := can_vibrate st;
       vibrations :=
         if can_vibrate st then 30 :: vibrations st else vibrations st;
       timers :=
         timers st ++
         match both with
         | Some _ => [if isOpen' then FocusFirstLink
                      else ClearTransitionClasses]
         | None => []
         end ++ [EndAnimation] |}.

Definition close (st : State) : State :=
  if negb (isOpen st) || isAnimating st then st else toggle st.

(** The oldest pending timer fires. *)
Definition fire (st : State) : State :=
  match timers st with
  | [] => st
  | t :: pending =>
      {| isOpen := isOpen st;
         isAnimating :=
           match t with EndAnimation => false | _ => isAnimating st end;
         touchStartY := touchStartY st;
         mobileNav :=
           match t with
           | ClearTransitionClasses =>
               option_map (fun n => {| opening := false; open := open n;
                                       closing := false;
                                       aria_hidden := aria_hidden n |})
                          (mobileNav st)
           | _ => mobileNav st
           end;
         mobileToggle := mobileToggle st;
         body_overflow := body_overflow st;
         first_link_focused :=
           match t with
           | FocusFirstLink => true
           | _ => first_link_focused st
           end;
         can_vibrate := can_vibrate st;
         vibrations := vibrations st;
         timers := pending |}
  end.

End MobileMenuManager.

(** ** The earlier copy of the script

    The repository holds a second, earlier copy of the script (the
    unnamed source file part_000).  Its search index, navigation markup
    and [createSubsectionId] are the ones above; what differs is
    embedded here. *)

Module Earlier.

(** [renderMarkdown] of the earlier copy. *)

Definition code_block (lang code : str) : str :=
"
                    <div class=" ++ Q ++ "code-block" ++ Q ++ ">
                        <div class=" ++ Q ++ "code-header" ++ Q ++ ">
                            <span class=" ++ Q ++ "code-lang" ++ Q ++ ">" ++
lang ++
"</span>
                            <button class=" ++ Q ++ "copy-btn" ++ Q ++ " onclick=" ++ Q ++ "copyCode(this)" ++ Q ++ ">Copy</button>
                        </div>
                        <pre><code>" ++
code ++
"</code></pre>
                    </div>
                ".

Definition render_fence (m : found) : str :=
  let lang :=
    match capture_of 1 (groups m) with
    | Some lang => if truthy lang then lang else "Code"
    | None => "Code"
    end in
  code_block lang (escapeHtml (trim (group 2 m))).

(** [/(<li>.*<\/li>)/s] *)
Definition list_items_re : regex :=
  Group 1 (cat [Lit "<li>"; Star true (Class any_char); Lit "</li>"]).

Definition markdown_stages : list (str -> str) :=
  [ replace_all false fence_re render_fence;
    replace_all false inline_code_re (fun m => tag "code" (group 1 m));
    replace_all false bold_re (fun m => tag "strong" (group 1 m));
    replace_all true (line_re "- ") (fun m => tag "li" (group 1 m));
    replace_first false list_items_re (fun m => tag "ul" (group 1 m)) None;
    replace_all false blank_line_re (fun _ => "</p><p>" : str);
    replace_all false newline_re (fun _ => "<br>" : str) ].

Definition renderMarkdown (content : str) : str :=
  pipeline markdown_stages content.

Definition showError (message : str) (w : World) : World :=
  match docsContent (page w) with
  | Some _ =>
      set_docsContent (Some (
"
                <div class=" ++ Q ++ "error-message" ++ Q ++ ">
                    <h2>Error</h2>
                    <p>" ++
message ++
"</p>
                </div>
            ")) w
  | None => w
  end.

(** [loadDocs]: no sample document here; a failed fetch shows the
    error message and leaves [this.docs] as it was.  The status of
    the response is not looked at. *)
Definition loadDocs (f : FetchResult) (w : World) : World :=
  match f with
  | Response _ (Some d) => set_docs (Some d) w
  | _ => showError "Failed to load documentation. Please refresh the page." w
  end.

Definition section_header (section : DocSection) : str :=
"
            " ++ "<h1>" ++
title section ++
"</h1>" ++ "
            " ++ "<p>" ++
content section ++
"</p>" ++ "
        ".

Definition subsection_html (subsection : Subsection) : str :=
  let subsectionId := createSubsectionId (subsection_title subsection) in
"
                    <section id=" ++ Q ++
subsectionId ++
Q ++ ">
                        " ++ "<h2>" ++
subsection_title subsection ++
"</h2>" ++ "
                        <div class=" ++ Q ++ "subsection-content" ++ Q ++ ">" ++
renderMarkdown (subsection_content subsection) ++
"</div>
                    </section>
                ".

Definition section_html (section : DocSection) : str :=
  section_header section ++
  concat (map subsection_html (subsections_of section)).

Definition renderSection (section : DocSection)
    (targetSubsectionId : option str) (w : World) : World :=
  match docsContent (page w) with
  | None => w
  | Some _ =>
      let w' := set_docsContent (Some (section_html section)) w in
      match targetSubsectionId with
      | Some target =>
          if truthy target then add_scroll (ScrollToAnchor target 0) w'
          else add_scroll ScrollTop w'
      | None => add_scroll ScrollTop w'
      end
  end.

Definition updateActiveNavItem (sectionId : str) (subsectionId : option str)
    (w : World) : World :=
  let cleared := map (map_items (set_active false)) (nav_of w) in
  let selector :=
    match subsectionId with
    | Some u => if truthy u then subsection_selector sectionId u
                else section_selector sectionId
    | None => section_selector sectionId
    end in
  match query_update selector (set_active true) (fun s => s) cleared with
  | Some nav' => set_nav nav' w
  | None => set_nav cleared w
  end.

Definition getCurrentSectionFromURL (w : World) : str :=
  let hash := tl (location_hash (page w)) in
  if truthy hash then hash else "introduction".

Definition loadSection (sectionId : str) (subsectionId : option str)
    (updateURL : bool) (w : World) : outcome World :=
  match docs (this w) with
  | None => Thrown "TypeError"
  | Some d =>
      match find (fun s => str_eqb (id s) sectionId) (sections d) with
      | None => Done (showError "Section not found." w)
      | Some section =>
          let w1 := set_currentSection sectionId w in
          let w2 := if updateURL
                    then pushState (section_url sectionId subsectionId) w1
                    else w1 in
          let w3 := renderSection section subsectionId w2 in
          Done (updateActiveNavItem sectionId subsectionId w3)
      end
  end.

(** [init]: nothing catches what [loadSection] throws. *)
Definition init (f : FetchResult) (w : World) : outcome World :=
  match docsContent (page w) with
  | None => Done w
  | Some _ =>
      let w1 := buildNavigation (buildSearchIndex (loadDocs f w)) in
      loadSection (getCurrentSectionFromURL w1) None true w1
  end.

Definition fresh (hash : str) (width : nat) (content : option str)
    (nav : option NavPanel) : World :=
  {| this := {| docs := None; currentSection := "introduction";
                searchIndex := []; isLoading := false |};
     page := {| location_hash := hash; history := []; innerWidth := width;
                docsContent := content; sidebarNav := nav; scrolls := [] |} |}.

(** The [filter] of the earlier [searchDocumentation]. *)
Definition searchResults (index : list SearchRecord) (searchQuery : str)
    : list SearchRecord :=
  filter (fun item => includes (searchText item) searchQuery) index.

Definition show_section (s : NavSection) : NavSection :=
  with_title (show_item (section_title s))
    (set_section_display "block" (search_filtered s) s).

Fixpoint show_results (results : list SearchRecord) (nav : list NavSection)
    : list NavSection :=
  match results with
  | [] => nav
  | result :: more =>
      let selector :=
        match type result with
        | section_type => section_selector (record_id result)
        | subsection_type =>
            subsection_selector
              (match sectionId result with Some s => s | None => "undefined" end)
              (record_id result)
        end in
      match query_update selector show_item show_section nav with
      | Some nav' => show_results more nav'
      | None => show_results more nav
      end
  end.

(** [.nav-item:not([style*=display: none])] within one section. *)
Definition visible_items (s : NavSection) : list NavItem :=
  filter (fun it => negb (str_eqb (display it) "none"))
         (section_title s :: nav_items s).

Definition searchDocumentation (query : str) (w : World) : World :=
  let searchQuery := trim (toLowerCase query) in
  if negb (truthy searchQuery) then
    set_nav (map (fun s => set_section_display "block" (search_filtered s)
                             (map_items show_item s)) (nav_of w)) w
  else
    let results := searchResults (searchIndex (this w)) searchQuery in
    let hidden :=
      map (map_items (fun it => set_item_display "none" (search_highlight it) it))
          (nav_of w) in
    let shown := show_results results hidden in
    set_nav
      (map (fun s =>
              set_section_display
                (match visible_items s with
                 | [] => "none" : str
                 | _ => "block" : str
                 end)
                (search_filtered s) s) shown) w.

(** [MobileMenuManager] of the earlier copy: no transition state. *)
Module MobileMenuManager.

Record State : Type := {
  isOpen : bool;
  nav_open : option bool;        (* class open of #mobileNav, if present *)
  toggle_active : option bool    (* class active of #mobileMenuToggle *)
}.

Definition toggle (st : State) : State :=
  let isOpen' := negb (isOpen st) in
  {| isOpen := isOpen';
     nav_open := option_map (fun _ => isOpen') (nav_open st);
     toggle_active := option_map (fun _ => isOpen') (toggle_active st) |}.

Definition close (st : State) : State :=
  {| isOpen := false;
     nav_open := option_map (fun _ => false) (nav_open st);
     toggle_active := option_map (fun _ => false) (toggle_active st) |}.

End MobileMenuManager.

End Earlier.

(** ** [MobileUtils.debounce] *)

Module Debounce.

Section Debounced.

Variable A : Type.       (* the arguments of a call *)
Variable wait : nat.

(** The closure variable [timeout]: the pending timer, with the time
    it is due and the arguments its [later] hands to [func]. *)
Definition Timeout : Type := option (nat * A).

(** [executedFunction(...args)] at time [now]: the pending timer is
    cleared and a new one is set. *)
Definition executedFunction (now : nat) (args : A) (timeout : Timeout)
    : Timeout :=
  Some (now + wait, args).

(** The calls of the debounced function with their times, oldest
    first, against the calls of [func] they lead to.  A timer that is
    due when a call arrives has run. *)
Fixpoint run (timeout : Timeout) (calls : list (nat * A))
    : list (nat * A) :=
  match calls with
  | [] =>
      match timeout with
      | Some later => [later]
      | None => []
      end
  | (now, args) :: more =>
      match timeout with
      | Some (due, a) =>
          if due <=? now
          then (due, a) :: run (executedFunction now args None) more
          else run (executedFunction now args timeout) more
      | None => run (executedFunction now args timeout) more
      end
  end.

Definition debounce (calls : list (nat * A)) : list (nat * A) :=
  run None calls.

End Debounced.

End Debounce.

(** ** SidebarManager *)

Module SidebarManager.

Record State : Type := {
  isOpen : bool;
  isAnimating : bool;
  touchStartX : Z;
  sidebar : option bool;                  (* class open of #sidebar *)
  overlay : option bool;                  (* class show of #sidebarOverlay *)
  toggle_expanded : option (option str);  (* aria-expanded of #mobileSidebarToggle *)
  body_overflow : str;                    (* what this object last wrote to
                                             document.body.style.overflow;
                                             the mobile menu writes it too *)
  can_vibrate : bool;
  vibrations : list nat;
  timers : nat;                           (* pending 300 ms callbacks *)
  isTouch : bool;                         (* MobileUtils.isTouch() *)
  startX : Z;                             (* variables of setupSwipeGestures *)
  startY : Z;
  moveX : Z
}.

(** The constructor; the page elements are as the document has them. *)
Definition create (sb ov : option bool) (tg : option (option str))
    (overflow : str) (haptic touch : bool) : State :=
  {| isOpen := false; isAnimating := false; touchStartX := 0%Z;
     sidebar := sb; overlay := ov; toggle_expanded := tg;
     body_overflow := overflow; can_vibrate := haptic; vibrations := [];
     timers := 0; isTouch := touch;
     startX := 0%Z; startY := 0%Z; moveX := 0%Z |}.

Definition toggle (st : State) : State :=
  if isAnimating st then st
  else
    let isOpen' := negb (isOpen st) in
    let both :=
      match sidebar st, overlay st with
      | Some _, Some _ => true
      | _, _ => false
      end in
    {| isOpen := isOpen';
       isAnimating := true;
       touchStartX := touchStartX st;
       sidebar := if both then Some isOpen' else sidebar st;
       overlay := if both then Some isOpen' else overlay st;
       toggle_expanded :=
         if both
         then option_map
                (fun _ => Some (if isOpen' then "true" : str else "false" : str))
                (toggle_expanded st)
         else toggle_expanded st;
       body_overflow :=
         if both then (if isOpen' then "hidden" else [])
         else body_overflow st;
       can_vibrate := can_vibrate st;
       vibrations :=
         if can_vibrate st then 30 :: vibrations st else vibrations st;
       timers := S (timers st);
       isTouch := isTouch st;
       startX := startX st; startY := startY st; moveX := moveX st |}.

Definition open (st : State) : State :=
  if negb (isOpen st) then toggle st else st.

Definition close (st : State) : State :=
  if isOpen st then toggle st else st.

(** A pending callback of [toggle] runs. *)
Definition fire (st : State) : State :=
  match timers st with
  | 0 => st
  | S pending =>
      {| isOpen := isOpen st; isAnimating := false;
         touchStartX := touchStartX st;
         sidebar := sidebar st; overlay := overlay st;
         toggle_expanded := toggle_expanded st;
         body_overflow := body_overflow st;
         can_vibrate := can_vibrate st; vibrations := vibrations st;
         timers := pending; isTouch := isTouch st;
         startX := startX st; startY := startY st; moveX := moveX st |}
  end.

Definition set_swipe (x y m : Z) (st : State) : State :=
  {| isOpen := isOpen st; isAnimating := isAnimating st;
     touchStartX := touchStartX st;
     sidebar := sidebar st; overlay := overlay st;
     toggle_expanded := toggle_expanded st;
     body_overflow := body_overflow st;
     can_vibrate := can_vibrate st; vibrations := vibrations st;
     timers := timers st; isTouch := isTouch st;
     startX := x; startY := y; moveX := m |}.

(** The listeners of [setupSwipeGestures]; there are none on a device
    without touch.  Coordinates are in whole pixels. *)
Definition onTouchStart (clientX clientY : Z) (st : State) : State :=
  if isTouch st then set_swipe clientX clientY (moveX st) st else st.

Definition onTouchMove (clientX clientY : Z) (st : State) : State :=
  if negb (isTouch st) then st
  else if (startX st =? 0)%Z then st
  else
    let st1 := set_swipe (startX st) (startY st) clientX st in
    let deltaX := (clientX - startX st)%Z in
    let deltaY := (clientY - startY st)%Z in
    if (Z.abs deltaY <? Z.abs deltaX)%Z then
      if (startX st <? 50)%Z && (100 <? deltaX)%Z && negb (isOpen st)
      then open st1
      else if isOpen st && (100 <? deltaX)%Z then close st1
      else st1
    else st1.

Definition onTouchEnd (st : State) : State :=
  if isTouch st then set_swipe 0%Z 0%Z 0%Z st else st.

(** What the listeners of [bindEvents] and [setupSwipeGestures]
    receive.  The two debounced listeners are named by the call the
    debounce lets through. *)
Inductive Event : Type :=
| ToggleTap                         (* on #mobileSidebarToggle, debounced *)
| OverlayClick
| NavItemClick (innerWidth : nat)
| Keydown (key : str)
| Resize (innerWidth : nat)         (* debounced *)
| TouchStart (clientX clientY : Z)
| TouchMove (clientX clientY : Z)
| TouchEnd
| TimerFires.

Definition handle (st : State) (e : Event) : State :=
  match e with
  | ToggleTap => toggle st
  | OverlayClick => close st
  | NavItemClick w => if w <=? 768 then close st else st
  | Keydown key =>
      if str_eqb key "Escape" && isOpen st then close st else st
  | Resize w => if (768 <? w) && isOpen st then close st else st
  | TouchStart x y => onTouchStart x y st
  | TouchMove x y => onTouchMove x y st
  | TouchEnd => onTouchEnd st
  | TimerFires => fire st
  end.

Definition run (st : State) (es : list Event) : State :=
  fold_left handle es st.

End SidebarManager.

(** ** The listeners of [MobileMenuManager.bindEvents] *)

Module MobileMenuEvents.

(** What [e.target.closest] finds for the selectors the listeners ask
    about. *)
Record Target : Type := {
  in_toggle : bool;     (* #mobileMenuToggle *)
  in_link : bool;       (* .mobile-nav-link *)
  in_content : bool;    (* .mobile-nav-content *)
  in_nav : bool         (* #mobileNav *)
}.

(** The manager with the variable [touchStartY] of [bindEvents]. *)
Record Listeners : Type := {
  manager : MobileMenuManager.State;
  touchStartY : Z
}.

Definition on_manager (f : MobileMenuManager.State -> MobileMenuManager.State)
    (l : Listeners) : Listeners :=
  {| manager := f (manager l); touchStartY := touchStartY l |}.

Definition set_overflow (v : str) (st : MobileMenuManager.State)
    : MobileMenuManager.State :=
  {| MobileMenuManager.isOpen := MobileMenuManager.isOpen st;
     MobileMenuManager.isAnimating := MobileMenuManager.isAnimating st;
     MobileMenuManager.touchStartY := MobileMenuManager.touchStartY st;
     MobileMenuManager.mobileNav := MobileMenuManager.mobileNav st;
     MobileMenuManager.mobileToggle := MobileMenuManager.mobileToggle st;
     MobileMenuManager.body_overflow := v;
     MobileMenuManager.first_link_focused :=
       MobileMenuManager.first_link_focused st;
     MobileMenuManager.can_vibrate := MobileMenuManager.can_vibrate st;
     MobileMenuManager.vibrations := MobileMenuManager.vibrations st;
     MobileMenuManager.timers := MobileMenuManager.timers st |}.

Inductive Event : Type :=
| ToggleHandler (target : Target)   (* handleToggle, debounced *)
| Click (target : Target)
| Keydown (key : str)
| Resize (innerWidth : nat)         (* debounced *)
| TouchStart (target : Target) (clientY : Z)
| TouchMove (target : Target) (clientY : Z)
| TimerFires.

Definition handle (l : Listeners) (e : Event) : Listeners :=
  let isOpen := MobileMenuManager.isOpen (manager l) in
  match e with
  | ToggleHandler t =>
      if in_toggle t then on_manager MobileMenuManager.toggle l else l
  | Click t =>
      if in_link t || (isOpen && negb (in_content t))
      then on_manager MobileMenuManager.close l else l
  | Keydown key =>
      if str_eqb key "Escape" && isOpen
      then on_manager MobileMenuManager.close l else l
  | Resize w =>
      if (768 <? w) && isOpen
      then on_manager
             (fun st => set_overflow [] (MobileMenuManager.close st)) l
      else l
  | TouchStart t y =>
      if isOpen && in_nav t
      then {| manager := manager l; touchStartY := y |} else l
  | TouchMove t y =>
      if isOpen && in_nav t
      then if (y - touchStartY l <? -100)%Z
           then on_manager MobileMenuManager.close l else l
      else l
  | TimerFires => on_manager MobileMenuManager.fire l
  end.

Definition run (l : Listeners) (es : list Event) : Listeners :=
  fold_left handle es l.

Definition create (nav : option MobileMenuManager.NavEl)
    (tog : option MobileMenuManager.ToggleEl) (overflow : str)
    (haptic : bool) : Listeners :=
  {| manager := MobileMenuManager.create nav tog overflow haptic;
     touchStartY := 0%Z |}.

End MobileMenuEvents.

(** ** Copying code: [copyCode], [fallbackCopyTextToClipboard],
    [showCopyFeedback] *)

Module Copy.

(** The copy button as the script touches it. *)
Record Button : Type := {
  textContent : str;
  backgroundColor : str;
  color : str;
  transform : str
}.

(** The callbacks handed to [setTimeout] for 2000 ms, each with the
    label it has kept. *)
Inductive Timer : Type :=
| RestoreAll (originalText : str)       (* of [showFeedback] *)
| RestoreColors (originalText : str).   (* of [showCopyFeedback] *)

Record State : Type := {
  button : Button;
  clipboard : option str;               (* what the last copy stored *)
  can_vibrate : bool;
  vibrations : list (list nat);
  timers : list Timer                   (* pending, oldest first *)
}.

(** [navigator.clipboard.writeText]: missing, resolving or
    rejecting. *)
Inductive ClipboardAPI : Type :=
| NoClipboard
| WriteResolves
| WriteRejects.

(** [document.execCommand('copy')]: its result, or an exception. *)
Inductive ExecCommand : Type :=
| Returns (successful : bool)
| Throws.

Definition feedback_color (success : bool) : str :=
  if success then "var(--success, #10b981)" else "var(--error, #ef4444)".

(** [showFeedback] of [copyCode]. *)
Definition showFeedback (message : str) (success : bool) (st : State)
    : State :=
  let originalText := textContent (button st) in
  {| button := {| textContent := message;
                  backgroundColor := feedback_color success;
                  color := "white";
                  transform := "scale(0.95)" |};
     clipboard := clipboard st;
     can_vibrate := can_vibrate st;
     vibrations :=
       if can_vibrate st
       then (if success then [50] else [100; 50; 100]) :: vibrations st
       else vibrations st;
     timers := timers st ++ [RestoreAll originalText] |}.

Definition showCopyFeedback (message : str) (success : bool) (st : State)
    : State :=
  let originalText := textContent (button st) in
  {| button := {| textContent := message;
                  backgroundColor := feedback_color success;
                  color := "white";
                  transform := transform (button st) |};
     clipboard := clipboard st;
     can_vibrate := can_vibrate st;
     vibrations := vibrations st;
     timers := timers st ++ [RestoreColors originalText] |}.

Definition set_clipboard (text : str) (st : State) : State :=
  {| button := button st; clipboard := Some text;
     can_vibrate := can_vibrate st; vibrations := vibrations st;
     timers := timers st |}.

(** The text area the fallback adds to the page is removed before it
    returns and is not tracked. *)
Definition fallbackCopyTextToClipboard (exec : ExecCommand) (text : str)
    (st : State) : State :=
  match exec with
  | Returns true => showCopyFeedback "Copied!" true (set_clipboard text st)
  | Returns false => showCopyFeedback "Failed" false st
  | Throws => showCopyFeedback "Failed" false st
  end.

(** [copyCode(button)] with the text of the code element. *)
Definition copyCode (api : ClipboardAPI) (exec : ExecCommand) (text : str)
    (st : State) : State :=
  match api with
  | WriteResolves => showFeedback "Copied!" true (set_clipboard text st)
  | WriteRejects => fallbackCopyTextToClipboard exec text st
  | NoClipboard => fallbackCopyTextToClipboard exec text st
  end.

(** The oldest pending timer fires. *)
Definition fire (st : State) : State :=
  match timers st with
  | [] => st
  | t :: pending =>
      {| button :=
           match t with
           | RestoreAll originalText =>
               {| textContent := originalText; backgroundColor := [];
                  color := []; transform := [] |}
           | RestoreColors originalText =>
               {| textContent := originalText; backgroundColor := [];
                  color := []; transform := transform (button st) |}
           end;
         clipboard := clipboard st;
         can_vibrate := can_vibrate st;
         vibrations := vibrations st;
         timers := pending |}
  end.

End Copy.

(** ** [DocumentationSystem.initCodeCopyButtons] *)

Module CodeBlocks.

(** What a code block holds, as far as the method looks: copy buttons
    and anything else. *)
Inductive Node : Type :=
| CopyButton (textContent onclick aria_label : str)
| Markup (html : str).

(** An element [.code-block]: its [.code-header], when it has one,
    and its other children, in document order after the header. *)
Record CodeBlock : Type := {
  code_header : option (list Node);
  children : list Node
}.

Definition is_copy_button (n : Node) : bool :=
  match n with
  | CopyButton _ _ _ => true
  | Markup _ => false
  end.

(** [block.querySelector('.copy-btn')] *)
Definition has_copy_button (block : CodeBlock) : bool :=
  match code_header block with
  | Some h => existsb is_copy_button h
  | None => false
  end || existsb is_copy_button (children block).

Definition new_button : Node :=
  CopyButton "Copy" "copyCode(this)" "Copy code to clipboard".

Definition add_copy_button (block : CodeBlock) : CodeBlock :=
  if has_copy_button block then block
  else
    match code_header block with
    | Some h =>
        {| code_header := Some (h ++ [new_button]);
           children := children block |}
    | None =>
        {| code_header :=
             Some [Markup ("<span class=" ++ Q ++ "code-lang" ++ Q ++
                           ">Code</span>"); new_button];
           children := children block |}
    end.

Definition initCodeCopyButtons (codeBlocks : list CodeBlock)
    : list CodeBlock :=
  map add_copy_button codeBlocks.

Definition copy_buttons (block : CodeBlock) : nat :=
  length (filter is_copy_button
            (match code_header block with Some h => h | None => [] end ++
             children block)).

End CodeBlocks.

(** ** The observer of [initSmoothScrolling] *)

(** [[data-subsection=sub]] *)
Definition subsection_only_selector (sub : str) (it : NavItem) : bool :=
  match data_subsection it with Some u => str_eqb u sub | None => false end.

(** An entry of the intersection observer: [isIntersecting] and the
    id of the observed element. *)
Record ObserverEntry : Type := {
  isIntersecting : bool;
  target_id : str
}.

(** The callback for one entry, once [window.docsSystem] is set. *)
Definition onIntersection (entry : ObserverEntry) (w : World) : World :=
  if isIntersecting entry && truthy (target_id entry) then
    match query_update (subsection_only_selector (target_id entry))
            (set_active true) (fun s => s)
            (map (map_items (set_active false)) (nav_of w)) with
    | Some nav' => set_nav nav' w
    | None => w
    end
  else w.

Definition observe (entries : list ObserverEntry) (w : World) : World :=
  fold_left (fun w entry => onIntersection entry w) entries w.

(** * Vocabulary of the properties *)

(** Every code unit of the model is one of the 256 listed here. *)
Definition all_chars : list ascii := map ascii_of_nat (seq 0 256).

(** [must bad r]: every match of [r] takes at least one code unit of
    the class [bad]. *)
Definition class_within (p bad : ascii -> bool) : bool :=
  forallb (fun c => implb (p c) (bad c)) all_chars.

Fixpoint must (bad : ascii -> bool) (r : regex) : bool :=
  match r with
  | Class p => class_within p bad
  | Seq a b => must bad a || must bad b
  | Alt a b => must bad a && must bad b
  | Group _ a => must bad a
  | _ => false
  end.

(** A string free of [bad] code units. *)
Definition free_of (bad : ascii -> bool) (s : str) : bool :=
  forallb (fun c => negb (bad c)) s.

(** Markdown tokens as the renderer knows them: the inline ones
    (backtick, asterisk, opening bracket) anywhere, and a block marker
    (hash, hyphen, greater-than, digit) at the start. *)
Definition inline_token (c : ascii) : bool :=
  is_char "`" c || is_char "*" c || is_char "[" c.

Definition block_marker (c : ascii) : bool :=
  is_char "#" c || is_char "-" c || is_char ">" c || is_digit c.

Definition no_markdown_tokens (s : str) : bool :=
  free_of inline_token s &&
  match s with
  | c :: _ => negb (block_marker c)
  | [] => true
  end.

Definition no_newlines (s : str) : bool := free_of is_line_terminator s.

(** [x] occurs in [s] as it is. *)
Definition occurs_in (x s : str) : Prop :=
  exists pre post, s = pre ++ x ++ post.

Definition prefix_of (x s : str) : Prop :=
  exists post, s = x ++ post.

(** The slug as the specification words it: lowercase, runs of
    non-alphanumeric characters collapsed to a single hyphen, leading
    and trailing hyphens stripped. *)
Definition is_alphanumeric (c : ascii) : bool :=
  is_lower c || is_upper c || is_digit c.

Fixpoint collapse_runs (in_run : bool) (s : str) : str :=
  match s with
  | [] => []
  | c :: t =>
      if is_alphanumeric c then c :: collapse_runs false t
      else if in_run then collapse_runs true t
      else "-"%char :: collapse_runs true t
  end.

Fixpoint strip_leading_hyphens (s : str) : str :=
  match s with
  | c :: t => if is_char "-" c then strip_leading_hyphens t else s
  | [] => []
  end.

Fixpoint strip_trailing_hyphens (s : str) : str :=
  match s with
  | [] => []
  | c :: t =>
      match strip_trailing_hyphens t with
      | [] => if is_char "-" c then [] else [c]
      | t' => c :: t'
      end
  end.

Definition slug (title : str) : str :=
  strip_trailing_hyphens
    (strip_leading_hyphens (collapse_runs false (toLowerCase title))).

Definition count_subsections (d : Docs) : nat :=
  list_sum (map (fun section => length (subsections_of section)) (sections d)).

(** The records of a document, section by section. *)
Definition records_in_order (d : Docs) : list SearchRecord :=
  flat_map (fun section =>
              section_record section ::
              map (subsection_record section) (subsections_of section))
           (sections d).

(** The entries of a document in document order: each section, then
    its subsections. *)
Definition document_entries (d : Docs)
    : list (DocSection * option Subsection) :=
  flat_map (fun section =>
              (section, None) ::
              map (fun sub => (section, Some sub)) (subsections_of section))
           (sections d).

(** [r] is the record of the entry [e]: the record of a section carries
    the id, the title and the prose of the section; the record of a
    subsection carries the id of its section, its own title and prose,
    and the slug of its title as its id. *)
Definition record_of_entry (e : DocSection * option Subsection)
    (r : SearchRecord) : Prop :=
  match e with
  | (section, None) =>
      type r = section_type /\
      sectionId r = None /\
      record_id r = id section /\
      record_title r = title section /\
      record_content r = content section /\
      searchText r = toLowerCase (title section ++ " " ++ content section)
  | (section, Some sub) =>
      type r = subsection_type /\
      sectionId r = Some (id section) /\
      record_id r = slug (subsection_title sub) /\
      record_title r = subsection_title sub /\
      record_content r = subsection_content sub /\
      searchText r =
        toLowerCase (subsection_title sub ++ " " ++ subsection_content sub)
  end.

(** The class of [not_alnum_run_re]. *)
Definition not_alnum (c : ascii) : bool := negb (is_lower c || is_digit c).

(** The class of [inline_code_re]. *)
Definition not_backtick : ascii -> bool := none_of ["`"%char].

(** Where a greedy star over one class stops. *)
Fixpoint skip_class (p : ascii -> bool) (prev : option ascii) (s : str)
    : option ascii * str :=
  match s with
  | c :: t => if p c then skip_class p (Some c) t else (prev, s)
  | [] => (prev, [])
  end.

Definition no_upper (s : str) : bool :=
  forallb (fun c => negb (is_upper c)) s.

(** One hyphen less at the end, when there is one. *)
Fixpoint drop_last_hyphen (s : str) : str :=
  match s with
  | [] => []
  | [c] => if is_char "-" c then [] else [c]
  | c :: t => c :: drop_last_hyphen t
  end.

Fixpoint no_double_hyphen (s : str) : bool :=
  match s with
  | c :: t =>
      match t with
      | c' :: _ => negb (is_char "-" c && is_char "-" c')
      | [] => true
      end && no_double_hyphen t
  | [] => true
  end.

Definition no_leading_hyphen (s : str) : bool :=
  match s with
  | c :: _ => negb (is_char "-" c)
  | [] => true
  end.

(** A page with an empty content element and an empty navigation
    panel, opened at [hash] on a desktop-wide window. *)
Definition empty_panel : NavPanel :=
  {| nav_html := []; nav_sections := []; empty_state := None |}.

Definition blank_page (hash : str) : World :=
  fresh hash 1024 (Some []) (Some empty_panel).

(** The ways the fetch of the document fails. *)
Definition fetch_failed (f : FetchResult) : bool :=
  match f with
  | NetworkError => true
  | Response false _ => true
  | Response true None => true
  | Response true (Some _) => false
  end.

(** Visibility in the navigation. *)
Definition item_visible (it : NavItem) : bool := str_eqb (display it) "block".

Definition all_visible (nav : list NavSection) : bool :=
  forallb (fun s => str_eqb (section_display s) "block" &&
                    forallb item_visible (section_title s :: nav_items s))
          nav.

(** The entries of the navigation, whatever their display state. *)
Definition entries (nav : list NavSection) : list (str * option str) :=
  flat_map (fun s => map (fun it => (data_section it, data_subsection it))
                         (section_title s :: nav_items s)) nav.

(** A theme manager whose storage refuses reads and writes. *)
Definition no_storage : ThemeManager.Storage :=
  {| ThemeManager.readable := false; ThemeManager.writable := false;
     ThemeManager.item := None |}.

Definition working_storage : ThemeManager.Storage :=
  {| ThemeManager.readable := true; ThemeManager.writable := true;
     ThemeManager.item := None |}.

(** What an explicit toggle establishes when the store works. *)
Definition pinned (st : ThemeManager.State) : Prop :=
  ThemeManager.readable (ThemeManager.store st) = true /\
  ThemeManager.writable (ThemeManager.store st) = true /\
  ThemeManager.item (ThemeManager.store st) = Some (ThemeManager.theme st) /\
  truthy (ThemeManager.theme st) = true.

(** Calls of a debounced function that follow the call at [t] with
    gaps shorter than [wait], and calls that keep at least [wait]
    between them. *)
Fixpoint burst {A : Type} (wait t : nat) (calls : list (nat * A)) : bool :=
  match calls with
  | [] => true
  | (t', _) :: more => (t <=? t') && (t' <? t + wait) && burst wait t' more
  end.

Fixpoint spaced {A : Type} (wait t : nat) (calls : list (nat * A)) : bool :=
  match calls with
  | [] => true
  | (t', _) :: more => (t + wait <=? t') && spaced wait t' more
  end.

Definition delayed {A : Type} (wait : nat) (call : nat * A) : nat * A :=
  (fst call + wait, snd call).


(** The theme as the page shows it. *)
Definition theme_shown (st : ThemeManager.State) : Prop :=
  ThemeManager.data_theme st = Some (ThemeManager.theme st) /\
  ThemeManager.meta_theme_color st =
    Some (if ThemeManager.is_dark (ThemeManager.theme st)
          then "#1a1a2e" : str else "#ffffff" : str) /\
  Forall (fun icon => icon = if ThemeManager.is_dark (ThemeManager.theme st)
                             then ThemeManager.moon_icon
                             else ThemeManager.sun_icon)
         (ThemeManager.icons st).

(** The mobile menu told to assistive technology as it is. *)
Definition menu_announced (st : MobileMenuManager.State) : Prop :=
  exists n t,
    MobileMenuManager.mobileNav st = Some n /\
    MobileMenuManager.mobileToggle st = Some t /\
    MobileMenuManager.aria_expanded t =
      Some (MobileMenuManager.bool_toString (MobileMenuManager.isOpen st)) /\
    MobileMenuManager.aria_hidden n =
      Some (MobileMenuManager.bool_toString
              (negb (MobileMenuManager.isOpen st))) /\
    MobileMenuManager.aria_controls t = Some ("mobileNav" : str).

Definition is_EndAnimation (t : MobileMenuManager.Timer) : bool :=
  match t with
  | MobileMenuManager.EndAnimation => true
  | _ => false
  end.

(** The sidebar and its overlay agree with [isOpen], and a transition
    is in progress exactly while one callback is pending. *)
Definition sidebar_shown (st : SidebarManager.State) : Prop :=
  SidebarManager.sidebar st = Some (SidebarManager.isOpen st) /\
  SidebarManager.overlay st = Some (SidebarManager.isOpen st) /\
  SidebarManager.timers st = (if SidebarManager.isAnimating st then 1 else 0).

(** What holds of the mobile menu between any two events: the
    attributes are in step with [isOpen], and a transition is in
    progress exactly while its closing timer is pending. *)
Definition menu_steady (st : MobileMenuManager.State) : Prop :=
  menu_announced st /\
  length (filter is_EndAnimation (MobileMenuManager.timers st)) =
    (if MobileMenuManager.isAnimating st then 1 else 0).

(** The entries of the navigation, section by section. *)
Definition items (nav : list NavSection) : list NavItem :=
  flat_map (fun s => section_title s :: nav_items s) nav.

(** The number of entries that carry the class [active]. *)
Definition count_active (nav : list NavSection) : nat :=
  length (filter active (items nav)).

(** Nothing of the navigation is displayed. *)
Definition all_hidden (nav : list NavSection) : bool :=
  forallb (fun s => str_eqb (section_display s) "none" &&
                    forallb (fun it => str_eqb (display it) "none")
                            (section_title s :: nav_items s))
          nav.

(** The selector [searchDocumentation] builds for a record, and the
    section id it remembers for it. *)
Definition selector_of (result : SearchRecord) : NavItem -> bool :=
  match type result with
  | section_type => section_selector (record_id result)
  | subsection_type =>
      subsection_selector
        (match sectionId result with Some s => s | None => "undefined" end)
        (record_id result)
  end.

Definition section_of (result : SearchRecord) : str :=
  match type result with
  | section_type => record_id result
  | subsection_type =>
      match sectionId result with Some s => s | None => "undefined" end
  end.

(** The ids of a record are pasted into selectors; they are safe
    when the selector says what the script means by it. *)
Definition record_safe (r : SearchRecord) : bool :=
  selector_safe (record_id r) &&
  match sectionId r with
  | Some s => selector_safe s
  | None => true
  end.

(** The section id of an entry is [sid]. *)
Definition names_section (sid : str) (e : str * option str) : bool :=
  str_eqb (fst e) sid.

(** Every section id that was remembered belongs to an entry. *)
Definition remembered (nav : list NavSection) (visibleSections : list str)
    : Prop :=
  forall sid, In sid visibleSections ->
    existsb (names_section sid) (entries nav) = true.

Definition data (it : NavItem) : str * option str :=
  (data_section it, data_subsection it).


(** The characters of a subsection id, and an id that does not end
    with a hyphen. *)
Definition slug_char (c : ascii) : bool :=
  is_lower c || is_digit c || is_char "-" c.

Fixpoint no_trailing_hyphen (s : str) : bool :=
  match s with
  | [] => true
  | c :: t =>
      match t with
      | [] => negb (is_char "-" c)
      | _ :: _ => no_trailing_hyphen t
      end
  end.

Definition well_formed_id (s : str) : bool :=
  forallb slug_char s && no_leading_hyphen s && no_trailing_hyphen s &&
  no_double_hyphen s.

(** The section id a group of the navigation stands for, and a
    navigation in which every entry of a group carries the id of its
    group and no two groups share an id. *)
Definition sid_of (s : NavSection) : str := data_section (section_title s).

Definition uniform (s : NavSection) : bool :=
  forallb (fun it => str_eqb (data_section it) (sid_of s)) (nav_items s).

Fixpoint grouped (nav : list NavSection) : bool :=
  match nav with
  | [] => true
  | s :: t =>
      uniform s &&
      negb (existsb (fun s' => str_eqb (sid_of s') (sid_of s)) t) &&
      grouped t
  end.

(** The first entry of a group that satisfies [p] gets [f]. *)
Definition first_match (p : NavItem -> bool) (f : NavItem -> NavItem)
    (s : NavSection) : NavSection :=
  if p (section_title s) then with_title (f (section_title s)) s
  else match on_first p f (nav_items s) with
       | Some l => with_items l s
       | None => s
       end.

(** The group of section [sid] gets [h]. *)
Definition in_group (sid : str) (h : NavSection -> NavSection)
    (nav : list NavSection) : list NavSection :=
  map (fun s => if str_eqb (sid_of s) sid then h s else s) nav.

(** An entry for a search result that is displayed and highlighted. *)
Definition shown_for (r : SearchRecord) (it : NavItem) : bool :=
  selector_of r it && str_eqb (display it) "block" && search_highlight it.

Definition hit_in (r : SearchRecord) (s : NavSection) : bool :=
  existsb (shown_for r) (section_title s :: nav_items s).

Definition group_visible (s : NavSection) : bool :=
  str_eqb (section_display s) "block" && negb (search_filtered s) &&
  str_eqb (display (section_title s)) "block".

Definition group_hidden (s : NavSection) : bool :=
  str_eqb (section_display s) "none" &&
  forallb (fun it => str_eqb (display it) "none")
          (section_title s :: nav_items s).

(** A selector of [searchDocumentation] read off the data attributes
    of an entry. *)
Definition selector_on (r : SearchRecord) (e : str * option str) : bool :=
  selector_of r (nav_item (fst e) (snd e) []).

(** The navigation while the results of a search are shown one by
    one: the groups are intact, every result handled so far whose
    entry exists has its section remembered and its entry displayed
    and highlighted in the group of that section, every remembered
    section is the section of a handled result, and the groups of the
    other sections are hidden. *)
Definition showing_results (nav0 : list NavSection)
    (handled : list SearchRecord) (nav : list NavSection) (vis : list str)
    : Prop :=
  entries nav = entries nav0 /\
  grouped nav = true /\
  (forall r, In r handled ->
     existsb (selector_of r) (items nav0) = true ->
     In (section_of r) vis /\
     exists s, In s nav /\ sid_of s = section_of r /\ hit_in r s = true) /\
  (forall sid, In sid vis -> exists r, In r handled /\ section_of r = sid) /\
  (forall s, In s nav ->
     (forall r, In r handled -> section_of r <> sid_of s) ->
     group_hidden s = true).

(** The navigation while the groups of the remembered sections are
    shown one by one. *)
Definition showing_sections (nav0 : list NavSection)
    (results : list SearchRecord) (shown : list str) (nav : list NavSection)
    : Prop :=
  grouped nav = true /\
  (forall r, In r results ->
     existsb (selector_of r) (items nav0) = true ->
     exists s, In s nav /\ sid_of s = section_of r /\ hit_in r s = true) /\
  (forall s, In s nav ->
     (forall r, In r results -> section_of r <> sid_of s) ->
     group_hidden s = true) /\
  (forall sid s, In sid shown -> In s nav -> sid_of s = sid ->
     group_visible s = true).

(** The code unit before the position reached after [w]. *)
Definition last_of (prev : option ascii) (w : str) : option ascii :=
  fold_left (fun _ c => Some c) w prev.

(** [ok] holds of the text at the start of every line: at the start
    of the text when [at_start] is set, and after every line
    terminator. *)
Fixpoint at_line_starts (ok : str -> bool) (at_start : bool) (s : str)
    : bool :=
  (if at_start then ok s else true) &&
  match s with
  | [] => true
  | c :: t => at_line_starts ok (is_line_terminator c) t
  end.

(** No line of the text opens with a block marker. *)
Definition opens_plain (s : str) : bool :=
  match s with
  | c :: _ => negb (block_marker c)
  | [] => true
  end.

(** A line feed becomes a line break and two line feeds a paragraph
    break, read from the left. *)
Fixpoint breaks (s : str) : str :=
  match s with
  | [] => []
  | c :: t =>
      match t with
      | c' :: t' =>
          if is_char LF c && is_char LF c' then "</p><p>" ++ breaks t'
          else (if is_char LF c then "<br>" : str else [c]) ++ breaks t
      | [] => if is_char LF c then "<br>" : str else [c]
      end
  end.

(** Lines joined by line feeds. *)
Fixpoint join_lines (lines : list str) : str :=
  match lines with
  | [] => []
  | [x] => x
  | x :: more => x ++ LF :: join_lines more
  end.

(** A line of text as a block pattern takes it: not empty and
    without line terminator. *)
Definition line_text (x : str) : bool :=
  truthy x && no_newlines x.

(** Two line feeds in a row become a paragraph break, read from the
    left. *)
Fixpoint paragraphs (s : str) : str :=
  match s with
  | [] => []
  | c :: t =>
      match t with
      | c' :: t' =>
          if is_char LF c && is_char LF c' then "</p><p>" ++ paragraphs t'
          else c :: paragraphs t
      | [] => [c]
      end
  end.

(** The position is at the start of a line. *)
Definition starts_line (prev : option ascii) : bool :=
  match prev with
  | None => true
  | Some c => is_line_terminator c
  end.

(** Lines that each open with their own marker, as text and as the
    replacement of each line. *)
Definition marked_lines (lines : list (str * str)) : str :=
  join_lines (map (fun l => fst l ++ snd l) lines).

Definition replaced_lines (f : found -> str) (lines : list (str * str))
    : str :=
  join_lines (map (fun l => f (Found (fst l ++ snd l) [(1, snd l)])) lines).

(** Pieces joined with a separator between them. *)
Fixpoint join_with (sep : str) (pieces : list str) : str :=
  match pieces with
  | [] => []
  | [x] => x
  | x :: more => x ++ sep ++ join_with sep more
  end.

(** A numbered line: the digits of its number and its text.  The text
    is a line of its own, without inline token and without a list tag
    spelled out. *)
Definition numbered_line (l : str * str) : str := (fst l ++ ". ") ++ snd l.

Definition numbered_ok (l : str * str) : bool :=
  truthy (fst l) && forallb is_digit (fst l) &&
  line_text (snd l) && free_of inline_token (snd l) &&
  negb (includes (snd l) "<li>") && negb (includes (snd l) "<ul>").

(** * Properties *)

(** ** Strings *)

Lemma is_char_refl : forall c, is_char c c = true.
Proof. intro c. unfold is_char. apply Ascii.eqb_refl. Qed.

Lemma is_char_eq : forall a c, is_char a c = true -> a = c.
Proof. intros a c H. apply Ascii.eqb_eq. exact H. Qed.

Lemma str_eqb_refl : forall s, str_eqb s s = true.
Proof.
  intro s. unfold str_eqb. destruct (list_eq_dec ascii_dec s s); congruence.
Qed.

Lemma str_eqb_eq : forall a b, str_eqb a b = true -> a = b.
Proof.
  intros a b. unfold str_eqb.
  destruct (list_eq_dec ascii_dec a b); [auto | discriminate].
Qed.

Lemma str_eqb_neq : forall a b, a <> b -> str_eqb a b = false.
Proof.
  intros a b H. unfold str_eqb.
  destruct (list_eq_dec ascii_dec a b); [contradiction | reflexivity].
Qed.

Lemma startsWith_app : forall w post, startsWith w (w ++ post) = true.
Proof.
  induction w as [|a w IH]; intro post; simpl.
  - reflexivity.
  - rewrite is_char_refl. apply IH.
Qed.

Lemma startsWith_nil : forall s, startsWith [] s = true.
Proof. destruct s; reflexivity. Qed.

Lemma includes_here : forall s w, startsWith w s = true -> includes s w = true.
Proof. intros s w H. destruct s; simpl in *; rewrite H; reflexivity. Qed.

Lemma includes_app : forall pre w post, includes (pre ++ w ++ post) w = true.
Proof.
  induction pre as [|c pre IH]; intros w post.
  - simpl app. apply includes_here. apply startsWith_app.
  - simpl. rewrite IH. apply orb_true_r.
Qed.

Lemma includes_tail : forall c t w,
  includes (c :: t) w = false -> includes t w = false.
Proof.
  intros c t w H. simpl in H. apply orb_false_iff in H. tauto.
Qed.

Lemma includes_head : forall s w,
  includes s w = false -> startsWith w s = false.
Proof.
  intros s w H. destruct s; simpl in H; apply orb_false_iff in H; tauto.
Qed.

Lemma trimStart_suffix : forall s, exists pre, s = pre ++ trimStart s.
Proof.
  induction s as [|c s [pre IH]].
  - exists []. reflexivity.
  - simpl. destruct (is_space c).
    + exists (c :: pre). simpl. f_equal. exact IH.
    + exists []. reflexivity.
Qed.

Lemma trimEnd_prefix : forall s, exists post, s = trimEnd s ++ post.
Proof.
  intro s. unfold trimEnd.
  destruct (trimStart_suffix (rev s)) as [pre H].
  exists (rev pre).
  rewrite <- rev_app_distr, <- H, rev_involutive. reflexivity.
Qed.

Lemma includes_trim : forall s, includes s (trim s) = true.
Proof.
  intro s. unfold trim.
  destruct (trimStart_suffix s) as [pre H1].
  destruct (trimEnd_prefix (trimStart s)) as [post H2].
  rewrite H1 at 1. rewrite H2 at 1. apply includes_app.
Qed.


Lemma all_chars_complete : forall c, In c all_chars.
Proof.
  intro c. unfold all_chars. rewrite <- (ascii_nat_embedding c).
  apply in_map. apply in_seq. pose proof (nat_ascii_bounded c). lia.
Qed.

(** The code units that stand for the warning sign and the arrows go
    through the operations of the script untouched. *)
Lemma stand_ins_inert :
  let s := warning_sign ++ left_arrow ++ right_arrow in
  toLowerCase s = s /\ escapeHtml s = s /\ trim s = s /\
  forallb (fun c => negb (is_space c || is_word c || is_line_terminator c))
          s = true.
Proof. vm_compute. repeat split. Qed.

(** ** The matcher *)

Section Matcher.

Variable ml : bool.

Lemma exec_cat_cons : forall a l st k,
  exec ml (cat (a :: l)) st k =
  exec ml a st (fun st' => exec ml (cat l) st' k).
Proof. intros a l st k. destruct l; reflexivity. Qed.

Lemma exec_Lit_mismatch : forall w st k,
  startsWith w (rest st) = false -> exec ml (Lit w) st k = None.
Proof.
  induction w as [|a w IH]; intros st k H.
  - rewrite startsWith_nil in H. discriminate.
  - unfold Lit. simpl map. rewrite exec_cat_cons. simpl.
    destruct (rest st) as [|c t] eqn:E; [reflexivity|].
    simpl in H. unfold Chr. destruct (is_char a c); [|reflexivity].
    simpl in H. apply IH. simpl. exact H.
Qed.

Lemma skip_word_rest : forall w st st',
  skip_word w st = Some st' -> rest st = w ++ rest st'.
Proof.
  induction w as [|a w IH]; intros st st' H; simpl in H.
  - inversion H. reflexivity.
  - destruct (rest st) as [|c t] eqn:E; [discriminate|].
    destruct (is_char a c) eqn:Ec; [|discriminate].
    apply IH in H. simpl in H. apply is_char_eq in Ec. subst c.
    simpl. f_equal. exact H.
Qed.


Lemma class_within_spec : forall p bad c,
  class_within p bad = true -> p c = true -> bad c = true.
Proof.
  intros p bad c H Hp. unfold class_within in H.
  rewrite forallb_forall in H. specialize (H c (all_chars_complete c)).
  rewrite Hp in H. exact H.
Qed.

(** A successful run hands its continuation a later position of the
    same input. *)
Lemma exec_progress : forall bad r st k res,
  exec ml r st k = Some res ->
  exists st' w, k st' = Some res /\ rest st = w ++ rest st' /\
                (must bad r = true -> existsb bad w = true).
Proof.
  intros bad r. induction r as
    [ | p | a IHa b IHb | a IHa b IHb | g a IHa | n a IHa | | | | n | a IHa ];
    intros st k res H; cbn [exec] in H.
  - exists st, []. simpl. repeat split; auto; try discriminate.
  - destruct (rest st) as [|c t] eqn:E; [discriminate|].
    destruct (p c) eqn:Ep; [|discriminate].
    exists (step c t st), [c]. simpl. repeat split; auto.
    intro Hm. rewrite (class_within_spec _ _ _ Hm Ep). reflexivity.
  - apply IHa in H. destruct H as (st1 & w1 & H1 & E1 & M1).
    apply IHb in H1. destruct H1 as (st2 & w2 & H2 & E2 & M2).
    exists st2, (w1 ++ w2). repeat split; auto.
    + rewrite E1, E2. apply app_assoc.
    + simpl. intro Hm. rewrite existsb_app.
      apply orb_true_iff in Hm. destruct Hm as [Hm|Hm].
      * rewrite (M1 Hm). reflexivity.
      * rewrite (M2 Hm). apply orb_true_r.
  - destruct (exec ml a st k) eqn:Ea.
    + inversion H; subst. apply IHa in Ea.
      destruct Ea as (st1 & w1 & H1 & E1 & M1).
      exists st1, w1. repeat split; auto.
      simpl. intro Hm. apply andb_true_iff in Hm. tauto.
    + apply IHb in H. destruct H as (st1 & w1 & H1 & E1 & M1).
      exists st1, w1. repeat split; auto.
      simpl. intro Hm. apply andb_true_iff in Hm. tauto.
  - assert (L : forall fuel st0,
              star_loop (exec ml a) g k fuel st0 = Some res ->
              exists st' w, k st' = Some res /\ rest st0 = w ++ rest st').
    { induction fuel as [|fuel IHf]; intros st0 H0; simpl in H0.
      - exists st0, []. auto.
      - assert (B : exec ml a st0 (fun st' =>
                      if length (rest st') <? length (rest st0)
                      then star_loop (exec ml a) g k fuel st' else None)
                    = Some res ->
                    exists st' w, k st' = Some res /\
                                  rest st0 = w ++ rest st').
        { intro Hb. apply IHa in Hb.
          destruct Hb as (st1 & w1 & H1 & E1 & _).
          destruct (length (rest st1) <? length (rest st0));
            [|discriminate].
          apply IHf in H1. destruct H1 as (st2 & w2 & H2 & E2).
          exists st2, (w1 ++ w2). split; auto.
          rewrite E1, E2. apply app_assoc. }
        destruct g.
        + destruct (exec ml a st0 _) eqn:Eb.
          * inversion H0; subst. apply B. reflexivity.
          * exists st0, []. auto.
        + destruct (k st0) eqn:Ek.
          * inversion H0; subst. exists st0, []. auto.
          * apply B. exact H0. }
    apply L in H. destruct H as (st' & w & H1 & E1).
    exists st', w. repeat split; auto; try discriminate.
  - apply IHa in H. destruct H as (st1 & w1 & H1 & E1 & M1).
    exists (capture n (rest st) st1), w1. repeat split; auto.
  - destruct (at_line_start ml st); [|discriminate].
    exists st, []. repeat split; auto; try discriminate.
  - destruct (at_line_end ml st); [|discriminate].
    exists st, []. repeat split; auto; try discriminate.
  - destruct (xorb _ _); [|discriminate].
    exists st, []. repeat split; auto; try discriminate.
  - destruct (capture_of n (caps st)) as [w|].
    + destruct (skip_word w st) as [st'|] eqn:Es; [|discriminate].
      exists st', w. repeat split; auto; try discriminate.
      apply skip_word_rest. exact Es.
    + exists st, []. repeat split; auto; try discriminate.
  - destruct (exec ml a st Some); [discriminate|].
    exists st, []. repeat split; auto; try discriminate.
Qed.


Lemma free_of_no_match : forall bad r prev s,
  must bad r = true -> free_of bad s = true -> match_at ml r prev s = None.
Proof.
  intros bad r prev s Hm Hf. unfold match_at.
  destruct (exec ml r (MState prev s []) Some) as [e|] eqn:E; [|reflexivity].
  apply (exec_progress bad) in E. destruct E as (st' & w & _ & Ew & M).
  simpl in Ew. specialize (M Hm). exfalso.
  unfold free_of in Hf. rewrite Ew, forallb_app in Hf.
  apply andb_true_iff in Hf. destruct Hf as [Hf _].
  apply existsb_exists in M. destruct M as (c & Hin & Hc).
  rewrite forallb_forall in Hf. specialize (Hf c Hin).
  rewrite Hc in Hf. discriminate.
Qed.

Lemma skip_word_length : forall w st st',
  skip_word w st = Some st' -> length (rest st') <= length (rest st).
Proof.
  intros w st st' H. apply skip_word_rest in H. rewrite H, length_app. lia.
Qed.

(** A run looks at its continuation only at later positions of the
    input. *)
Lemma exec_ext : forall r st k1 k2,
  (forall st', length (rest st') <= length (rest st) -> k1 st' = k2 st') ->
  exec ml r st k1 = exec ml r st k2.
Proof.
  induction r as
    [ | p | a IHa b IHb | a IHa b IHb | g a IHa | n a IHa | | | | n | a IHa ];
    intros st k1 k2 H; cbn [exec].
  - apply H. lia.
  - destruct (rest st) as [|c t] eqn:E; [reflexivity|].
    destruct (p c); [|reflexivity]. apply H. simpl. lia.
  - apply IHa. intros st' Hl. apply IHb. intros st'' Hl'. apply H. lia.
  - rewrite (IHa st k1 k2 H), (IHb st k1 k2 H). reflexivity.
  - generalize (S (length (rest st))). intro fuel.
    revert st H. induction fuel as [|fuel IHf]; intros st H; cbn [star_loop].
    + apply H. lia.
    + assert (B : exec ml a st
                (fun st' => if length (rest st') <? length (rest st)
                            then star_loop (exec ml a) g k1 fuel st'
                            else None) =
              exec ml a st
                (fun st' => if length (rest st') <? length (rest st)
                            then star_loop (exec ml a) g k2 fuel st'
                            else None)).
      { apply IHa. intros st' Hl.
        destruct (length (rest st') <? length (rest st)); [|reflexivity].
        apply IHf. intros st'' Hl'. apply H. lia. }
      rewrite B, (H st (Nat.le_refl _)). reflexivity.
  - apply IHa. intros st' Hl. apply H. exact Hl.
  - destruct (at_line_start ml st); [apply H; lia | reflexivity].
  - destruct (at_line_end ml st); [apply H; lia | reflexivity].
  - destruct (xorb _ _); [apply H; lia | reflexivity].
  - destruct (capture_of n (caps st)) as [w|]; [|apply H; lia].
    destruct (skip_word w st) as [st'|] eqn:Es; [|reflexivity].
    apply H. eapply skip_word_length. exact Es.
  - destruct (exec ml a st Some); [reflexivity | apply H; lia].
Qed.

(** The fuel of a star is never what stops it: one unit more than the
    input left makes no difference. *)
Lemma star_loop_fuel : forall a g k fuel st,
  length (rest st) < fuel ->
  star_loop (exec ml a) g k fuel st = star_loop (exec ml a) g k (S fuel) st.
Proof.
  intros a g k. induction fuel as [|fuel IH]; intros st Hl; [lia|].
  cbn [star_loop].
  assert (B : exec ml a st
            (fun st' => if length (rest st') <? length (rest st)
                        then star_loop (exec ml a) g k fuel st'
                        else None) =
          exec ml a st
            (fun st' => if length (rest st') <? length (rest st)
                        then star_loop (exec ml a) g k (S fuel) st'
                        else None)).
  { apply exec_ext. intros st' Hl'.
    destruct (length (rest st') <? length (rest st)) eqn:E; [|reflexivity].
    apply Nat.ltb_lt in E. apply IH. lia. }
  cbn [star_loop] in B. rewrite B. reflexivity.
Qed.

Lemma match_at_shorter : forall r prev s e,
  match_at ml r prev s = Some e -> length (rest e) <= length s.
Proof.
  intros r prev s e H. unfold match_at in H.
  apply (exec_progress (fun _ => false)) in H.
  destruct H as (st' & w & Hk & Hw & _). inversion Hk; subst st'.
  simpl in Hw. rewrite Hw, length_app. lia.
Qed.

(** Nor is the fuel of a replacement. *)
Lemma replace_from_fuel : forall r f fuel prev s,
  length s < fuel ->
  replace_from fuel ml r f prev s = replace_from (S fuel) ml r f prev s.
Proof.
  intros r f. induction fuel as [|fuel IH]; intros prev s Hl; [lia|].
  cbn [replace_from].
  destruct (match_at ml r prev s) as [e|] eqn:E.
  - pose proof (match_at_shorter _ _ _ _ E) as Hs. f_equal.
    destruct (length (rest e) <? length s) eqn:El.
    + apply Nat.ltb_lt in El.
      change (replace_from fuel ml r f (before e) (rest e) =
              replace_from (S fuel) ml r f (before e) (rest e)).
      apply IH. lia.
    + destruct s as [|c t]; [reflexivity|]. f_equal.
      change (replace_from fuel ml r f (Some c) t =
              replace_from (S fuel) ml r f (Some c) t).
      apply IH. simpl in Hl. lia.
  - destruct s as [|c t]; [reflexivity|]. f_equal.
    change (replace_from fuel ml r f (Some c) t =
            replace_from (S fuel) ml r f (Some c) t).
    apply IH. simpl in Hl. lia.
Qed.

(** Where no position matches, the replacement returns its input. *)
Lemma replace_from_id : forall r f (P : option ascii -> str -> Prop),
  (forall prev c t, P prev (c :: t) -> P (Some c) t) ->
  (forall prev s, P prev s -> match_at ml r prev s = None) ->
  forall fuel prev s, P prev s -> replace_from fuel ml r f prev s = s.
Proof.
  intros r f P Hstep Hno. induction fuel as [|fuel IH]; intros prev s HP.
  - reflexivity.
  - simpl. rewrite (Hno _ _ HP). destruct s as [|c t]; [reflexivity|].
    f_equal. apply IH. eapply Hstep. exact HP.
Qed.

Lemma replace_all_free : forall bad r f s,
  must bad r = true -> free_of bad s = true -> replace_all ml r f s = s.
Proof.
  intros bad r f s Hm Hf. unfold replace_all.
  apply (replace_from_id r f (fun _ s => free_of bad s = true)); auto.
  - intros _ c t H. simpl in H. apply andb_true_iff in H. tauto.
  - intros prev s0 H. apply (free_of_no_match bad); auto.
Qed.

(** A pattern that opens with a literal finds nothing in a string
    that does not hold the literal. *)
Lemma replace_all_without : forall w l f s,
  includes s w = false -> replace_all ml (cat (Lit w :: l)) f s = s.
Proof.
  intros w l f s H. unfold replace_all.
  apply (replace_from_id _ f (fun _ s => includes s w = false)); auto.
  - intros _ c t Hc. eapply includes_tail. exact Hc.
  - intros prev s0 H0. unfold match_at. rewrite exec_cat_cons.
    apply exec_Lit_mismatch. simpl. apply includes_head. exact H0.
Qed.

End Matcher.

(** ** Plain text through the renderer *)

Lemma free_of_weaken : forall (bad bad' : ascii -> bool) s,
  (forall c, bad' c = true -> bad c = true) ->
  free_of bad s = true -> free_of bad' s = true.
Proof.
  intros bad bad' s Hsub. unfold free_of. rewrite !forallb_forall.
  intros H c Hin. specialize (H c Hin).
  destruct (bad' c) eqn:E; [|reflexivity].
  rewrite (Hsub c E) in H. exact H.
Qed.

(** A pattern anchored at the start of a line, on a single line: only
    the first position can match. *)
Lemma replace_all_anchored : forall x f s,
  free_of is_line_terminator s = true ->
  exec true x (MState None s []) Some = None ->
  replace_all true (Seq LineStart x) f s = s.
Proof.
  intros x f s Hlt Hfirst. unfold replace_all.
  apply (replace_from_id true (Seq LineStart x) f
           (fun prev s' =>
              free_of is_line_terminator s' = true /\
              match prev with
              | None => s' = s
              | Some c => is_line_terminator c = false
              end)).
  - intros prev c t [Hf _]. simpl in Hf. apply andb_true_iff in Hf.
    destruct Hf as [Hc Ht]. split; [exact Ht|].
    apply negb_true_iff. exact Hc.
  - intros prev s' [_ Hp]. unfold match_at. cbn [exec].
    destruct prev as [c|].
    + unfold at_line_start. simpl. rewrite Hp. reflexivity.
    + subst s'. simpl. exact Hfirst.
  - split; auto.
Qed.

Lemma line_re_id : forall marker f s,
  free_of is_line_terminator s = true ->
  startsWith marker s = false ->
  replace_all true (line_re marker) f s = s.
Proof.
  intros marker f s Hlt Hs. unfold line_re.
  change (cat [LineStart; Lit marker; Group 1 (Plus (Class dot)); LineEnd])
    with (Seq LineStart
            (cat [Lit marker; Group 1 (Plus (Class dot)); LineEnd])).
  apply replace_all_anchored; auto.
  rewrite exec_cat_cons. apply exec_Lit_mismatch. exact Hs.
Qed.

Lemma startsWith_first : forall a w c t,
  is_char a c = false -> startsWith (a :: w) (c :: t) = false.
Proof. intros a w c t H. simpl. rewrite H. reflexivity. Qed.

Section PlainText.

Variable s : str.
Hypothesis tokens : no_markdown_tokens s = true.
Hypothesis one_line : no_newlines s = true.

Lemma plain_free : forall a,
  inline_token a = true -> free_of (is_char a) s = true.
Proof.
  intros a Ha. unfold no_markdown_tokens in tokens.
  apply andb_true_iff in tokens. destruct tokens as [Hf _].
  apply (free_of_weaken inline_token); auto.
  intros c Hc. apply is_char_eq in Hc. subst c. exact Ha.
Qed.

Lemma plain_no_LF : free_of (is_char LF) s = true.
Proof.
  apply (free_of_weaken is_line_terminator); auto.
  intros c Hc. unfold is_line_terminator. rewrite Hc. reflexivity.
Qed.

Lemma plain_first : forall a w,
  block_marker a = true -> startsWith (a :: w) s = false.
Proof.
  intros a w Ha. unfold no_markdown_tokens in tokens.
  apply andb_true_iff in tokens. destruct tokens as [_ Hb].
  destruct s as [|c t]; [reflexivity|].
  apply startsWith_first. destruct (is_char a c) eqn:E; [|reflexivity].
  apply is_char_eq in E. subst c. rewrite Ha in Hb. discriminate.
Qed.

Lemma plain_ordered : forall f, replace_all true ordered_re f s = s.
Proof.
  intro f. unfold ordered_re.
  change (cat [LineStart; Plus (Class is_digit); Lit ". ";
               Group 1 (Plus (Class dot)); LineEnd])
    with (Seq LineStart
            (cat [Plus (Class is_digit); Lit ". ";
                  Group 1 (Plus (Class dot)); LineEnd])).
  apply replace_all_anchored; auto.
  rewrite exec_cat_cons. unfold Plus. cbn [exec]. simpl rest.
  unfold no_markdown_tokens in tokens.
  apply andb_true_iff in tokens. destruct tokens as [_ Hb].
  destruct s as [|c t]; [reflexivity|].
  destruct (is_digit c) eqn:E; [|reflexivity].
  unfold block_marker in Hb. rewrite E in Hb.
  rewrite !orb_true_r in Hb. discriminate.
Qed.

Lemma plain_rule : forall f, replace_all true rule_re f s = s.
Proof.
  intro f. unfold rule_re.
  change (cat [LineStart; Lit "---"; LineEnd])
    with (Seq LineStart (cat [Lit "---"; LineEnd])).
  apply replace_all_anchored; auto.
  rewrite exec_cat_cons. apply exec_Lit_mismatch.
  apply plain_first. reflexivity.
Qed.

(** The stages after the two code stages leave the text alone: all
    but the list wrappers because it holds no token, the wrappers
    because no list item is spelled out in it. *)
Lemma plain_late_stages :
  includes s "<li>" = false -> pipeline (skipn 2 markdown_stages) s = s.
Proof.
  intro Hli. unfold pipeline, markdown_stages. cbn [skipn fold_left].
  rewrite (replace_all_free false (is_char "*") bold_re);
    [| reflexivity | apply plain_free; reflexivity].
  rewrite (replace_all_free false (is_char "*") italic_re);
    [| reflexivity | apply plain_free; reflexivity].
  rewrite (line_re_id "### "); auto; [| apply plain_first; reflexivity].
  rewrite (line_re_id "## "); auto; [| apply plain_first; reflexivity].
  rewrite (line_re_id "# "); auto; [| apply plain_first; reflexivity].
  rewrite (replace_all_free false (is_char "[") link_re);
    [| reflexivity | apply plain_free; reflexivity].
  rewrite (line_re_id "- "); auto; [| apply plain_first; reflexivity].
  assert (Hrun : forall f, replace_all false list_run_re f s = s).
  { intro f. unfold list_run_re, Plus.
    unfold replace_all.
    apply (replace_from_id false _ f
             (fun _ s' => includes s' "<li>" = false)); auto.
    - intros _ c t Hc. eapply includes_tail. exact Hc.
    - intros prev s0 H0. unfold match_at. cbn [exec].
      rewrite exec_cat_cons. apply exec_Lit_mismatch. simpl rest.
      apply includes_head. exact H0. }
  rewrite Hrun, plain_ordered, Hrun.
  rewrite (line_re_id "> "); auto; [| apply plain_first; reflexivity].
  rewrite plain_rule.
  rewrite (replace_all_free false (is_char LF) blank_line_re);
    [| reflexivity | apply plain_no_LF].
  rewrite (replace_all_free false (is_char LF) newline_re);
    [| reflexivity | apply plain_no_LF].
  reflexivity.
Qed.

Lemma pipeline_split : forall x,
  pipeline markdown_stages x =
  pipeline (skipn 2 markdown_stages)
    (replace_all false inline_code_re
       (fun m => "<code class=" ++ Q ++ "inline-code" ++ Q ++ ">" ++
                 group 1 m ++ "</code>")
       (replace_all false fence_re render_fence x)).
Proof.
  intro x. unfold pipeline, markdown_stages. cbn [skipn fold_left].
  reflexivity.
Qed.

(** On text without tokens the whole pipeline is the identity. *)
Lemma plain_pipeline :
  includes s "<li>" = false -> pipeline markdown_stages s = s.
Proof.
  intro Hli. rewrite pipeline_split.
  rewrite (replace_all_free false (is_char "`") fence_re);
    [| reflexivity | apply plain_free; reflexivity].
  rewrite (replace_all_free false (is_char "`") inline_code_re);
    [| reflexivity | apply plain_free; reflexivity].
  apply plain_late_stages. exact Hli.
Qed.

End PlainText.

(** ** The subsection id is the slug of the title *)

Lemma replace_from_S : forall fuel ml r f prev s,
  replace_from (S fuel) ml r f prev s =
  match match_at ml r prev s with
  | Some e =>
      f (Found (firstn (length s - length (rest e)) s) (caps e)) ++
      (if length (rest e) <? length s
       then replace_from fuel ml r f (before e) (rest e)
       else match s with
            | [] => []
            | c :: t => c :: replace_from fuel ml r f (Some c) t
            end)
  | None =>
      match s with
      | [] => []
      | c :: t => c :: replace_from fuel ml r f (Some c) t
      end
  end.
Proof. reflexivity. Qed.

Lemma star_class_greedy : forall ml p fuel st,
  length (rest st) < fuel ->
  star_loop (exec ml (Class p)) true Some fuel st =
  Some (MState (fst (skip_class p (before st) (rest st)))
               (snd (skip_class p (before st) (rest st))) (caps st)).
Proof.
  intros ml p. induction fuel as [|fuel IH]; intros st Hlen; [lia|].
  destruct st as [prev s cs]. simpl in Hlen.
  cbn [star_loop exec rest before caps].
  destruct s as [|c t]; [reflexivity|].
  cbn [skip_class]. destruct (p c) eqn:Ep; [|reflexivity].
  unfold step. cbn [rest caps].
  replace (length t <? length (c :: t)) with true
    by (symmetry; apply Nat.ltb_lt; simpl; lia).
  rewrite IH by (simpl in *; lia). reflexivity.
Qed.

Lemma skip_class_length : forall p s prev,
  length (snd (skip_class p prev s)) <= length s.
Proof.
  intros p. induction s as [|c t IH]; intro prev; simpl; [lia|].
  destruct (p c); simpl; [|lia]. specialize (IH (Some c)). lia.
Qed.

Lemma skip_class_no_upper : forall p s prev,
  no_upper s = true -> no_upper (snd (skip_class p prev s)) = true.
Proof.
  intros p. induction s as [|c t IH]; intros prev H; simpl; [reflexivity|].
  destruct (p c); simpl; [|exact H].
  apply IH. simpl in H. apply andb_true_iff in H. tauto.
Qed.

Lemma alnum_lowercase : forall c,
  is_upper c = false -> is_alphanumeric c = negb (not_alnum c).
Proof.
  intros c H. unfold is_alphanumeric, not_alnum. rewrite H.
  rewrite negb_involutive, orb_false_r. reflexivity.
Qed.

Lemma collapse_after_run : forall s prev,
  no_upper s = true ->
  collapse_runs true s =
  collapse_runs false (snd (skip_class not_alnum prev s)).
Proof.
  induction s as [|c t IH]; intros prev H; [reflexivity|].
  simpl in H. apply andb_true_iff in H. destruct H as [Hc Ht].
  apply negb_true_iff in Hc.
  cbn [skip_class collapse_runs]. rewrite (alnum_lowercase c Hc).
  destruct (not_alnum c) eqn:E; simpl.
  - apply IH. exact Ht.
  - rewrite (alnum_lowercase c Hc), E. reflexivity.
Qed.

Lemma exec_plus_class : forall ml p prev s cs,
  exec ml (Plus (Class p)) (MState prev s cs) Some =
  match s with
  | c :: t =>
      if p c
      then Some (MState (fst (skip_class p (Some c) t))
                        (snd (skip_class p (Some c) t)) cs)
      else None
  | [] => None
  end.
Proof.
  intros ml p prev s cs. unfold Plus.
  change (exec ml (Seq (Class p) (Star true (Class p))) (MState prev s cs) Some)
    with (match s with
          | c :: t =>
              if p c
              then star_loop (exec ml (Class p)) true Some
                     (S (length t)) (MState (Some c) t cs)
              else None
          | [] => None
          end).
  destruct s as [|c t]; [reflexivity|].
  destruct (p c); [|reflexivity].
  rewrite star_class_greedy by (simpl; lia). reflexivity.
Qed.

Lemma collapse_by_replace : forall fuel prev s,
  no_upper s = true -> length s < fuel ->
  replace_from fuel false not_alnum_run_re (fun _ => "-" : str) prev s =
  collapse_runs false s.
Proof.
  induction fuel as [|fuel IH]; intros prev s Hup Hlen; [lia|].
  rewrite replace_from_S. unfold match_at, not_alnum_run_re.
  fold not_alnum. rewrite exec_plus_class.
  destruct s as [|c t]; [reflexivity|].
  pose proof Hup as Hup'. simpl in Hup'. apply andb_true_iff in Hup'.
  destruct Hup' as [Hc Ht]. apply negb_true_iff in Hc.
  cbn [collapse_runs]. rewrite (alnum_lowercase c Hc).
  destruct (not_alnum c) eqn:E; cbn [negb].
  - cbn [rest before caps].
    pose proof (skip_class_length not_alnum t (Some c)) as Hl.
    replace (length (snd (skip_class not_alnum (Some c) t)) <?
             length (c :: t)) with true
      by (symmetry; apply Nat.ltb_lt; simpl; lia).
    rewrite IH.
    + rewrite <- collapse_after_run by exact Ht. reflexivity.
    + apply skip_class_no_upper. exact Ht.
    + simpl in Hlen. lia.
  - f_equal. apply IH; [exact Ht | simpl in Hlen; lia].
Qed.

Lemma lower_char_no_upper : forall c, is_upper (lower_char c) = false.
Proof.
  intro c.
  destruct c as [[] [] [] [] [] [] [] []]; reflexivity.
Qed.

Lemma toLowerCase_no_upper : forall s, no_upper (toLowerCase s) = true.
Proof.
  induction s as [|c t IH]; [reflexivity|].
  simpl. rewrite lower_char_no_upper. exact IH.
Qed.

Lemma drop_last_cons : forall c t,
  is_char "-" c = false -> drop_last_hyphen (c :: t) = c :: drop_last_hyphen t.
Proof.
  intros c t H. destruct t; cbn [drop_last_hyphen]; [rewrite H|]; reflexivity.
Qed.

Lemma strip_inner : forall fuel c0 s,
  length s < fuel ->
  replace_from fuel false edge_hyphen_re (fun _ => []) (Some c0) s =
  drop_last_hyphen s.
Proof.
  induction fuel as [|fuel IH]; intros c0 s Hlen; [lia|].
  destruct s as [|c t]; [reflexivity|].
  rewrite replace_from_S. unfold match_at, edge_hyphen_re, Chr.
  cbn [exec rest at_line_start before andb].
  destruct (is_char "-" c) eqn:E.
  - destruct t as [|c' t'].
    + cbn [drop_last_hyphen]. rewrite E. destruct fuel; reflexivity.
    + cbn [at_line_end step rest andb].
      change (drop_last_hyphen (c :: c' :: t'))
        with (c :: drop_last_hyphen (c' :: t')).
      f_equal. apply IH. simpl in Hlen. simpl. lia.
  - rewrite drop_last_cons by exact E. f_equal.
    apply IH. simpl in Hlen. lia.
Qed.

Lemma strip_by_replace : forall s,
  replace_all false edge_hyphen_re (fun _ => []) s =
  match s with
  | c :: t => if is_char "-" c then drop_last_hyphen t else drop_last_hyphen s
  | [] => []
  end.
Proof.
  intro s. unfold replace_all. destruct s as [|c t]; [reflexivity|].
  rewrite replace_from_S. unfold match_at, edge_hyphen_re, Chr.
  cbn [exec rest at_line_start before].
  destruct (is_char "-" c) eqn:E.
  - cbn [capture step rest before caps].
    replace (length t <? length (c :: t)) with true
      by (symmetry; apply Nat.ltb_lt; simpl; lia).
    cbn [app]. apply strip_inner. simpl. lia.
  - rewrite drop_last_cons by exact E. f_equal. apply strip_inner. simpl. lia.
Qed.

Lemma alphanumeric_not_hyphen : forall c,
  is_alphanumeric c = true -> is_char "-" c = false.
Proof.
  intros c H. destruct (is_char "-" c) eqn:E; [|reflexivity].
  apply is_char_eq in E. subst c. discriminate.
Qed.

Lemma collapse_shape : forall s b,
  no_double_hyphen (collapse_runs b s) = true /\
  (b = true -> no_leading_hyphen (collapse_runs b s) = true).
Proof.
  induction s as [|c t IH]; intro b; [split; reflexivity|].
  cbn [collapse_runs]. destruct (is_alphanumeric c) eqn:Ea.
  - pose proof (alphanumeric_not_hyphen c Ea) as Hc.
    destruct (IH false) as [Hd _]. split.
    + cbn [no_double_hyphen]. rewrite Hd.
      destruct (collapse_runs false t); [reflexivity|].
      rewrite Hc. reflexivity.
    + intros _. cbn [no_leading_hyphen]. rewrite Hc. reflexivity.
  - destruct b.
    + destruct (IH true) as [Hd Hl]. split; auto.
    + destruct (IH true) as [Hd Hl]. split; [|discriminate].
      cbn [no_double_hyphen]. rewrite Hd. specialize (Hl eq_refl).
      destruct (collapse_runs true t) as [|c' t']; [reflexivity|].
      simpl in Hl. apply negb_true_iff in Hl. rewrite Hl.
      rewrite andb_false_r. reflexivity.
Qed.

Lemma drop_last_is_strip : forall s,
  no_double_hyphen s = true -> drop_last_hyphen s = strip_trailing_hyphens s.
Proof.
  induction s as [|c t IH]; intro H; [reflexivity|].
  cbn [no_double_hyphen] in H. apply andb_true_iff in H.
  destruct H as [Hc Ht]. specialize (IH Ht).
  destruct t as [|c' t']; [reflexivity|].
  cbn [strip_trailing_hyphens]. cbn [strip_trailing_hyphens] in IH.
  rewrite <- IH.
  change (drop_last_hyphen (c :: c' :: t'))
    with (c :: drop_last_hyphen (c' :: t')).
  destruct (drop_last_hyphen (c' :: t')) as [|x l] eqn:Ed; [|reflexivity].
  assert (Hh : is_char "-" c' = true).
  { destruct t' as [|c'' t'']; simpl in Ed.
    - destruct (is_char "-" c'); [reflexivity | discriminate].
    - discriminate. }
  rewrite Hh, andb_true_r in Hc. apply negb_true_iff in Hc.
  rewrite Hc. reflexivity.
Qed.

Lemma no_double_tail : forall c t,
  no_double_hyphen (c :: t) = true -> no_double_hyphen t = true.
Proof.
  intros c t H. cbn [no_double_hyphen] in H.
  apply andb_true_iff in H. tauto.
Qed.

Lemma strip_leading_once : forall s,
  no_double_hyphen s = true ->
  strip_leading_hyphens s =
  match s with
  | c :: t => if is_char "-" c then t else s
  | [] => []
  end.
Proof.
  intros s H. destruct s as [|c t]; [reflexivity|].
  cbn [strip_leading_hyphens]. destruct (is_char "-" c) eqn:E; [|reflexivity].
  cbn [no_double_hyphen] in H. apply andb_true_iff in H. destruct H as [Hc _].
  destruct t as [|c' t']; [reflexivity|].
  rewrite E in Hc. simpl in Hc. apply negb_true_iff in Hc.
  simpl. rewrite Hc. reflexivity.
Qed.

(** The two replacements of [createSubsectionId] compute the slug. *)
Lemma createSubsectionId_slug : forall title, createSubsectionId title = slug title.
Proof.
  intro title. unfold createSubsectionId, slug.
  unfold replace_all at 2.
  rewrite collapse_by_replace by (auto using toLowerCase_no_upper).
  rewrite strip_by_replace.
  destruct (collapse_shape (toLowerCase title) false) as [Hd _].
  rewrite (strip_leading_once _ Hd).
  destruct (collapse_runs false (toLowerCase title)) as [|c t]; [reflexivity|].
  destruct (is_char "-" c).
  - apply drop_last_is_strip. eapply no_double_tail. exact Hd.
  - apply drop_last_is_strip. exact Hd.
Qed.

(** ** An inline code span through the renderer *)

Lemma exec_Seq : forall ml a b st k,
  exec ml (Seq a b) st k = exec ml a st (fun st' => exec ml b st' k).
Proof. reflexivity. Qed.

Lemma exec_Group : forall ml n a st k,
  exec ml (Group n a) st k =
  exec ml a st (fun st' => k (capture n (rest st) st')).
Proof. reflexivity. Qed.

Lemma exec_Chr_hit : forall ml c prev t cs k,
  exec ml (Chr c) (MState prev (c :: t) cs) k = k (MState (Some c) t cs).
Proof.
  intros ml c prev t cs k. unfold Chr. cbn [exec rest].
  rewrite is_char_refl. reflexivity.
Qed.

(** A greedy star over one class hands over where the class stops,
    when the rest of the pattern succeeds there. *)
Lemma star_class_greedy_then : forall ml p k e fuel st,
  length (rest st) < fuel ->
  k (MState (fst (skip_class p (before st) (rest st)))
            (snd (skip_class p (before st) (rest st))) (caps st)) = Some e ->
  star_loop (exec ml (Class p)) true k fuel st = Some e.
Proof.
  intros ml p k e. induction fuel as [|fuel IH]; intros st Hlen Hk; [lia|].
  destruct st as [prev s cs]. cbn [rest before caps] in *.
  cbn [star_loop exec rest].
  destruct s as [|c t]; [exact Hk|].
  cbn [skip_class] in Hk. destruct (p c) eqn:Ep; [|exact Hk].
  unfold step. cbn [rest caps].
  replace (length t <? length (c :: t)) with true
    by (symmetry; apply Nat.ltb_lt; simpl; lia).
  rewrite IH; [reflexivity | simpl in *; lia | exact Hk].
Qed.

Lemma exec_plus_class_then : forall ml p k e prev c t cs,
  p c = true ->
  k (MState (fst (skip_class p (Some c) t))
            (snd (skip_class p (Some c) t)) cs) = Some e ->
  exec ml (Plus (Class p)) (MState prev (c :: t) cs) k = Some e.
Proof.
  intros ml p k e prev c t cs Hp Hk. unfold Plus.
  change (exec ml (Seq (Class p) (Star true (Class p)))
            (MState prev (c :: t) cs) k)
    with (if p c
          then star_loop (exec ml (Class p)) true k
                 (S (length t)) (MState (Some c) t cs)
          else None).
  rewrite Hp. apply star_class_greedy_then; [simpl; lia | exact Hk].
Qed.

Lemma skip_class_stop : forall p stop r t prev,
  forallb p t = true -> p stop = false ->
  snd (skip_class p prev (t ++ stop :: r)) = stop :: r.
Proof.
  intros p stop r. induction t as [|c t IH]; intros prev Ht Hs.
  - cbn [app skip_class]. rewrite Hs. reflexivity.
  - cbn [forallb] in Ht. apply andb_true_iff in Ht. destruct Ht as [Hc Ht].
    cbn [app skip_class]. rewrite Hc. apply IH; assumption.
Qed.

Lemma firstn_prefix : forall (a b : str),
  firstn (length (a ++ b) - length b) (a ++ b) = a.
Proof.
  intros a b. rewrite length_app.
  replace (length a + length b - length b) with (length a) by lia.
  induction a as [|c a IH]; [destruct b; reflexivity|].
  cbn [length app firstn]. rewrite IH. reflexivity.
Qed.

Lemma not_backtick_spec : forall c,
  not_backtick c = negb (is_char "`" c).
Proof.
  intro c. unfold not_backtick, none_of. cbn [existsb].
  rewrite orb_false_r. reflexivity.
Qed.

Lemma inline_code_match : forall body prev,
  body <> [] ->
  free_of (is_char "`") body = true ->
  match_at false inline_code_re prev ("`"%char :: body ++ ["`"%char]) =
  Some (MState (Some "`"%char) [] [(1, body)]).
Proof.
  intros body prev Hne Hfree. unfold match_at, inline_code_re.
  cbn [cat]. fold not_backtick.
  rewrite exec_Seq, exec_Chr_hit, exec_Seq, exec_Group.
  destruct body as [|c t]; [contradiction|].
  cbn [rest app]. unfold free_of in Hfree. cbn [forallb] in Hfree.
  apply andb_true_iff in Hfree. destruct Hfree as [Hc Ht].
  assert (Hall : forallb not_backtick t = true).
  { rewrite forallb_forall in *. intros x Hx.
    rewrite not_backtick_spec. apply Ht. exact Hx. }
  assert (Hstop : not_backtick "`" = false) by reflexivity.
  apply exec_plus_class_then.
  - rewrite not_backtick_spec. exact Hc.
  - pose proof (skip_class_stop not_backtick "`"%char [] t (Some c)
                  Hall Hstop) as Hs.
    destruct (skip_class not_backtick (Some c) (t ++ ["`"%char]))
      as [last after]. cbn [fst snd] in *. subst after.
    unfold capture, consumed. cbn [rest before caps].
    rewrite exec_Chr_hit.
    change (c :: t ++ ["`"%char]) with ((c :: t) ++ ["`"%char]).
    rewrite (firstn_prefix (c :: t) ["`"%char]). reflexivity.
Qed.

Lemma inline_code_replace : forall f body,
  body <> [] ->
  free_of (is_char "`") body = true ->
  replace_all false inline_code_re f ("`"%char :: body ++ ["`"%char]) =
  f (Found ("`"%char :: body ++ ["`"%char]) [(1, body)]).
Proof.
  intros f body Hne Hfree. unfold replace_all.
  rewrite replace_from_S, (inline_code_match body None Hne Hfree).
  cbn [rest caps before]. cbn [length]. rewrite Nat.sub_0_r.
  change (S (length (body ++ ["`"%char])))
    with (length ("`"%char :: body ++ ["`"%char])).
  rewrite firstn_all. cbn [Nat.ltb Nat.leb length].
  rewrite replace_from_S. unfold match_at, inline_code_re. cbn [cat].
  rewrite exec_Seq. unfold Chr at 1. cbn [exec rest].
  apply app_nil_r.
Qed.

Lemma no_fence_in_span : forall body,
  body <> [] ->
  free_of (is_char "`") body = true ->
  includes ("`"%char :: body ++ ["`"%char]) "```" = false.
Proof.
  intros body Hne Hfree.
  assert (Htail : forall t, free_of (is_char "`") t = true ->
                            includes (t ++ ["`"%char]) "```" = false).
  { induction t as [|c t IH]; intro Ht; [reflexivity|].
    unfold free_of in Ht. cbn [forallb] in Ht.
    apply andb_true_iff in Ht. destruct Ht as [Hc Ht].
    apply negb_true_iff in Hc.
    cbn [app includes]. rewrite (IH Ht), orb_false_r.
    change (list_ascii_of_string "```")
      with ("`"%char :: list_ascii_of_string "``").
    apply startsWith_first. exact Hc. }
  cbn [includes]. rewrite (Htail body Hfree), orb_false_r.
  destruct body as [|c t]; [contradiction|].
  unfold free_of in Hfree. cbn [forallb] in Hfree.
  apply andb_true_iff in Hfree. destruct Hfree as [Hc _].
  apply negb_true_iff in Hc.
  change (list_ascii_of_string "```")
    with ("`"%char :: "`"%char :: list_ascii_of_string "`").
  cbn [startsWith app]. rewrite is_char_refl, Hc. reflexivity.
Qed.

Lemma free_of_app : forall bad a b,
  free_of bad (a ++ b) = free_of bad a && free_of bad b.
Proof. intros bad a b. unfold free_of. apply forallb_app. Qed.

(** What the inline replacement writes around the span. *)
Lemma inline_span_tokens : forall body,
  free_of inline_token body = true ->
  no_newlines body = true ->
  no_markdown_tokens
    ("<code class=" ++ Q ++ "inline-code" ++ Q ++ ">" ++ body ++ "</code>")
    = true /\
  no_newlines
    ("<code class=" ++ Q ++ "inline-code" ++ Q ++ ">" ++ body ++ "</code>")
    = true.
Proof.
  intros body Htok Hnl.
  change ("<code class=" ++ Q ++ "inline-code" ++ Q ++ ">" ++ body ++ "</code>")
    with (("<code class=" ++ Q ++ "inline-code" ++ Q ++ ">") ++
          body ++ "</code>").
  split.
  - unfold no_markdown_tokens. apply andb_true_iff. split; [|reflexivity].
    rewrite !free_of_app, Htok. reflexivity.
  - unfold no_newlines in *. rewrite !free_of_app, Hnl. reflexivity.
Qed.

(** ** The mobile menu *)

(** [toggle] of [script.js] has the guard: while a transition is in
    progress it changes nothing; in particular a second [toggle] inside
    the transition window of a first one leaves the menu where the
    first one sent it. *)
Theorem toggle_noop_while_animating :
  (forall st, MobileMenuManager.isAnimating st = true ->
              MobileMenuManager.toggle st = st) /\
  (forall st, MobileMenuManager.isAnimating st = false ->
     let first := MobileMenuManager.toggle st in
     MobileMenuManager.isAnimating first = true /\
     MobileMenuManager.isOpen first = negb (MobileMenuManager.isOpen st) /\
     MobileMenuManager.toggle first = first).
Proof.
  split.
  - intros st H. unfold MobileMenuManager.toggle. rewrite H. reflexivity.
  - intros st H first. subst first.
    assert (Ha : MobileMenuManager.isAnimating (MobileMenuManager.toggle st)
                 = true)
      by (unfold MobileMenuManager.toggle; rewrite H; reflexivity).
    assert (Ho : MobileMenuManager.isOpen (MobileMenuManager.toggle st)
                 = negb (MobileMenuManager.isOpen st))
      by (unfold MobileMenuManager.toggle; rewrite H; reflexivity).
    repeat split; auto.
    unfold MobileMenuManager.toggle at 1. rewrite Ha. reflexivity.
Qed.

Lemma toggle_noop_while_animating_witness :
  let st := MobileMenuManager.create None None [] false in
  MobileMenuManager.isAnimating (MobileMenuManager.toggle st) = true /\
  MobileMenuManager.toggle (MobileMenuManager.toggle st) =
  MobileMenuManager.toggle st /\
  MobileMenuManager.isOpen (MobileMenuManager.toggle st) = true.
Proof.
  intro st.
  destruct toggle_noop_while_animating as [Hnoop Hfirst].
  destruct (Hfirst st eq_refl) as (Ha & Ho & Hsame).
  split; [exact Ha|]. split.
  - apply Hnoop. exact Ha.
  - exact Ho.
Defined.

(** The transition window closes when the timers of the first
    [toggle] have fired; the next [toggle] acts again. *)
Lemma toggle_after_window : forall st,
  MobileMenuManager.isAnimating st = false ->
  MobileMenuManager.timers st = [] ->
  let later := MobileMenuManager.fire
                 (MobileMenuManager.fire (MobileMenuManager.toggle st)) in
  MobileMenuManager.isAnimating later = false /\
  MobileMenuManager.isOpen (MobileMenuManager.toggle later) =
  MobileMenuManager.isOpen st.
Proof.
  intros st Ha Ht later. subst later.
  assert (E : MobileMenuManager.isAnimating
                (MobileMenuManager.fire
                   (MobileMenuManager.fire (MobileMenuManager.toggle st)))
              = false /\
              MobileMenuManager.isOpen
                (MobileMenuManager.fire
                   (MobileMenuManager.fire (MobileMenuManager.toggle st)))
              = negb (MobileMenuManager.isOpen st)).
  { unfold MobileMenuManager.toggle. rewrite Ha, Ht.
    destruct (MobileMenuManager.mobileNav st);
      destruct (MobileMenuManager.mobileToggle st);
      destruct (MobileMenuManager.isOpen st); split; reflexivity. }
  destruct E as [E1 E2]. split; [exact E1|].
  unfold MobileMenuManager.toggle at 1. rewrite E1.
  cbn [MobileMenuManager.isOpen]. rewrite E2. apply negb_involutive.
Qed.

(** C8 fails on the earlier copy (part_000): its [toggle] keeps no
    transition state, so a second call right after the first is no
    no-op; it changes the state and undoes the first. *)
Theorem earlier_toggle_twice : forall st,
  let first := Earlier.MobileMenuManager.toggle st in
  Earlier.MobileMenuManager.isOpen first =
    negb (Earlier.MobileMenuManager.isOpen st) /\
  Earlier.MobileMenuManager.toggle first <> first /\
  Earlier.MobileMenuManager.isOpen (Earlier.MobileMenuManager.toggle first) =
    Earlier.MobileMenuManager.isOpen st.
Proof.
  intros st first. subst first. split; [reflexivity|]. split.
  - intro E. apply (f_equal Earlier.MobileMenuManager.isOpen) in E.
    cbn [Earlier.MobileMenuManager.toggle Earlier.MobileMenuManager.isOpen]
      in E.
    destruct (Earlier.MobileMenuManager.isOpen st); discriminate.
  - cbn [Earlier.MobileMenuManager.toggle Earlier.MobileMenuManager.isOpen].
    apply negb_involutive.
Qed.

(** ** The theme *)

Section Theme.

Import ThemeManager.

Lemma toggle_theme : forall st,
  theme (toggle st) = if is_dark (theme st) then "light" : str else "dark" : str.
Proof.
  intro st. unfold toggle, vibrate.
  destruct (can_vibrate _); destruct (is_dark (theme st)); reflexivity.
Qed.

Lemma toggle_store : forall st,
  store (toggle st) = storeTheme (theme (toggle st)) (store st).
Proof.
  intro st. rewrite toggle_theme. unfold toggle, vibrate.
  destruct (can_vibrate _); destruct (is_dark (theme st)); reflexivity.
Qed.

Lemma toggle_pins : forall st,
  readable (store st) = true -> writable (store st) = true ->
  pinned (toggle st).
Proof.
  intros st Hr Hw. unfold pinned. rewrite toggle_store.
  unfold storeTheme. rewrite Hw. cbn [readable writable item].
  rewrite toggle_theme. repeat split; auto.
  destruct (is_dark (theme st)); reflexivity.
Qed.

Lemma ambient_ignored : forall st m,
  pinned st -> theme (handle st (SystemThemeChange m)) = theme st.
Proof.
  intros st m (Hr & _ & Hi & Ht). cbn [handle theme].
  unfold onSystemThemeChange, getStoredTheme. rewrite Hr, Hi, Ht.
  reflexivity.
Qed.

Lemma pinned_step : forall st e, pinned st -> pinned (handle st e).
Proof.
  intros st e H. destruct e as [|m|].
  - destruct H as (Hr & Hw & _). apply toggle_pins; assumption.
  - destruct H as (Hr & Hw & Hi & Ht). unfold pinned. cbn [handle].
    unfold onSystemThemeChange, getStoredTheme. rewrite Hr, Hi, Ht.
    cbn [store theme]. auto.
  - exact H.
Qed.

Lemma pinned_run : forall es st, pinned st -> pinned (run st es).
Proof.
  induction es as [|e es IH]; intros st H; [exact H|].
  apply IH. apply pinned_step. exact H.
Qed.

Lemma ambient_followed : forall st m,
  getStoredTheme (store st) = None ->
  theme (handle st (SystemThemeChange m)) = getSystemTheme m /\
  getStoredTheme (store (handle st (SystemThemeChange m))) = None.
Proof.
  intros st m H. cbn [handle theme store].
  unfold onSystemThemeChange. rewrite H. cbn [applyTheme set_theme theme store].
  auto.
Qed.

Lemma ambient_followed_run : forall ms st,
  getStoredTheme (store st) = None ->
  getStoredTheme (store (run st (map SystemThemeChange ms))) = None.
Proof.
  induction ms as [|m ms IH]; intros st H; [exact H|].
  apply IH. apply ambient_followed. exact H.
Qed.

End Theme.

(** C7 as stated fails where the preference store is switched off:
    the toggle writes nothing, and the next ambient change moves the
    theme. *)
Lemma toggle_without_storage :
  let st := ThemeManager.create no_storage false [] false in
  let toggled := ThemeManager.toggle st in
  ThemeManager.theme st = "light" /\
  ThemeManager.theme toggled = "dark" /\
  ThemeManager.getStoredTheme (ThemeManager.store toggled) = None /\
  ThemeManager.theme
    (ThemeManager.handle toggled (ThemeManager.SystemThemeChange false)) =
  "light".
Proof. vm_compute. repeat split. Qed.

(** C7, amended.  With a preference store that takes the write and
    gives it back, an explicit toggle stores the chosen theme and from
    then on no ambient change alters the theme, whatever else happens
    in between; and as long as nothing is stored, each ambient change
    sets the theme to the ambient value. *)
Theorem toggle_pins_theme :
  (forall st,
     ThemeManager.readable (ThemeManager.store st) = true ->
     ThemeManager.writable (ThemeManager.store st) = true ->
     let toggled := ThemeManager.toggle st in
     ThemeManager.getStoredTheme (ThemeManager.store toggled) =
       Some (ThemeManager.theme toggled) /\
     forall es m,
       ThemeManager.theme
         (ThemeManager.handle (ThemeManager.run toggled es)
            (ThemeManager.SystemThemeChange m)) =
       ThemeManager.theme (ThemeManager.run toggled es)) /\
  (forall st ms m,
     ThemeManager.getStoredTheme (ThemeManager.store st) = None ->
     ThemeManager.theme
       (ThemeManager.handle
          (ThemeManager.run st (map ThemeManager.SystemThemeChange ms))
          (ThemeManager.SystemThemeChange m)) =
     ThemeManager.getSystemTheme m).
Proof.
  split.
  - intros st Hr Hw toggled. subst toggled.
    pose proof (toggle_pins st Hr Hw) as Hp. split.
    + destruct Hp as (Hr' & _ & Hi & _).
      unfold ThemeManager.getStoredTheme. rewrite Hr'. exact Hi.
    + intros es m. apply ambient_ignored. apply pinned_run. exact Hp.
  - intros st ms m H. apply ambient_followed.
    apply ambient_followed_run. exact H.
Qed.

Lemma toggle_pins_theme_witness :
  let st := ThemeManager.create working_storage false [] false in
  let toggled := ThemeManager.toggle st in
  ThemeManager.getStoredTheme (ThemeManager.store toggled) =
    Some (ThemeManager.theme toggled) /\
  ThemeManager.theme
    (ThemeManager.handle toggled (ThemeManager.SystemThemeChange false)) =
  ThemeManager.theme toggled /\
  ThemeManager.theme
    (ThemeManager.handle st (ThemeManager.SystemThemeChange true)) =
  ThemeManager.getSystemTheme true.
Proof.
  intros st toggled.
  destruct toggle_pins_theme as [Hpin Hfollow].
  destruct (Hpin st eq_refl eq_refl) as [Hs Ha].
  split; [exact Hs|]. split.
  - exact (Ha [] false).
  - exact (Hfollow st [] true eq_refl).
Defined.

(** With the store switched off, the theme keeps following the
    ambient value after a toggle. *)
Lemma toggle_unpinned_without_storage : forall st m,
  ThemeManager.readable (ThemeManager.store st) = false ->
  ThemeManager.theme
    (ThemeManager.handle (ThemeManager.toggle st)
       (ThemeManager.SystemThemeChange m)) =
  ThemeManager.getSystemTheme m.
Proof.
  intros st m H. apply ambient_followed.
  rewrite toggle_store. unfold ThemeManager.getStoredTheme, ThemeManager.storeTheme.
  destruct (ThemeManager.writable (ThemeManager.store st));
    cbn [ThemeManager.readable]; rewrite H; reflexivity.
Qed.

(** ** The search index *)

Lemma push_subsections : forall section subs acc,
  fold_left (fun index subsection =>
               push index (subsection_record section subsection)) subs acc =
  acc ++ map (subsection_record section) subs.
Proof.
  intros section. induction subs as [|x subs IH]; intro acc; simpl.
  - rewrite app_nil_r. reflexivity.
  - rewrite IH. unfold push. rewrite <- app_assoc. reflexivity.
Qed.

Lemma index_of_in_order : forall d, index_of d = records_in_order d.
Proof.
  intro d. unfold index_of, records_in_order.
  assert (G : forall l acc,
    fold_left
      (fun index section =>
         fold_left
           (fun index subsection =>
              push index (subsection_record section subsection))
           (subsections_of section)
           (push index (section_record section))) l acc =
    acc ++ flat_map (fun section =>
                       section_record section ::
                       map (subsection_record section)
                           (subsections_of section)) l).
  { induction l as [|s l IH]; intro acc; simpl.
    - rewrite app_nil_r. reflexivity.
    - rewrite IH, push_subsections. unfold push.
      rewrite <- !app_assoc. reflexivity. }
  apply (G (sections d) []).
Qed.

Lemma records_count : forall d,
  length (records_in_order d) = length (sections d) + count_subsections d.
Proof.
  intro d. unfold records_in_order, count_subsections.
  induction (sections d) as [|s l IH]; [reflexivity|].
  cbn [flat_map map list_sum length]. rewrite length_app. cbn [length].
  rewrite length_map, IH. unfold list_sum. cbn [fold_right]. lia.
Qed.

Lemma records_of_entries : forall d,
  Forall2 record_of_entry (document_entries d) (records_in_order d).
Proof.
  intro d. unfold document_entries, records_in_order.
  induction (sections d) as [|section l IH]; [apply Forall2_nil|].
  cbn [flat_map].
  change ((section, None) ::
          map (fun sub => (section, Some sub)) (subsections_of section))
    with ([(section, @None Subsection)] ++
          map (fun sub => (section, Some sub)) (subsections_of section)).
  change (section_record section ::
          map (subsection_record section) (subsections_of section))
    with ([section_record section] ++
          map (subsection_record section) (subsections_of section)).
  rewrite <- !app_assoc. apply Forall2_app; [|apply Forall2_app; [|exact IH]].
  - apply Forall2_cons; [|apply Forall2_nil].
    repeat split.
  - induction (subsections_of section) as [|sub subs IHs];
      [apply Forall2_nil|].
    cbn [map]. apply Forall2_cons; [|exact IHs].
    unfold record_of_entry. cbn [subsection_record type sectionId record_id
      record_title record_content searchText].
    rewrite createSubsectionId_slug. repeat split.
Qed.

(** C5. [buildSearchIndex] leaves one record for each section and each
    subsection of the document, in document order, count(sections) +
    count(subsections) of them; each record carries the fields of its
    section or subsection, and the id of every subsection record is
    the slug of its title. *)
Theorem buildSearchIndex_records : forall w d,
  docs (this w) = Some d ->
  let index := searchIndex (this (buildSearchIndex w)) in
  Forall2 record_of_entry (document_entries d) index /\
  length index = length (sections d) + count_subsections d /\
  forall r, In r index -> type r = subsection_type ->
            record_id r = slug (record_title r).
Proof.
  intros w d H index. subst index. unfold buildSearchIndex. rewrite H.
  cbn [set_searchIndex this searchIndex]. rewrite index_of_in_order.
  split; [apply records_of_entries|]. split; [apply records_count|].
  intros r Hin Ht. unfold records_in_order in Hin.
  apply in_flat_map in Hin. destruct Hin as (s & _ & [Hr|Hr]).
  - subst r. discriminate.
  - apply in_map_iff in Hr. destruct Hr as (sub & Hr & _). subst r.
    cbn [record_id record_title subsection_record].
    apply createSubsectionId_slug.
Qed.

Lemma buildSearchIndex_records_witness :
  let w := loadDocs NetworkError (blank_page []) in
  let index := searchIndex (this (buildSearchIndex w)) in
  Forall2 record_of_entry (document_entries getSampleDocs) index /\
  length index = 3 + 6 /\
  forall r, In r index -> type r = subsection_type ->
            record_id r = slug (record_title r).
Proof.
  intros w index.
  exact (buildSearchIndex_records w getSampleDocs eq_refl).
Defined.

(** ** A section that is not there *)

Lemma find_absent : forall (sectionId : str) (l : list DocSection),
  (forall s, In s l -> id s <> sectionId) ->
  find (fun s => str_eqb (id s) sectionId) l = None.
Proof.
  intros sectionId. induction l as [|s l IH]; intro H; [reflexivity|].
  simpl. rewrite str_eqb_neq by (apply H; left; reflexivity).
  apply IH. intros s' Hs'. apply H. right. exact Hs'.
Qed.

Lemma occurs_here : forall x s, occurs_in x (x ++ s).
Proof. intros x s. exists [], s. reflexivity. Qed.

Lemma occurs_skip : forall x a s, occurs_in x s -> occurs_in x (a ++ s).
Proof.
  intros x a s (pre & post & H). exists (a ++ pre), post.
  rewrite H, app_assoc. reflexivity.
Qed.

Lemma occurs_left : forall x a s, occurs_in x a -> occurs_in x (a ++ s).
Proof.
  intros x a s (pre & post & H). exists pre, (post ++ s).
  rewrite H, <- !app_assoc. reflexivity.
Qed.

Lemma prefix_here : forall a s, prefix_of a (a ++ s).
Proof. intros a s. exists s. reflexivity. Qed.

Lemma prefix_app : forall a x s, prefix_of x s -> prefix_of (a ++ x) (a ++ s).
Proof.
  intros a x s (post & H). exists post. rewrite H, app_assoc. reflexivity.
Qed.

Lemma prefix_refl : forall a, prefix_of a a.
Proof. intro a. exists []. rewrite app_nil_r. reflexivity. Qed.

Lemma occurs_prefix : forall x s, prefix_of x s -> occurs_in x s.
Proof. intros x s (post & H). exists [], post. exact H. Qed.

(** Finds [x] among the pieces of a concatenation. *)
Ltac find_occurrence :=
  first
    [ solve [ apply occurs_prefix; repeat apply prefix_app;
              first [ apply prefix_here | apply prefix_refl ] ]
    | apply occurs_skip; find_occurrence ].

Lemma showError_shown : forall message w old,
  docsContent (page w) = Some old ->
  exists html, docsContent (page (showError message w)) = Some html /\
               occurs_in message html.
Proof.
  intros message w old H. unfold showError. rewrite H.
  cbn [set_docsContent page docsContent].
  eexists. split; [reflexivity|]. find_occurrence.
Qed.

Lemma showError_only_content : forall message w,
  this (showError message w) = this w /\
  location_hash (page (showError message w)) = location_hash (page w) /\
  history (page (showError message w)) = history (page w) /\
  sidebarNav (page (showError message w)) = sidebarNav (page w) /\
  scrolls (page (showError message w)) = scrolls (page w) /\
  innerWidth (page (showError message w)) = innerWidth (page w).
Proof.
  intros message w. unfold showError.
  destruct (docsContent (page w)); repeat split; reflexivity.
Qed.

(** C3. For an id that no section of the tree carries, [loadSection]
    returns after [showError]: the content element, when the page has
    one, shows the error message, and nothing else changes: the
    current section and the other fields of the object, the location
    and its history, the navigation with its active entry and the
    scroll requests are what they were. *)
Theorem loadSection_not_found :
  forall w d sectionId subsectionId updateURL,
  docs (this w) = Some d ->
  (forall s, In s (sections d) -> id s <> sectionId) ->
  exists w',
    loadSection sectionId subsectionId updateURL w = Done w' /\
    (forall old, docsContent (page w) = Some old ->
       exists html, docsContent (page w') = Some html /\
                    occurs_in "Section not found." html) /\
    currentSection (this w') = currentSection (this w) /\
    this w' = this w /\
    location_hash (page w') = location_hash (page w) /\
    history (page w') = history (page w) /\
    sidebarNav (page w') = sidebarNav (page w) /\
    scrolls (page w') = scrolls (page w).
Proof.
  intros w d sectionId subsectionId updateURL Hd Habs.
  exists (showError "Section not found." w).
  unfold loadSection. rewrite Hd, (find_absent _ _ Habs).
  destruct (showError_only_content "Section not found." w)
    as (Ht & Hh & Hi & Hn & Hs & _).
  split; [reflexivity|].
  split; [intros old Hc; eapply showError_shown; exact Hc|].
  rewrite Ht. repeat split; assumption.
Qed.

Lemma sample_has_no_missing :
  forall s, In s (sections getSampleDocs) -> id s <> ("missing" : str).
Proof.
  intros s H. simpl in H.
  destruct H as [H|[H|[H|[]]]]; subst s; discriminate.
Qed.

Lemma loadSection_not_found_witness :
  let w := loadDocs NetworkError (blank_page []) in
  exists w',
    loadSection "missing" None true w = Done w' /\
    (forall old, docsContent (page w) = Some old ->
       exists html, docsContent (page w') = Some html /\
                    occurs_in "Section not found." html) /\
    currentSection (this w') = currentSection (this w) /\
    this w' = this w /\
    location_hash (page w') = location_hash (page w) /\
    history (page w') = history (page w) /\
    sidebarNav (page w') = sidebarNav (page w) /\
    scrolls (page w') = scrolls (page w).
Proof.
  intro w.
  exact (loadSection_not_found w getSampleDocs "missing" None true
           eq_refl sample_has_no_missing).
Defined.

(** The earlier copy does the same. *)
Lemma earlier_loadSection_not_found :
  forall w d sectionId subsectionId updateURL,
  docs (this w) = Some d ->
  (forall s, In s (sections d) -> id s <> sectionId) ->
  Earlier.loadSection sectionId subsectionId updateURL w =
  Done (Earlier.showError "Section not found." w).
Proof.
  intros w d sectionId subsectionId updateURL Hd Habs.
  unfold Earlier.loadSection. rewrite Hd, (find_absent _ _ Habs). reflexivity.
Qed.

(** ** Start-up after a failed fetch *)

Lemma loadDocs_fallback : forall f w,
  fetch_failed f = true -> docs (this (loadDocs f w)) = Some getSampleDocs.
Proof.
  intros f w H. destruct f as [|[] [d|]]; try reflexivity; discriminate.
Qed.

Lemma updateActiveNavItem_keeps : forall sectionId subsectionId w,
  this (updateActiveNavItem sectionId subsectionId w) = this w /\
  docsContent (page (updateActiveNavItem sectionId subsectionId w)) =
    docsContent (page w) /\
  location_hash (page (updateActiveNavItem sectionId subsectionId w)) =
    location_hash (page w).
Proof.
  intros sectionId subsectionId w. unfold updateActiveNavItem, set_nav.
  destruct (query_update _ _ _ _); destruct (isMobile w);
    destruct (sidebarNav (page w)); repeat split; reflexivity.
Qed.

Lemma renderSection_keeps : forall section target w,
  this (renderSection section target w) = this w /\
  location_hash (page (renderSection section target w)) =
    location_hash (page w).
Proof.
  intros section target w. unfold renderSection.
  destruct (docsContent (page w)); [|split; reflexivity].
  destruct target as [t|]; [destruct (truthy t)|]; split; reflexivity.
Qed.

Lemma renderSection_content : forall section target w old,
  docsContent (page w) = Some old ->
  docsContent (page (renderSection section target w)) =
  Some (section_html w section).
Proof.
  intros section target w old H. unfold renderSection. rewrite H.
  destruct target as [t|]; [destruct (truthy t)|]; reflexivity.
Qed.

Lemma head_differs : forall (a b : str) n,
  nth_error a n <> nth_error b n -> a <> b.
Proof. intros a b n H E. apply H. rewrite E. reflexivity. Qed.

Lemma section_html_not_loading : forall w section,
  section_html w section <> loading_html.
Proof.
  intros w section. apply head_differs with (n := 13).
  unfold section_html, section_header. vm_compute. discriminate.
Qed.

Lemma showError_not_loading : forall message w old,
  docsContent (page w) = Some old ->
  exists html, docsContent (page (showError message w)) = Some html /\
               html <> loading_html.
Proof.
  intros message w old H. unfold showError. rewrite H.
  cbn [set_docsContent page docsContent].
  eexists. split; [reflexivity|].
  apply head_differs with (n := 29). vm_compute. discriminate.
Qed.

Lemma not_loading_not_empty : forall html w,
  docsContent (page w) = Some html -> html <> loading_html ->
  hideLoadingState w = w.
Proof.
  intros html w H Hn. unfold hideLoadingState. rewrite H.
  rewrite str_eqb_neq by exact Hn. reflexivity.
Qed.

Lemma buildNavigation_keeps : forall w,
  docs (this (buildNavigation w)) = docs (this w) /\
  docsContent (page (buildNavigation w)) = docsContent (page w).
Proof.
  intro w. unfold buildNavigation.
  destruct (sidebarNav (page w)); destruct (docs (this w)) eqn:E;
    split; simpl; congruence.
Qed.

Lemma buildNavigation_keeps_route : forall w,
  currentSection (this (buildNavigation w)) = currentSection (this w) /\
  location_hash (page (buildNavigation w)) = location_hash (page w).
Proof.
  intro w. unfold buildNavigation.
  destruct (sidebarNav (page w)); destruct (docs (this w));
    split; reflexivity.
Qed.

Lemma buildSearchIndex_keeps : forall w,
  docs (this (buildSearchIndex w)) = docs (this w) /\
  docsContent (page (buildSearchIndex w)) = docsContent (page w).
Proof.
  intro w. unfold buildSearchIndex.
  destruct (docs (this w)) eqn:E; split; simpl; congruence.
Qed.

Lemma buildSearchIndex_keeps_route : forall w,
  currentSection (this (buildSearchIndex w)) = currentSection (this w) /\
  location_hash (page (buildSearchIndex w)) = location_hash (page w).
Proof.
  intro w. unfold buildSearchIndex.
  destruct (docs (this w)); split; reflexivity.
Qed.

(** [loadDocs] of [script.js] has the fallback: whenever the fetch of
    the document fails (no response, a response that is not ok, a body
    that does not parse), it takes the embedded sample document; after
    [init] the loaded tree is that document, it has sections, and the
    content element shows a rendered section or, for a fragment that
    names no section, the error message: it is neither empty nor left
    on the loading notice. *)
Theorem fetch_failure_falls_back : forall f w old,
  fetch_failed f = true ->
  docsContent (page w) = Some old ->
  docs (this (loadDocs f w)) = Some getSampleDocs /\
  docs (this (init f w)) = Some getSampleDocs /\
  sections getSampleDocs <> [] /\
  exists html, docsContent (page (init f w)) = Some html /\
               html <> [] /\ html <> loading_html.
Proof.
  intros f w old Hf Hc.
  split; [apply loadDocs_fallback; exact Hf|].
  assert (Hne : sections getSampleDocs <> []) by discriminate.
  unfold init. rewrite Hc.
  set (w1 := showLoadingState (set_isLoading true w)).
  set (w2 := buildNavigation (buildSearchIndex (loadDocs f w1))).
  assert (Hd2 : docs (this w2) = Some getSampleDocs).
  { subst w2. rewrite (proj1 (buildNavigation_keeps _)).
    rewrite (proj1 (buildSearchIndex_keeps _)).
    apply loadDocs_fallback. exact Hf. }
  assert (Hc2 : docsContent (page w2) = Some loading_html).
  { subst w2 w1. rewrite (proj2 (buildNavigation_keeps _)).
    rewrite (proj2 (buildSearchIndex_keeps _)).
    unfold loadDocs, showLoadingState. cbn [set_docs page set_isLoading].
    rewrite Hc. reflexivity. }
  unfold loadSection. rewrite Hd2.
  destruct (find _ (sections getSampleDocs)) as [section|].
  - set (wp := pushState (section_url (getCurrentSectionFromURL w2) None)
                 (set_currentSection (getCurrentSectionFromURL w2) w2)).
    set (w3 := renderSection section None wp).
    set (w4 := updateActiveNavItem (getCurrentSectionFromURL w2) None w3).
    assert (Hc3 : docsContent (page w3) = Some (section_html wp section)).
    { subst w3. eapply renderSection_content. exact Hc2. }
    destruct (updateActiveNavItem_keeps (getCurrentSectionFromURL w2) None w3)
      as (Ht4 & Hc4 & _).
    destruct (renderSection_keeps section None wp) as (Ht3 & _).
    fold w3 in Ht3. fold w4 in Ht4, Hc4.
    rewrite (not_loading_not_empty (section_html wp section)).
    + cbn [set_isLoading this docs page]. rewrite Ht4, Ht3.
      split; [exact Hd2|]. split; [exact Hne|].
      eexists. split; [rewrite Hc4; exact Hc3|].
      split; [|apply section_html_not_loading].
      apply head_differs with (n := 0). vm_compute. discriminate.
    + cbn [set_isLoading page]. rewrite Hc4. exact Hc3.
    + apply section_html_not_loading.
  - destruct (showError_not_loading "Section not found." w2 _ Hc2)
      as (html & Hh & Hn).
    destruct (showError_only_content "Section not found." w2) as (Ht & _).
    rewrite (not_loading_not_empty html); auto.
    cbn [set_isLoading this docs page]. rewrite Ht.
    split; [exact Hd2|]. split; [exact Hne|].
    exists html. split; [exact Hh|]. split; [|exact Hn].
    destruct (showError_shown "Section not found." w2 _ Hc2) as (h' & Hh' & Ho).
    rewrite Hh in Hh'. inversion Hh'; subst h'.
    destruct Ho as (pre & post & E). rewrite E.
    destruct pre; discriminate.
Qed.

Lemma fetch_failure_falls_back_witness :
  let w := blank_page [] in
  docs (this (loadDocs (Response false None) w)) = Some getSampleDocs /\
  docs (this (init (Response false None) w)) = Some getSampleDocs /\
  sections getSampleDocs <> [] /\
  exists html, docsContent (page (init (Response false None) w)) = Some html /\
               html <> [] /\ html <> loading_html.
Proof.
  intro w.
  exact (fetch_failure_falls_back (Response false None) w [] eq_refl eq_refl).
Defined.

(** C4 fails on the earlier copy (part_000), whose [loadDocs] has no
    sample document: after a failed fetch the tree stays unset and the
    content element shows the error message instead of content; [init]
    goes on, and the first [loadSection] throws on the missing tree,
    which nothing catches. *)
Theorem earlier_fetch_failure : forall f w,
  fetch_failed f = true ->
  (forall d, f <> Response false (Some d)) ->
  docs (this w) = None ->
  docs (this (Earlier.loadDocs f w)) = None /\
  (forall old, docsContent (page w) = Some old ->
     (exists html,
        docsContent (page (Earlier.loadDocs f w)) = Some html /\
        occurs_in "Failed to load documentation. Please refresh the page."
                  html) /\
     Earlier.init f w = Thrown "TypeError").
Proof.
  intros f w Hf Hok Hd.
  assert (E : Earlier.loadDocs f w =
              Earlier.showError
                "Failed to load documentation. Please refresh the page." w).
  { destruct f as [|[] [d|]]; try reflexivity; try discriminate.
    exfalso. apply (Hok d). reflexivity. }
  assert (Hd' : docs (this (Earlier.loadDocs f w)) = None).
  { rewrite E. unfold Earlier.showError.
    destruct (docsContent (page w)); exact Hd. }
  split; [exact Hd'|].
  intros old Hc. split.
  - rewrite E. unfold Earlier.showError. rewrite Hc.
    cbn [set_docsContent page docsContent].
    eexists. split; [reflexivity|]. find_occurrence.
  - unfold Earlier.init. rewrite Hc.
    unfold Earlier.loadSection.
    rewrite (proj1 (buildNavigation_keeps _)).
    rewrite (proj1 (buildSearchIndex_keeps _)), Hd'. reflexivity.
Qed.

Lemma earlier_fetch_failure_witness :
  let w := Earlier.fresh [] 1024 (Some []) (Some empty_panel) in
  docs (this (Earlier.loadDocs NetworkError w)) = None /\
  (exists html,
     docsContent (page (Earlier.loadDocs NetworkError w)) = Some html /\
     occurs_in "Failed to load documentation. Please refresh the page."
               html) /\
  Earlier.init NetworkError w = Thrown "TypeError".
Proof.
  intro w.
  destruct (earlier_fetch_failure NetworkError w eq_refl
              (fun d H => eq_ind NetworkError
                            (fun x => match x with
                                      | NetworkError => True
                                      | Response _ _ => False
                                      end) I _ H)
              eq_refl) as [H1 H2].
  split; [exact H1 | exact (H2 [] eq_refl)].
Defined.

(** ** Search *)

Lemma forallb_map_true : forall (A B : Type) (p : B -> bool) (g : A -> B) l,
  (forall x, p (g x) = true) -> forallb p (map g l) = true.
Proof.
  intros A B p g l H. induction l as [|x l IH]; [reflexivity|].
  cbn [map forallb]. rewrite H, IH. reflexivity.
Qed.

Lemma all_visible_show_all : forall nav, all_visible (show_all nav) = true.
Proof.
  intro nav. unfold all_visible, show_all. apply forallb_map_true.
  intro s.
  cbn [set_section_display map_items section_display section_title nav_items].
  rewrite str_eqb_refl. cbn [andb forallb].
  unfold item_visible at 1. cbn [set_item_display display].
  rewrite str_eqb_refl. cbn [andb].
  apply forallb_map_true. intro it. unfold item_visible.
  cbn [set_item_display display]. apply str_eqb_refl.
Qed.

Lemma entries_cons : forall s nav,
  entries (s :: nav) =
  map (fun it => (data_section it, data_subsection it))
      (section_title s :: nav_items s) ++ entries nav.
Proof. reflexivity. Qed.

Lemma entries_show_all : forall nav, entries (show_all nav) = entries nav.
Proof.
  induction nav as [|s nav IH]; [reflexivity|].
  change (show_all (s :: nav))
    with (set_section_display "block" false
            (map_items (set_item_display "block" false) s) :: show_all nav).
  rewrite !entries_cons, IH. f_equal.
  cbn [set_section_display map_items section_title nav_items map
       set_item_display data_section data_subsection].
  f_equal. rewrite map_map. reflexivity.
Qed.

Lemma nav_of_set_nav : forall l w,
  nav_of (set_nav l w) = match sidebarNav (page w) with
                         | Some _ => l
                         | None => []
                         end.
Proof.
  intros l w. unfold nav_of, set_nav.
  destruct (sidebarNav (page w)) eqn:E; [reflexivity|].
  rewrite E. reflexivity.
Qed.

Lemma section_record_listed : forall d section,
  In section (sections d) -> In (section_record section) (index_of d).
Proof.
  intros d section H. rewrite index_of_in_order. unfold records_in_order.
  apply in_flat_map. exists section. split; [exact H|]. left. reflexivity.
Qed.

(** C6. A query that trims to nothing makes every navigation entry
    and every group visible again and loses none of them, whatever an
    earlier query had hidden; and a query that is the exact title of a
    section keeps the record of that section in the result of the
    filter. *)
Theorem search_reset_and_title :
  (forall query w,
     truthy (trim (toLowerCase query)) = false ->
     exists w', searchDocumentation query w = Done w' /\
                all_visible (nav_of w') = true /\
                entries (nav_of w') = entries (nav_of w)) /\
  (forall w d section,
     docs (this w) = Some d ->
     In section (sections d) ->
     In (section_record section)
        (searchResults (searchIndex (this (buildSearchIndex w)))
           (trim (toLowerCase (title section))))).
Proof.
  split.
  - intros query w H. exists (set_nav (show_all (nav_of w)) w).
    unfold searchDocumentation. rewrite H. cbn [negb].
    split; [reflexivity|]. rewrite nav_of_set_nav.
    destruct (sidebarNav (page w)) eqn:E.
    + split; [apply all_visible_show_all | apply entries_show_all].
    + unfold nav_of. rewrite E. split; reflexivity.
  - intros w d section Hd Hin. unfold buildSearchIndex. rewrite Hd.
    cbn [set_searchIndex this searchIndex]. unfold searchResults.
    apply filter_In. split; [apply section_record_listed; exact Hin|].
    unfold record_matches. cbn [section_record record_title].
    rewrite includes_trim. apply orb_true_r.
Qed.

Lemma search_reset_and_title_witness :
  let w := buildNavigation (buildSearchIndex
             (loadDocs NetworkError (blank_page []))) in
  (forall filtered,
     searchDocumentation "webhook class" w = Done filtered ->
     exists w', searchDocumentation "   " filtered = Done w' /\
                all_visible (nav_of w') = true /\
                entries (nav_of w') = entries (nav_of filtered)) /\
  In (section_record sample_1)
     (searchResults (searchIndex (this (buildSearchIndex w)))
        (trim (toLowerCase (title sample_1)))).
Proof.
  intro w. destruct search_reset_and_title as [Hreset Htitle]. split.
  - intros filtered _. apply Hreset. reflexivity.
  - apply (Htitle w getSampleDocs sample_1).
    + reflexivity.
    + right. left. reflexivity.
Defined.

(** After a query that hid entries, the empty query shows them. *)
Lemma search_then_reset :
  let w := buildNavigation (buildSearchIndex
             (loadDocs NetworkError (blank_page []))) in
  exists filtered w',
    searchDocumentation "webhook class" w = Done filtered /\
    all_visible (nav_of filtered) = false /\
    searchDocumentation [] filtered = Done w' /\
    all_visible (nav_of w') = true.
Proof.
  intro w. eexists. eexists.
  split; [vm_compute; reflexivity|].
  split; [vm_compute; reflexivity|].
  split; vm_compute; reflexivity.
Qed.

(** The earlier copy resets the same way, and its filter (on the
    search text alone) keeps the section of an exact title too. *)
Lemma earlier_search_title : forall d section,
  In section (sections d) ->
  In (section_record section)
     (Earlier.searchResults (index_of d) (trim (toLowerCase (title section)))).
Proof.
  intros d section Hin. unfold Earlier.searchResults.
  apply filter_In. split; [apply section_record_listed; exact Hin|].
  cbn [section_record searchText]. unfold toLowerCase. rewrite map_app.
  fold (toLowerCase (title section)).
  destruct (trimStart_suffix (toLowerCase (title section))) as [pre H1].
  destruct (trimEnd_prefix (trimStart (toLowerCase (title section))))
    as [post H2].
  unfold trim. rewrite H1 at 1. rewrite H2 at 1.
  rewrite <- !app_assoc. apply includes_app.
Qed.

Lemma earlier_search_reset : forall query w,
  truthy (trim (toLowerCase query)) = false ->
  all_visible (nav_of (Earlier.searchDocumentation query w)) = true.
Proof.
  intros query w H. unfold Earlier.searchDocumentation. rewrite H.
  cbn [negb]. rewrite nav_of_set_nav. unfold nav_of.
  destruct (sidebarNav (page w)) as [n|]; [|reflexivity].
  unfold all_visible. apply forallb_map_true. intro s.
  cbn [set_section_display map_items section_display section_title nav_items].
  rewrite str_eqb_refl. cbn [andb forallb].
  unfold item_visible at 1. cbn [show_item display].
  rewrite str_eqb_refl. cbn [andb].
  apply forallb_map_true. intro it. unfold item_visible.
  cbn [show_item display]. apply str_eqb_refl.
Qed.

(** ** Titles and prose in the generated markup *)

Lemma occurs_in_subsections : forall x sub l,
  (forall last, occurs_in x (subsection_html last sub)) ->
  In sub l -> occurs_in x (subsections_html l).
Proof.
  intros x sub l Hx. induction l as [|y l IH]; intro Hin; [contradiction|].
  destruct Hin as [E|Hin].
  - subst y. destruct l as [|z l].
    + apply Hx.
    + change (subsections_html (sub :: z :: l))
        with (subsection_html false sub ++ subsections_html (z :: l)).
      apply occurs_left. apply Hx.
  - destruct l as [|z l]; [contradiction|].
    change (subsections_html (y :: z :: l))
      with (subsection_html false y ++ subsections_html (z :: l)).
    apply occurs_skip. apply IH. exact Hin.
Qed.

Lemma occurs_in_concat : forall x (l : list str) s,
  In s l -> occurs_in x s -> occurs_in x (concat l).
Proof.
  intros x l s. induction l as [|y l IH]; intros Hin Hx; [contradiction|].
  cbn [concat]. destruct Hin as [E|Hin].
  - subst y. apply occurs_left. exact Hx.
  - apply occurs_skip. apply IH; assumption.
Qed.

Ltac skip_to_concat :=
  lazymatch goal with
  | |- occurs_in _ (concat _ ++ _) => apply occurs_left
  | |- occurs_in _ (_ ++ _) => apply occurs_skip; skip_to_concat
  end.

(** C10. [renderSection] puts the title of the section, its prose and
    the title of each subsection into the markup it assigns to the
    content element as they are, and [buildNavigation] does the same
    with the titles in the markup it assigns to the navigation panel;
    nothing is escaped on the way, so markup in those fields reaches
    the page. *)
Theorem titles_and_prose_verbatim :
  (forall w section target old,
     docsContent (page w) = Some old ->
     exists html,
       docsContent (page (renderSection section target w)) = Some html /\
       occurs_in ("<h1>" ++ title section ++ "</h1>") html /\
       occurs_in ("<p class=" ++ Q ++ "section-description" ++ Q ++ ">" ++
                  content section ++ "</p>") html /\
       forall sub, In sub (subsections_of section) ->
         occurs_in ("<h2>" ++ subsection_title sub ++ "</h2>") html) /\
  (forall w d n section,
     docs (this w) = Some d ->
     sidebarNav (page w) = Some n ->
     In section (sections d) ->
     exists n',
       sidebarNav (page (buildNavigation w)) = Some n' /\
       nav_html n' = navHTML d /\
       occurs_in ("<div class=" ++ Q ++ "nav-item nav-section-title" ++ Q ++
                  " data-section=" ++ Q ++ id section ++ Q ++ ">" ++
                  title section ++ "</div>") (nav_html n') /\
       forall sub, In sub (subsections_of section) ->
         occurs_in (Q ++ ">" ++ subsection_title sub ++ "</div>")
                   (nav_html n')).
Proof.
  split.
  - intros w section target old H.
    exists (section_html w section).
    split; [eapply renderSection_content; exact H|].
    unfold section_html.
    split; [apply occurs_left; unfold section_header; find_occurrence|].
    split; [apply occurs_left; unfold section_header; find_occurrence|].
    intros sub Hin. apply occurs_skip. apply occurs_left.
    apply occurs_in_subsections with (sub := sub); [|exact Hin].
    intro last. unfold subsection_html. find_occurrence.
  - intros w d n section Hd Hn Hin. unfold buildNavigation.
    rewrite Hn, Hd. eexists. split; [reflexivity|].
    cbn [nav_html]. split; [reflexivity|]. unfold navHTML. split.
    + apply occurs_in_concat with (s := nav_section_html section).
      * apply in_map. exact Hin.
      * unfold nav_section_html. find_occurrence.
    + intros sub Hsub.
      apply occurs_in_concat with (s := nav_section_html section).
      * apply in_map. exact Hin.
      * unfold nav_section_html, subsections_of in *.
        destruct (subsections section) as [l|]; [|contradiction].
        skip_to_concat.
        apply occurs_in_concat with (s := nav_subsection_html section sub).
        -- apply in_map. exact Hsub.
        -- unfold nav_subsection_html. cbv zeta. find_occurrence.
Qed.

Lemma titles_and_prose_verbatim_witness :
  let section :=
    {| id := "x"; title := "<script>alert(1)</script>";
       content := "<img src=x>";
       subsections :=
         Some [{| subsection_title := "<b>bold</b>";
                  subsection_content := [] |}] |} in
  let w := loadDocs (Response true (Some {| sections := [section] |}))
             (blank_page []) in
  (exists html,
     docsContent (page (renderSection section None w)) = Some html /\
     occurs_in ("<h1><script>alert(1)</script></h1>" : str) html /\
     occurs_in ("<h2><b>bold</b></h2>" : str) html) /\
  (exists n',
     sidebarNav (page (buildNavigation w)) = Some n' /\
     occurs_in ("<div class=" ++ Q ++ "nav-item nav-section-title" ++ Q ++
                " data-section=" ++ Q ++ "x" ++ Q ++ ">" ++
                "<script>alert(1)</script>" ++ "</div>") (nav_html n') /\
     occurs_in (Q ++ ">" ++ "<b>bold</b>" ++ "</div>") (nav_html n')).
Proof.
  intros section w.
  destruct titles_and_prose_verbatim as [Hrender Hnav].
  split.
  - destruct (Hrender w section None [] eq_refl) as (html & Hh & Ht & _ & Hs).
    exists html. split; [exact Hh|]. split; [exact Ht|].
    apply (Hs {| subsection_title := "<b>bold</b>";
                 subsection_content := [] |}).
    left. reflexivity.
  - destruct (Hnav w {| sections := [section] |} empty_panel section
                eq_refl eq_refl (or_introl eq_refl))
      as (n' & Hn & _ & Ht & Hs).
    exists n'. split; [exact Hn|]. split; [exact Ht|].
    apply (Hs {| subsection_title := "<b>bold</b>";
                 subsection_content := [] |}).
    left. reflexivity.
Defined.

(** The earlier copy interpolates the same fields the same way. *)
Lemma earlier_titles_verbatim : forall section,
  occurs_in ("<h1>" ++ title section ++ "</h1>")
            (Earlier.section_html section) /\
  occurs_in ("<p>" ++ content section ++ "</p>")
            (Earlier.section_html section) /\
  forall sub, In sub (subsections_of section) ->
    occurs_in ("<h2>" ++ subsection_title sub ++ "</h2>")
              (Earlier.section_html section).
Proof.
  intro section. unfold Earlier.section_html.
  split; [apply occurs_left; unfold Earlier.section_header; find_occurrence|].
  split; [apply occurs_left; unfold Earlier.section_header; find_occurrence|].
  intros sub Hin. apply occurs_skip.
  apply occurs_in_concat with (s := Earlier.subsection_html sub).
  - apply in_map. exact Hin.
  - unfold Earlier.subsection_html. find_occurrence.
Qed.

(** ** Code in the rendered markup *)

(** The content of a fenced block goes through [escapeHtml], which
    leaves no angle bracket behind. *)
Lemma escapeHtml_no_angle : forall s,
  free_of (fun c => is_char "<" c || is_char ">" c) (escapeHtml s) = true.
Proof.
  induction s as [|c t IH]; [reflexivity|].
  unfold escapeHtml in *. cbn [flat_map]. unfold free_of in *.
  rewrite forallb_app, IH, andb_true_r. unfold escape_char.
  destruct (is_char "&" c); [reflexivity|].
  destruct (is_char "<" c) eqn:E1; [reflexivity|].
  destruct (is_char ">" c) eqn:E2; [reflexivity|].
  destruct (code c =? 160); [reflexivity|].
  cbn [forallb]. rewrite E1, E2. reflexivity.
Qed.

Lemma fenced_code_escaped :
  renderMarkdown ("```" ++ [LF] ++ "<b>&</b>" ++ [LF] ++ "```") =
  pipeline (tl markdown_stages)
    (code_block "text" "&lt;b&gt;&amp;&lt;/b&gt;").
Proof. vm_compute. reflexivity. Qed.

Lemma renderMarkdown_of : forall s html,
  truthy s = true ->
  pipeline markdown_stages s = html ->
  renderMarkdown s = wrap_paragraph html.
Proof.
  intros s html Ht Hp. unfold renderMarkdown. rewrite Ht, Hp. reflexivity.
Qed.

(** C1 fails on inline code.  A span between single backticks is
    copied into the markup as it is: whatever the span holds (angle
    brackets, ampersands, quotes), short of markdown tokens, line
    breaks and a spelled-out list item, the renderer returns it
    unchanged between the tags of the inline code element. *)
Theorem inline_code_not_escaped : forall body,
  body <> [] ->
  free_of inline_token body = true ->
  no_newlines body = true ->
  includes ("<code class=" ++ Q ++ "inline-code" ++ Q ++ ">" ++
            body ++ "</code>") "<li>" = false ->
  renderMarkdown ("`" ++ body ++ "`") =
  "<code class=" ++ Q ++ "inline-code" ++ Q ++ ">" ++ body ++ "</code>".
Proof.
  intros body Hne Htok Hnl Hli.
  assert (Hbt : free_of (is_char "`") body = true).
  { apply (free_of_weaken inline_token); [|exact Htok].
    intros c Hc. unfold inline_token. rewrite Hc. reflexivity. }
  destruct (inline_span_tokens body Htok Hnl) as [Htok' Hnl'].
  change ("`" ++ body ++ "`") with ("`"%char :: body ++ ["`"%char]).
  rewrite (renderMarkdown_of _
             ("<code class=" ++ Q ++ "inline-code" ++ Q ++ ">" ++
              body ++ "</code>")).
  - reflexivity.
  - reflexivity.
  - rewrite pipeline_split. unfold fence_re.
    rewrite (replace_all_without false "```");
      [|apply no_fence_in_span; assumption].
    rewrite (inline_code_replace _ body Hne Hbt).
    unfold group. cbn [groups capture_of Nat.eqb].
    apply plain_late_stages; assumption.
Qed.

Lemma inline_code_not_escaped_witness :
  renderMarkdown "`<img src=x onerror=alert(1)>`" =
  "<code class=" ++ Q ++ "inline-code" ++ Q ++
  "><img src=x onerror=alert(1)></code>".
Proof.
  apply (inline_code_not_escaped "<img src=x onerror=alert(1)>").
  - discriminate.
  - reflexivity.
  - reflexivity.
  - reflexivity.
Defined.

(** The earlier copy has the same gap. *)
Lemma earlier_inline_code_not_escaped :
  Earlier.renderMarkdown "`<img src=x onerror=alert(1)>`" =
  "<code><img src=x onerror=alert(1)></code>".
Proof. vm_compute. reflexivity. Qed.

(** ** The location fragment *)

Lemma pushState_hash : forall url w,
  truthy (tl url) = true -> location_hash (page (pushState url w)) = url.
Proof. intros url w H. cbn [pushState page location_hash]. rewrite H. reflexivity. Qed.

(** [loadSection] leaves the fragment it was asked for in the
    location. *)
Lemma loadSection_fragment : forall w d section sectionId subsectionId,
  docs (this w) = Some d ->
  find (fun s => str_eqb (id s) sectionId) (sections d) = Some section ->
  truthy sectionId = true ->
  exists w', loadSection sectionId subsectionId true w = Done w' /\
             location_hash (page w') = section_url sectionId subsectionId /\
             currentSection (this w') = sectionId /\
             docs (this w') = Some d.
Proof.
  intros w d section sectionId subsectionId Hd Hf Hid.
  unfold loadSection. rewrite Hd, Hf. eexists. split; [reflexivity|].
  match goal with
  | |- context [updateActiveNavItem ?a ?b ?x] =>
      destruct (updateActiveNavItem_keeps a b x) as (Ht & _ & Hh)
  end.
  rewrite Hh, Ht.
  match goal with
  | |- context [renderSection ?a ?b ?x] =>
      destruct (renderSection_keeps a b x) as (Ht' & Hh')
  end.
  rewrite Hh', Ht'. split; [|split; [reflexivity | exact Hd]].
  apply pushState_hash.
  destruct sectionId as [|c s]; [discriminate|].
  unfold section_url.
  destruct subsectionId as [u|]; [destruct (truthy u)|]; reflexivity.
Qed.

(** Without a subsection the fragment leads back to the section. *)
Lemma section_fragment_resolves : forall w w' d section sectionId,
  docs (this w) = Some d ->
  find (fun s => str_eqb (id s) sectionId) (sections d) = Some section ->
  truthy sectionId = true ->
  loadSection sectionId None true w = Done w' ->
  getCurrentSectionFromURL w' = sectionId.
Proof.
  intros w w' d section sectionId Hd Hf Hid Hl.
  destruct (loadSection_fragment w d section sectionId None Hd Hf Hid)
    as (w1 & Hl1 & Hh & _).
  rewrite Hl in Hl1. inversion Hl1; subst w1.
  unfold getCurrentSectionFromURL. rewrite Hh. simpl.
  rewrite Hid. reflexivity.
Qed.

(** A page opened at a fragment that names no section: [init] ends on
    the error message and the current section keeps its initial
    value. *)
Lemma init_unknown_fragment : forall d w old,
  docsContent (page w) = Some old ->
  (forall s, In s (sections d) -> id s <> getCurrentSectionFromURL w) ->
  currentSection (this (init (Response true (Some d)) w)) =
    currentSection (this w) /\
  exists html,
    docsContent (page (init (Response true (Some d)) w)) = Some html /\
    occurs_in "Section not found." html.
Proof.
  intros d w old Hc Habs. unfold init. rewrite Hc.
  set (w1 := showLoadingState (set_isLoading true w)).
  set (w2 := buildNavigation
               (buildSearchIndex (loadDocs (Response true (Some d)) w1))).
  assert (Hd2 : docs (this w2) = Some d).
  { subst w2. rewrite (proj1 (buildNavigation_keeps _)).
    rewrite (proj1 (buildSearchIndex_keeps _)). reflexivity. }
  assert (Hc2 : docsContent (page w2) = Some loading_html).
  { subst w2 w1. rewrite (proj2 (buildNavigation_keeps _)).
    rewrite (proj2 (buildSearchIndex_keeps _)).
    unfold loadDocs, showLoadingState. cbn [set_docs page set_isLoading].
    rewrite Hc. reflexivity. }
  assert (Hh2 : location_hash (page w2) = location_hash (page w)).
  { subst w2 w1. rewrite (proj2 (buildNavigation_keeps_route _)).
    rewrite (proj2 (buildSearchIndex_keeps_route _)).
    unfold loadDocs, showLoadingState. cbn [set_docs page set_isLoading].
    rewrite Hc. reflexivity. }
  assert (Hs2 : currentSection (this w2) = currentSection (this w)).
  { subst w2 w1. rewrite (proj1 (buildNavigation_keeps_route _)).
    rewrite (proj1 (buildSearchIndex_keeps_route _)).
    unfold loadDocs, showLoadingState. cbn [set_docs this set_isLoading page].
    rewrite Hc. reflexivity. }
  assert (Hu : getCurrentSectionFromURL w2 = getCurrentSectionFromURL w).
  { unfold getCurrentSectionFromURL. rewrite Hh2. reflexivity. }
  unfold loadSection. rewrite Hd2, Hu, (find_absent _ _ Habs).
  destruct (showError_not_loading "Section not found." w2 _ Hc2)
    as (html & Hh & Hn).
  destruct (showError_only_content "Section not found." w2) as (Ht & _).
  rewrite (not_loading_not_empty html); auto.
  cbn [set_isLoading this currentSection page]. rewrite Ht.
  split; [exact Hs2|].
  destruct (showError_shown "Section not found." w2 _ Hc2) as (h' & Hh' & Ho).
  exists h'. split; assumption.
Qed.

(** C2 fails with a subsection.  [loadSection] writes the fragment
    [#sectionId-subsectionId], but the fragment is read back as one
    section id: unless a section happens to carry that id, the page
    reloaded at this location (with the same document) shows the error
    message and keeps the initial current section, and [popstate]
    shows the error message too; section and subsection are not
    restored. *)
Theorem subsection_fragment_not_restored :
  forall w d section sectionId sub,
  docs (this w) = Some d ->
  find (fun s => str_eqb (id s) sectionId) (sections d) = Some section ->
  truthy sectionId = true ->
  truthy sub = true ->
  (forall s, In s (sections d) -> id s <> sectionId ++ "-" ++ sub) ->
  exists w',
    loadSection sectionId (Some sub) true w = Done w' /\
    currentSection (this w') = sectionId /\
    location_hash (page w') = "#" ++ sectionId ++ "-" ++ sub /\
    onPopState w' = Done (showError "Section not found." w') /\
    forall width old nav,
      let reloaded := init (Response true (Some d))
                        (fresh (location_hash (page w')) width (Some old) nav)
      in
      currentSection (this reloaded) = "getting-started" /\
      exists html, docsContent (page reloaded) = Some html /\
                   occurs_in "Section not found." html.
Proof.
  intros w d section sectionId sub Hd Hf Hid Hsub Habs.
  destruct (loadSection_fragment w d section sectionId (Some sub) Hd Hf Hid)
    as (w' & Hl & Hh & Hs & Hd').
  unfold section_url in Hh. rewrite Hsub in Hh.
  assert (Hu : forall x, location_hash (page x) = location_hash (page w') ->
                         getCurrentSectionFromURL x = sectionId ++ "-" ++ sub).
  { intros x Hx. unfold getCurrentSectionFromURL. rewrite Hx, Hh.
    simpl tl. destruct sectionId; [discriminate | reflexivity]. }
  exists w'. split; [exact Hl|]. split; [exact Hs|]. split; [exact Hh|].
  split.
  - unfold onPopState, loadSection. rewrite Hd', (Hu w' eq_refl).
    rewrite (find_absent _ _ Habs). reflexivity.
  - intros width old nav reloaded. subst reloaded.
    destruct (init_unknown_fragment d
                (fresh (location_hash (page w')) width (Some old) nav) old
                eq_refl) as [H1 H2].
    + rewrite (Hu (fresh (location_hash (page w')) width (Some old) nav)
                 eq_refl).
      exact Habs.
    + split; [exact H1 | exact H2].
Qed.

Lemma sample_has_no_joined_id :
  forall s, In s (sections getSampleDocs) ->
            id s <> ("api" ++ "-" ++ "webhook-class" : str).
Proof.
  intros s H. simpl in H.
  destruct H as [H|[H|[H|[]]]]; subst s; discriminate.
Qed.

Lemma subsection_fragment_not_restored_witness :
  let w := loadDocs NetworkError (blank_page []) in
  exists w',
    loadSection "api" (Some ("webhook-class" : str)) true w = Done w' /\
    currentSection (this w') = "api" /\
    location_hash (page w') = "#" ++ "api" ++ "-" ++ "webhook-class" /\
    onPopState w' = Done (showError "Section not found." w') /\
    forall width old nav,
      let reloaded := init (Response true (Some getSampleDocs))
                        (fresh (location_hash (page w')) width (Some old) nav)
      in
      currentSection (this reloaded) = "getting-started" /\
      exists html, docsContent (page reloaded) = Some html /\
                   occurs_in "Section not found." html.
Proof.
  intro w.
  exact (subsection_fragment_not_restored w getSampleDocs sample_1
           "api" "webhook-class" eq_refl eq_refl eq_refl eq_refl
           sample_has_no_joined_id).
Defined.

(** The same on the running page, step by step: after the sample
    document is up, [loadSection('api', 'webhook-class')] and a
    reload. *)
Lemma reload_after_subsection_example :
  let w := init NetworkError (blank_page []) in
  exists w',
    loadSection "api" (Some ("webhook-class" : str)) true w = Done w' /\
    location_hash (page w') = "#api-webhook-class" /\
    let reloaded := init NetworkError (blank_page (location_hash (page w'))) in
    getCurrentSectionFromURL (blank_page (location_hash (page w'))) =
      "api-webhook-class" /\
    currentSection (this reloaded) = "getting-started" /\
    docsContent (page reloaded) =
      docsContent (page (showError "Section not found." reloaded)).
Proof.
  intro w. eexists. split; [vm_compute; reflexivity|].
  split; [vm_compute; reflexivity|].
  split; [vm_compute; reflexivity|].
  split; vm_compute; reflexivity.
Qed.

(** ** Plain text *)

(** C9 fails on plain text that opens with an angle bracket.  The
    last step of [renderMarkdown] is to wrap in paragraph tags what is
    not already wrapped, as its comment says, but it takes every
    leading angle bracket for a wrapping tag: this text has no
    markdown token and no tag, and comes back without a paragraph. *)
Lemma plain_text_not_wrapped :
  ("<3 webhooks" : str) <> [] /\
  no_markdown_tokens "<3 webhooks" = true /\
  no_newlines "<3 webhooks" = true /\
  renderMarkdown "<3 webhooks" = "<3 webhooks" /\
  renderMarkdown "<3 webhooks" <> "<p><3 webhooks</p>".
Proof.
  split; [discriminate|]. split; [reflexivity|]. split; [reflexivity|].
  split; [vm_compute; reflexivity|]. vm_compute. discriminate.
Qed.

(** Where C9 holds of [script.js]: the empty string renders to the
    empty string; and a non-empty text on one line, free of markdown
    tokens, that does not open with an angle bracket and spells out no
    list item, renders to itself inside one paragraph. *)
Theorem plain_text_paragraph :
  renderMarkdown [] = [] /\
  forall s,
    s <> [] ->
    no_markdown_tokens s = true ->
    no_newlines s = true ->
    startsWith "<" s = false ->
    includes s "<li>" = false ->
    renderMarkdown s = "<p>" ++ s ++ "</p>".
Proof.
  split; [reflexivity|].
  intros s Hne Htok Hnl Hlt Hli.
  rewrite (renderMarkdown_of s s).
  - unfold wrap_paragraph. rewrite Hlt. reflexivity.
  - destruct s; [contradiction | reflexivity].
  - apply plain_pipeline; assumption.
Qed.

Lemma plain_text_paragraph_witness :
  renderMarkdown "Send a message & wait." = "<p>Send a message & wait.</p>".
Proof.
  destruct plain_text_paragraph as [_ H].
  apply (H ("Send a message & wait." : str)).
  - discriminate.
  - reflexivity.
  - reflexivity.
  - reflexivity.
  - reflexivity.
Defined.

(** The earlier copy adds no paragraph at all. *)
Lemma earlier_plain_text :
  Earlier.renderMarkdown "Send a message & wait." = "Send a message & wait.".
Proof. vm_compute. reflexivity. Qed.

(** * Further properties of the script *)

(** ** Debounced listeners *)

Lemma last_default : forall (A : Type) (l : list A) x d d',
  last (x :: l) d = last (x :: l) d'.
Proof.
  intros A l. induction l as [|y l IH]; intros x d d'; [reflexivity|].
  change (last (y :: l) d = last (y :: l) d'). apply IH.
Qed.

Lemma run_burst : forall (A : Type) wait (calls : list (nat * A)) t a,
  burst wait t calls = true ->
  Debounce.run A wait (Some (t + wait, a)) calls =
  [delayed wait (last calls (t, a))].
Proof.
  intros A wait calls. induction calls as [|[t' a'] more IH]; intros t a H.
  - reflexivity.
  - cbn [burst] in H. apply andb_prop in H. destruct H as [H Hm].
    apply andb_prop in H. destruct H as [_ Hlt].
    apply Nat.ltb_lt in Hlt.
    cbn [Debounce.run].
    destruct (t + wait <=? t') eqn:E; [apply Nat.leb_le in E; lia|].
    unfold Debounce.executedFunction. rewrite (IH t' a' Hm).
    destruct more as [|p more']; [reflexivity|].
    change (last ((t', a') :: p :: more') (t, a))
      with (last (p :: more') (t, a)).
    rewrite (last_default _ more' p (t', a') (t, a)). reflexivity.
Qed.

Lemma run_spaced : forall (A : Type) wait (calls : list (nat * A)) t a,
  spaced wait t calls = true ->
  Debounce.run A wait (Some (t + wait, a)) calls =
  map (delayed wait) ((t, a) :: calls).
Proof.
  intros A wait calls. induction calls as [|[t' a'] more IH]; intros t a H.
  - reflexivity.
  - cbn [spaced] in H. apply andb_prop in H. destruct H as [Hle Hm].
    cbn [Debounce.run]. rewrite Hle.
    unfold Debounce.executedFunction. rewrite (IH t' a' Hm). reflexivity.
Qed.

(** X1. Calls of a debounced function that follow each other in less
    than [wait] come to one call of the function, with the arguments of
    the last call and [wait] after it; calls that are at least [wait]
    apart all get through, each [wait] late. *)
Theorem debounce_burst_and_spaced :
  forall (A : Type) wait t (a : A) calls,
  (burst wait t calls = true ->
   Debounce.debounce A wait ((t, a) :: calls) =
   [delayed wait (last calls (t, a))]) /\
  (spaced wait t calls = true ->
   Debounce.debounce A wait ((t, a) :: calls) =
   map (delayed wait) ((t, a) :: calls)).
Proof.
  intros A wait t a calls. split; intro H.
  - apply (run_burst A wait calls t a H).
  - apply (run_spaced A wait calls t a H).
Qed.

Lemma debounce_burst_and_spaced_witness :
  Debounce.debounce str 300 [(0, "a" : str); (120, "ab" : str); (250, "abc" : str)] =
    [(550, "abc" : str)] /\
  Debounce.debounce str 300 [(0, "a" : str); (300, "ab" : str); (700, "abc" : str)] =
    [(300, "a" : str); (600, "ab" : str); (1000, "abc" : str)].
Proof.
  split.
  - apply (debounce_burst_and_spaced str 300 0 ("a" : str)
             [(120, "ab" : str); (250, "abc" : str)]). reflexivity.
  - apply (debounce_burst_and_spaced str 300 0 ("a" : str)
             [(300, "ab" : str); (700, "abc" : str)]). reflexivity.
Defined.

(** ** The sidebar *)

Lemma sidebar_toggle_shown : forall st,
  sidebar_shown st -> sidebar_shown (SidebarManager.toggle st).
Proof.
  intros st (Hs & Ho & Ht). unfold SidebarManager.toggle.
  destruct (SidebarManager.isAnimating st) eqn:Ea.
  - unfold sidebar_shown. rewrite Ea. auto.
  - unfold sidebar_shown. cbn. rewrite Hs, Ho, Ht. auto.
Qed.

Lemma sidebar_fire_shown : forall st,
  sidebar_shown st -> sidebar_shown (SidebarManager.fire st).
Proof.
  intros st (Hs & Ho & Ht). unfold SidebarManager.fire.
  destruct (SidebarManager.timers st) as [|n] eqn:En.
  - unfold sidebar_shown. rewrite En. destruct (SidebarManager.isAnimating st); auto.
  - unfold sidebar_shown. cbn.
    destruct (SidebarManager.isAnimating st); [|discriminate].
    inversion Ht. auto.
Qed.

Lemma sidebar_swipe_shown : forall x y m st,
  sidebar_shown st -> sidebar_shown (SidebarManager.set_swipe x y m st).
Proof. intros x y m st H. exact H. Qed.

Lemma sidebar_open_shown : forall st,
  sidebar_shown st -> sidebar_shown (SidebarManager.open st).
Proof.
  intros st H. unfold SidebarManager.open.
  destruct (negb (SidebarManager.isOpen st)); [apply sidebar_toggle_shown|]; exact H.
Qed.

Lemma sidebar_close_shown : forall st,
  sidebar_shown st -> sidebar_shown (SidebarManager.close st).
Proof.
  intros st H. unfold SidebarManager.close.
  destruct (SidebarManager.isOpen st); [apply sidebar_toggle_shown|]; exact H.
Qed.

Lemma sidebar_handle_shown : forall st e,
  sidebar_shown st -> sidebar_shown (SidebarManager.handle st e).
Proof.
  intros st e H.
  destruct e as [ | | width | key | width | clientX clientY
                | clientX clientY | | ];
    cbn [SidebarManager.handle].
  - apply sidebar_toggle_shown, H.
  - apply sidebar_close_shown, H.
  - destruct (width <=? 768); [apply sidebar_close_shown|]; exact H.
  - destruct (str_eqb key "Escape" && SidebarManager.isOpen st);
      [apply sidebar_close_shown|]; exact H.
  - destruct ((768 <? width) && SidebarManager.isOpen st);
      [apply sidebar_close_shown|]; exact H.
  - unfold SidebarManager.onTouchStart.
    destruct (SidebarManager.isTouch st); [apply sidebar_swipe_shown|]; exact H.
  - unfold SidebarManager.onTouchMove.
    destruct (negb (SidebarManager.isTouch st)); [exact H|].
    destruct (SidebarManager.startX st =? 0)%Z; [exact H|].
    cbv zeta.
    destruct (Z.abs (clientY - SidebarManager.startY st) <?
              Z.abs (clientX - SidebarManager.startX st))%Z;
      [|apply sidebar_swipe_shown, H].
    destruct ((SidebarManager.startX st <? 50)%Z &&
              (100 <? clientX - SidebarManager.startX st)%Z &&
              negb (SidebarManager.isOpen st)).
    + apply sidebar_open_shown, sidebar_swipe_shown, H.
    + destruct (SidebarManager.isOpen st &&
                (100 <? clientX - SidebarManager.startX st)%Z).
      * apply sidebar_close_shown, sidebar_swipe_shown, H.
      * apply sidebar_swipe_shown, H.
  - unfold SidebarManager.onTouchEnd.
    destruct (SidebarManager.isTouch st); [apply sidebar_swipe_shown|]; exact H.
  - apply sidebar_fire_shown, H.
Qed.

(** X2. On a page whose sidebar and overlay start out closed, whatever
    the listeners receive and in whatever order: the class [open] of the
    sidebar and the class [show] of the overlay equal [isOpen], and a
    transition is in progress exactly while one callback is pending, so
    that it always ends. *)
Theorem sidebar_always_shown : forall tg overflow haptic touch es,
  sidebar_shown
    (SidebarManager.run
       (SidebarManager.create (Some false) (Some false) tg overflow
          haptic touch)
       es).
Proof.
  intros tg overflow haptic touch es. unfold SidebarManager.run.
  set (st := SidebarManager.create _ _ _ _ _ _).
  assert (H : sidebar_shown st) by (unfold sidebar_shown; cbn; auto).
  clearbody st. revert st H.
  induction es as [|e es IH]; intros st H; [exact H|].
  cbn [fold_left]. apply IH, sidebar_handle_shown, H.
Qed.

(** X3. [close] right after [open] is dropped: until the callback of the
    transition has run the sidebar stays open, and only then does
    [close] close it. *)
Theorem sidebar_close_inside_transition : forall st,
  SidebarManager.isOpen st = false ->
  SidebarManager.isAnimating st = false ->
  SidebarManager.close (SidebarManager.open st) = SidebarManager.open st /\
  SidebarManager.isOpen (SidebarManager.open st) = true /\
  SidebarManager.isOpen
    (SidebarManager.close (SidebarManager.fire (SidebarManager.open st)))
    = false.
Proof.
  intros st Ho Ha.
  unfold SidebarManager.open, SidebarManager.close, SidebarManager.toggle,
    SidebarManager.fire.
  rewrite Ho, Ha. cbn. auto.
Qed.

Lemma sidebar_close_inside_transition_witness :
  let st := SidebarManager.create (Some false) (Some false) None [] false true in
  SidebarManager.close (SidebarManager.open st) = SidebarManager.open st /\
  SidebarManager.isOpen (SidebarManager.open st) = true /\
  SidebarManager.isOpen
    (SidebarManager.close (SidebarManager.fire (SidebarManager.open st)))
    = false.
Proof.
  apply (sidebar_close_inside_transition
           (SidebarManager.create (Some false) (Some false) None [] false true));
    reflexivity.
Defined.

(** X4. On a touch device, with the sidebar closed and at rest: a mostly
    horizontal move of more than 100 pixels to the right that began
    within 50 pixels of the left edge opens the sidebar; a touch that
    began at the very edge, at 0, is taken for no touch and every move
    after it is ignored; and when the first swipe goes on after the
    transition has ended, its next move closes the sidebar again. *)
Theorem sidebar_edge_swipe : forall st x y x' y' x'' y'',
  SidebarManager.isTouch st = true ->
  SidebarManager.isOpen st = false ->
  SidebarManager.isAnimating st = false ->
  (0 < x < 50)%Z ->
  (100 < x' - x)%Z -> (Z.abs (y' - y) < Z.abs (x' - x))%Z ->
  (100 < x'' - x)%Z -> (Z.abs (y'' - y) < Z.abs (x'' - x))%Z ->
  SidebarManager.isOpen
    (SidebarManager.run st
       [SidebarManager.TouchStart x y; SidebarManager.TouchMove x' y'])
    = true /\
  SidebarManager.run st
    [SidebarManager.TouchStart 0 y; SidebarManager.TouchMove x' y'] =
  SidebarManager.run st [SidebarManager.TouchStart 0 y] /\
  SidebarManager.isOpen
    (SidebarManager.run st
       [SidebarManager.TouchStart x y; SidebarManager.TouchMove x' y';
        SidebarManager.TimerFires; SidebarManager.TouchMove x'' y''])
    = false.
Proof.
  intros st x y x' y' x'' y'' Ht Ho Ha Hx Hd Hh Hd' Hh'.
  assert (E0 : (x =? 0)%Z = false) by (apply Z.eqb_neq; lia).
  assert (E1 : (x <? 50)%Z = true) by (apply Z.ltb_lt; lia).
  assert (E2 : (100 <? x' - x)%Z = true) by (apply Z.ltb_lt; lia).
  assert (E3 : (Z.abs (y' - y) <? Z.abs (x' - x))%Z = true)
    by (apply Z.ltb_lt; lia).
  assert (E4 : (100 <? x'' - x)%Z = true) by (apply Z.ltb_lt; lia).
  assert (E5 : (Z.abs (y'' - y) <? Z.abs (x'' - x))%Z = true)
    by (apply Z.ltb_lt; lia).
  unfold SidebarManager.run. cbn [fold_left SidebarManager.handle].
  unfold SidebarManager.onTouchStart. rewrite Ht.
  split; [|split].
  - unfold SidebarManager.onTouchMove. cbn.
    rewrite Ht, E0, E3, E1, E2, Ho. cbn.
    unfold SidebarManager.open, SidebarManager.toggle. cbn.
    rewrite Ho, Ha. reflexivity.
  - unfold SidebarManager.onTouchMove. cbn. rewrite Ht. reflexivity.
  - unfold SidebarManager.onTouchMove at 2. cbn.
    rewrite Ht, E0, E3, E1, E2, Ho. cbn.
    unfold SidebarManager.open, SidebarManager.toggle. cbn.
    rewrite Ho, Ha. cbn.
    unfold SidebarManager.fire. cbn.
    unfold SidebarManager.onTouchMove. cbn.
    rewrite Ht, E0, E5, E1, E4. cbn.
    unfold SidebarManager.close, SidebarManager.toggle. cbn. reflexivity.
Qed.

Lemma sidebar_edge_swipe_witness :
  let st := SidebarManager.create (Some false) (Some false) None [] false true in
  SidebarManager.isOpen
    (SidebarManager.run st
       [SidebarManager.TouchStart 10 200; SidebarManager.TouchMove 130 210])
    = true /\
  SidebarManager.run st
    [SidebarManager.TouchStart 0 200; SidebarManager.TouchMove 130 210] =
  SidebarManager.run st [SidebarManager.TouchStart 0 200] /\
  SidebarManager.isOpen
    (SidebarManager.run st
       [SidebarManager.TouchStart 10 200; SidebarManager.TouchMove 130 210;
        SidebarManager.TimerFires; SidebarManager.TouchMove 180 215])
    = false.
Proof.
  apply (sidebar_edge_swipe
           (SidebarManager.create (Some false) (Some false) None [] false true)
           10%Z 200%Z 130%Z 210%Z 180%Z 215%Z);
    try reflexivity; cbn; lia.
Defined.

(** ** The listeners of the mobile menu *)

Lemma filter_end_app : forall a b,
  length (filter is_EndAnimation (a ++ b)) =
  length (filter is_EndAnimation a) + length (filter is_EndAnimation b).
Proof. intros a b. rewrite filter_app, length_app. reflexivity. Qed.

Lemma menu_toggle_steady : forall st,
  menu_steady st -> menu_steady (MobileMenuManager.toggle st).
Proof.
  intros st [(n & t & Hn & Ht & He & Hh & Hc) Hf].
  unfold MobileMenuManager.toggle.
  destruct (MobileMenuManager.isAnimating st) eqn:Ea.
  - split; [exists n, t; auto | rewrite Ea; exact Hf].
  - split.
    + unfold menu_announced. cbn. rewrite Hn, Ht.
      destruct (negb (MobileMenuManager.isOpen st)); cbn;
        eexists; eexists; repeat split; exact Hc.
    + cbn. rewrite Hn, Ht. rewrite !filter_end_app, Hf.
      destruct (negb (MobileMenuManager.isOpen st)); reflexivity.
Qed.

Lemma menu_close_steady : forall st,
  menu_steady st -> menu_steady (MobileMenuManager.close st).
Proof.
  intros st H. unfold MobileMenuManager.close.
  destruct (negb (MobileMenuManager.isOpen st) || MobileMenuManager.isAnimating st);
    [exact H | apply menu_toggle_steady, H].
Qed.

Lemma menu_fire_steady : forall st,
  menu_steady st -> menu_steady (MobileMenuManager.fire st).
Proof.
  intros st [(n & t & Hn & Ht & He & Hh & Hc) Hf].
  unfold MobileMenuManager.fire.
  destruct (MobileMenuManager.timers st) as [|tm pending] eqn:Et.
  - split; [exists n, t; auto | rewrite Et; exact Hf].
  - split.
    + unfold menu_announced. cbn. rewrite Hn, Ht.
      destruct tm; cbn; eexists; eexists; repeat split; eassumption.
    + cbn. cbn [filter] in Hf.
      destruct tm; cbn [is_EndAnimation] in Hf; try exact Hf.
      destruct (MobileMenuManager.isAnimating st); cbn [length] in Hf; lia.
Qed.

Lemma menu_overflow_steady : forall v st,
  menu_steady st -> menu_steady (MobileMenuEvents.set_overflow v st).
Proof. intros v st H. exact H. Qed.

Lemma menu_handle_steady : forall l e,
  menu_steady (MobileMenuEvents.manager l) ->
  menu_steady (MobileMenuEvents.manager (MobileMenuEvents.handle l e)).
Proof.
  intros l e H.
  destruct e as [target | target | key | width | target clientY
                | target clientY | ];
    cbn [MobileMenuEvents.handle].
  - destruct (MobileMenuEvents.in_toggle target);
      [apply menu_toggle_steady|]; exact H.
  - destruct (MobileMenuEvents.in_link target ||
              MobileMenuManager.isOpen (MobileMenuEvents.manager l) &&
              negb (MobileMenuEvents.in_content target));
      [apply menu_close_steady|]; exact H.
  - destruct (str_eqb key "Escape" &&
              MobileMenuManager.isOpen (MobileMenuEvents.manager l));
      [apply menu_close_steady|]; exact H.
  - destruct ((768 <? width) &&
              MobileMenuManager.isOpen (MobileMenuEvents.manager l));
      [apply menu_overflow_steady, menu_close_steady|]; exact H.
  - destruct (MobileMenuManager.isOpen (MobileMenuEvents.manager l) &&
              MobileMenuEvents.in_nav target); exact H.
  - destruct (MobileMenuManager.isOpen (MobileMenuEvents.manager l) &&
              MobileMenuEvents.in_nav target); [|exact H].
    destruct (clientY - MobileMenuEvents.touchStartY l <? -100)%Z;
      [apply menu_close_steady|]; exact H.
  - apply menu_fire_steady, H.
Qed.

(** X5. On a page that has the menu and its toggle, whatever the
    listeners receive and in whatever order: [aria-expanded] of the
    toggle says whether the menu is open, [aria-hidden] of the menu says
    the opposite, and a transition is in progress exactly while the
    timer that ends it is pending, so that the menu can always be
    toggled again once its timers have run. *)
Theorem menu_always_announced : forall nav tog overflow haptic es,
  let st := MobileMenuEvents.manager
              (MobileMenuEvents.run
                 (MobileMenuEvents.create (Some nav) (Some tog) overflow haptic)
                 es) in
  menu_announced st /\
  length (filter is_EndAnimation (MobileMenuManager.timers st)) =
    (if MobileMenuManager.isAnimating st then 1 else 0).
Proof.
  intros nav tog overflow haptic es. cbv zeta.
  change (menu_steady
            (MobileMenuEvents.manager
               (MobileMenuEvents.run
                  (MobileMenuEvents.create (Some nav) (Some tog) overflow haptic)
                  es))).
  unfold MobileMenuEvents.run.
  set (l := MobileMenuEvents.create _ _ _ _).
  assert (H : menu_steady (MobileMenuEvents.manager l)).
  { split; [|reflexivity]. unfold menu_announced. cbn.
    eexists; eexists; repeat split. }
  clearbody l. revert l H.
  induction es as [|e es IH]; intros l H; [exact H|].
  cbn [fold_left]. apply IH, menu_handle_steady, H.
Qed.

(** X6. A tap on the toggle reaches two listeners, the one that closes
    an open menu on a click outside its content at once and the
    debounced one that toggles 100 ms later, inside the 300 ms of the
    transition. On a menu at rest the two together flip the menu once,
    open or closed. *)
Theorem menu_tap_flips_once : forall l t,
  MobileMenuManager.isAnimating (MobileMenuEvents.manager l) = false ->
  MobileMenuEvents.in_toggle t = true ->
  MobileMenuEvents.in_link t = false ->
  MobileMenuEvents.in_content t = false ->
  let l' := MobileMenuEvents.run l
              [MobileMenuEvents.Click t; MobileMenuEvents.ToggleHandler t] in
  MobileMenuManager.isOpen (MobileMenuEvents.manager l') =
    negb (MobileMenuManager.isOpen (MobileMenuEvents.manager l)) /\
  MobileMenuEvents.manager l' =
    MobileMenuManager.toggle (MobileMenuEvents.manager l).
Proof.
  intros [st y] t Ha Ht Hl Hc. cbv zeta.
  unfold MobileMenuEvents.run. cbn [fold_left MobileMenuEvents.handle].
  cbn [MobileMenuEvents.manager] in *. rewrite Hl, Hc, Ht.
  destruct st as [o a y0 n tg bo ff cv vs ts].
  cbn [MobileMenuManager.isAnimating] in Ha. subst a.
  destruct o; cbn; split; reflexivity.
Qed.

Lemma menu_tap_flips_once_witness :
  let l := MobileMenuEvents.create
             (Some {| MobileMenuManager.opening := false;
                      MobileMenuManager.open := false;
                      MobileMenuManager.closing := false;
                      MobileMenuManager.aria_hidden := None |})
             (Some {| MobileMenuManager.active := false;
                      MobileMenuManager.aria_expanded := None;
                      MobileMenuManager.aria_controls := None |})
             [] false in
  let t := {| MobileMenuEvents.in_toggle := true;
              MobileMenuEvents.in_link := false;
              MobileMenuEvents.in_content := false;
              MobileMenuEvents.in_nav := false |} in
  let l' := MobileMenuEvents.run l
              [MobileMenuEvents.Click t; MobileMenuEvents.ToggleHandler t] in
  MobileMenuManager.isOpen (MobileMenuEvents.manager l') =
    negb (MobileMenuManager.isOpen (MobileMenuEvents.manager l)) /\
  MobileMenuEvents.manager l' =
    MobileMenuManager.toggle (MobileMenuEvents.manager l).
Proof.
  cbv zeta.
  apply (menu_tap_flips_once
           (MobileMenuEvents.create
             (Some {| MobileMenuManager.opening := false;
                      MobileMenuManager.open := false;
                      MobileMenuManager.closing := false;
                      MobileMenuManager.aria_hidden := None |})
             (Some {| MobileMenuManager.active := false;
                      MobileMenuManager.aria_expanded := None;
                      MobileMenuManager.aria_controls := None |})
             [] false)
           {| MobileMenuEvents.in_toggle := true;
              MobileMenuEvents.in_link := false;
              MobileMenuEvents.in_content := false;
              MobileMenuEvents.in_nav := false |}); reflexivity.
Defined.

(** ** The copy button *)

(** X7. One copy, and the label of the button is back when the timer of
    the feedback has run. A second copy before that keeps the message of
    the first as the label to go back to: after both timers the button
    shows that message, with nothing pending that would change it. *)
Theorem copy_label_after_feedback : forall api exec text st,
  Copy.timers st = [] ->
  let once := Copy.copyCode api exec text st in
  let twice := Copy.copyCode api exec text once in
  Copy.textContent (Copy.button (Copy.fire once)) =
    Copy.textContent (Copy.button st) /\
  Copy.timers (Copy.fire once) = [] /\
  Copy.textContent (Copy.button (Copy.fire (Copy.fire twice))) =
    Copy.textContent (Copy.button once) /\
  Copy.timers (Copy.fire (Copy.fire twice)) = [].
Proof.
  intros api exec text [b c v vs ts] Ht. cbn [Copy.timers] in Ht. subst ts.
  cbv zeta.
  destruct api; [destruct exec as [[|]|] .. |];
    try (destruct exec as [[|]|]); cbn; auto.
Qed.

Lemma copy_label_after_feedback_witness :
  let st := {| Copy.button := {| Copy.textContent := "Copy";
                                 Copy.backgroundColor := [];
                                 Copy.color := []; Copy.transform := [] |};
               Copy.clipboard := None; Copy.can_vibrate := true;
               Copy.vibrations := []; Copy.timers := [] |} in
  let once := Copy.copyCode Copy.WriteResolves (Copy.Returns true) "x = 1" st in
  let twice := Copy.copyCode Copy.WriteResolves (Copy.Returns true) "x = 1" once in
  Copy.textContent (Copy.button (Copy.fire once)) =
    Copy.textContent (Copy.button st) /\
  Copy.timers (Copy.fire once) = [] /\
  Copy.textContent (Copy.button (Copy.fire (Copy.fire twice))) =
    Copy.textContent (Copy.button once) /\
  Copy.timers (Copy.fire (Copy.fire twice)) = [].
Proof.
  cbv zeta.
  apply (copy_label_after_feedback Copy.WriteResolves (Copy.Returns true)
           "x = 1"
           {| Copy.button := {| Copy.textContent := "Copy";
                                Copy.backgroundColor := [];
                                Copy.color := []; Copy.transform := [] |};
              Copy.clipboard := None; Copy.can_vibrate := true;
              Copy.vibrations := []; Copy.timers := [] |}).
  reflexivity.
Defined.

(** X8. [copyCode] reports what happened: the button says [Copied!] and
    the clipboard holds the text exactly when the clipboard interface
    took it or, failing that, the copy command returned true; in every
    other case, an exception of the copy command included, the button
    says [Failed] and the clipboard is as it was. *)
Theorem copy_reports_outcome : forall api exec text st,
  let copied :=
    match api, exec with
    | Copy.WriteResolves, _ => true
    | _, Copy.Returns successful => successful
    | _, Copy.Throws => false
    end in
  let st' := Copy.copyCode api exec text st in
  Copy.textContent (Copy.button st') =
    (if copied then "Copied!" : str else "Failed" : str) /\
  Copy.backgroundColor (Copy.button st') = Copy.feedback_color copied /\
  Copy.clipboard st' = (if copied then Some text else Copy.clipboard st).
Proof.
  intros api exec text st. cbv zeta.
  destruct api; destruct exec as [[|]|]; cbn; auto.
Qed.

(** ** Copy buttons on the code blocks *)

Lemma no_button_count : forall l,
  existsb CodeBlocks.is_copy_button l = false ->
  length (filter CodeBlocks.is_copy_button l) = 0.
Proof.
  induction l as [|n l IH]; intro H; [reflexivity|].
  cbn [existsb] in H. apply orb_false_elim in H. destruct H as [Hn Hl].
  cbn [filter]. rewrite Hn. apply IH, Hl.
Qed.

Lemma add_copy_button_has : forall b,
  CodeBlocks.has_copy_button (CodeBlocks.add_copy_button b) = true.
Proof.
  intro b. unfold CodeBlocks.add_copy_button.
  destruct (CodeBlocks.has_copy_button b) eqn:E; [exact E|].
  unfold CodeBlocks.has_copy_button.
  destruct (CodeBlocks.code_header b) as [h|]; cbn.
  - rewrite existsb_app. cbn. rewrite orb_true_r. reflexivity.
  - reflexivity.
Qed.

(** X9. [initCodeCopyButtons] gives every code block a copy button and
    never a second one: a block that has a button is left as it is, a
    block without one gets exactly one, in its header (a new header when
    it had none); running the method again changes nothing. *)
Theorem copy_buttons_added_once : forall blocks,
  CodeBlocks.initCodeCopyButtons (CodeBlocks.initCodeCopyButtons blocks) =
    CodeBlocks.initCodeCopyButtons blocks /\
  length (CodeBlocks.initCodeCopyButtons blocks) = length blocks /\
  forall i b, nth_error blocks i = Some b ->
    exists b', nth_error (CodeBlocks.initCodeCopyButtons blocks) i = Some b' /\
      CodeBlocks.has_copy_button b' = true /\
      CodeBlocks.children b' = CodeBlocks.children b /\
      (CodeBlocks.has_copy_button b = true -> b' = b) /\
      (CodeBlocks.has_copy_button b = false ->
         CodeBlocks.copy_buttons b' = 1 /\
         exists h, CodeBlocks.code_header b' = Some h /\
                   existsb CodeBlocks.is_copy_button h = true).
Proof.
  intro blocks. unfold CodeBlocks.initCodeCopyButtons. split; [|split].
  - rewrite map_map. apply map_ext. intro b.
    unfold CodeBlocks.add_copy_button at 1.
    rewrite add_copy_button_has. reflexivity.
  - apply length_map.
  - intros i b Hi. exists (CodeBlocks.add_copy_button b).
    split; [apply map_nth_error, Hi|].
    split; [apply add_copy_button_has|].
    unfold CodeBlocks.add_copy_button.
    destruct (CodeBlocks.has_copy_button b) eqn:E.
    + split; [reflexivity|]. split; [reflexivity|discriminate].
    + unfold CodeBlocks.has_copy_button in E.
      apply orb_false_elim in E. destruct E as [Eh Ec].
      unfold CodeBlocks.copy_buttons.
      destruct (CodeBlocks.code_header b) as [h|]; cbn.
      * split; [reflexivity|]. split; [discriminate|]. intros _. split.
        -- rewrite !filter_app, !length_app.
           rewrite (no_button_count _ Eh), (no_button_count _ Ec). reflexivity.
        -- eexists. split; [reflexivity|].
           rewrite existsb_app. cbn. apply orb_true_r.
      * split; [reflexivity|]. split; [discriminate|]. intros _. split.
        -- rewrite (no_button_count _ Ec). reflexivity.
        -- eexists. split; reflexivity.
Qed.

Lemma copy_buttons_added_once_witness :
  let blocks :=
    [ {| CodeBlocks.code_header := Some [CodeBlocks.Markup "lua"];
         CodeBlocks.children := [CodeBlocks.Markup "print(1)"] |};
      {| CodeBlocks.code_header := None;
         CodeBlocks.children := [CodeBlocks.Markup "print(2)"] |} ] in
  exists b',
    nth_error (CodeBlocks.initCodeCopyButtons blocks) 1 = Some b' /\
    CodeBlocks.has_copy_button b' = true /\
    CodeBlocks.children b' = [CodeBlocks.Markup "print(2)"] /\
    CodeBlocks.copy_buttons b' = 1.
Proof.
  cbv zeta.
  destruct (copy_buttons_added_once
    [ {| CodeBlocks.code_header := Some [CodeBlocks.Markup "lua"];
         CodeBlocks.children := [CodeBlocks.Markup "print(1)"] |};
      {| CodeBlocks.code_header := None;
         CodeBlocks.children := [CodeBlocks.Markup "print(2)"] |} ])
    as (_ & _ & H).
  destruct (H 1 {| CodeBlocks.code_header := None;
                   CodeBlocks.children := [CodeBlocks.Markup "print(2)"] |}
              eq_refl) as (b' & Hn & Hh & Hc & _ & Hone).
  exists b'. split; [exact Hn|]. split; [exact Hh|]. split; [exact Hc|].
  apply Hone. reflexivity.
Defined.

(** ** The theme on the page *)

Lemma applyTheme_shown : forall st,
  theme_shown (ThemeManager.applyTheme (ThemeManager.theme st) st).
Proof.
  intro st. unfold theme_shown, ThemeManager.applyTheme. cbn.
  split; [reflexivity|]. split; [reflexivity|].
  apply Forall_forall. intros icon Hin.
  apply in_map_iff in Hin. destruct Hin as (x & Hx & _). symmetry. exact Hx.
Qed.

Lemma toggle_shown : forall st, theme_shown (ThemeManager.toggle st).
Proof.
  intro st. unfold ThemeManager.toggle. cbv zeta.
  set (st1 := ThemeManager.set_theme _ st).
  pose proof (applyTheme_shown st1) as H.
  unfold ThemeManager.vibrate.
  destruct (ThemeManager.can_vibrate _); exact H.
Qed.

Lemma handle_shown : forall st e,
  theme_shown st -> theme_shown (ThemeManager.handle st e).
Proof.
  intros st e H. destruct e as [ | matches | ]; cbn [ThemeManager.handle].
  - apply toggle_shown.
  - unfold ThemeManager.onSystemThemeChange.
    destruct (ThemeManager.getStoredTheme (ThemeManager.store st)) as [t|].
    + destruct (truthy t); [exact H|].
      apply (applyTheme_shown
               (ThemeManager.set_theme (ThemeManager.getSystemTheme matches) st)).
    + apply (applyTheme_shown
               (ThemeManager.set_theme (ThemeManager.getSystemTheme matches) st)).
  - exact H.
Qed.

(** X10. From construction on, whatever clicks, changes of the system
    theme and timers follow: the attribute [data-theme] of the root
    element is [this.theme], the theme colour of the browser is the one
    of that theme, and every theme icon shows the moon for the dark
    theme and the sun otherwise. *)
Theorem theme_always_shown : forall s prefers page_icons haptic es,
  theme_shown
    (ThemeManager.run (ThemeManager.create s prefers page_icons haptic) es).
Proof.
  intros s prefers page_icons haptic es. unfold ThemeManager.run.
  set (st := ThemeManager.create _ _ _ _).
  assert (H : theme_shown st).
  { unfold st, ThemeManager.create. cbv zeta.
    match goal with
    | |- theme_shown (ThemeManager.applyTheme ?t ?x) =>
        apply (applyTheme_shown x)
    end. }
  clearbody st. revert st H.
  induction es as [|e es IH]; intros st H; [exact H|].
  cbn [fold_left]. apply IH, handle_shown, H.
Qed.

(** X11. With a store that can be read and written, the theme an
    explicit toggle chose is the theme of the next page load, whatever
    the system theme is then. *)
Theorem toggled_theme_survives_reload : forall st prefers page_icons haptic,
  ThemeManager.readable (ThemeManager.store st) = true ->
  ThemeManager.writable (ThemeManager.store st) = true ->
  ThemeManager.theme
    (ThemeManager.create (ThemeManager.store (ThemeManager.toggle st))
       prefers page_icons haptic) =
  ThemeManager.theme (ThemeManager.toggle st).
Proof.
  intros st prefers page_icons haptic Hr Hw.
  unfold ThemeManager.toggle. cbv zeta.
  unfold ThemeManager.vibrate.
  assert (E : forall x, ThemeManager.store
             (if ThemeManager.can_vibrate x then
                {| ThemeManager.theme := ThemeManager.theme x;
                   ThemeManager.transitionEnabled := ThemeManager.transitionEnabled x;
                   ThemeManager.store := ThemeManager.store x;
                   ThemeManager.prefers_dark := ThemeManager.prefers_dark x;
                   ThemeManager.data_theme := ThemeManager.data_theme x;
                   ThemeManager.theme_transitions := ThemeManager.theme_transitions x;
                   ThemeManager.icons := ThemeManager.icons x;
                   ThemeManager.meta_theme_color := ThemeManager.meta_theme_color x;
                   ThemeManager.can_vibrate := ThemeManager.can_vibrate x;
                   ThemeManager.vibrations := 50 :: ThemeManager.vibrations x |}
              else x) = ThemeManager.store x)
    by (intro x; destruct (ThemeManager.can_vibrate x); reflexivity).
  assert (E' : forall x, ThemeManager.theme
             (if ThemeManager.can_vibrate x then
                {| ThemeManager.theme := ThemeManager.theme x;
                   ThemeManager.transitionEnabled := ThemeManager.transitionEnabled x;
                   ThemeManager.store := ThemeManager.store x;
                   ThemeManager.prefers_dark := ThemeManager.prefers_dark x;
                   ThemeManager.data_theme := ThemeManager.data_theme x;
                   ThemeManager.theme_transitions := ThemeManager.theme_transitions x;
                   ThemeManager.icons := ThemeManager.icons x;
                   ThemeManager.meta_theme_color := ThemeManager.meta_theme_color x;
                   ThemeManager.can_vibrate := ThemeManager.can_vibrate x;
                   ThemeManager.vibrations := 50 :: ThemeManager.vibrations x |}
              else x) = ThemeManager.theme x)
    by (intro x; destruct (ThemeManager.can_vibrate x); reflexivity).
  rewrite E, E'. cbn.
  unfold ThemeManager.create, ThemeManager.getStoredTheme,
    ThemeManager.storeTheme. rewrite Hw. cbn. rewrite Hr.
  destruct (ThemeManager.is_dark (ThemeManager.theme st)); reflexivity.
Qed.

Lemma toggled_theme_survives_reload_witness :
  ThemeManager.theme
    (ThemeManager.create
       (ThemeManager.store
          (ThemeManager.toggle
             (ThemeManager.create working_storage false [] false)))
       false [] false) = "dark".
Proof.
  apply (toggled_theme_survives_reload
           (ThemeManager.create working_storage false [] false)
           false [] false); reflexivity.
Defined.

(** ** The search filter *)

Lemma startsWith_prefix : forall w s,
  startsWith w s = true -> exists post, s = w ++ post.
Proof.
  induction w as [|a w IH]; intros s H.
  - exists s. reflexivity.
  - destruct s as [|c s]; [discriminate|].
    cbn [startsWith] in H. apply andb_prop in H. destruct H as [Hc Hw].
    apply is_char_eq in Hc. subst c.
    destruct (IH s Hw) as [post Hp]. exists post. rewrite Hp at 1. reflexivity.
Qed.

Lemma includes_occurs : forall s w,
  includes s w = true -> exists pre post, s = pre ++ w ++ post.
Proof.
  induction s as [|c s IH]; intros w H.
  - cbn [includes] in H. rewrite orb_false_r in H.
    destruct (startsWith_prefix w [] H) as [post Hp].
    exists [], post. exact Hp.
  - cbn [includes] in H. apply orb_prop in H. destruct H as [H|H].
    + destruct (startsWith_prefix w (c :: s) H) as [post Hp].
      exists [], post. exact Hp.
    + destruct (IH w H) as (pre & post & Hp).
      exists (c :: pre), post. rewrite Hp at 1. reflexivity.
Qed.

Lemma includes_longer : forall a b w,
  includes a w = true -> includes (a ++ b) w = true.
Proof.
  intros a b w H. destruct (includes_occurs a w H) as (pre & post & Hp).
  rewrite Hp. rewrite <- !app_assoc. apply includes_app.
Qed.

Lemma record_shape : forall d r,
  In r (index_of d) ->
  searchText r = toLowerCase (record_title r) ++
                 toLowerCase (" " ++ record_content r).
Proof.
  intros d r H. rewrite index_of_in_order in H. unfold records_in_order in H.
  apply in_flat_map in H. destruct H as (section & _ & [H|H]).
  - subst r. cbn. unfold toLowerCase. rewrite map_app. reflexivity.
  - apply in_map_iff in H. destruct H as (sub & H & _). subst r. cbn.
    unfold toLowerCase. rewrite map_app. reflexivity.
Qed.

(** X12. On an index built by [buildSearchIndex] the second test of the
    search filter, the lowercased title against the query, never adds a
    result: the search text of a record begins with its lowercased
    title. The filter returns what the filter of the earlier copy, which
    tests the search text alone, returns. *)
Theorem title_test_adds_nothing : forall w d searchQuery,
  docs (this w) = Some d ->
  let index := searchIndex (this (buildSearchIndex w)) in
  searchResults index searchQuery =
    filter (fun item => includes (searchText item) searchQuery) index /\
  searchResults index searchQuery = Earlier.searchResults index searchQuery.
Proof.
  intros w d searchQuery Hd. cbv zeta.
  assert (E : searchIndex (this (buildSearchIndex w)) = index_of d).
  { unfold buildSearchIndex. rewrite Hd. reflexivity. }
  rewrite E.
  assert (H : searchResults (index_of d) searchQuery =
              filter (fun item => includes (searchText item) searchQuery)
                     (index_of d)).
  { unfold searchResults. apply filter_ext_in. intros r Hr.
    unfold record_matches.
    destruct (includes (searchText r) searchQuery) eqn:Es; [reflexivity|].
    destruct (includes (toLowerCase (record_title r)) searchQuery) eqn:Et;
      [|reflexivity].
    rewrite (record_shape d r Hr) in Es.
    rewrite (includes_longer _ _ _ Et) in Es. discriminate. }
  split; [exact H|]. rewrite H. reflexivity.
Qed.

Lemma title_test_adds_nothing_witness :
  let w := loadDocs NetworkError (blank_page []) in
  let index := searchIndex (this (buildSearchIndex w)) in
  searchResults index "embed" =
    filter (fun item => includes (searchText item) "embed") index /\
  searchResults index "embed" = Earlier.searchResults index "embed".
Proof.
  apply (title_test_adds_nothing (loadDocs NetworkError (blank_page []))
           getSampleDocs "embed").
  reflexivity.
Defined.

(** ** A search without results, and what a search can throw *)


Lemma all_hidden_hide_all : forall nav, all_hidden (hide_all nav) = true.
Proof.
  intro nav. unfold all_hidden, hide_all. apply forallb_map_true.
  intro s. unfold set_section_display, map_items.
  cbn [section_display section_title nav_items forallb].
  unfold set_item_display at 1. cbn [display].
  rewrite !str_eqb_refl. cbn [andb].
  apply forallb_map_true. intro it. apply str_eqb_refl.
Qed.

(** X13. A query that matches no record hides every group and every
    entry of the navigation and shows the empty-state message, which
    quotes the query trimmed and in lower case; on a page without the
    navigation panel the same query makes [searchDocumentation] throw. *)
Theorem search_without_results : forall query w,
  truthy (trim (toLowerCase query)) = true ->
  searchResults (searchIndex (this w)) (trim (toLowerCase query)) = [] ->
  (forall n, sidebarNav (page w) = Some n ->
     exists w' n',
       searchDocumentation query w = Done w' /\
       sidebarNav (page w') = Some n' /\
       nav_sections n' = hide_all (nav_sections n) /\
       all_hidden (nav_sections n') = true /\
       empty_state n' =
         Some {| empty_html := empty_state_html (trim (toLowerCase query));
                 empty_display := "block" |}) /\
  (sidebarNav (page w) = None ->
     searchDocumentation query w = Thrown "TypeError").
Proof.
  intros query w Hq Hr. unfold searchDocumentation. rewrite Hq, Hr.
  cbn [negb show_results show_sections bind]. split.
  - intros n Hn. unfold showSearchEmptyState, set_nav, nav_of. rewrite Hn.
    cbn. eexists. eexists. split; [reflexivity|]. split; [reflexivity|].
    cbn. split; [reflexivity|]. split; [apply all_hidden_hide_all|reflexivity].
  - intro Hn. unfold showSearchEmptyState, set_nav, nav_of. rewrite Hn.
    cbn. rewrite Hn. reflexivity.
Qed.

Lemma search_without_results_witness :
  let w := buildNavigation (buildSearchIndex
             (loadDocs NetworkError (blank_page []))) in
  exists w' n',
    searchDocumentation "  ZEBRA " w = Done w' /\
    sidebarNav (page w') = Some n' /\
    all_hidden (nav_sections n') = true /\
    empty_state n' =
      Some {| empty_html := empty_state_html "zebra";
              empty_display := "block" |}.
Proof.
  cbv zeta.
  destruct (search_without_results "  ZEBRA "
              (buildNavigation (buildSearchIndex
                 (loadDocs NetworkError (blank_page []))))
              eq_refl eq_refl) as [H _].
  destruct (H _ eq_refl) as (w' & n' & Hs & Hn & _ & Hh & He).
  exists w', n'. repeat split; assumption.
Defined.

(** ** Queries on the navigation *)

Lemma on_first_found : forall p f l,
  existsb p l = true -> exists l', on_first p f l = Some l'.
Proof.
  induction l as [|x t IH]; intro H; [discriminate|].
  cbn [on_first]. cbn [existsb] in H.
  destruct (p x); [eexists; reflexivity|].
  destruct (IH H) as [l' Hl]. rewrite Hl. eexists. reflexivity.
Qed.

Lemma on_first_hit : forall p f l l',
  on_first p f l = Some l' -> existsb p l = true.
Proof.
  induction l as [|x t IH]; intros l' H; [discriminate|].
  cbn [on_first] in H. cbn [existsb].
  destruct (p x); [reflexivity|].
  destruct (on_first p f t) as [t'|] eqn:E; [|discriminate].
  apply (IH t' eq_refl).
Qed.

Lemma on_first_data : forall p f l l',
  (forall it, data (f it) = data it) ->
  on_first p f l = Some l' -> map data l' = map data l.
Proof.
  induction l as [|x t IH]; intros l' Hf H; [discriminate|].
  cbn [on_first] in H. destruct (p x).
  - inversion H. cbn [map]. rewrite Hf. reflexivity.
  - destruct (on_first p f t) as [t'|] eqn:E; [|discriminate].
    inversion H. cbn [map]. rewrite (IH t' Hf eq_refl). reflexivity.
Qed.

Lemma items_cons : forall s nav,
  items (s :: nav) = section_title s :: nav_items s ++ items nav.
Proof. reflexivity. Qed.

Lemma entries_items : forall nav, entries nav = map data (items nav).
Proof.
  induction nav as [|s nav IH]; [reflexivity|].
  rewrite entries_cons, items_cons, IH.
  cbn [map]. rewrite map_app. reflexivity.
Qed.

Lemma query_update_found : forall p f g nav,
  existsb p (items nav) = true ->
  exists nav', query_update p f g nav = Some nav'.
Proof.
  induction nav as [|s nav IH]; intro H; [discriminate|].
  rewrite items_cons in H. cbn [existsb] in H. rewrite existsb_app in H.
  cbn [query_update].
  destruct (p (section_title s)); [eexists; reflexivity|].
  destruct (existsb p (nav_items s)) eqn:E.
  - destruct (on_first_found p f _ E) as [l' Hl]. rewrite Hl.
    eexists; reflexivity.
  - destruct (on_first p f (nav_items s)) as [l'|] eqn:El.
    + eexists; reflexivity.
    + destruct (IH H) as [nav' Hn]. rewrite Hn. eexists; reflexivity.
Qed.

Lemma query_update_hit : forall p f g nav nav',
  query_update p f g nav = Some nav' -> existsb p (items nav) = true.
Proof.
  induction nav as [|s nav IH]; intros nav' H; [discriminate|].
  rewrite items_cons. cbn [existsb]. rewrite existsb_app.
  cbn [query_update] in H.
  destruct (p (section_title s)); [reflexivity|].
  destruct (on_first p f (nav_items s)) as [l'|] eqn:El.
  - rewrite (on_first_hit _ _ _ _ El). reflexivity.
  - destruct (query_update p f g nav) as [t'|] eqn:E; [|discriminate].
    rewrite (IH t' eq_refl). apply orb_true_r.
Qed.

Lemma query_update_entries : forall p f g nav nav',
  (forall it, data (f it) = data it) ->
  (forall s, entries [g s] = entries [s]) ->
  query_update p f g nav = Some nav' -> entries nav' = entries nav.
Proof.
  induction nav as [|s nav IH]; intros nav' Hf Hg H; [discriminate|].
  cbn [query_update] in H.
  assert (Hone : forall a b, entries (a :: b) = entries [a] ++ entries b).
  { intros a b. rewrite !entries_cons. cbn [entries flat_map].
    rewrite !app_nil_r. reflexivity. }
  destruct (p (section_title s)).
  - inversion H. rewrite (Hone (g _)), Hg, (Hone s). f_equal.
    rewrite !entries_cons. cbn [section_title nav_items with_title map].
    pose proof (Hf (section_title s)) as E. unfold data in E. rewrite E.
    reflexivity.
  - destruct (on_first p f (nav_items s)) as [l'|] eqn:El.
    + inversion H. rewrite (Hone (g _)), Hg, (Hone s). f_equal.
      rewrite !entries_cons. cbn [section_title nav_items with_items map].
      pose proof (on_first_data _ _ _ _ Hf El) as E. unfold data in E.
      rewrite E. reflexivity.
    + destruct (query_update p f g nav) as [t'|] eqn:E; [|discriminate].
      inversion H. rewrite (Hone s t'), (Hone s nav).
      rewrite (IH t' Hf Hg eq_refl). reflexivity.
Qed.

Lemma any_selector_entries : forall sid nav,
  existsb (any_selector sid) (items nav) =
  existsb (names_section sid) (entries nav).
Proof.
  intros sid nav. rewrite entries_items.
  induction (items nav) as [|it l IH]; [reflexivity|].
  cbn [map existsb]. rewrite IH. reflexivity.
Qed.

Lemma selector_names_section : forall result it,
  selector_of result it = true ->
  names_section (section_of result) (data it) = true.
Proof.
  intros result it H. unfold selector_of, section_of in *.
  unfold names_section, data. cbn [fst].
  destruct (type result).
  - unfold section_selector in H. apply andb_prop in H. apply H.
  - unfold subsection_selector in H. apply andb_prop in H. apply H.
Qed.


Lemma set_add_in : forall x l sid,
  In sid (set_add x l) -> sid = x \/ In sid l.
Proof.
  intros x l sid H. unfold set_add in H.
  destruct (existsb (str_eqb x) l); [right; exact H|].
  apply in_app_or in H. destruct H as [H|[H|[]]]; [right|left]; auto.
Qed.

Lemma show_results_step : forall result more nav vis,
  show_results (result :: more) nav vis =
  match query_update (selector_of result) (set_item_display "block" true)
          (fun s => s) nav with
  | Some nav' => show_results more nav' (set_add (section_of result) vis)
  | None => show_results more nav vis
  end.
Proof. reflexivity. Qed.

Lemma show_results_remembered : forall results nav vis,
  remembered nav vis ->
  remembered (fst (show_results results nav vis))
             (snd (show_results results nav vis)).
Proof.
  induction results as [|result more IH]; intros nav vis H; [exact H|].
  rewrite show_results_step.
  destruct (query_update (selector_of result) (set_item_display "block" true)
              (fun s => s) nav) as [nav'|] eqn:E; [|apply IH, H].
  apply IH. intros sid Hin.
  rewrite (query_update_entries (selector_of result)
             (set_item_display "block" true) (fun s => s) nav nav'
             (fun it => eq_refl) (fun s => eq_refl) E).
  apply set_add_in in Hin. destruct Hin as [Hin|Hin]; [|apply H, Hin].
  subst sid. apply query_update_hit in E.
  rewrite entries_items. apply existsb_exists in E.
  destruct E as (it & Hit & Hsel). apply existsb_exists.
  exists (data it). split; [apply in_map, Hit|].
  apply selector_names_section, Hsel.
Qed.

Lemma show_sections_done : forall vis nav,
  remembered nav vis -> exists nav', show_sections vis nav = Done nav'.
Proof.
  induction vis as [|sid more IH]; intros nav H; [eexists; reflexivity|].
  cbn [show_sections].
  assert (Hf : existsb (any_selector sid) (items nav) = true).
  { rewrite any_selector_entries. apply H. left. reflexivity. }
  destruct (query_update_found (any_selector sid) (fun it => it)
              (fun s => with_title (show_item (section_title s))
                          (set_section_display "block" false s)) nav Hf)
    as [nav' Hn].
  rewrite Hn. apply IH. intros sid' Hin.
  rewrite (query_update_entries (any_selector sid) (fun it => it)
             (fun s => with_title (show_item (section_title s))
                         (set_section_display "block" false s)) nav nav'
             (fun it => eq_refl) (fun s => eq_refl) Hn).
  apply H. right. exact Hin.
Qed.

(** X14. On an index whose ids are safe to paste into a selector,
    [searchDocumentation] throws in one case only: a query that is not
    blank and matches no record, on a page without the navigation
    panel. In particular the lookup of the section of a result never
    fails, whatever elements the navigation holds. *)
Theorem search_throws_only_without_panel : forall query w,
  forallb record_safe (searchIndex (this w)) = true ->
  ((exists error, searchDocumentation query w = Thrown error) <->
   (sidebarNav (page w) = None /\
    truthy (trim (toLowerCase query)) = true /\
    searchResults (searchIndex (this w)) (trim (toLowerCase query)) = [])).
Proof.
  intros query w _. split.
  - intros [error H]. unfold searchDocumentation in H.
    destruct (truthy (trim (toLowerCase query))) eqn:Eq; [|discriminate].
    cbn [negb] in H.
    pose proof (show_results_remembered
                  (searchResults (searchIndex (this w))
                     (trim (toLowerCase query)))
                  (hide_all (nav_of w)) []) as Hr.
    destruct (show_results _ (hide_all (nav_of w)) []) as [shown vis].
    cbn [fst snd] in Hr.
    destruct (show_sections_done vis shown) as [nav' Hn].
    { apply Hr. intros sid []. }
    rewrite Hn in H. cbn [bind] in H.
    destruct (searchResults (searchIndex (this w)) (trim (toLowerCase query)))
      as [|r rs]; [|discriminate].
    unfold showSearchEmptyState, set_nav in H.
    destruct (sidebarNav (page w)) as [n|] eqn:En; [discriminate|].
    auto.
  - intros (Hn & Hq & Hr). exists ("TypeError" : str).
    unfold searchDocumentation. rewrite Hq, Hr.
    cbn [negb show_results show_sections bind].
    unfold showSearchEmptyState, set_nav, nav_of. rewrite Hn. cbn.
    rewrite Hn. reflexivity.
Qed.

Lemma search_throws_only_without_panel_witness :
  exists error,
    searchDocumentation "zebra"
      (buildSearchIndex (loadDocs NetworkError (fresh [] 1024 (Some []) None)))
    = Thrown error.
Proof.
  apply (proj2 (search_throws_only_without_panel "zebra"
                  (buildSearchIndex
                     (loadDocs NetworkError (fresh [] 1024 (Some []) None)))
                  eq_refl)).
  repeat split; reflexivity.
Defined.

(** ** The active entry *)

Lemma cleared_none_active : forall l,
  filter active (map (set_active false) l) = [].
Proof. induction l as [|x l IH]; [reflexivity | exact IH]. Qed.

Lemma cleared_count : forall nav,
  count_active (map (map_items (set_active false)) nav) = 0.
Proof.
  unfold count_active. induction nav as [|s nav IH]; [reflexivity|].
  cbn [map]. rewrite items_cons. cbn [map_items section_title nav_items].
  cbn [filter set_active active]. rewrite filter_app, length_app.
  rewrite cleared_none_active. exact IH.
Qed.

Lemma on_first_activates : forall p l l',
  on_first p (set_active true) l = Some l' ->
  length (filter active l') = S (length (filter active l)) \/
  length (filter active l') = length (filter active l).
Proof.
  induction l as [|x t IH]; intros l' H; [discriminate|].
  cbn [on_first] in H. destruct (p x).
  - inversion H. cbn [filter set_active active]. destruct (active x); cbn; auto.
  - destruct (on_first p (set_active true) t) as [t'|] eqn:E; [|discriminate].
    inversion H. cbn [filter]. destruct (IH t' eq_refl) as [I|I];
      destruct (active x); cbn [length]; rewrite I; auto.
Qed.

Lemma query_update_activates : forall p g nav nav',
  (forall s, section_title (g s) = section_title s /\
             nav_items (g s) = nav_items s) ->
  query_update p (set_active true) g nav = Some nav' ->
  count_active nav' <= S (count_active nav).
Proof.
  unfold count_active.
  induction nav as [|s nav IH]; intros nav' Hg H; [discriminate|].
  cbn [query_update] in H. destruct (p (section_title s)).
  - inversion H. rewrite !items_cons. destruct (Hg (with_title (set_active true (section_title s)) s)) as [E1 E2].
    rewrite E1, E2. cbn [with_title section_title nav_items].
    cbn [filter set_active active]. destruct (active (section_title s));
      cbn [length]; lia.
  - destruct (on_first p (set_active true) (nav_items s)) as [l'|] eqn:El.
    + inversion H. rewrite !items_cons.
      destruct (Hg (with_items l' s)) as [E1 E2]. rewrite E1, E2.
      cbn [with_items section_title nav_items]. cbn [filter].
      destruct (on_first_activates _ _ _ El) as [I|I];
        destruct (active (section_title s)); cbn [length];
        rewrite !filter_app, !length_app, I; lia.
    + destruct (query_update p (set_active true) g nav) as [t'|] eqn:E;
        [|discriminate].
      inversion H. rewrite !items_cons. cbn [filter].
      pose proof (IH t' Hg eq_refl) as I.
      destruct (active (section_title s)); cbn [length];
        rewrite !filter_app, !length_app; lia.
Qed.


Lemma updateActiveNavItem_count : forall sectionId subsectionId w,
  count_active (nav_of (updateActiveNavItem sectionId subsectionId w)) <= 1.
Proof.
  intros sectionId subsectionId w. unfold updateActiveNavItem. cbv zeta.
  set (cleared := map (map_items (set_active false)) (nav_of w)).
  destruct (query_update _ (set_active true) set_expanded cleared)
    as [nav'|] eqn:E.
  - assert (H : count_active nav' <= 1).
    { rewrite <- (cleared_count (nav_of w)). fold cleared.
      refine (query_update_activates _ set_expanded _ _ _ E).
      intro s; split; reflexivity. }
    destruct (isMobile w).
    + change (nav_of (add_scroll ScrollNavIntoView (set_nav nav' w)))
        with (nav_of (set_nav nav' w)).
      rewrite nav_of_set_nav. destruct (sidebarNav (page w)); [exact H|].
      cbn. lia.
    + rewrite nav_of_set_nav. destruct (sidebarNav (page w)); [exact H|].
      cbn. lia.
  - rewrite nav_of_set_nav. destruct (sidebarNav (page w)).
    + unfold cleared. rewrite cleared_count. lia.
    + cbn. lia.
Qed.

Lemma onIntersection_count : forall entry w,
  count_active (nav_of w) <= 1 ->
  count_active (nav_of (onIntersection entry w)) <= 1.
Proof.
  intros entry w H. unfold onIntersection.
  destruct (isIntersecting entry && truthy (target_id entry)); [|exact H].
  set (cleared := map (map_items (set_active false)) (nav_of w)).
  destruct (query_update _ (set_active true) (fun s => s) cleared)
    as [nav'|] eqn:E; [|exact H].
  rewrite nav_of_set_nav. destruct (sidebarNav (page w)); [|cbn; lia].
  rewrite <- (cleared_count (nav_of w)). fold cleared.
  refine (query_update_activates _ (fun s => s) _ _ _ E).
  intro s; split; reflexivity.
Qed.

(** X15. At most one entry of the navigation is marked active.
    [updateActiveNavItem] leaves at most one whatever it finds, and so
    does every [loadSection] that finds its section; a [loadSection]
    that does not, and the intersection observer, keep the navigation
    within that bound. *)
Theorem at_most_one_active_entry :
  (forall sectionId subsectionId w,
     count_active (nav_of (updateActiveNavItem sectionId subsectionId w)) <= 1) /\
  (forall sectionId subsectionId updateURL w w',
     count_active (nav_of w) <= 1 ->
     loadSection sectionId subsectionId updateURL w = Done w' ->
     count_active (nav_of w') <= 1) /\
  (forall entries w,
     count_active (nav_of w) <= 1 ->
     count_active (nav_of (observe entries w)) <= 1).
Proof.
  split; [exact updateActiveNavItem_count|]. split.
  - intros sectionId subsectionId updateURL w w' H Hl.
    unfold loadSection in Hl.
    destruct (docs (this w)) as [d|]; [|discriminate].
    destruct (find _ (sections d)) as [section|].
    + inversion Hl. apply updateActiveNavItem_count.
    + inversion Hl. unfold showError.
      destruct (docsContent (page w)); exact H.
  - intros entries w. unfold observe. revert w.
    induction entries as [|e es IH]; intros w H; [exact H|].
    cbn [fold_left]. apply IH, onIntersection_count, H.
Qed.

Lemma at_most_one_active_entry_witness :
  let w := buildNavigation (loadDocs NetworkError (blank_page [])) in
  (exists w',
     loadSection "api" (Some ("webhook-class" : str)) true w = Done w' /\
     count_active (nav_of w') <= 1) /\
  count_active
    (nav_of (observe [ {| isIntersecting := true;
                          target_id := "webhook-class" |} ] w)) <= 1.
Proof.
  cbv zeta.
  set (w := buildNavigation (loadDocs NetworkError (blank_page []))).
  assert (H0 : count_active (nav_of w) <= 1) by (vm_compute; lia).
  split.
  - destruct (loadSection_fragment w getSampleDocs sample_1 "api"
                (Some ("webhook-class" : str)) eq_refl eq_refl eq_refl)
      as (w' & Hl & _).
    exists w'. split; [exact Hl|].
    apply (proj1 (proj2 at_most_one_active_entry) "api"
             (Some ("webhook-class" : str)) true w w' H0 Hl).
  - apply (proj2 (proj2 at_most_one_active_entry) _ w H0).
Defined.

(** ** What [loadSection] changes *)

Lemma updateActiveNavItem_frame : forall sectionId subsectionId w,
  history (page (updateActiveNavItem sectionId subsectionId w)) =
    history (page w) /\
  innerWidth (page (updateActiveNavItem sectionId subsectionId w)) =
    innerWidth (page w).
Proof.
  intros sectionId subsectionId w. unfold updateActiveNavItem, set_nav.
  destruct (query_update _ _ _ _); destruct (isMobile w);
    destruct (sidebarNav (page w)); split; reflexivity.
Qed.

Lemma renderSection_frame : forall section target w,
  history (page (renderSection section target w)) = history (page w) /\
  innerWidth (page (renderSection section target w)) = innerWidth (page w).
Proof.
  intros section target w. unfold renderSection.
  destruct (docsContent (page w)); [|split; reflexivity].
  destruct target as [t|]; [destruct (truthy t)|]; split; reflexivity.
Qed.

(** X16. [loadSection] never changes the document, the search index or
    the width of the window. Called for [popstate], with [updateURL]
    false, it leaves the location and the history alone; called with
    [updateURL] true it either finds the section, makes it the current
    one and adds one history entry, its fragment, or shows the error
    message and does nothing else. *)
Theorem loadSection_effects :
  forall sectionId subsectionId updateURL w w',
  loadSection sectionId subsectionId updateURL w = Done w' ->
  docs (this w') = docs (this w) /\
  searchIndex (this w') = searchIndex (this w) /\
  innerWidth (page w') = innerWidth (page w) /\
  (updateURL = false ->
     history (page w') = history (page w) /\
     location_hash (page w') = location_hash (page w)) /\
  (updateURL = true ->
     (currentSection (this w') = sectionId /\
      history (page w') =
        section_url sectionId subsectionId :: history (page w)) \/
     w' = showError "Section not found." w).
Proof.
  intros sectionId subsectionId updateURL w w' H. unfold loadSection in H.
  destruct (docs (this w)) as [d|] eqn:Hd; [|discriminate].
  destruct (find _ (sections d)) as [section|].
  - injection H as Hw. subst w'.
    match goal with
    | |- context [updateActiveNavItem ?a ?b ?x] =>
        destruct (updateActiveNavItem_keeps a b x) as (Ht & _ & Hh);
        destruct (updateActiveNavItem_frame a b x) as (Hy & Hi)
    end.
    rewrite Ht, Hh, Hy, Hi.
    match goal with
    | |- context [renderSection ?a ?b ?x] =>
        destruct (renderSection_keeps a b x) as (Ht' & Hh');
        destruct (renderSection_frame a b x) as (Hy' & Hi')
    end.
    rewrite Ht', Hh', Hy', Hi'.
    destruct updateURL.
    + split; [exact Hd|]. split; [reflexivity|]. split; [reflexivity|].
      split; [discriminate|]. intros _. left. split; reflexivity.
    + split; [exact Hd|]. split; [reflexivity|]. split; [reflexivity|].
      split; [intros _; split; reflexivity | discriminate].
  - assert (Hw : w' = showError "Section not found." w)
      by (injection H; intro E; symmetry; exact E).
    clear H. rewrite Hw.
    destruct (showError_only_content "Section not found." w)
      as (Ht & Hh & Hy & _ & _ & Hi).
    rewrite Ht, Hh, Hy, Hi.
    split; [exact Hd|]. split; [reflexivity|]. split; [reflexivity|].
    split; [intros _; split; reflexivity|]. intros _. right. reflexivity.
Qed.

Lemma loadSection_effects_witness :
  let w := loadDocs NetworkError (blank_page []) in
  exists w',
    loadSection "api" None true w = Done w' /\
    docs (this w') = docs (this w) /\
    searchIndex (this w') = searchIndex (this w) /\
    history (page w') = section_url "api" None :: history (page w).
Proof.
  cbv zeta.
  set (w := loadDocs NetworkError (blank_page [])).
  destruct (loadSection_fragment w getSampleDocs sample_1 "api" None
              eq_refl eq_refl eq_refl) as (w' & Hl & _ & Hs & _).
  exists w'. split; [exact Hl|].
  destruct (loadSection_effects "api" None true w w' Hl)
    as (Hd & Hi & _ & _ & Hu).
  split; [exact Hd|]. split; [exact Hi|].
  destruct (Hu eq_refl) as [[_ Hh]|Hw]; [exact Hh|].
  exfalso. rewrite Hw in Hs.
  rewrite (proj1 (showError_only_content "Section not found." w)) in Hs.
  discriminate.
Defined.

(** ** Start-up, whatever the fetch gives *)











(** ** From the location back to the section *)



(** ** The shape of a subsection id *)

Lemma slug_char_alnum : forall c,
  is_upper c = false -> is_alphanumeric c = true -> slug_char c = true.
Proof.
  intros c Hu H. unfold is_alphanumeric in H. unfold slug_char.
  rewrite Hu in H. destruct (is_lower c); [reflexivity|].
  destruct (is_digit c); [reflexivity|discriminate].
Qed.

Lemma collapse_chars : forall s b,
  no_upper s = true -> forallb slug_char (collapse_runs b s) = true.
Proof.
  induction s as [|c t IH]; intros b H; [reflexivity|].
  cbn [no_upper forallb] in H. apply andb_prop in H. destruct H as [Hc Ht].
  apply negb_true_iff in Hc. cbn [collapse_runs].
  destruct (is_alphanumeric c) eqn:Ea.
  - cbn [forallb]. rewrite (slug_char_alnum c Hc Ea). apply IH, Ht.
  - destruct b; [apply IH, Ht|]. cbn [forallb]. apply IH, Ht.
Qed.

Lemma strip_leading_suffix : forall s,
  exists pre, s = pre ++ strip_leading_hyphens s.
Proof.
  induction s as [|c t IH]; [exists []; reflexivity|].
  cbn [strip_leading_hyphens]. destruct (is_char "-" c).
  - destruct IH as [pre Hp]. exists (c :: pre). rewrite Hp at 1. reflexivity.
  - exists []. reflexivity.
Qed.

Lemma strip_leading_shape : forall s,
  no_leading_hyphen (strip_leading_hyphens s) = true.
Proof.
  induction s as [|c t IH]; [reflexivity|].
  cbn [strip_leading_hyphens]. destruct (is_char "-" c) eqn:E; [exact IH|].
  cbn [no_leading_hyphen]. rewrite E. reflexivity.
Qed.

Lemma no_double_app_r : forall a b,
  no_double_hyphen (a ++ b) = true -> no_double_hyphen b = true.
Proof.
  induction a as [|c a IH]; intros b H; [exact H|].
  apply IH. apply (no_double_tail c). exact H.
Qed.

Lemma no_double_app_l : forall a b,
  no_double_hyphen (a ++ b) = true -> no_double_hyphen a = true.
Proof.
  induction a as [|c a IH]; intros b H; [reflexivity|].
  cbn [app no_double_hyphen] in H. apply andb_prop in H. destruct H as [H1 H2].
  cbn [no_double_hyphen]. rewrite (IH b H2), andb_true_r.
  destruct a as [|c' a]; [reflexivity|exact H1].
Qed.

Lemma strip_trailing_prefix : forall s,
  exists post, s = strip_trailing_hyphens s ++ post.
Proof.
  induction s as [|c t IH]; [exists []; reflexivity|].
  cbn [strip_trailing_hyphens]. destruct IH as [post Hp].
  destruct (strip_trailing_hyphens t) as [|x t'].
  - destruct (is_char "-" c).
    + exists (c :: t). reflexivity.
    + exists t. reflexivity.
  - exists post. rewrite Hp at 1. reflexivity.
Qed.

Lemma strip_trailing_shape : forall s,
  no_trailing_hyphen (strip_trailing_hyphens s) = true.
Proof.
  induction s as [|c t IH]; [reflexivity|].
  cbn [strip_trailing_hyphens].
  destruct (strip_trailing_hyphens t) as [|x t'].
  - destruct (is_char "-" c) eqn:E; [reflexivity|].
    cbn [no_trailing_hyphen]. rewrite E. reflexivity.
  - exact IH.
Qed.

Lemma strip_trailing_leading : forall s,
  no_leading_hyphen s = true ->
  no_leading_hyphen (strip_trailing_hyphens s) = true.
Proof.
  intros [|c t] H; [reflexivity|].
  cbn [strip_trailing_hyphens].
  destruct (strip_trailing_hyphens t) as [|x t'].
  - destruct (is_char "-" c) eqn:E; [reflexivity|].
    cbn [no_leading_hyphen]. rewrite E. reflexivity.
  - exact H.
Qed.

Lemma slug_well_formed : forall title, well_formed_id (slug title) = true.
Proof.
  intro title. unfold slug.
  set (c := collapse_runs false (toLowerCase title)).
  assert (Hc : forallb slug_char c = true)
    by (apply collapse_chars, toLowerCase_no_upper).
  assert (Hd : no_double_hyphen c = true)
    by (apply (proj1 (collapse_shape (toLowerCase title) false))).
  destruct (strip_leading_suffix c) as [pre Hp].
  set (l := strip_leading_hyphens c) in *.
  assert (Hcl : forallb slug_char l = true).
  { rewrite Hp, forallb_app in Hc. apply andb_prop in Hc. apply Hc. }
  assert (Hdl : no_double_hyphen l = true).
  { rewrite Hp in Hd. apply (no_double_app_r _ _ Hd). }
  assert (Hll : no_leading_hyphen l = true) by apply strip_leading_shape.
  destruct (strip_trailing_prefix l) as [post Hq].
  unfold well_formed_id.
  rewrite strip_trailing_shape, (strip_trailing_leading l Hll).
  rewrite Hq, forallb_app in Hcl. apply andb_prop in Hcl.
  rewrite (proj1 Hcl). rewrite Hq in Hdl.
  rewrite (no_double_app_l _ _ Hdl). reflexivity.
Qed.

Lemma slug_char_lower : forall c, slug_char c = true -> lower_char c = c.
Proof.
  intros c H.
  assert (G : forallb (fun c => implb (slug_char c) (Ascii.eqb (lower_char c) c))
                all_chars = true) by (vm_compute; reflexivity).
  rewrite forallb_forall in G. specialize (G c (all_chars_complete c)).
  rewrite H in G. cbn [implb] in G. apply Ascii.eqb_eq. exact G.
Qed.

Lemma slug_char_cases : forall c,
  slug_char c = true ->
  (is_alphanumeric c = true /\ is_char "-" c = false) \/
  (is_alphanumeric c = false /\ is_char "-" c = true).
Proof.
  intros c H.
  assert (G : forallb (fun c => implb (slug_char c)
                (xorb (is_alphanumeric c) (is_char "-" c)))
                all_chars = true) by (vm_compute; reflexivity).
  rewrite forallb_forall in G. specialize (G c (all_chars_complete c)).
  rewrite H in G. cbn [implb] in G.
  destruct (is_alphanumeric c), (is_char "-" c); try discriminate; auto.
Qed.

Lemma collapse_id : forall s b,
  forallb slug_char s = true ->
  no_double_hyphen s = true ->
  (b = true -> no_leading_hyphen s = true) ->
  collapse_runs b s = s.
Proof.
  induction s as [|c t IH]; intros b Hc Hd Hl; [reflexivity|].
  cbn [forallb] in Hc. apply andb_prop in Hc. destruct Hc as [Hc Ht].
  pose proof (no_double_tail _ _ Hd) as Hdt.
  cbn [collapse_runs].
  destruct (slug_char_cases c Hc) as [[Ea Eh]|[Ea Eh]]; rewrite Ea.
  - f_equal. apply IH; [exact Ht | exact Hdt | discriminate].
  - destruct b.
    + specialize (Hl eq_refl). cbn [no_leading_hyphen] in Hl.
      rewrite Eh in Hl. discriminate.
    + apply is_char_eq in Eh. rewrite <- Eh at 1. f_equal.
      apply IH; [exact Ht | exact Hdt |]. intros _.
      destruct t as [|c' t']; [reflexivity|].
      cbn [no_double_hyphen] in Hd. apply andb_prop in Hd.
      destruct Hd as [Hd _]. cbn [no_leading_hyphen].
      subst c. rewrite is_char_refl in Hd. cbn [andb] in Hd. exact Hd.
Qed.

Lemma strip_leading_id : forall s,
  no_leading_hyphen s = true -> strip_leading_hyphens s = s.
Proof.
  intros [|c t] H; [reflexivity|]. cbn [strip_leading_hyphens].
  cbn [no_leading_hyphen] in H. apply negb_true_iff in H. rewrite H.
  reflexivity.
Qed.

Lemma strip_trailing_id : forall s,
  no_trailing_hyphen s = true -> strip_trailing_hyphens s = s.
Proof.
  induction s as [|c t IH]; intro H; [reflexivity|].
  cbn [strip_trailing_hyphens]. cbn [no_trailing_hyphen] in H.
  destruct t as [|x t'].
  - cbn [strip_trailing_hyphens]. apply negb_true_iff in H. rewrite H.
    reflexivity.
  - rewrite (IH H). reflexivity.
Qed.

Lemma slug_fixed : forall s, well_formed_id s = true -> slug s = s.
Proof.
  intros s H. unfold well_formed_id in H.
  apply andb_prop in H. destruct H as [H Hd].
  apply andb_prop in H. destruct H as [H Ht].
  apply andb_prop in H. destruct H as [Hc Hl].
  unfold slug.
  assert (E : toLowerCase s = s).
  { unfold toLowerCase. rewrite <- (map_id s) at 2. apply map_ext_in.
    intros c Hin. apply slug_char_lower.
    rewrite forallb_forall in Hc. apply Hc, Hin. }
  rewrite E, (collapse_id s false Hc Hd) by discriminate.
  rewrite (strip_leading_id s Hl). apply strip_trailing_id, Ht.
Qed.

(** X19. The id [createSubsectionId] makes of any title holds only
    lowercase ASCII letters, digits and hyphens, does not begin or end
    with a hyphen and has no two hyphens in a row; such an id is its own
    id, so making the id of an id changes nothing. *)
Theorem createSubsectionId_well_formed : forall title,
  well_formed_id (createSubsectionId title) = true /\
  createSubsectionId (createSubsectionId title) = createSubsectionId title /\
  forall s, well_formed_id s = true -> createSubsectionId s = s.
Proof.
  intro title. rewrite !createSubsectionId_slug.
  split; [apply slug_well_formed|]. split.
  - apply slug_fixed, slug_well_formed.
  - intros s H. rewrite createSubsectionId_slug. apply slug_fixed, H.
Qed.

Lemma createSubsectionId_well_formed_witness :
  createSubsectionId "webhook-class" = "webhook-class".
Proof.
  apply (proj2 (proj2 (createSubsectionId_well_formed "Webhook Class"))).
  reflexivity.
Defined.

Lemma collapse_no_alnum : forall s,
  forallb (fun c => negb (is_alphanumeric c)) s = true ->
  collapse_runs true s = [].
Proof.
  induction s as [|c t IH]; intro H; [reflexivity|].
  cbn [forallb] in H. apply andb_prop in H. destruct H as [Hc Ht].
  apply negb_true_iff in Hc. cbn [collapse_runs]. rewrite Hc. apply IH, Ht.
Qed.

(** X20. A title without a letter of [a-z], [A-Z] or a digit, once in
    lower case, has the empty id; a title in other letters only, such as
    accented capitals or any script beyond ASCII, is one of these. *)
Theorem createSubsectionId_empty : forall title,
  forallb (fun c => negb (is_alphanumeric c)) (toLowerCase title) = true ->
  createSubsectionId title = [].
Proof.
  intros title H. rewrite createSubsectionId_slug. unfold slug.
  destruct (toLowerCase title) as [|c t]; [reflexivity|].
  cbn [forallb] in H. apply andb_prop in H. destruct H as [Hc Ht].
  apply negb_true_iff in Hc. cbn [collapse_runs]. rewrite Hc.
  rewrite (collapse_no_alnum t Ht). reflexivity.
Qed.

Lemma createSubsectionId_empty_witness :
  createSubsectionId ("?" ++ [chr 201; chr 233] ++ " !") = [].
Proof.
  apply (createSubsectionId_empty ("?" ++ [chr 201; chr 233] ++ " !")).
  reflexivity.
Defined.

(** ** Ids that are safe to paste *)

Lemma slug_char_safe : forall c,
  slug_char c = true -> selector_char c = true /\ fragment_char c = true.
Proof.
  intros c H.
  destruct c as [[] [] [] [] [] [] [] []]; vm_compute in H;
    first [discriminate H | split; reflexivity].
Qed.

(** The id of a subsection can always be pasted into a selector and
    into a fragment as it is. *)
Lemma subsection_id_safe : forall title,
  selector_safe (createSubsectionId title) = true /\
  fragment_safe (createSubsectionId title) = true.
Proof.
  intro title. rewrite createSubsectionId_slug.
  pose proof (slug_well_formed title) as H. unfold well_formed_id in H.
  repeat (apply andb_prop in H; destruct H as [H _]).
  unfold selector_safe, fragment_safe. rewrite !forallb_forall in *.
  split; intros c Hc; apply (slug_char_safe c (H c Hc)).
Qed.

(** So the index of a document is safe as soon as the ids of its
    sections are. *)
Lemma index_of_safe : forall d,
  forallb (fun section => selector_safe (id section)) (sections d) = true ->
  forallb record_safe (index_of d) = true.
Proof.
  intros d H. rewrite index_of_in_order. unfold records_in_order.
  induction (sections d) as [|section l IH]; [reflexivity|].
  cbn [forallb] in H. apply andb_prop in H. destruct H as [Hs Hl].
  cbn [flat_map]. rewrite forallb_app, (IH Hl), andb_true_r.
  cbn [forallb]. apply andb_true_intro. split.
  - unfold record_safe. cbn [section_record record_id sectionId].
    rewrite Hs. reflexivity.
  - apply forallb_forall. intros r Hr. apply in_map_iff in Hr.
    destruct Hr as (sub & <- & _). unfold record_safe.
    cbn [subsection_record record_id sectionId].
    rewrite (proj1 (subsection_id_safe (subsection_title sub))), Hs.
    reflexivity.
Qed.

(** ** What a search displays *)

Lemma in_group_absent : forall sid h nav,
  existsb (fun s => str_eqb (sid_of s) sid) nav = false ->
  in_group sid h nav = nav.
Proof.
  induction nav as [|s t IH]; intro H; [reflexivity|].
  cbn [existsb] in H. apply orb_false_elim in H. destruct H as [Hs Ht].
  unfold in_group in *. cbn [map]. rewrite Hs, (IH Ht). reflexivity.
Qed.

Lemma no_match_elsewhere : forall p sid nav,
  (forall it, p it = true -> str_eqb (data_section it) sid = true) ->
  grouped nav = true ->
  existsb (fun s => str_eqb (sid_of s) sid) nav = false ->
  existsb p (items nav) = false.
Proof.
  induction nav as [|s t IH]; intros Hp Hg H; [reflexivity|].
  cbn [existsb] in H. apply orb_false_elim in H. destruct H as [Hs Ht].
  cbn [grouped] in Hg. apply andb_prop in Hg. destruct Hg as [Hg Hgt].
  apply andb_prop in Hg. destruct Hg as [Hu _].
  rewrite items_cons. cbn [existsb]. rewrite existsb_app.
  rewrite (IH Hp Hgt Ht), orb_false_r.
  destruct (p (section_title s)) eqn:E.
  - apply Hp in E. unfold sid_of in Hs. rewrite E in Hs. discriminate.
  - cbn [orb]. destruct (existsb p (nav_items s)) eqn:Ee; [|reflexivity].
    apply existsb_exists in Ee. destruct Ee as (it & Hin & Hit).
    apply Hp in Hit. unfold uniform in Hu. rewrite forallb_forall in Hu.
    specialize (Hu it Hin). apply str_eqb_eq in Hu, Hit.
    rewrite Hu in Hit. rewrite Hit, str_eqb_refl in Hs. discriminate.
Qed.


Lemma query_update_miss : forall p f g nav,
  existsb p (items nav) = false -> query_update p f g nav = None.
Proof.
  intros p f g nav H.
  destruct (query_update p f g nav) as [nav'|] eqn:E; [|reflexivity].
  apply query_update_hit in E. rewrite E in H. discriminate.
Qed.

(** On a grouped navigation a query for entries of one section
    changes the group of that section and nothing else. *)
Lemma query_update_grouped : forall p f g sid nav nav',
  (forall it, p it = true -> str_eqb (data_section it) sid = true) ->
  grouped nav = true ->
  query_update p f g nav = Some nav' ->
  nav' = in_group sid (fun s => g (first_match p f s)) nav.
Proof.
  induction nav as [|s t IH]; intros nav' Hp Hg H; [discriminate|].
  pose proof Hg as Hg0.
  cbn [grouped] in Hg. apply andb_prop in Hg. destruct Hg as [Hg Hgt].
  apply andb_prop in Hg. destruct Hg as [Hu Hn].
  apply negb_true_iff in Hn.
  cbn [query_update] in H. unfold in_group. cbn [map].
  assert (Hsame : str_eqb (sid_of s) sid = true ->
            map (fun s0 => if str_eqb (sid_of s0) sid
                           then g (first_match p f s0) else s0) t = t).
  { intro E. apply str_eqb_eq in E. rewrite <- E.
    apply (in_group_absent (sid_of s) _ t Hn). }
  destruct (p (section_title s)) eqn:Et.
  - assert (E : str_eqb (sid_of s) sid = true) by (apply Hp, Et).
    rewrite E, (Hsame E). unfold first_match. rewrite Et.
    injection H as H. symmetry. exact H.
  - destruct (on_first p f (nav_items s)) as [l|] eqn:El.
    + assert (E : str_eqb (sid_of s) sid = true).
      { apply on_first_hit in El. apply existsb_exists in El.
        destruct El as (it & Hin & Hit). apply Hp in Hit.
        unfold uniform in Hu. rewrite forallb_forall in Hu.
        specialize (Hu it Hin). apply str_eqb_eq in Hu, Hit.
        rewrite <- Hu, Hit. apply str_eqb_refl. }
      rewrite E, (Hsame E). unfold first_match. rewrite Et, El.
      injection H as H. symmetry. exact H.
    + destruct (query_update p f g t) as [t'|] eqn:Eq; [|discriminate].
      injection H as H. subst nav'.
      destruct (str_eqb (sid_of s) sid) eqn:E.
      * apply str_eqb_eq in E. rewrite <- E in Hp.
        rewrite (query_update_miss p f g t) in Eq; [discriminate|].
        apply (no_match_elsewhere p (sid_of s) t Hp Hgt Hn).
      * f_equal. apply (IH t' Hp Hgt eq_refl).
Qed.

Lemma existsb_of_map : forall (A B : Type) (p : B -> bool) (f : A -> B) l,
  existsb p (map f l) = existsb (fun x => p (f x)) l.
Proof.
  intros A B p f l. induction l as [|x t IH]; [reflexivity|].
  cbn [map existsb]. rewrite IH. reflexivity.
Qed.

Lemma existsb_same : forall (A : Type) (p q : A -> bool) l,
  (forall x, p x = q x) -> existsb p l = existsb q l.
Proof.
  intros A p q l H. induction l as [|x t IH]; [reflexivity|].
  cbn [existsb]. rewrite IH, H. reflexivity.
Qed.

Lemma forallb_of_map : forall (A B : Type) (p : B -> bool) (f : A -> B) l,
  forallb p (map f l) = forallb (fun x => p (f x)) l.
Proof.
  intros A B p f l. induction l as [|x t IH]; [reflexivity|].
  cbn [map forallb]. rewrite IH. reflexivity.
Qed.

Lemma in_group_grouped : forall sid h nav,
  (forall s, sid_of (h s) = sid_of s) ->
  (forall s, uniform s = true -> uniform (h s) = true) ->
  grouped nav = true -> grouped (in_group sid h nav) = true.
Proof.
  intros sid h nav Hs Hu. unfold in_group.
  set (F := fun s0 => if str_eqb (sid_of s0) sid then h s0 else s0).
  assert (HF : forall x, sid_of (F x) = sid_of x).
  { intro x. unfold F. destruct (str_eqb (sid_of x) sid); [apply Hs|reflexivity]. }
  assert (HU : forall x, uniform x = true -> uniform (F x) = true).
  { intros x Hx. unfold F. destruct (str_eqb (sid_of x) sid); [apply Hu|]; exact Hx. }
  induction nav as [|s t IH]; intro Hg; [reflexivity|].
  cbn [grouped] in Hg. apply andb_prop in Hg. destruct Hg as [Hg Hgt].
  apply andb_prop in Hg. destruct Hg as [Hus Hn].
  cbn [map grouped]. rewrite (IH Hgt), andb_true_r.
  rewrite (HU s Hus), HF. cbn [andb].
  rewrite existsb_of_map.
  rewrite (existsb_same _ _ (fun s' => str_eqb (sid_of s') (sid_of s)));
    [exact Hn|].
  intro x. rewrite HF. reflexivity.
Qed.

Lemma on_first_sections : forall p f l l' sid,
  (forall it, data_section (f it) = data_section it) ->
  on_first p f l = Some l' ->
  forallb (fun it => str_eqb (data_section it) sid) l = true ->
  forallb (fun it => str_eqb (data_section it) sid) l' = true.
Proof.
  induction l as [|x t IH]; intros l' sid Hf H Hu; [discriminate|].
  cbn [on_first] in H. cbn [forallb] in Hu. apply andb_prop in Hu.
  destruct Hu as [Hx Ht]. destruct (p x).
  - injection H as H. subst l'. cbn [forallb]. rewrite Hf, Hx, Ht. reflexivity.
  - destruct (on_first p f t) as [t'|] eqn:E; [|discriminate].
    injection H as H. subst l'. cbn [forallb].
    rewrite Hx, (IH t' sid Hf eq_refl Ht). reflexivity.
Qed.

Lemma first_match_sid : forall p f s,
  (forall it, data_section (f it) = data_section it) ->
  sid_of (first_match p f s) = sid_of s.
Proof.
  intros p f s Hf. unfold first_match, sid_of.
  destruct (p (section_title s)); [apply Hf|].
  destruct (on_first p f (nav_items s)); reflexivity.
Qed.

Lemma first_match_uniform : forall p f s,
  (forall it, data_section (f it) = data_section it) ->
  uniform s = true -> uniform (first_match p f s) = true.
Proof.
  intros p f s Hf Hu. unfold first_match.
  destruct (p (section_title s)).
  - unfold uniform, sid_of in *. cbn [with_title section_title nav_items].
    rewrite Hf. exact Hu.
  - destruct (on_first p f (nav_items s)) as [l|] eqn:El; [|exact Hu].
    unfold uniform, sid_of in *. cbn [with_items section_title nav_items].
    apply (on_first_sections p f _ l _ Hf El Hu).
Qed.

Lemma hide_all_grouped : forall nav,
  grouped nav = true -> grouped (hide_all nav) = true.
Proof.
  unfold hide_all. induction nav as [|s t IH]; intro Hg; [reflexivity|].
  cbn [grouped] in Hg. apply andb_prop in Hg. destruct Hg as [Hg Hgt].
  apply andb_prop in Hg. destruct Hg as [Hus Hn].
  cbn [map grouped]. rewrite (IH Hgt), andb_true_r.
  rewrite existsb_of_map.
  rewrite (existsb_same _ _ (fun s' => str_eqb (sid_of s') (sid_of s)));
    [|intro x; reflexivity].
  rewrite Hn, andb_true_r.
  unfold uniform, sid_of in *.
  cbn [set_section_display map_items section_title nav_items
       set_item_display data_section].
  rewrite forallb_of_map. exact Hus.
Qed.

Lemma hide_all_hidden : forall nav s,
  In s (hide_all nav) -> group_hidden s = true.
Proof.
  intros nav s H. unfold hide_all in H. apply in_map_iff in H.
  destruct H as (x & Hx & _). subst s. unfold group_hidden.
  unfold set_section_display, map_items.
  cbn [section_display section_title nav_items forallb].
  unfold set_item_display at 1. cbn [display].
  rewrite !str_eqb_refl. cbn [andb].
  apply forallb_map_true. intro it. apply str_eqb_refl.
Qed.

Lemma grouped_uniform : forall nav s,
  grouped nav = true -> In s nav -> uniform s = true.
Proof.
  induction nav as [|x t IH]; intros s Hg Hin; [destruct Hin|].
  cbn [grouped] in Hg. apply andb_prop in Hg. destruct Hg as [Hg Hgt].
  apply andb_prop in Hg. destruct Hg as [Hu _].
  destruct Hin as [E|Hin]; [subst x; exact Hu | apply (IH s Hgt Hin)].
Qed.

Lemma selector_of_data : forall r a b,
  data a = data b -> selector_of r a = selector_of r b.
Proof.
  intros r a b H. unfold data in H. injection H as H1 H2.
  unfold selector_of. destruct (type r);
    unfold section_selector, subsection_selector; rewrite H1, H2; reflexivity.
Qed.

Lemma selector_of_section : forall r it,
  selector_of r it = true -> str_eqb (data_section it) (section_of r) = true.
Proof. intros r it H. apply (selector_names_section r it H). Qed.

Lemma shown_for_highlighted : forall r it,
  selector_of r it = true ->
  shown_for r (set_item_display "block" true it) = true.
Proof.
  intros r it H. unfold shown_for.
  rewrite (selector_of_data r (set_item_display "block" true it) it eq_refl), H.
  unfold set_item_display. cbn [display search_highlight].
  rewrite str_eqb_refl. reflexivity.
Qed.

Lemma shown_for_kept : forall r it,
  shown_for r it = true ->
  shown_for r (set_item_display "block" true it) = true /\
  shown_for r (show_item it) = true.
Proof.
  intros r it H. unfold shown_for in H.
  apply andb_prop in H. destruct H as [H Hh].
  apply andb_prop in H. destruct H as [Hs Hd].
  split; [apply shown_for_highlighted, Hs|].
  unfold shown_for.
  rewrite (selector_of_data r (show_item it) it eq_refl), Hs.
  unfold show_item. cbn [display search_highlight].
  rewrite str_eqb_refl, Hh. reflexivity.
Qed.

Lemma on_first_kept : forall r p f l l',
  (forall it, shown_for r it = true -> shown_for r (f it) = true) ->
  on_first p f l = Some l' ->
  existsb (shown_for r) l = true -> existsb (shown_for r) l' = true.
Proof.
  induction l as [|x t IH]; intros l' Hf H He; [discriminate|].
  cbn [on_first] in H. cbn [existsb] in He. destruct (p x).
  - injection H as H. subst l'. cbn [existsb].
    destruct (shown_for r x) eqn:E.
    + rewrite (Hf x E). reflexivity.
    + cbn [orb] in He. rewrite He. apply orb_true_r.
  - destruct (on_first p f t) as [t'|] eqn:E; [|discriminate].
    injection H as H. subst l'. cbn [existsb].
    destruct (shown_for r x); [reflexivity|].
    cbn [orb] in *. apply (IH t' Hf eq_refl He).
Qed.

Lemma first_match_kept : forall r p f s,
  (forall it, shown_for r it = true -> shown_for r (f it) = true) ->
  hit_in r s = true -> hit_in r (first_match p f s) = true.
Proof.
  intros r p f s Hf H. unfold first_match.
  destruct (p (section_title s)).
  - unfold hit_in in *. cbn [with_title section_title nav_items existsb] in *.
    destruct (shown_for r (section_title s)) eqn:E.
    + rewrite (Hf _ E). reflexivity.
    + cbn [orb] in H. rewrite H. apply orb_true_r.
  - destruct (on_first p f (nav_items s)) as [l|] eqn:El; [|exact H].
    unfold hit_in in *. cbn [with_items section_title nav_items existsb] in *.
    destruct (shown_for r (section_title s)); [reflexivity|].
    cbn [orb] in *. apply (on_first_kept r p f _ l Hf El H).
Qed.

Lemma on_first_new : forall r f l,
  (forall it, selector_of r it = true -> shown_for r (f it) = true) ->
  existsb (selector_of r) l = true ->
  exists l', on_first (selector_of r) f l = Some l' /\
             existsb (shown_for r) l' = true.
Proof.
  induction l as [|x t IH]; intros Hf H; [discriminate|].
  cbn [on_first]. cbn [existsb] in H.
  destruct (selector_of r x) eqn:E.
  - eexists. split; [reflexivity|]. cbn [existsb].
    rewrite (Hf x E). reflexivity.
  - destruct (IH Hf H) as (l' & Hl & He). rewrite Hl.
    eexists. split; [reflexivity|]. cbn [existsb]. rewrite He.
    apply orb_true_r.
Qed.

Lemma first_match_new : forall r f s,
  (forall it, selector_of r it = true -> shown_for r (f it) = true) ->
  existsb (selector_of r) (section_title s :: nav_items s) = true ->
  hit_in r (first_match (selector_of r) f s) = true.
Proof.
  intros r f s Hf H. unfold first_match. cbn [existsb] in H.
  destruct (selector_of r (section_title s)) eqn:E.
  - unfold hit_in. cbn [with_title section_title nav_items existsb].
    rewrite (Hf _ E). reflexivity.
  - cbn [orb] in H. destruct (on_first_new r f _ Hf H) as (l' & Hl & He).
    rewrite Hl. unfold hit_in.
    cbn [with_items section_title nav_items existsb]. rewrite He.
    apply orb_true_r.
Qed.

Lemma matching_group : forall p sid nav,
  (forall it, p it = true -> str_eqb (data_section it) sid = true) ->
  grouped nav = true ->
  existsb p (items nav) = true ->
  exists s, In s nav /\ sid_of s = sid /\
            existsb p (section_title s :: nav_items s) = true.
Proof.
  intros p sid nav Hp Hg H. unfold items in H.
  apply existsb_exists in H. destruct H as (it & Hin & Hit).
  apply in_flat_map in Hin. destruct Hin as (s & Hs & Hin).
  exists s. split; [exact Hs|]. split.
  - pose proof (grouped_uniform nav s Hg Hs) as Hu.
    apply Hp in Hit. apply str_eqb_eq in Hit.
    destruct Hin as [E|Hin]; [subst it; exact Hit|].
    unfold uniform in Hu. rewrite forallb_forall in Hu.
    specialize (Hu it Hin). apply str_eqb_eq in Hu. rewrite <- Hu. exact Hit.
  - apply existsb_exists. exists it. split; [exact Hin | exact Hit].
Qed.

Lemma has_entry_by_entries : forall r a b,
  entries a = entries b ->
  existsb (selector_of r) (items a) = existsb (selector_of r) (items b).
Proof.
  intros r a b H.
  assert (E : forall nav, existsb (selector_of r) (items nav) =
                          existsb (selector_on r) (entries nav)).
  { intro nav. rewrite entries_items, existsb_of_map.
    apply existsb_same. intro it. apply selector_of_data. reflexivity. }
  rewrite !E, H. reflexivity.
Qed.

Lemma entries_hide_all : forall nav, entries (hide_all nav) = entries nav.
Proof.
  unfold hide_all. induction nav as [|s nav IH]; [reflexivity|].
  cbn [map]. rewrite !entries_cons, IH. f_equal.
  cbn [set_section_display map_items section_title nav_items map].
  f_equal. rewrite map_map. reflexivity.
Qed.

Lemma set_add_keeps : forall x l y, In y l -> In y (set_add x l).
Proof.
  intros x l y H. unfold set_add.
  destruct (existsb (str_eqb x) l); [exact H|]. apply in_or_app. left. exact H.
Qed.

Lemma set_add_new : forall x l, In x (set_add x l).
Proof.
  intros x l. unfold set_add.
  destruct (existsb (str_eqb x) l) eqn:E.
  - apply existsb_exists in E. destruct E as (y & Hin & Hy).
    apply str_eqb_eq in Hy. subst y. exact Hin.
  - apply in_or_app. right. left. reflexivity.
Qed.

Lemma in_in_group : forall sid h nav s',
  In s' (in_group sid h nav) ->
  exists s, In s nav /\
            s' = if str_eqb (sid_of s) sid then h s else s.
Proof.
  intros sid h nav s' H. unfold in_group in H. apply in_map_iff in H.
  destruct H as (s & E & Hin). exists s. split; [exact Hin|]. symmetry. exact E.
Qed.

Lemma in_group_in : forall sid h nav s,
  In s nav -> In (if str_eqb (sid_of s) sid then h s else s)
                 (in_group sid h nav).
Proof.
  intros sid h nav s H. unfold in_group.
  apply (in_map (fun s0 => if str_eqb (sid_of s0) sid then h s0 else s0)).
  exact H.
Qed.

Lemma show_results_state : forall nav0 todo handled nav vis,
  showing_results nav0 handled nav vis ->
  showing_results nav0 (handled ++ todo)
    (fst (show_results todo nav vis)) (snd (show_results todo nav vis)).
Proof.
  intros nav0 todo. induction todo as [|r0 more IH];
    intros handled nav vis H.
  - rewrite app_nil_r. exact H.
  - replace (handled ++ r0 :: more) with ((handled ++ [r0]) ++ more)
      by (rewrite <- app_assoc; reflexivity).
    rewrite show_results_step.
    destruct H as (He & Hg & Hhit & Hvis & Hhid).
    set (p := selector_of r0).
    set (f := set_item_display "block" true).
    assert (Hp : forall it, p it = true ->
                   str_eqb (data_section it) (section_of r0) = true)
      by (intros it; apply selector_of_section).
    assert (Hf : forall it, data_section (f it) = data_section it)
      by reflexivity.
    destruct (query_update p f (fun s => s) nav) as [nav'|] eqn:E.
    + apply IH.
      pose proof (query_update_grouped p f (fun s => s) (section_of r0)
                    nav nav' Hp Hg E) as Hn.
      cbv beta in Hn.
      assert (He' : entries nav' = entries nav).
      { apply (query_update_entries p f (fun s => s) nav nav'
                 (fun it => eq_refl) (fun s => eq_refl) E). }
      split; [rewrite He'; exact He|]. split.
      { rewrite Hn. apply in_group_grouped; [| |exact Hg].
        - intro s. apply first_match_sid. exact Hf.
        - intros s Hs. apply first_match_uniform; [exact Hf | exact Hs]. }
      split.
      { intros r Hr Hen. apply in_app_or in Hr. destruct Hr as [Hr|[Hr|[]]].
        - destruct (Hhit r Hr Hen) as (Hv & s & Hs & Hsid & Hh).
          split; [apply set_add_keeps, Hv|].
          exists (if str_eqb (sid_of s) (section_of r0)
                  then first_match p f s else s).
          split; [rewrite Hn; apply in_group_in, Hs|].
          destruct (str_eqb (sid_of s) (section_of r0)).
          + split; [rewrite first_match_sid; [exact Hsid | exact Hf]|].
            apply first_match_kept; [|exact Hh].
            intros it Hit. apply (proj1 (shown_for_kept r it Hit)).
          + split; assumption.
        - subst r. split; [apply set_add_new|].
          apply query_update_hit in E.
          destruct (matching_group p (section_of r0) nav Hp Hg E)
            as (s & Hs & Hsid & Hm).
          exists (if str_eqb (sid_of s) (section_of r0)
                  then first_match p f s else s).
          split; [rewrite Hn; apply in_group_in, Hs|].
          rewrite Hsid, str_eqb_refl.
          split; [rewrite first_match_sid; [exact Hsid | exact Hf]|].
          apply first_match_new; [|exact Hm].
          intros it Hit. apply shown_for_highlighted, Hit. }
      split.
      { intros sid Hin. apply set_add_in in Hin. destruct Hin as [Hin|Hin].
        - subst sid. exists r0. split; [|reflexivity].
          apply in_or_app. right. left. reflexivity.
        - destruct (Hvis sid Hin) as (r & Hr & Hs). exists r.
          split; [apply in_or_app; left; exact Hr | exact Hs]. }
      { intros s' Hs' Hno. rewrite Hn in Hs'.
        apply in_in_group in Hs'. destruct Hs' as (s & Hs & Es).
        destruct (str_eqb (sid_of s) (section_of r0)) eqn:Eq.
        - exfalso. apply (Hno r0).
          + apply in_or_app. right. left. reflexivity.
          + subst s'. rewrite first_match_sid by exact Hf.
            apply str_eqb_eq in Eq. symmetry. exact Eq.
        - subst s'. apply (Hhid s Hs). intros r Hr.
          apply Hno. apply in_or_app. left. exact Hr. }
    + apply IH. split; [exact He|]. split; [exact Hg|]. split.
      { intros r Hr Hen. apply in_app_or in Hr. destruct Hr as [Hr|[Hr|[]]].
        - apply (Hhit r Hr Hen).
        - subst r. exfalso.
          rewrite <- (has_entry_by_entries r0 nav nav0 He) in Hen.
          destruct (query_update_found p f (fun s => s) nav Hen) as [x Hx].
          rewrite Hx in E. discriminate. }
      split.
      { intros sid Hin. destruct (Hvis sid Hin) as (r & Hr & Hs). exists r.
        split; [apply in_or_app; left; exact Hr | exact Hs]. }
      { intros s Hs Hno. apply (Hhid s Hs). intros r Hr.
        apply Hno. apply in_or_app. left. exact Hr. }
Qed.

Lemma on_first_same : forall p l l',
  on_first p (fun it => it) l = Some l' -> l' = l.
Proof.
  induction l as [|x t IH]; intros l' H; [discriminate|].
  cbn [on_first] in H. destruct (p x).
  - injection H as H. symmetry. exact H.
  - destruct (on_first p (fun it => it) t) as [t'|] eqn:E; [|discriminate].
    injection H as H. subst l'. rewrite (IH t' eq_refl). reflexivity.
Qed.

Lemma first_match_same : forall p s, first_match p (fun it => it) s = s.
Proof.
  intros p s. unfold first_match.
  destruct (p (section_title s)); [destruct s; reflexivity|].
  destruct (on_first p (fun it => it) (nav_items s)) as [l|] eqn:E;
    [|reflexivity].
  rewrite (on_first_same p _ l E). destruct s; reflexivity.
Qed.

Lemma show_section_visible : forall s,
  group_visible (with_title (show_item (section_title s))
                   (set_section_display "block" false s)) = true.
Proof.
  intro s. unfold group_visible, with_title, set_section_display, show_item.
  cbn [section_display search_filtered section_title display].
  rewrite !str_eqb_refl. reflexivity.
Qed.

Lemma show_section_hit : forall r s,
  hit_in r s = true ->
  hit_in r (with_title (show_item (section_title s))
              (set_section_display "block" false s)) = true.
Proof.
  intros r s H. unfold hit_in in *.
  cbn [with_title set_section_display section_title nav_items existsb] in *.
  destruct (shown_for r (section_title s)) eqn:E.
  - rewrite (proj2 (shown_for_kept r _ E)). reflexivity.
  - cbn [orb] in H. rewrite H. apply orb_true_r.
Qed.

Lemma show_sections_state : forall nav0 results todo shown nav nav',
  (forall sid, In sid todo -> exists r, In r results /\ section_of r = sid) ->
  show_sections todo nav = Done nav' ->
  showing_sections nav0 results shown nav ->
  showing_sections nav0 results (shown ++ todo) nav'.
Proof.
  intros nav0 results todo. induction todo as [|sid more IH];
    intros shown nav nav' Hnamed H Hs.
  - cbn [show_sections] in H. injection H as H. subst nav'.
    rewrite app_nil_r. exact Hs.
  - replace (shown ++ sid :: more) with ((shown ++ [sid]) ++ more)
      by (rewrite <- app_assoc; reflexivity).
    cbn [show_sections] in H.
    set (g := fun s => with_title (show_item (section_title s))
                         (set_section_display "block" false s)) in *.
    destruct (query_update (any_selector sid) (fun it => it) g nav)
      as [nav1|] eqn:E; [|discriminate].
    apply (IH (shown ++ [sid]) nav1 nav');
      [intros x Hx; apply Hnamed; right; exact Hx | exact H |].
    destruct Hs as (Hg & Hhit & Hhid & Hvis).
    pose proof (query_update_grouped (any_selector sid) (fun it => it) g sid
                  nav nav1 (fun it Hit => Hit) Hg E) as Hn.
    assert (Hn' : nav1 = in_group sid g nav).
    { rewrite Hn. unfold in_group. apply map_ext. intro s.
      rewrite first_match_same. reflexivity. }
    clear Hn. split.
    { rewrite Hn'. apply in_group_grouped; [| |exact Hg].
      - intro s. reflexivity.
      - intros s Hu. exact Hu. }
    split.
    { intros r Hr Hen. destruct (Hhit r Hr Hen) as (s & Hin & Hsid & Hh).
      exists (if str_eqb (sid_of s) sid then g s else s).
      split; [rewrite Hn'; apply in_group_in, Hin|].
      destruct (str_eqb (sid_of s) sid).
      - split; [exact Hsid | apply show_section_hit, Hh].
      - split; assumption. }
    split.
    { intros s' Hs' Hno. rewrite Hn' in Hs'.
      apply in_in_group in Hs'. destruct Hs' as (s & Hin & Es).
      destruct (str_eqb (sid_of s) sid) eqn:Eq.
      - exfalso. destruct (Hnamed sid (or_introl eq_refl)) as (r & Hr & Hrs).
        apply (Hno r Hr). subst s'. apply str_eqb_eq in Eq.
        rewrite Hrs. symmetry. exact Eq.
      - subst s'. apply (Hhid s Hin Hno). }
    { intros x s' Hx Hs' Hsid. rewrite Hn' in Hs'.
      apply in_in_group in Hs'. destruct Hs' as (s & Hin & Es).
      destruct (str_eqb (sid_of s) sid) eqn:Eq.
      - subst s'. apply show_section_visible.
      - subst s'. apply in_app_or in Hx. destruct Hx as [Hx|[Hx|[]]].
        + apply (Hvis x s Hx Hin Hsid).
        + subst x. rewrite Hsid, str_eqb_refl in Eq. discriminate. }
Qed.

(** X21. On a navigation whose groups each stand for one section, and
    with an index whose ids are safe to paste into a selector, a query
    that is not blank leaves this on the page. Every result whose entry
    exists has that entry displayed and highlighted, inside the group
    of its section, and that group and its title are displayed; the
    groups of sections that no result names are hidden with all their
    entries. *)
Theorem search_displays_results : forall query w n w',
  sidebarNav (page w) = Some n ->
  grouped (nav_sections n) = true ->
  forallb record_safe (searchIndex (this w)) = true ->
  truthy (trim (toLowerCase query)) = true ->
  searchDocumentation query w = Done w' ->
  let results :=
    searchResults (searchIndex (this w)) (trim (toLowerCase query)) in
  (forall r, In r results ->
     existsb (selector_of r) (items (nav_sections n)) = true ->
     exists s, In s (nav_of w') /\ sid_of s = section_of r /\
               group_visible s = true /\ hit_in r s = true) /\
  (forall s, In s (nav_of w') ->
     (forall r, In r results -> section_of r <> sid_of s) ->
     group_hidden s = true).
Proof.
  intros query w n w' Hn Hg _ Hq H. cbv zeta.
  unfold searchDocumentation in H. rewrite Hq in H. cbn [negb] in H.
  set (results := searchResults (searchIndex (this w))
                    (trim (toLowerCase query))) in *.
  assert (Hnav : nav_of w = nav_sections n)
    by (unfold nav_of; rewrite Hn; reflexivity).
  rewrite Hnav in H.
  pose proof (show_results_state (nav_sections n) results []
                (hide_all (nav_sections n)) []) as Hsr.
  cbn [app] in Hsr.
  destruct (show_results results (hide_all (nav_sections n)) [])
    as [shown vis].
  cbn [fst snd] in Hsr.
  assert (H0 : showing_results (nav_sections n) [] (hide_all (nav_sections n)) []).
  { split; [apply entries_hide_all|]. split; [apply hide_all_grouped, Hg|].
    split; [intros r []|]. split; [intros sid []|].
    intros s Hs _. apply (hide_all_hidden _ s Hs). }
  specialize (Hsr H0). destruct Hsr as (He & Hgs & Hhit & Hvis & Hhid).
  destruct (show_sections vis shown) as [nav'|error] eqn:Ess;
    [|discriminate].
  cbn [bind] in H.
  assert (Hss : showing_sections (nav_sections n) results ([] ++ vis) nav').
  { apply (show_sections_state (nav_sections n) results vis [] shown nav'
             Hvis Ess).
    split; [exact Hgs|]. split.
    - intros r Hr Hen. apply (proj2 (Hhit r Hr Hen)).
    - split; [exact Hhid|]. intros sid s []. }
  cbn [app] in Hss. destruct Hss as (_ & Hhit' & Hhid' & Hvis').
  assert (Hw : nav_of w' = nav').
  { destruct results as [|r rs].
    - unfold showSearchEmptyState, set_nav in H. rewrite Hn in H.
      cbn [set_sidebarNav page sidebarNav] in H.
      injection H as H. subst w'. reflexivity.
    - injection H as H. subst w'.
      unfold hideSearchEmptyState, set_nav. rewrite Hn.
      cbn [set_sidebarNav page sidebarNav empty_state].
      destruct (empty_state n); reflexivity. }
  rewrite Hw. split.
  - intros r Hr Hen. destruct (Hhit' r Hr Hen) as (s & Hs & Hsid & Hh).
    exists s. split; [exact Hs|]. split; [exact Hsid|]. split; [|exact Hh].
    apply (Hvis' (section_of r) s); [|exact Hs | exact Hsid].
    apply (proj1 (Hhit r Hr Hen)).
  - exact Hhid'.
Qed.

(** ** The navigation and the index of the sample document *)

Lemma built_items : forall d section,
  In section (sections d) ->
  forall it, In it (section_title (nav_section section) ::
                    nav_items (nav_section section)) ->
  In it (items (map nav_section (sections d))).
Proof.
  intros d section Hs it Hit. unfold items. apply in_flat_map.
  exists (nav_section section). split; [apply in_map, Hs | exact Hit].
Qed.

Lemma built_has_entry : forall d r,
  In r (index_of d) ->
  existsb (selector_of r) (items (map nav_section (sections d))) = true.
Proof.
  intros d r H. rewrite index_of_in_order in H. unfold records_in_order in H.
  apply in_flat_map in H. destruct H as (section & Hs & [H|H]).
  - subst r. apply existsb_exists.
    exists (section_title (nav_section section)).
    split; [apply (built_items d section Hs); left; reflexivity|].
    unfold selector_of, section_selector. cbn. rewrite str_eqb_refl.
    reflexivity.
  - apply in_map_iff in H. destruct H as (sub & H & Hsub). subst r.
    apply existsb_exists.
    exists (nav_item (id section)
              (Some (createSubsectionId (subsection_title sub)))
              (subsection_title sub)).
    split.
    + apply (built_items d section Hs). right.
      unfold nav_section. cbn [nav_items].
      apply (in_map (fun subsection =>
               nav_item (id section)
                 (Some (createSubsectionId (subsection_title subsection)))
                 (subsection_title subsection))). exact Hsub.
    + unfold selector_of, subsection_selector. cbn.
      rewrite !str_eqb_refl. reflexivity.
Qed.

Lemma search_displays_results_witness :
  let w := buildNavigation (buildSearchIndex
             (loadDocs NetworkError (blank_page []))) in
  exists w',
    searchDocumentation "Embed" w = Done w' /\
    (forall r, In r (searchResults (searchIndex (this w)) "embed") ->
       exists s, In s (nav_of w') /\ sid_of s = section_of r /\
                 group_visible s = true /\ hit_in r s = true) /\
    (forall s, In s (nav_of w') ->
       (forall r, In r (searchResults (searchIndex (this w)) "embed") ->
                  section_of r <> sid_of s) ->
       group_hidden s = true).
Proof.
  cbv zeta.
  set (w := buildNavigation (buildSearchIndex
               (loadDocs NetworkError (blank_page [])))).
  destruct (searchDocumentation "Embed" w) as [w'|error] eqn:E.
  - exists w'. split; [reflexivity|].
    destruct (search_displays_results "Embed" w
                {| nav_html := navHTML getSampleDocs;
                   nav_sections := map nav_section (sections getSampleDocs);
                   empty_state := None |} w'
                eq_refl eq_refl eq_refl eq_refl E) as [H1 H2].
    split; [|exact H2].
    intros r Hr. apply (H1 r Hr).
    apply (built_has_entry getSampleDocs r).
    unfold searchResults in Hr. apply filter_In in Hr. apply Hr.
  - exfalso. vm_compute in E. discriminate.
Defined.

(** ** More on the matcher *)


Lemma exec_Lit_hit : forall ml w prev t cs k,
  exec ml (Lit w) (MState prev (w ++ t) cs) k =
  k (MState (last_of prev w) t cs).
Proof.
  intros ml w. unfold Lit. induction w as [|a w IH]; intros prev t cs k.
  - reflexivity.
  - cbn [map]. rewrite exec_cat_cons. cbn [app].
    rewrite exec_Chr_hit. apply IH.
Qed.

Lemma skip_class_split : forall p t r prev,
  forallb p t = true ->
  match r with c :: _ => p c = false | [] => True end ->
  skip_class p prev (t ++ r) = (last_of prev t, r).
Proof.
  induction t as [|c t IH]; intros r prev Ht Hr.
  - cbn [app last_of fold_left]. destruct r as [|c r]; [reflexivity|].
    cbn [skip_class]. rewrite Hr. reflexivity.
  - cbn [forallb] in Ht. apply andb_prop in Ht. destruct Ht as [Hc Ht].
    cbn [app skip_class]. rewrite Hc. apply (IH r (Some c) Ht Hr).
Qed.

Lemma star_loop_greedy_S : forall body k fuel st,
  star_loop body true k (S fuel) st =
  match body st (fun st' =>
          if length (rest st') <? length (rest st)
          then star_loop body true k fuel st' else None) with
  | Some e => Some e
  | None => k st
  end.
Proof. reflexivity. Qed.

Lemma exec_Class_cons : forall ml p prev c t cs k,
  exec ml (Class p) (MState prev (c :: t) cs) k =
  if p c then k (MState (Some c) t cs) else None.
Proof. reflexivity. Qed.

Lemma exec_Class_nil : forall ml p prev cs k,
  exec ml (Class p) (MState prev [] cs) k = None.
Proof. reflexivity. Qed.

Lemma shorter_tail : forall (c : ascii) t,
  (length t <? length (c :: t)) = true.
Proof. intros c t. apply Nat.ltb_lt. cbn [length]. lia. Qed.

Lemma star_any_none : forall ml k cs t fuel prev,
  (forall pre post p, t = pre ++ post -> k (MState p post cs) = None) ->
  star_loop (exec ml (Class any_char)) true k fuel (MState prev t cs) = None.
Proof.
  intros ml k cs. induction t as [|c t IH]; intros fuel prev Hk.
  - destruct fuel as [|fuel]; [apply (Hk [] [] prev eq_refl)|].
    rewrite star_loop_greedy_S, exec_Class_nil.
    apply (Hk [] [] prev eq_refl).
  - destruct fuel as [|fuel]; [apply (Hk [] _ prev eq_refl)|].
    rewrite star_loop_greedy_S, exec_Class_cons.
    change (any_char c) with true. cbn [rest].
    rewrite shorter_tail, (IH fuel (Some c)).
    + apply (Hk [] _ prev eq_refl).
    + intros pre post p E. apply (Hk (c :: pre) post p). rewrite E. reflexivity.
Qed.

(** A greedy star over any character gives way from the right: it
    hands over at the last position where what follows succeeds. *)
Lemma star_any_back : forall ml k cs a b e fuel prev,
  length (a ++ b) < fuel ->
  (forall pre post p, b = pre ++ post -> pre <> [] ->
                      k (MState p post cs) = None) ->
  k (MState (last_of prev a) b cs) = Some e ->
  star_loop (exec ml (Class any_char)) true k fuel (MState prev (a ++ b) cs)
    = Some e.
Proof.
  intros ml k cs. induction a as [|c a IH]; intros b e fuel prev Hf Hk He.
  - destruct fuel as [|fuel]; [cbn in Hf; lia|].
    cbn [app]. cbn [last_of fold_left] in He.
    rewrite star_loop_greedy_S.
    destruct b as [|c b].
    + rewrite exec_Class_nil. exact He.
    + rewrite exec_Class_cons. change (any_char c) with true. cbn [rest].
      rewrite shorter_tail.
      rewrite (star_any_none ml k cs b fuel (Some c)); [exact He|].
      intros pre post p E. apply (Hk (c :: pre) post p).
      * rewrite E. reflexivity.
      * discriminate.
  - destruct fuel as [|fuel]; [cbn in Hf; lia|].
    cbn [app]. rewrite star_loop_greedy_S, exec_Class_cons.
    change (any_char c) with true. cbn [rest]. rewrite shorter_tail.
    rewrite (IH b e fuel (Some c)); [reflexivity| |exact Hk|exact He].
    cbn [app length] in Hf. lia.
Qed.

Lemma exec_LineStart : forall st k,
  at_line_start true st = true -> exec true LineStart st k = k st.
Proof. intros st k H. cbn [exec]. rewrite H. reflexivity. Qed.

Lemma exec_LineEnd : forall st k,
  at_line_end true st = true -> exec true LineEnd st k = k st.
Proof. intros st k H. cbn [exec]. rewrite H. reflexivity. Qed.

Lemma line_text_parts : forall x,
  line_text x = true ->
  exists c t, x = c :: t /\ dot c = true /\ forallb dot t = true.
Proof.
  intros [|c t] H; [discriminate|]. unfold line_text in H.
  cbn [truthy andb] in H. unfold no_newlines, free_of in H.
  cbn [forallb] in H. apply andb_prop in H. destruct H as [Hc Ht].
  exists c, t. split; [reflexivity|]. split; [exact Hc | exact Ht].
Qed.

(** The rest of a line, captured: [(.+)$] on a line that is not
    empty takes the whole line. *)
Lemma exec_rest_of_line : forall n x r prev cs k e,
  line_text x = true ->
  match r with c :: _ => is_line_terminator c = true | [] => True end ->
  k (MState (last_of prev x) r ((n, x) :: cs)) = Some e ->
  exec true (cat [Group n (Plus (Class dot)); LineEnd])
    (MState prev (x ++ r) cs) k = Some e.
Proof.
  intros n x r prev cs k e Hx Hr He.
  destruct (line_text_parts x Hx) as (c & t & E & Hc & Ht). subst x.
  rewrite exec_cat_cons, exec_Group. cbn [app].
  apply exec_plus_class_then; [exact Hc|].
  assert (Hstop : match r with c0 :: _ => dot c0 = false | [] => True end).
  { destruct r as [|c0 r]; [exact I|]. unfold dot. rewrite Hr. reflexivity. }
  rewrite (skip_class_split dot t r (Some c) Ht Hstop). cbn [fst snd].
  unfold capture, consumed. cbn [rest before caps].
  change (c :: t ++ r) with ((c :: t) ++ r). rewrite firstn_prefix.
  change (cat [LineEnd]) with LineEnd. rewrite exec_LineEnd.
  - exact He.
  - unfold at_line_end. cbn [rest]. destruct r as [|c0 r]; [reflexivity|].
    rewrite Hr. reflexivity.
Qed.

Lemma match_line : forall marker x r prev,
  match prev with Some c => is_line_terminator c = true | None => True end ->
  line_text x = true ->
  match r with c :: _ => is_line_terminator c = true | [] => True end ->
  match_at true (line_re marker) prev (marker ++ x ++ r) =
  Some (MState (last_of (last_of prev marker) x) r [(1, x)]).
Proof.
  intros marker x r prev Hp Hx Hr. unfold match_at, line_re.
  rewrite exec_cat_cons, exec_LineStart.
  - rewrite exec_cat_cons, exec_Lit_hit.
    apply exec_rest_of_line; [exact Hx | exact Hr | reflexivity].
  - unfold at_line_start. cbn [before]. destruct prev as [c|]; [|reflexivity].
    rewrite Hp. reflexivity.
Qed.

Lemma no_match_inside_line : forall x prev s,
  match prev with Some c => is_line_terminator c = false | None => False end ->
  match_at true (Seq LineStart x) prev s = None.
Proof.
  intros x prev s Hp. unfold match_at. cbn [exec].
  unfold at_line_start. cbn [before]. destruct prev as [c|]; [|destruct Hp].
  rewrite Hp. reflexivity.
Qed.

Lemma replace_from_nil : forall fuel ml r f prev,
  match_at ml r prev [] = None -> replace_from fuel ml r f prev [] = [].
Proof.
  intros fuel ml r f prev H. destruct fuel as [|fuel]; [reflexivity|].
  rewrite replace_from_S, H. reflexivity.
Qed.

Lemma replace_from_hit : forall fuel ml r f prev s e,
  match_at ml r prev s = Some e ->
  length (rest e) < length s ->
  replace_from (S fuel) ml r f prev s =
  f (Found (firstn (length s - length (rest e)) s) (caps e)) ++
  replace_from fuel ml r f (before e) (rest e).
Proof.
  intros fuel ml r f prev s e H Hl. rewrite replace_from_S, H.
  rewrite (proj2 (Nat.ltb_lt _ _) Hl). reflexivity.
Qed.

Lemma replace_from_miss : forall fuel ml r f prev c t,
  match_at ml r prev (c :: t) = None ->
  replace_from (S fuel) ml r f prev (c :: t) =
  c :: replace_from fuel ml r f (Some c) t.
Proof. intros fuel ml r f prev c t H. rewrite replace_from_S, H. reflexivity. Qed.

(** A replacement that reads one class of characters is a map over
    the characters. *)
Lemma replace_class : forall ml p f s fuel prev,
  length s < fuel ->
  replace_from fuel ml (Class p) f prev s =
  flat_map (fun c => if p c then f (Found [c] []) else [c]) s.
Proof.
  intros ml p f. induction s as [|c t IH]; intros fuel prev Hf.
  - apply replace_from_nil. reflexivity.
  - destruct fuel as [|fuel]; [cbn in Hf; lia|].
    cbn [length] in Hf. cbn [flat_map].
    destruct (p c) eqn:E.
    + rewrite (replace_from_hit fuel ml (Class p) f prev (c :: t)
                 (MState (Some c) t [])).
      * cbn [rest caps before length].
        replace (S (length t) - length t) with 1 by lia.
        cbn [firstn]. rewrite (IH fuel (Some c)) by lia. reflexivity.
      * unfold match_at. cbn [exec rest]. rewrite E. reflexivity.
      * cbn [rest length]. lia.
    + rewrite replace_from_miss.
      * rewrite (IH fuel (Some c)) by lia. reflexivity.
      * unfold match_at. cbn [exec rest]. rewrite E. reflexivity.
Qed.

(** ** Patterns anchored at the start of a line, on several lines *)

Lemma at_line_start_starts : forall prev s cs,
  at_line_start true (MState prev s cs) = starts_line prev.
Proof. intros [c|] s cs; reflexivity. Qed.

Lemma anchored_id_lines : forall x f s ok,
  (forall r prev, ok r = true -> exec true x (MState prev r []) Some = None) ->
  at_line_starts ok true s = true ->
  replace_all true (Seq LineStart x) f s = s.
Proof.
  intros x f s ok Hx Hs. unfold replace_all.
  apply (replace_from_id true (Seq LineStart x) f
           (fun prev s' => at_line_starts ok (starts_line prev) s' = true)).
  - intros prev c t H. cbn [at_line_starts] in H.
    apply andb_prop in H. apply H.
  - intros prev s' H. unfold match_at. cbn [exec].
    rewrite at_line_start_starts.
    destruct (starts_line prev); [|reflexivity].
    apply Hx. destruct s'; cbn [at_line_starts] in H;
      apply andb_prop in H; apply H.
  - exact Hs.
Qed.

Lemma at_line_starts_weaken : forall (ok ok' : str -> bool) s b,
  (forall r, ok r = true -> ok' r = true) ->
  at_line_starts ok b s = true -> at_line_starts ok' b s = true.
Proof.
  intros ok ok' s. induction s as [|c t IH]; intros b Hw H.
  - cbn [at_line_starts] in *. destruct b; [|reflexivity].
    apply andb_prop in H. rewrite (Hw [] (proj1 H)). reflexivity.
  - cbn [at_line_starts] in *. apply andb_prop in H. destruct H as [H1 H2].
    rewrite (IH _ Hw H2), andb_true_r.
    destruct b; [apply Hw, H1 | reflexivity].
Qed.

Lemma line_re_id_lines : forall marker f s,
  at_line_starts (fun r => negb (startsWith marker r)) true s = true ->
  replace_all true (line_re marker) f s = s.
Proof.
  intros marker f s H. unfold line_re.
  change (cat [LineStart; Lit marker; Group 1 (Plus (Class dot)); LineEnd])
    with (Seq LineStart
            (cat [Lit marker; Group 1 (Plus (Class dot)); LineEnd])).
  apply (anchored_id_lines _ f s (fun r => negb (startsWith marker r)));
    [|exact H].
  intros r prev Hr. rewrite exec_cat_cons. apply exec_Lit_mismatch.
  apply negb_true_iff. exact Hr.
Qed.

Lemma opens_plain_marker : forall a w r,
  block_marker a = true -> opens_plain r = true ->
  negb (startsWith (a :: w) r) = true.
Proof.
  intros a w [|c t] Ha H; [reflexivity|].
  apply negb_true_iff. apply startsWith_first.
  destruct (is_char a c) eqn:E; [|reflexivity].
  apply is_char_eq in E. subst c. cbn [opens_plain] in H.
  rewrite Ha in H. discriminate.
Qed.

Section QuietText.

Variable s : str.
Hypothesis tokens : free_of inline_token s = true.
Hypothesis starts : at_line_starts opens_plain true s = true.
Hypothesis no_item : includes s "<li>" = false.

Lemma quiet_free : forall a,
  inline_token a = true -> free_of (is_char a) s = true.
Proof.
  intros a Ha. apply (free_of_weaken inline_token); [|exact tokens].
  intros c Hc. apply is_char_eq in Hc. subst c. exact Ha.
Qed.

Lemma quiet_line : forall a w f,
  block_marker a = true -> replace_all true (line_re (a :: w)) f s = s.
Proof.
  intros a w f Ha. apply line_re_id_lines.
  apply (at_line_starts_weaken opens_plain); [|exact starts].
  intros r Hr. apply opens_plain_marker; assumption.
Qed.

Lemma quiet_ordered : forall f, replace_all true ordered_re f s = s.
Proof.
  intro f. unfold ordered_re.
  change (cat [LineStart; Plus (Class is_digit); Lit ". ";
               Group 1 (Plus (Class dot)); LineEnd])
    with (Seq LineStart
            (cat [Plus (Class is_digit); Lit ". ";
                  Group 1 (Plus (Class dot)); LineEnd])).
  apply (anchored_id_lines _ f s opens_plain); [|exact starts].
  intros r prev Hr. rewrite exec_cat_cons. unfold Plus. rewrite exec_Seq.
  destruct r as [|c t]; [reflexivity|].
  rewrite exec_Class_cons. destruct (is_digit c) eqn:E; [|reflexivity].
  cbn [opens_plain] in Hr. unfold block_marker in Hr. rewrite E in Hr.
  rewrite !orb_true_r in Hr. discriminate.
Qed.

Lemma quiet_rule : forall f, replace_all true rule_re f s = s.
Proof.
  intro f. unfold rule_re.
  change (cat [LineStart; Lit "---"; LineEnd])
    with (Seq LineStart (cat [Lit "---"; LineEnd])).
  apply (anchored_id_lines _ f s opens_plain); [|exact starts].
  intros r prev Hr. rewrite exec_cat_cons. apply exec_Lit_mismatch.
  apply negb_true_iff. apply opens_plain_marker; [reflexivity | exact Hr].
Qed.

Lemma quiet_list_run : forall f, replace_all false list_run_re f s = s.
Proof.
  intro f. unfold list_run_re, Plus. unfold replace_all.
  apply (replace_from_id false _ f
           (fun _ s' => includes s' "<li>" = false)); auto.
  - intros _ c t Hc. eapply includes_tail. exact Hc.
  - intros prev s0 H0. unfold match_at. rewrite exec_Seq, exec_Group.
    rewrite exec_cat_cons. apply exec_Lit_mismatch. cbn [rest].
    apply includes_head. exact H0.
Qed.

(** Text without inline tokens, without a block marker at the start
    of a line and without a list item spelled out passes every stage
    before the paragraph stages unchanged. *)
Lemma quiet_stages :
  pipeline (firstn 14 markdown_stages) s = s.
Proof.
  unfold pipeline, markdown_stages. cbn [firstn fold_left].
  rewrite (replace_all_free false (is_char "`") fence_re);
    [| reflexivity | apply quiet_free; reflexivity].
  rewrite (replace_all_free false (is_char "`") inline_code_re);
    [| reflexivity | apply quiet_free; reflexivity].
  rewrite (replace_all_free false (is_char "*") bold_re);
    [| reflexivity | apply quiet_free; reflexivity].
  rewrite (replace_all_free false (is_char "*") italic_re);
    [| reflexivity | apply quiet_free; reflexivity].
  rewrite (quiet_line "#" "## ") by reflexivity.
  rewrite (quiet_line "#" "# ") by reflexivity.
  rewrite (quiet_line "#" " ") by reflexivity.
  rewrite (replace_all_free false (is_char "[") link_re);
    [| reflexivity | apply quiet_free; reflexivity].
  rewrite (quiet_line "-" " ") by reflexivity.
  rewrite quiet_list_run, quiet_ordered, quiet_list_run.
  rewrite (quiet_line ">" " ") by reflexivity.
  apply quiet_rule.
Qed.

End QuietText.

(** ** Line breaks and paragraph breaks *)

Lemma replace_blank_lines : forall n s fuel prev,
  length s <= n -> length s < fuel ->
  replace_from fuel false blank_line_re (fun _ => "</p><p>" : str) prev s =
  paragraphs s.
Proof.
  induction n as [|n IH]; intros s fuel prev Hn Hf.
  - destruct s; [|cbn in Hn; lia]. apply replace_from_nil. reflexivity.
  - destruct s as [|c t]; [apply replace_from_nil; reflexivity|].
    destruct fuel as [|fuel]; [cbn in Hf; lia|].
    cbn [length] in Hn, Hf. cbn [paragraphs].
    destruct t as [|c' t'].
    + rewrite replace_from_miss.
      * rewrite replace_from_nil; reflexivity.
      * unfold match_at, blank_line_re. apply exec_Lit_mismatch.
        cbn [rest startsWith]. apply andb_false_r.
    + destruct (is_char LF c && is_char LF c') eqn:E.
      * apply andb_prop in E. destruct E as [E1 E2].
        apply is_char_eq in E1, E2. subst c c'.
        rewrite (replace_from_hit fuel false blank_line_re _ prev
                   (LF :: LF :: t') (MState (Some LF) t' [])).
        -- cbn [rest caps before]. rewrite (IH t' fuel (Some LF)).
           ++ reflexivity.
           ++ cbn [length] in Hn. lia.
           ++ cbn [length] in Hf. lia.
        -- unfold match_at, blank_line_re.
           change (LF :: LF :: t') with ([LF; LF] ++ t').
           rewrite exec_Lit_hit. reflexivity.
        -- cbn [rest length]. lia.
      * rewrite replace_from_miss.
        -- rewrite (IH (c' :: t') fuel (Some c)); [reflexivity| |].
           ++ cbn [length] in *. lia.
           ++ cbn [length] in *. lia.
        -- unfold match_at, blank_line_re. apply exec_Lit_mismatch.
           cbn [rest startsWith]. rewrite andb_true_r. exact E.
Qed.

Lemma breaks_of_paragraphs : forall n s,
  length s <= n ->
  flat_map (fun c => if is_char LF c then "<br>" : str else [c])
           (paragraphs s) = breaks s.
Proof.
  induction n as [|n IH]; intros s Hn.
  - destruct s; [reflexivity | cbn in Hn; lia].
  - destruct s as [|c t]; [reflexivity|].
    cbn [length] in Hn. cbn [paragraphs breaks].
    destruct t as [|c' t']; [cbn [flat_map]; rewrite app_nil_r; reflexivity|].
    destruct (is_char LF c && is_char LF c').
    + rewrite flat_map_app. rewrite (IH t') by (cbn [length] in Hn; lia).
      reflexivity.
    + cbn [flat_map]. rewrite (IH (c' :: t')) by (cbn [length] in *; lia).
      reflexivity.
Qed.

Lemma paragraph_stages : forall s,
  replace_all false newline_re (fun _ => "<br>" : str)
    (replace_all false blank_line_re (fun _ => "</p><p>" : str) s) =
  breaks s.
Proof.
  intro s. unfold replace_all at 2.
  rewrite (replace_blank_lines (length s) s) by lia.
  unfold replace_all, newline_re, Chr.
  rewrite replace_class by lia.
  apply (breaks_of_paragraphs (length s)). lia.
Qed.

Lemma pipeline_app : forall a b x,
  pipeline (a ++ b) x = pipeline b (pipeline a x).
Proof. intros a b x. unfold pipeline. apply fold_left_app. Qed.

Lemma pipeline_quiet : forall s,
  free_of inline_token s = true ->
  at_line_starts opens_plain true s = true ->
  includes s "<li>" = false ->
  pipeline markdown_stages s = breaks s.
Proof.
  intros s Ht Hs Hl.
  change markdown_stages
    with (firstn 14 markdown_stages ++ skipn 14 markdown_stages).
  rewrite pipeline_app, (quiet_stages s Ht Hs Hl).
  unfold pipeline, markdown_stages. cbn [skipn fold_left].
  apply paragraph_stages.
Qed.

(** X23. Text of several lines, without inline tokens, without a block
    marker at the start of a line and without a list item spelled out,
    that opens with neither a line feed nor an angle bracket, renders to
    one paragraph element in which every line feed is a line break and
    two line feeds in a row are the end of one paragraph and the start
    of the next. *)
Theorem lines_and_paragraphs : forall c t,
  free_of inline_token (c :: t) = true ->
  at_line_starts opens_plain true (c :: t) = true ->
  includes (c :: t) "<li>" = false ->
  is_char "<" c = false ->
  is_char LF c = false ->
  renderMarkdown (c :: t) = "<p>" ++ breaks (c :: t) ++ "</p>".
Proof.
  intros c t Ht Hs Hl Hc Hn.
  rewrite (renderMarkdown_of (c :: t) (breaks (c :: t)));
    [| reflexivity | apply pipeline_quiet; assumption].
  unfold wrap_paragraph.
  assert (E : startsWith "<" (breaks (c :: t)) = false).
  { cbn [breaks]. rewrite Hn. cbn [andb].
    destruct t as [|c' t']; cbn [app startsWith list_ascii_of_string];
      rewrite Hc; reflexivity. }
  rewrite E. reflexivity.
Qed.

Lemma lines_and_paragraphs_witness :
  renderMarkdown ("one" ++ [LF] ++ "two" ++ [LF; LF] ++ "three") =
  "<p>one<br>two</p><p>three</p>".
Proof.
  apply (lines_and_paragraphs "o" ("ne" ++ [LF] ++ "two" ++ [LF; LF] ++ "three"));
    reflexivity.
Defined.

(** ** Blocks and spans on one line *)

Lemma exec_group_plus : forall ml n p l x r prev cs k e,
  truthy x = true -> forallb p x = true ->
  match r with c :: _ => p c = false | [] => True end ->
  exec ml (cat l) (MState (last_of prev x) r ((n, x) :: cs)) k = Some e ->
  exec ml (cat (Group n (Plus (Class p)) :: l)) (MState prev (x ++ r) cs) k
    = Some e.
Proof.
  intros ml n p l x r prev cs k e Hx Hp Hr He.
  destruct x as [|c t]; [discriminate|].
  cbn [forallb] in Hp. apply andb_prop in Hp. destruct Hp as [Hc Ht].
  rewrite exec_cat_cons, exec_Group. cbn [app].
  apply exec_plus_class_then; [exact Hc|].
  rewrite (skip_class_split p t r (Some c) Ht Hr). cbn [fst snd].
  unfold capture, consumed. cbn [rest before caps].
  change (c :: t ++ r) with ((c :: t) ++ r). rewrite firstn_prefix.
  exact He.
Qed.

Lemma replace_whole : forall ml r f s b cs,
  truthy s = true ->
  match_at ml r None s = Some (MState b [] cs) ->
  match_at ml r b [] = None ->
  replace_all ml r f s = f (Found s cs).
Proof.
  intros ml r f s b cs Hs Hm Hn. unfold replace_all.
  rewrite (replace_from_hit _ ml r f None s _ Hm).
  - cbn [rest caps before length]. rewrite Nat.sub_0_r, firstn_all.
    rewrite (replace_from_nil _ ml r f b Hn). apply app_nil_r.
  - cbn [rest length]. destruct s; [discriminate|]. cbn [length]. lia.
Qed.

Lemma at_line_starts_one_line : forall ok s,
  no_newlines s = true -> ok s = true ->
  at_line_starts ok true s = true.
Proof.
  intros ok s Hn Hs.
  assert (G : forall t, no_newlines t = true ->
                        at_line_starts ok false t = true).
  { induction t as [|c t IH]; intro H; [reflexivity|].
    unfold no_newlines, free_of in H. cbn [forallb] in H.
    apply andb_prop in H. destruct H as [Hc Ht].
    cbn [at_line_starts]. apply negb_true_iff in Hc. rewrite Hc.
    apply IH, Ht. }
  destruct s as [|c t]; cbn [at_line_starts]; rewrite Hs; [reflexivity|].
  unfold no_newlines, free_of in Hn. cbn [forallb] in Hn.
  apply andb_prop in Hn. destruct Hn as [Hc Ht].
  apply negb_true_iff in Hc. rewrite Hc. apply G, Ht.
Qed.

Lemma breaks_one_line : forall s, no_newlines s = true -> breaks s = s.
Proof.
  induction s as [|c t IH]; intro H; [reflexivity|].
  unfold no_newlines, free_of in H. cbn [forallb] in H.
  apply andb_prop in H. destruct H as [Hc Ht].
  assert (E : is_char LF c = false).
  { unfold is_line_terminator in Hc. apply negb_true_iff in Hc.
    apply orb_false_elim in Hc. apply Hc. }
  cbn [breaks]. rewrite E. cbn [andb].
  destruct t as [|c' t']; [reflexivity|].
  rewrite (IH Ht). reflexivity.
Qed.

(** Markup on one line, without inline tokens and without a list item
    spelled out, passes every stage unchanged. *)
Lemma markup_passes : forall s,
  free_of inline_token s = true ->
  no_newlines s = true ->
  opens_plain s = true ->
  includes s "<li>" = false ->
  Forall (fun stage => stage s = s) markdown_stages.
Proof.
  intros s Ht Hn Ho Hl.
  pose proof (at_line_starts_one_line opens_plain s Hn Ho) as Hs.
  assert (HLF : free_of (is_char LF) s = true).
  { apply (free_of_weaken is_line_terminator); [|exact Hn].
    intros c Hc. unfold is_line_terminator. rewrite Hc. reflexivity. }
  unfold markdown_stages. repeat apply Forall_cons; try apply Forall_nil.
  - apply (replace_all_free false (is_char "`") fence_re);
      [reflexivity | apply (quiet_free s Ht); reflexivity].
  - apply (replace_all_free false (is_char "`") inline_code_re);
      [reflexivity | apply (quiet_free s Ht); reflexivity].
  - apply (replace_all_free false (is_char "*") bold_re);
      [reflexivity | apply (quiet_free s Ht); reflexivity].
  - apply (replace_all_free false (is_char "*") italic_re);
      [reflexivity | apply (quiet_free s Ht); reflexivity].
  - apply (quiet_line s Hs "#" "## "). reflexivity.
  - apply (quiet_line s Hs "#" "# "). reflexivity.
  - apply (quiet_line s Hs "#" " "). reflexivity.
  - apply (replace_all_free false (is_char "[") link_re);
      [reflexivity | apply (quiet_free s Ht); reflexivity].
  - apply (quiet_line s Hs "-" " "). reflexivity.
  - apply (quiet_list_run s Hl).
  - apply (quiet_ordered s Hs).
  - apply (quiet_list_run s Hl).
  - apply (quiet_line s Hs ">" " "). reflexivity.
  - apply (quiet_rule s Hs).
  - apply (replace_all_free false (is_char LF) blank_line_re);
      [reflexivity | exact HLF].
  - apply (replace_all_free false (is_char LF) newline_re);
      [reflexivity | exact HLF].
Qed.

Lemma pipeline_id : forall l s,
  Forall (fun stage : str -> str => stage s = s) l -> pipeline l s = s.
Proof.
  unfold pipeline. induction l as [|st l IH]; intros s H; [reflexivity|].
  inversion H as [|x xs Hst Hl]. subst x xs.
  cbn [fold_left]. rewrite Hst. apply IH, Hl.
Qed.

Lemma Forall_drop : forall (A : Type) (P : A -> Prop) n l,
  Forall P l -> Forall P (skipn n l).
Proof.
  intros A P. induction n as [|n IH]; intros l H; [exact H|].
  destruct l as [|x l]; [exact H|].
  inversion H. cbn [skipn]. apply IH. assumption.
Qed.


(** The pipeline around one stage: the stages before leave the input
    alone, the stage rewrites it, and the result is markup the stages
    after leave alone. *)
Lemma one_stage : forall n stage s out,
  nth_error markdown_stages n = Some stage ->
  Forall (fun st => st s = s) (firstn n markdown_stages) ->
  stage s = out ->
  free_of inline_token out = true ->
  no_newlines out = true ->
  opens_plain out = true ->
  includes out "<li>" = false ->
  pipeline markdown_stages s = out.
Proof.
  intros n stage s out Hn Hb Hs Ht Hl Ho Hi.
  rewrite <- (firstn_skipn n markdown_stages).
  rewrite pipeline_app, (pipeline_id _ s Hb).
  assert (E : skipn n markdown_stages = stage :: skipn (S n) markdown_stages).
  { clear -Hn. revert n Hn. generalize markdown_stages.
    induction l as [|x l IH]; intros [|n] H; try discriminate.
    - injection H as H. subst x. reflexivity.
    - cbn [skipn]. apply (IH n H). }
  rewrite E. unfold pipeline at 1. cbn [fold_left]. rewrite Hs.
  apply pipeline_id. apply Forall_drop.
  apply markup_passes; assumption.
Qed.

Lemma free_of_cons : forall bad c s,
  free_of bad (c :: s) = negb (bad c) && free_of bad s.
Proof. reflexivity. Qed.

Lemma replace_line_whole : forall marker f x,
  line_text x = true ->
  replace_all true (line_re marker) f (marker ++ x) =
  f (Found (marker ++ x) [(1, x)]).
Proof.
  intros marker f x Hx.
  assert (Hl : exists c, last_of (last_of None marker) x = Some c /\
                         is_line_terminator c = false).
  { destruct (line_text_parts x Hx) as (c & t & E & Hc & Ht). subst x.
    clear Hx. revert c Hc. generalize (last_of None marker).
    induction t as [|c' t IH]; intros o c Hc.
    - exists c. split; [reflexivity|]. apply negb_true_iff. exact Hc.
    - cbn [forallb] in Ht. apply andb_prop in Ht. destruct Ht as [Hc' Ht].
      apply (IH Ht (Some c) c' Hc'). }
  destruct Hl as (c & Hc & Hnt).
  apply (replace_whole true (line_re marker) f (marker ++ x) (Some c)).
  - destruct x as [|a x]; [discriminate|]. destruct marker; reflexivity.
  - rewrite <- Hc. rewrite <- (app_nil_r x) at 1.
    apply (match_line marker x [] None I Hx I).
  - unfold line_re.
    change (cat [LineStart; Lit marker; Group 1 (Plus (Class dot)); LineEnd])
      with (Seq LineStart
              (cat [Lit marker; Group 1 (Plus (Class dot)); LineEnd])).
    apply no_match_inside_line. exact Hnt.
Qed.

Lemma line_text_weaken : forall x,
  line_text x = true -> truthy x = true /\ no_newlines x = true.
Proof. intros x H. unfold line_text in H. apply andb_prop in H. exact H. Qed.

Lemma no_newlines_app : forall a b,
  no_newlines (a ++ b) = no_newlines a && no_newlines b.
Proof. intros a b. apply free_of_app. Qed.

Lemma startsWith_before : forall c r w y,
  forallb (fun a => negb (is_char a c)) w = true ->
  startsWith w (y ++ c :: r) = startsWith w y.
Proof.
  intros c r. induction w as [|a w IH]; intros y H; [reflexivity|].
  cbn [forallb] in H. apply andb_prop in H. destruct H as [Ha Hw].
  apply negb_true_iff in Ha.
  destruct y as [|b y]; cbn [app startsWith]; [rewrite Ha; reflexivity|].
  rewrite (IH y Hw). reflexivity.
Qed.

(** A word cannot end across a character that it holds at its first
    place at most. *)
Lemma includes_before : forall c r a0 w x,
  forallb (fun a => negb (is_char a c)) w = true ->
  includes (x ++ c :: r) (a0 :: w) =
  includes x (a0 :: w) || includes (c :: r) (a0 :: w).
Proof.
  intros c r a0 w x H. induction x as [|b x IH]; [reflexivity|].
  cbn [app]. change (includes (b :: x ++ c :: r) (a0 :: w))
    with (startsWith (a0 :: w) (b :: x ++ c :: r) ||
          includes (x ++ c :: r) (a0 :: w)).
  change (includes (b :: x) (a0 :: w))
    with (startsWith (a0 :: w) (b :: x) || includes x (a0 :: w)).
  rewrite IH. cbn [startsWith]. rewrite (startsWith_before c r w x H).
  rewrite orb_assoc. reflexivity.
Qed.

Lemma item_before_tag : forall x r,
  includes x "<li>" = false ->
  includes ("<" ++ r) "<li>" = false ->
  includes (x ++ "<" ++ r) "<li>" = false.
Proof.
  intros x r Hx Hr.
  change (includes (x ++ "<"%char :: r) ("<"%char :: "li>") = false).
  rewrite includes_before by reflexivity.
  change ("<"%char :: "li>") with (list_ascii_of_string "<li>").
  rewrite Hx. exact Hr.
Qed.

Lemma inline_stages_pass : forall s,
  free_of inline_token s = true ->
  Forall (fun stage => stage s = s) (firstn 4 markdown_stages).
Proof.
  intros s Ht. unfold markdown_stages. cbn [firstn].
  repeat apply Forall_cons; try apply Forall_nil.
  - apply (replace_all_free false (is_char "`") fence_re);
      [reflexivity | apply (quiet_free s Ht); reflexivity].
  - apply (replace_all_free false (is_char "`") inline_code_re);
      [reflexivity | apply (quiet_free s Ht); reflexivity].
  - apply (replace_all_free false (is_char "*") bold_re);
      [reflexivity | apply (quiet_free s Ht); reflexivity].
  - apply (replace_all_free false (is_char "*") italic_re);
      [reflexivity | apply (quiet_free s Ht); reflexivity].
Qed.

Lemma tagged_passes : forall name x,
  free_of inline_token name = true ->
  no_newlines name = true ->
  free_of inline_token x = true ->
  no_newlines x = true ->
  free_of inline_token (tag name x) = true /\
  no_newlines (tag name x) = true /\
  opens_plain (tag name x) = true.
Proof.
  intros name x Hn1 Hn2 Hx1 Hx2. unfold tag, no_newlines in *.
  rewrite !free_of_app, Hn1, Hn2, Hx1, Hx2. repeat split; reflexivity.
Qed.

(** X24. A line that opens with one, two or three hashes and a space
    becomes a heading one level further down, [h2], [h3] and [h4]; a
    line that opens with a greater-than sign and a space becomes a block
    quote. The text of the line is copied as it is. *)
Theorem line_blocks : forall x,
  line_text x = true ->
  free_of inline_token x = true ->
  includes x "<li>" = false ->
  renderMarkdown ("# " ++ x) = "<h2>" ++ x ++ "</h2>" /\
  renderMarkdown ("## " ++ x) = "<h3>" ++ x ++ "</h3>" /\
  renderMarkdown ("### " ++ x) = "<h4>" ++ x ++ "</h4>" /\
  renderMarkdown ("> " ++ x) = "<blockquote>" ++ x ++ "</blockquote>".
Proof.
  intros x Hx Ht Hl.
  destruct (line_text_weaken x Hx) as [Hne Hnl].
  assert (Hin : forall m : str,
            free_of inline_token m = true ->
            free_of inline_token (m ++ x) = true).
  { intros m Hm. rewrite free_of_app, Hm, Ht. reflexivity. }
  assert (Hone : forall m : str,
            no_newlines m = true -> no_newlines (m ++ x) = true).
  { intros m Hm. rewrite no_newlines_app, Hm, Hnl. reflexivity. }
  assert (Hw : forall html : str,
            startsWith "<" html = true -> wrap_paragraph html = html).
  { intros html H. unfold wrap_paragraph. rewrite H. reflexivity. }
  split; [|split; [|split]].
  - rewrite (renderMarkdown_of ("# " ++ x) (tag "h2" x));
      [apply Hw; reflexivity | reflexivity |].
    destruct (tagged_passes "h2" x eq_refl eq_refl Ht Hnl) as (T1 & T2 & T3).
    apply (one_stage 6 _ ("# " ++ x) (tag "h2" x) eq_refl); auto.
    + change (firstn 6 markdown_stages)
        with (firstn 4 markdown_stages ++
              [replace_all true (line_re "### ") (fun m => tag "h4" (group 1 m));
               replace_all true (line_re "## ") (fun m => tag "h3" (group 1 m))]).
      apply Forall_app. split; [apply inline_stages_pass, Hin; reflexivity|].
      repeat apply Forall_cons; try apply Forall_nil;
        apply line_re_id; try reflexivity; apply Hone; reflexivity.
    + rewrite (replace_line_whole "# " _ x Hx). reflexivity.
    + apply (item_before_tag x "/h2>" Hl). reflexivity.
  - rewrite (renderMarkdown_of ("## " ++ x) (tag "h3" x));
      [apply Hw; reflexivity | reflexivity |].
    destruct (tagged_passes "h3" x eq_refl eq_refl Ht Hnl) as (T1 & T2 & T3).
    apply (one_stage 5 _ ("## " ++ x) (tag "h3" x) eq_refl); auto.
    + change (firstn 5 markdown_stages)
        with (firstn 4 markdown_stages ++
              [replace_all true (line_re "### ") (fun m => tag "h4" (group 1 m))]).
      apply Forall_app. split; [apply inline_stages_pass, Hin; reflexivity|].
      repeat apply Forall_cons; try apply Forall_nil;
        apply line_re_id; try reflexivity; apply Hone; reflexivity.
    + rewrite (replace_line_whole "## " _ x Hx). reflexivity.
    + apply (item_before_tag x "/h3>" Hl). reflexivity.
  - rewrite (renderMarkdown_of ("### " ++ x) (tag "h4" x));
      [apply Hw; reflexivity | reflexivity |].
    destruct (tagged_passes "h4" x eq_refl eq_refl Ht Hnl) as (T1 & T2 & T3).
    apply (one_stage 4 _ ("### " ++ x) (tag "h4" x) eq_refl); auto.
    + apply inline_stages_pass, Hin. reflexivity.
    + rewrite (replace_line_whole "### " _ x Hx). reflexivity.
    + apply (item_before_tag x "/h4>" Hl). reflexivity.
  - rewrite (renderMarkdown_of ("> " ++ x) (tag "blockquote" x));
      [apply Hw; reflexivity | reflexivity |].
    destruct (tagged_passes "blockquote" x eq_refl eq_refl Ht Hnl)
      as (T1 & T2 & T3).
    assert (Hs : free_of inline_token ("> " ++ x) = true)
      by (apply Hin; reflexivity).
    assert (Hn : no_newlines ("> " ++ x) = true) by (apply Hone; reflexivity).
    assert (Hli : includes ("> " ++ x) "<li>" = false) by exact Hl.
    apply (one_stage 12 _ ("> " ++ x) (tag "blockquote" x) eq_refl); auto.
    + unfold markdown_stages. cbn [firstn].
      repeat apply Forall_cons; try apply Forall_nil.
      * apply (replace_all_free false (is_char "`") fence_re);
          [reflexivity | apply (quiet_free _ Hs); reflexivity].
      * apply (replace_all_free false (is_char "`") inline_code_re);
          [reflexivity | apply (quiet_free _ Hs); reflexivity].
      * apply (replace_all_free false (is_char "*") bold_re);
          [reflexivity | apply (quiet_free _ Hs); reflexivity].
      * apply (replace_all_free false (is_char "*") italic_re);
          [reflexivity | apply (quiet_free _ Hs); reflexivity].
      * apply line_re_id; [exact Hn | reflexivity].
      * apply line_re_id; [exact Hn | reflexivity].
      * apply line_re_id; [exact Hn | reflexivity].
      * apply (replace_all_free false (is_char "[") link_re);
          [reflexivity | apply (quiet_free _ Hs); reflexivity].
      * apply line_re_id; [exact Hn | reflexivity].
      * apply (quiet_list_run _ Hli).
      * unfold ordered_re.
        change (cat [LineStart; Plus (Class is_digit); Lit ". ";
                     Group 1 (Plus (Class dot)); LineEnd])
          with (Seq LineStart
                  (cat [Plus (Class is_digit); Lit ". ";
                        Group 1 (Plus (Class dot)); LineEnd])).
        apply replace_all_anchored; [exact Hn | reflexivity].
      * apply (quiet_list_run _ Hli).
    + rewrite (replace_line_whole "> " _ x Hx). reflexivity.
    + apply (item_before_tag x "/blockquote>" Hl). reflexivity.
Qed.

Lemma line_blocks_witness :
  renderMarkdown "# Sending <b>embeds</b>" = "<h2>Sending <b>embeds</b></h2>".
Proof.
  apply (proj1 (line_blocks "Sending <b>embeds</b>" eq_refl eq_refl eq_refl)).
Defined.

(** ** Emphasis and links *)

Lemma code_stages_pass : forall s,
  free_of (is_char "`") s = true ->
  Forall (fun stage => stage s = s) (firstn 2 markdown_stages).
Proof.
  intros s H. unfold markdown_stages. cbn [firstn].
  repeat apply Forall_cons; try apply Forall_nil.
  - apply (replace_all_free false (is_char "`") fence_re);
      [reflexivity | exact H].
  - apply (replace_all_free false (is_char "`") inline_code_re);
      [reflexivity | exact H].
Qed.

Lemma free_of_token : forall a x,
  inline_token a = true -> free_of inline_token x = true ->
  free_of (is_char a) x = true.
Proof. intros a x Ha Hx. apply (quiet_free x Hx a Ha). Qed.

Lemma none_of_one : forall a x,
  free_of (is_char a) x = true -> forallb (none_of [a]) x = true.
Proof.
  intros a x H. unfold free_of in H. rewrite forallb_forall in *.
  intros c Hc. specialize (H c Hc). unfold none_of. cbn [existsb].
  rewrite orb_false_r. exact H.
Qed.

Lemma match_bold : forall x,
  truthy x = true -> free_of (is_char "*") x = true ->
  match_at false bold_re None ("**" ++ x ++ "**") =
  Some (MState (Some "*"%char) [] [(1, x)]).
Proof.
  intros x Hx Hf. unfold match_at, bold_re.
  rewrite exec_cat_cons, exec_Lit_hit.
  apply exec_group_plus; [exact Hx | apply none_of_one, Hf | reflexivity |].
  reflexivity.
Qed.

Lemma match_italic : forall x,
  truthy x = true -> free_of (is_char "*") x = true ->
  match_at false italic_re None ("*" ++ x ++ "*") =
  Some (MState (Some "*"%char) [] [(1, x)]).
Proof.
  intros x Hx Hf. unfold match_at, italic_re.
  rewrite exec_cat_cons. cbn [list_ascii_of_string app].
  rewrite exec_Chr_hit.
  apply exec_group_plus; [exact Hx | apply none_of_one, Hf | reflexivity |].
  reflexivity.
Qed.

Lemma no_pair_inside : forall a x,
  free_of (is_char a) x = true -> includes (x ++ [a]) [a; a] = false.
Proof.
  intros a. induction x as [|c t IH]; intro H.
  - cbn [app includes startsWith]. rewrite is_char_refl. reflexivity.
  - rewrite free_of_cons in H. apply andb_prop in H. destruct H as [Hc Ht].
    apply negb_true_iff in Hc.
    cbn [app]. change (includes (c :: t ++ [a]) [a; a])
      with (startsWith [a; a] (c :: t ++ [a]) || includes (t ++ [a]) [a; a]).
    rewrite (IH Ht). cbn [startsWith]. rewrite Hc. reflexivity.
Qed.

(** X25. Text between two pairs of asterisks becomes a [strong] element
    and text between two single asterisks an [em] element; the text is
    copied as it is. *)
Theorem emphasis_spans : forall x,
  line_text x = true ->
  free_of inline_token x = true ->
  includes x "<li>" = false ->
  renderMarkdown ("**" ++ x ++ "**") = "<strong>" ++ x ++ "</strong>" /\
  renderMarkdown ("*" ++ x ++ "*") = "<em>" ++ x ++ "</em>".
Proof.
  intros x Hx Ht Hl.
  destruct (line_text_weaken x Hx) as [Hne Hnl].
  pose proof (free_of_token "*" x eq_refl Ht) as Hstar.
  pose proof (free_of_token "`" x eq_refl Ht) as Htick.
  assert (Hw : forall html : str,
            startsWith "<" html = true -> wrap_paragraph html = html).
  { intros html H. unfold wrap_paragraph. rewrite H. reflexivity. }
  split.
  - rewrite (renderMarkdown_of ("**" ++ x ++ "**") (tag "strong" x));
      [apply Hw; reflexivity | reflexivity |].
    destruct (tagged_passes "strong" x eq_refl eq_refl Ht Hnl)
      as (T1 & T2 & T3).
    apply (one_stage 2 _ ("**" ++ x ++ "**") (tag "strong" x) eq_refl); auto.
    + apply code_stages_pass. rewrite !free_of_app, Htick. reflexivity.
    + rewrite (replace_whole false bold_re _ ("**" ++ x ++ "**")
                 (Some "*"%char) [(1, x)] eq_refl
                 (match_bold x Hne Hstar) eq_refl).
      reflexivity.
    + apply (item_before_tag x "/strong>" Hl). reflexivity.
  - rewrite (renderMarkdown_of ("*" ++ x ++ "*") (tag "em" x));
      [apply Hw; reflexivity | reflexivity |].
    destruct (tagged_passes "em" x eq_refl eq_refl Ht Hnl) as (T1 & T2 & T3).
    apply (one_stage 3 _ ("*" ++ x ++ "*") (tag "em" x) eq_refl); auto.
    + change (firstn 3 markdown_stages)
        with (firstn 2 markdown_stages ++
              [replace_all false bold_re (fun m => tag "strong" (group 1 m))]).
      apply Forall_app. split.
      * apply code_stages_pass. rewrite !free_of_app, Htick. reflexivity.
      * apply Forall_cons; [|apply Forall_nil].
        unfold bold_re. apply (replace_all_without false "**").
        destruct x as [|c t]; [discriminate|].
        rewrite free_of_cons in Hstar. apply andb_prop in Hstar.
        destruct Hstar as [Hc Hs]. apply negb_true_iff in Hc.
        change (includes ("*"%char :: c :: t ++ ["*"%char]) ["*"%char; "*"%char]
                = false).
        change (includes ("*"%char :: c :: t ++ ["*"%char]) ["*"%char; "*"%char])
          with (startsWith ["*"%char; "*"%char] ("*"%char :: c :: t ++ ["*"%char]) ||
                includes ((c :: t) ++ ["*"%char]) ["*"%char; "*"%char]).
        rewrite no_pair_inside
          by (rewrite free_of_cons, Hc; exact Hs).
        cbn [startsWith]. rewrite Hc, andb_false_r. reflexivity.
    + rewrite (replace_whole false italic_re _ ("*" ++ x ++ "*")
                 (Some "*"%char) [(1, x)] eq_refl
                 (match_italic x Hne Hstar) eq_refl).
      reflexivity.
    + apply (item_before_tag x "/em>" Hl). reflexivity.
Qed.

Lemma emphasis_spans_witness :
  renderMarkdown "**Note:**" = "<strong>Note:</strong>" /\
  renderMarkdown "*optional*" = "<em>optional</em>".
Proof.
  split.
  - apply (proj1 (emphasis_spans "Note:" eq_refl eq_refl eq_refl)).
  - apply (proj2 (emphasis_spans "optional" eq_refl eq_refl eq_refl)).
Defined.

Lemma match_link : forall t u,
  truthy t = true -> truthy u = true ->
  free_of (is_char "]") t = true -> free_of (is_char ")") u = true ->
  match_at false link_re None ("[" ++ t ++ "](" ++ u ++ ")") =
  Some (MState (Some ")"%char) [] [(2, u); (1, t)]).
Proof.
  intros t u Ht Hu Hft Hfu. unfold match_at, link_re.
  rewrite exec_cat_cons. cbn [list_ascii_of_string app].
  rewrite exec_Chr_hit.
  change ("]"%char :: "("%char :: u ++ [")"%char])
    with ("](" ++ u ++ ")").
  apply exec_group_plus; [exact Ht | apply none_of_one, Hft | reflexivity |].
  rewrite exec_cat_cons, exec_Lit_hit.
  apply exec_group_plus; [exact Hu | apply none_of_one, Hfu | reflexivity |].
  reflexivity.
Qed.

(** X26. A link in brackets and parentheses becomes an anchor that opens
    in a new tab, with [rel] set to [noopener noreferrer]; the address
    is copied into [href] as it is, whatever its scheme, and the text
    between the tags as it is. *)
Theorem link_anchor : forall t u,
  line_text t = true -> line_text u = true ->
  free_of inline_token t = true -> free_of inline_token u = true ->
  free_of (is_char "]") t = true -> free_of (is_char ")") u = true ->
  includes t "<li>" = false -> includes u "<li>" = false ->
  renderMarkdown ("[" ++ t ++ "](" ++ u ++ ")") =
  "<a href=" ++ Q ++ u ++ Q ++ " target=" ++ Q ++ "_blank" ++ Q ++
  " rel=" ++ Q ++ "noopener noreferrer" ++ Q ++ ">" ++ t ++ "</a>".
Proof.
  intros t u Hlt Hlu Ht Hu Hbt Hpu Hit Hiu.
  destruct (line_text_weaken t Hlt) as [Htn Htl].
  destruct (line_text_weaken u Hlu) as [Hun Hul].
  set (s := "[" ++ t ++ "](" ++ u ++ ")").
  set (out := "<a href=" ++ Q ++ u ++ Q ++ " target=" ++ Q ++ "_blank" ++ Q ++
              " rel=" ++ Q ++ "noopener noreferrer" ++ Q ++ ">" ++ t ++ "</a>").
  assert (Hn : no_newlines s = true).
  { unfold s. rewrite !no_newlines_app, Htl, Hul. reflexivity. }
  assert (Htick : free_of (is_char "`") s = true).
  { unfold s. rewrite !free_of_app, (free_of_token "`" t eq_refl Ht),
      (free_of_token "`" u eq_refl Hu). reflexivity. }
  assert (Hstar : free_of (is_char "*") s = true).
  { unfold s. rewrite !free_of_app, (free_of_token "*" t eq_refl Ht),
      (free_of_token "*" u eq_refl Hu). reflexivity. }
  rewrite (renderMarkdown_of s out);
    [unfold wrap_paragraph; reflexivity | reflexivity |].
  apply (one_stage 7 _ s out eq_refl).
  - unfold markdown_stages. cbn [firstn].
    repeat apply Forall_cons; try apply Forall_nil.
    + apply (replace_all_free false (is_char "`") fence_re);
        [reflexivity | exact Htick].
    + apply (replace_all_free false (is_char "`") inline_code_re);
        [reflexivity | exact Htick].
    + apply (replace_all_free false (is_char "*") bold_re);
        [reflexivity | exact Hstar].
    + apply (replace_all_free false (is_char "*") italic_re);
        [reflexivity | exact Hstar].
    + apply line_re_id; [exact Hn | reflexivity].
    + apply line_re_id; [exact Hn | reflexivity].
    + apply line_re_id; [exact Hn | reflexivity].
  - rewrite (replace_whole false link_re _ s (Some ")"%char)
               [(2, u); (1, t)] eq_refl
               (match_link t u Htn Hun Hbt Hpu) eq_refl).
    reflexivity.
  - unfold out. rewrite !free_of_app, Ht, Hu. reflexivity.
  - unfold out, no_newlines. rewrite !free_of_app.
    unfold no_newlines in Htl, Hul. rewrite Htl, Hul. reflexivity.
  - reflexivity.
  - unfold out.
    change (includes ("<a href=" ++ Q ++ u ++ Q ++ " target=" ++ Q ++
                      "_blank" ++ Q ++ " rel=" ++ Q ++
                      "noopener noreferrer" ++ Q ++ ">" ++ t ++ "</a>") "<li>")
      with (includes (u ++ chr 34 :: " target=" ++ Q ++
                      "_blank" ++ Q ++ " rel=" ++ Q ++
                      "noopener noreferrer" ++ Q ++ ">" ++ t ++ "</a>")
                     ("<"%char :: "li>")).
    rewrite includes_before by reflexivity.
    change ("<"%char :: "li>") with (list_ascii_of_string "<li>").
    rewrite Hiu. cbn [orb].
    change (includes (chr 34 :: " target=" ++ Q ++ "_blank" ++ Q ++ " rel=" ++
                      Q ++ "noopener noreferrer" ++ Q ++ ">" ++ t ++ "</a>")
                     "<li>")
      with (includes (t ++ "<" ++ "/a>") "<li>").
    apply (item_before_tag t "/a>" Hit). reflexivity.
Qed.

Lemma link_anchor_witness :
  renderMarkdown "[docs](javascript:history.back)" =
  "<a href=" ++ Q ++ "javascript:history.back" ++ Q ++ " target=" ++ Q ++
  "_blank" ++ Q ++ " rel=" ++ Q ++ "noopener noreferrer" ++ Q ++
  ">docs</a>".
Proof.
  apply (link_anchor "docs" "javascript:history.back");
    reflexivity.
Defined.

(** ** Lists *)

Lemma last_of_line : forall x prev,
  line_text x = true ->
  exists c, last_of prev x = Some c /\ is_line_terminator c = false.
Proof.
  intros x prev Hx.
  destruct (line_text_parts x Hx) as (c & t & E & Hc & Ht). subst x.
  clear Hx. revert prev c Hc.
  induction t as [|c' t IH]; intros prev c Hc.
  - exists c. split; [reflexivity|]. apply negb_true_iff. exact Hc.
  - cbn [forallb] in Ht. apply andb_prop in Ht. destruct Ht as [Hc' Ht].
    apply (IH Ht (Some c) c' Hc').
Qed.

Lemma last_of_app2 : forall a b prev,
  last_of prev (a ++ b) = last_of (last_of prev a) b.
Proof. intros a b prev. unfold last_of. apply fold_left_app. Qed.

Lemma shorter_after : forall a b : str,
  0 < length a -> length b < length (a ++ b).
Proof. intros a b H. rewrite length_app. lia. Qed.

Lemma join_lines_cons2 : forall a b more,
  join_lines (a :: b :: more) = a ++ LF :: join_lines (b :: more).
Proof. reflexivity. Qed.

(** An anchored line pattern over lines it matches one by one
    rewrites every line, and nothing between them. *)
Lemma replace_lines : forall r f,
  (forall c s, is_line_terminator c = false ->
               match_at true r (Some c) s = None) ->
  forall (ls : list (str * str)) (l : str * str) fuel prev,
  starts_line prev = true ->
  Forall (fun l : str * str =>
            line_text (snd l) = true /\
            forall prev tail,
              starts_line prev = true ->
              match tail with
              | c :: _ => is_line_terminator c = true
              | [] => True
              end ->
              match_at true r prev (fst l ++ snd l ++ tail) =
              Some (MState (last_of (last_of prev (fst l)) (snd l)) tail
                           [(1, snd l)]))
         (l :: ls) ->
  length (marked_lines (l :: ls)) < fuel ->
  replace_from fuel true r f prev (marked_lines (l :: ls)) =
  replaced_lines f (l :: ls).
Proof.
  intros r f Hanch. unfold marked_lines, replaced_lines.
  induction ls as [|l2 more IH]; intros [m x] fuel prev Hp Hall Hf.
  - inversion Hall as [|a b [Hx Hm] _]. subst a b.
    cbn [map join_lines fst snd] in *.
    destruct fuel as [|fuel]; [lia|].
    destruct (last_of_line x (last_of prev m) Hx) as (c & Hc & Hnt).
    rewrite (replace_from_hit fuel true r f prev _
               (MState (Some c) [] [(1, x)])).
    + cbn [rest caps before length]. rewrite Nat.sub_0_r, firstn_all.
      rewrite (replace_from_nil _ _ _ _ _ (Hanch c [] Hnt)).
      apply app_nil_r.
    + pose proof (Hm prev [] Hp I) as M.
      rewrite app_nil_r, Hc in M. exact M.
    + cbn [rest length]. destruct x; [discriminate|].
      rewrite length_app. cbn [length]. lia.
  - inversion Hall as [|a b [Hx Hm] Hrest]. subst a b.
    cbn [fst snd] in Hx, Hm.
    specialize (IH l2). cbn [map] in IH, Hf |- *. cbn [fst snd] in Hf |- *.
    rewrite !join_lines_cons2 in *.
    rewrite length_app in Hf. cbn [length] in Hf.
    destruct fuel as [|fuel]; [lia|].
    destruct fuel as [|fuel]; [lia|].
    destruct (last_of_line x (last_of prev m) Hx) as (c & Hc & Hnt).
    rewrite (replace_from_hit (S fuel) true r f prev _
               (MState (Some c)
                  (LF :: join_lines
                           ((fst l2 ++ snd l2) ::
                            map (fun l0 : list ascii * list ascii =>
                                   fst l0 ++ snd l0) more))
                  [(1, x)])).
    + cbn [rest caps before]. rewrite firstn_prefix.
      rewrite (replace_from_miss fuel _ _ _ _ _ _ (Hanch c _ Hnt)).
      do 2 f_equal. apply (IH fuel (Some LF) eq_refl Hrest).
      match goal with
      | |- ?a < _ =>
          assert (E : forall k, 0 < k -> k + S a < S (S fuel) -> a < fuel)
            by (intros; lia);
          apply (fun P => E _ P Hf)
      end.
      rewrite length_app. destruct x; [discriminate|]. cbn [length]. lia.
    + rewrite <- Hc. rewrite <- app_assoc.
      apply (Hm prev _ Hp). reflexivity.
    + cbn [rest]. apply shorter_after.
      rewrite length_app. destruct x; [discriminate|]. cbn [length]. lia.
Qed.

Lemma anchored_inside : forall x c s,
  is_line_terminator c = false ->
  match_at true (Seq LineStart x) (Some c) s = None.
Proof. intros x c s H. apply no_match_inside_line. exact H. Qed.


Lemma startsWith_short : forall w s,
  length s < length w -> startsWith w s = false.
Proof.
  induction w as [|a w IH]; intros s H; [cbn in H; lia|].
  destruct s as [|c s]; [reflexivity|].
  cbn [startsWith]. rewrite IH; [apply andb_false_r|].
  cbn [length] in H. lia.
Qed.

(** The list pattern takes a text that opens and ends with an item
    tag in one match, whatever stands in between. *)
Lemma match_list_run : forall body,
  exists cs,
    match_at false list_run_re None ("<li>" ++ body ++ "</li>") =
    Some (MState (Some ">"%char) [] cs).
Proof.
  intro body. eexists. unfold match_at, list_run_re, Plus.
  rewrite exec_Seq, exec_Group. rewrite exec_cat_cons, exec_Lit_hit.
  rewrite exec_cat_cons.
  cbn [exec rest]. 
  apply (star_any_back false _ [] body "</li>").
  - lia.
  - intros pre post p E Hpre. rewrite exec_cat_cons.
    apply exec_Lit_mismatch. cbn [rest]. apply startsWith_short.
    apply (f_equal (@length ascii)) in E. rewrite length_app in E.
    destruct pre; [contradiction Hpre; reflexivity|].
    cbn [length list_ascii_of_string] in *. lia.
  - reflexivity.
Qed.

Lemma items_joined_shape : forall x xs,
  exists body,
    join_lines (map (tag "li") (x :: xs)) = "<li>" ++ body ++ "</li>".
Proof.
  intros x xs. revert x. induction xs as [|y more IH]; intro x.
  - exists x. reflexivity.
  - destruct (IH y) as [body Hb].
    exists (x ++ "</li>" ++ LF :: "<li>" ++ body).
    change (join_lines (map (tag "li") (x :: y :: more)))
      with (tag "li" x ++ LF :: join_lines (map (tag "li") (y :: more))).
    rewrite Hb. unfold tag. rewrite <- !app_assoc. reflexivity.
Qed.

Lemma replace_list_run : forall f x xs,
  (forall m m', matched m = matched m' -> f m = f m') ->
  replace_all false list_run_re f (join_lines (map (tag "li") (x :: xs))) =
  f (Found (join_lines (map (tag "li") (x :: xs))) []).
Proof.
  intros f x xs Hf. destruct (items_joined_shape x xs) as [body Hb].
  rewrite Hb. destruct (match_list_run body) as [cs Hm].
  rewrite (replace_whole false list_run_re f ("<li>" ++ body ++ "</li>")
             (Some ">"%char) cs eq_refl Hm eq_refl).
  apply Hf. reflexivity.
Qed.

Lemma free_of_join : forall bad ls,
  bad LF = false ->
  Forall (fun l => free_of bad l = true) ls ->
  free_of bad (join_lines ls) = true.
Proof.
  intros bad ls HLF. induction ls as [|l more IH]; intro H; [reflexivity|].
  inversion H as [|a b Hl Hmore]. subst a b.
  destruct more as [|l2 more]; [exact Hl|].
  change (join_lines (l :: l2 :: more)) with (l ++ LF :: join_lines (l2 :: more)).
  rewrite free_of_app, Hl, free_of_cons, HLF, (IH Hmore). reflexivity.
Qed.

Lemma at_line_starts_app : forall ok l r b,
  no_newlines l = true ->
  at_line_starts ok b (l ++ LF :: r) =
  (if b then ok (l ++ LF :: r) else true) && at_line_starts ok true r.
Proof.
  intros ok. induction l as [|c l IH]; intros r b H.
  - reflexivity.
  - unfold no_newlines in H. rewrite free_of_cons in H.
    apply andb_prop in H. destruct H as [Hc Hl]. apply negb_true_iff in Hc.
    cbn [app at_line_starts]. rewrite Hc. rewrite (IH r false Hl).
    reflexivity.
Qed.

Lemma at_line_starts_join : forall ok ls,
  Forall (fun l => no_newlines l = true /\
                   forall tail, ok (l ++ tail) = true) ls ->
  ls <> [] ->
  at_line_starts ok true (join_lines ls) = true.
Proof.
  intros ok. induction ls as [|l more IH]; intros H Hne; [contradiction|].
  inversion H as [|a b [Hn Hok] Hmore]. subst a b.
  destruct more as [|l2 more].
  - cbn [join_lines]. apply at_line_starts_one_line; [exact Hn|].
    rewrite <- (app_nil_r l). apply Hok.
  - change (join_lines (l :: l2 :: more))
      with (l ++ LF :: join_lines (l2 :: more)).
    rewrite (at_line_starts_app ok l _ true Hn), Hok.
    apply IH; [exact Hmore | discriminate].
Qed.


(** ** Numbered lists *)

Lemma match_numbered : forall d x tail prev,
  truthy d = true ->
  forallb is_digit d = true ->
  line_text x = true ->
  starts_line prev = true ->
  match tail with c :: _ => is_line_terminator c = true | [] => True end ->
  match_at true ordered_re prev ((d ++ ". ") ++ x ++ tail) =
  Some (MState (last_of (last_of prev (d ++ ". ")) x) tail [(1, x)]).
Proof.
  intros d x tail prev Hd Hdig Hx Hp Htail.
  destruct d as [|c t]; [discriminate|].
  cbn [forallb] in Hdig. apply andb_prop in Hdig. destruct Hdig as [Hc Ht].
  unfold match_at, ordered_re.
  rewrite exec_cat_cons, exec_LineStart.
  2:{ unfold at_line_start. cbn [before]. destruct prev; [exact Hp | reflexivity]. }
  rewrite exec_cat_cons. rewrite <- !app_assoc. cbn [app].
  apply (exec_plus_class_then true is_digit _ _ prev c _ [] Hc).
  rewrite (skip_class_split is_digit t (". " ++ x ++ tail) (Some c) Ht)
    by reflexivity.
  cbn [fst snd]. rewrite exec_cat_cons, exec_Lit_hit.
  apply (exec_rest_of_line 1 x tail _ [] Some _ Hx Htail).
  f_equal. f_equal.
  change (c :: t ++ ". ") with ((c :: t) ++ ". ").
  rewrite (last_of_app2 (c :: t) ". " prev). reflexivity.
Qed.

Lemma ordered_inside : forall c s,
  is_line_terminator c = false ->
  match_at true ordered_re (Some c) s = None.
Proof.
  intros c s H. unfold ordered_re.
  apply (anchored_inside
           (cat [Plus (Class is_digit); Lit ". ";
                 Group 1 (Plus (Class dot)); LineEnd]) c s H).
Qed.

Lemma includes_step : forall c t w,
  startsWith w (c :: t) = false -> includes (c :: t) w = includes t w.
Proof. intros c t w H. cbn [includes]. rewrite H. reflexivity. Qed.

(** A text free of the first code unit of a word does not hold the
    word. *)
Lemma includes_free : forall a w s,
  free_of (is_char a) s = true -> includes s (a :: w) = false.
Proof.
  intros a w. induction s as [|c s IH]; intro H; [reflexivity|].
  rewrite free_of_cons in H. apply andb_prop in H. destruct H as [Hc Hs].
  apply negb_true_iff in Hc. cbn [includes startsWith].
  rewrite Hc, (IH Hs). reflexivity.
Qed.

Lemma digits_free_of : forall (bad : ascii -> bool) d,
  (forall c, is_digit c = true -> bad c = false) ->
  forallb is_digit d = true -> free_of bad d = true.
Proof.
  intros bad d Hbad. induction d as [|c d IH]; intro H; [reflexivity|].
  cbn [forallb] in H. apply andb_prop in H. destruct H as [Hc Hd].
  rewrite free_of_cons, (IH Hd), andb_true_r, (Hbad c Hc). reflexivity.
Qed.

Lemma digits_free : forall a d,
  is_digit a = false ->
  forallb is_digit d = true -> free_of (is_char a) d = true.
Proof.
  intros a d Ha. apply digits_free_of. intros c Hc.
  destruct (is_char a c) eqn:E; [|reflexivity].
  apply is_char_eq in E. subst c. congruence.
Qed.

Lemma digits_one_line : forall d,
  forallb is_digit d = true -> no_newlines d = true.
Proof.
  intro d. apply digits_free_of. intros c Hc.
  unfold is_line_terminator.
  destruct (is_char LF c) eqn:E1;
    [apply is_char_eq in E1; subst c; discriminate|].
  destruct (is_char CR c) eqn:E2;
    [apply is_char_eq in E2; subst c; discriminate|].
  reflexivity.
Qed.

(** A word without line feed is found in joined lines only inside a
    line. *)
Lemma includes_join : forall a w ls,
  forallb (fun a' => negb (is_char a' LF)) w = true ->
  is_char a LF = false ->
  Forall (fun l => includes l (a :: w) = false) ls ->
  includes (join_lines ls) (a :: w) = false.
Proof.
  intros a w ls Hw Ha. induction ls as [|l more IH]; intro H; [reflexivity|].
  inversion H as [|p q Hl Hmore]. subst p q.
  destruct more as [|l2 more]; [exact Hl|].
  rewrite join_lines_cons2.
  rewrite (includes_before LF _ a w l Hw), Hl.
  cbn [includes startsWith orb]. rewrite Ha. apply (IH Hmore).
Qed.

Section NumberedLines.

Variable l1 : str * str.
Variable more : list (str * str).
Hypothesis ok : forallb numbered_ok (l1 :: more) = true.

Lemma numbered_parts : forall l,
  In l (l1 :: more) ->
  truthy (fst l) = true /\ forallb is_digit (fst l) = true /\
  line_text (snd l) = true /\ free_of inline_token (snd l) = true /\
  includes (snd l) "<li>" = false /\ includes (snd l) "<ul>" = false.
Proof.
  intros l Hin. pose proof (proj1 (forallb_forall _ _) ok l Hin) as H.
  unfold numbered_ok in H.
  repeat (apply andb_prop in H; destruct H as [H ?]).
  repeat match goal with
         | E : negb _ = true |- _ => apply negb_true_iff in E
         end.
  repeat split; assumption.
Qed.

Lemma numbered_free : forall a,
  inline_token a = true ->
  free_of (is_char a) (join_lines (map numbered_line (l1 :: more))) = true.
Proof.
  intros a Ha.
  assert (HLF : is_char a LF = false).
  { destruct (is_char a LF) eqn:E; [|reflexivity].
    apply is_char_eq in E. subst a. discriminate. }
  apply free_of_join; [exact HLF|].
  apply Forall_forall. intros t Hin. apply in_map_iff in Hin.
  destruct Hin as (l & <- & Hl).
  destruct (numbered_parts l Hl) as (_ & Hd & _ & Ht & _).
  unfold numbered_line. rewrite !free_of_app.
  rewrite (digits_free a (fst l)); [| | exact Hd].
  - rewrite (free_of_token a (snd l) Ha Ht), andb_true_r, andb_true_l.
    destruct (is_char a ".") eqn:E1;
      [apply is_char_eq in E1; subst a; discriminate|].
    destruct (is_char a " ") eqn:E2;
      [apply is_char_eq in E2; subst a; discriminate|].
    unfold free_of. cbn [list_ascii_of_string forallb].
    rewrite E1, E2. reflexivity.
  - unfold inline_token in Ha.
    destruct (is_char "`" a) eqn:E1;
      [apply is_char_eq in E1; subst a; reflexivity|].
    destruct (is_char "*" a) eqn:E2;
      [apply is_char_eq in E2; subst a; reflexivity|].
    destruct (is_char "[" a) eqn:E3;
      [apply is_char_eq in E3; subst a; reflexivity|].
    discriminate.
Qed.

(** Every numbered line opens with a digit. *)
Lemma numbered_starts : forall okl : str -> bool,
  (forall c r, is_digit c = true -> okl (c :: r) = true) ->
  at_line_starts okl true (join_lines (map numbered_line (l1 :: more))) = true.
Proof.
  intros okl Hok. apply at_line_starts_join.
  - apply Forall_forall. intros t Hin. apply in_map_iff in Hin.
    destruct Hin as (l & <- & Hl).
    destruct (numbered_parts l Hl) as (Ht & Hd & Hx & _).
    unfold numbered_line. split.
    + rewrite !no_newlines_app, (proj2 (line_text_weaken _ Hx)).
      rewrite andb_true_r.
      rewrite (digits_one_line (fst l) Hd). reflexivity.
    + intro tail. destruct (fst l) as [|c d]; [discriminate|].
      cbn [forallb] in Hd. apply andb_prop in Hd.
      cbn [app]. apply Hok. exact (proj1 Hd).
  - discriminate.
Qed.

Lemma numbered_no_item :
  includes (join_lines (map numbered_line (l1 :: more))) "<li>" = false.
Proof.
  apply (includes_join "<" "li>"); [reflexivity | reflexivity |].
  apply Forall_forall. intros t Hin. apply in_map_iff in Hin.
  destruct Hin as (l & <- & Hl).
  destruct (numbered_parts l Hl) as (_ & Hd & _ & _ & Hli & _).
  unfold numbered_line. rewrite <- app_assoc.
  change (". " ++ snd l) with ("."%char :: " "%char :: snd l).
  rewrite (includes_before "." _ "<" "li>" (fst l) eq_refl).
  rewrite (includes_free "<" "li>" (fst l) (digits_free "<" _ eq_refl Hd)).
  rewrite !includes_step by reflexivity. rewrite orb_false_l. exact Hli.
Qed.

Lemma items_no_ul :
  includes (join_lines (map (tag "li") (map snd (l1 :: more)))) "<ul>" = false.
Proof.
  apply (includes_join "<" "ul>"); [reflexivity | reflexivity |].
  apply Forall_forall. intros t Hin. apply in_map_iff in Hin.
  destruct Hin as (x & <- & Hx). apply in_map_iff in Hx.
  destruct Hx as (l & <- & Hl).
  destruct (numbered_parts l Hl) as (_ & _ & _ & _ & _ & Hul).
  unfold tag. 
  change ("<" ++ "li" ++ ">" ++ snd l ++ "</" ++ "li" ++ ">")
    with ("<"%char :: "l"%char :: "i"%char :: ">"%char ::
          snd l ++ "<"%char :: "/li>").
  rewrite !includes_step by reflexivity.
  rewrite (includes_before "<" "/li>" "<" "ul>" (snd l) eq_refl).
  apply orb_false_iff. split; [exact Hul | reflexivity].
Qed.

Lemma numbered_replaced :
  replace_all true ordered_re (fun m => tag "li" (group 1 m))
    (join_lines (map numbered_line (l1 :: more))) =
  join_lines (map (tag "li") (map snd (l1 :: more))).
Proof.
  replace (join_lines (map numbered_line (l1 :: more)))
    with (marked_lines
            (map (fun l : str * str => (fst l ++ ". ", snd l)) (l1 :: more)))
    by (unfold marked_lines; rewrite map_map; reflexivity).
  replace (join_lines (map (tag "li") (map snd (l1 :: more))))
    with (replaced_lines (fun m => tag "li" (group 1 m))
            (map (fun l : str * str => (fst l ++ ". ", snd l)) (l1 :: more)))
    by (unfold replaced_lines; rewrite !map_map; reflexivity).
  unfold replace_all.
  apply (replace_lines ordered_re (fun m => tag "li" (group 1 m))
           ordered_inside
           (map (fun l : str * str => (fst l ++ ". ", snd l)) more)
           (fst l1 ++ ". ", snd l1));
    [reflexivity | | apply Nat.lt_succ_diag_r].
  change ((fst l1 ++ ". ", snd l1) ::
          map (fun l : str * str => (fst l ++ ". ", snd l)) more)
    with (map (fun l : str * str => (fst l ++ ". ", snd l)) (l1 :: more)).
  apply Forall_forall. intros p Hin. apply in_map_iff in Hin.
  destruct Hin as (l0 & <- & Hl).
  destruct (numbered_parts l0 Hl) as (Ht & Hd & Hx & _).
  cbn [fst snd]. split; [exact Hx|].
  intros prev tail Hp Htail.
  apply (match_numbered (fst l0) (snd l0) tail prev Ht Hd Hx Hp Htail).
Qed.

End NumberedLines.


Lemma at_line_starts_closed : forall okl c ls,
  no_newlines c = true ->
  Forall (fun l => no_newlines l = true /\
                   forall tail, okl (l ++ tail) = true) ls ->
  ls <> [] ->
  at_line_starts okl true (join_lines ls ++ c) = true.
Proof.
  intros okl c ls Hc. induction ls as [|l rest IH]; intros H Hne;
    [contradiction|].
  inversion H as [|a b [Hn Hok] Hrest]. subst a b.
  destruct rest as [|l2 rest].
  - cbn [join_lines]. apply at_line_starts_one_line; [|apply Hok].
    rewrite no_newlines_app, Hn, Hc. reflexivity.
  - rewrite join_lines_cons2. rewrite <- app_assoc. cbn [app].
    rewrite (at_line_starts_app okl l _ true Hn).
    rewrite Hok. apply IH; [exact Hrest | discriminate].
Qed.

Lemma breaks_line : forall l t,
  no_newlines l = true -> breaks (l ++ t) = l ++ breaks t.
Proof.
  induction l as [|c l IH]; intros t H; [reflexivity|].
  unfold no_newlines in H. rewrite free_of_cons in H.
  apply andb_prop in H. destruct H as [Hc Hl]. apply negb_true_iff in Hc.
  assert (E : is_char LF c = false).
  { unfold is_line_terminator in Hc. apply orb_false_iff in Hc. tauto. }
  cbn [app]. specialize (IH t Hl).
  destruct (l ++ t) as [|c' t'] eqn:Et.
  - cbn [breaks]. rewrite E. rewrite <- IH. reflexivity.
  - cbn [breaks]. rewrite E. cbn [andb app]. rewrite <- IH. reflexivity.
Qed.

Lemma breaks_joined : forall c ls,
  no_newlines c = true ->
  Forall (fun l => line_text l = true) ls ->
  ls <> [] ->
  breaks (join_lines ls ++ c) = join_with "<br>" ls ++ c.
Proof.
  intros c ls Hc. induction ls as [|l rest IH]; intros H Hne;
    [contradiction|].
  inversion H as [|a b Hl Hrest]. subst a b.
  destruct (line_text_weaken l Hl) as [_ Hn].
  destruct rest as [|l2 rest].
  - cbn [join_lines join_with].
    rewrite (breaks_line l c Hn), (breaks_one_line c Hc). reflexivity.
  - rewrite join_lines_cons2. rewrite <- app_assoc.
    rewrite (breaks_line l _ Hn).
    change (join_with "<br>" (l :: l2 :: rest))
      with (l ++ "<br>" ++ join_with "<br>" (l2 :: rest)).
    rewrite <- !app_assoc. f_equal.
    rewrite <- (IH Hrest) by discriminate.
    inversion Hrest as [|a b Hl2 _]. subst a b.
    destruct (line_text_weaken l2 Hl2) as [Ht2 Hn2].
    destruct l2 as [|c2 l2]; [discriminate|].
    unfold no_newlines in Hn2. rewrite free_of_cons in Hn2.
    apply andb_prop in Hn2. destruct Hn2 as [Hc2 _].
    apply negb_true_iff in Hc2.
    assert (E : is_char LF c2 = false).
    { unfold is_line_terminator in Hc2. apply orb_false_iff in Hc2. tauto. }
    destruct rest as [|l3 rest].
    + cbn [join_lines app breaks]. rewrite E. reflexivity.
    + rewrite join_lines_cons2. cbn [app breaks]. rewrite E. reflexivity.
Qed.

Lemma items_lines : forall xs : list str,
  Forall (fun x => line_text x = true) xs ->
  Forall (fun l => line_text l = true) (map (tag "li") xs).
Proof.
  intros xs H. induction H as [|x xs Hx _ IH]; [apply Forall_nil|].
  cbn [map]. apply Forall_cons; [|exact IH].
  destruct (line_text_weaken x Hx) as [_ Hn].
  unfold line_text, tag. cbn [app truthy list_ascii_of_string andb].
  change (no_newlines ("<"%char :: "l"%char :: "i"%char :: ">"%char ::
                       x ++ "</li>") = true).
  unfold no_newlines. rewrite !free_of_cons.
  rewrite free_of_app. fold (no_newlines x). rewrite Hn. reflexivity.
Qed.

Lemma items_open : forall (okl : str -> bool) (xs : list str),
  (forall r, okl ("<"%char :: r) = true) ->
  Forall (fun x => line_text x = true) xs ->
  Forall (fun l => no_newlines l = true /\
                   forall tail, okl (l ++ tail) = true)
         (map (tag "li") xs).
Proof.
  intros okl xs Hok H.
  pose proof (items_lines xs H) as L. rewrite Forall_forall in L.
  apply Forall_forall. intros l Hin. split.
  - apply (proj2 (line_text_weaken l (L l Hin))).
  - intro tail. apply in_map_iff in Hin. destruct Hin as (x & <- & _).
    apply Hok.
Qed.

Lemma join_lines_open : forall (a l : str) ls,
  a ++ join_lines (l :: ls) = join_lines ((a ++ l) :: ls).
Proof.
  intros a l ls. destruct ls as [|l2 ls]; [reflexivity|].
  rewrite !join_lines_cons2. apply app_assoc.
Qed.

(** X28. Lines that each open with a number, a dot and a space come out
    as one ordered list with an item for each line. The numbers written
    are dropped, and a line break element stands between the items. *)
Theorem numbered_lines_listed : forall l ls,
  forallb numbered_ok (l :: ls) = true ->
  renderMarkdown (join_lines (map numbered_line (l :: ls))) =
  "<ol>" ++ join_with "<br>" (map (tag "li") (map snd (l :: ls))) ++ "</ol>".
Proof.
  intros l ls Hok.
  set (s := join_lines (map numbered_line (l :: ls))).
  set (items := map (tag "li") (map snd (l :: ls))).
  assert (Hx : Forall (fun x => line_text x = true) (map snd (l :: ls))).
  { apply Forall_forall. intros x Hin. apply in_map_iff in Hin.
    destruct Hin as (l0 & <- & Hl).
    apply (numbered_parts l ls Hok l0 Hl). }
  assert (Hhead : forall (a : ascii) w f,
            is_digit a = false ->
            replace_all true (line_re (a :: w)) f s = s).
  { intros a w f Ha. apply line_re_id_lines.
    apply (numbered_starts l ls Hok
             (fun r => negb (startsWith (a :: w) r))).
    intros c r Hc. cbn [startsWith].
    destruct (is_char a c) eqn:E; [|reflexivity].
    apply is_char_eq in E. subst c. congruence. }
  assert (Hs : truthy s = true).
  { unfold s. destruct (numbered_parts l ls Hok l (or_introl eq_refl))
      as (Ht & _).
    destruct l as [d x]. cbn [fst] in Ht. destruct d; [discriminate|].
    destruct ls; reflexivity. }
  set (out := "<ol>" ++ join_lines items ++ "</ol>").
  assert (Hopen : at_line_starts opens_plain true out = true).
  { unfold out, items. cbn [map]. rewrite app_assoc, join_lines_open.
    apply at_line_starts_closed; [reflexivity | | discriminate].
    apply Forall_cons.
    - split.
      + rewrite no_newlines_app. 
        inversion Hx as [|a b Hl _]. subst a b.
        pose proof (items_lines [snd l] (Forall_cons _ Hl (Forall_nil _)))
          as L.
        inversion L as [|a b Hl' _]. subst a b.
        apply andb_true_intro.
        split; [reflexivity | exact (proj2 (line_text_weaken _ Hl'))].
      + intro tail. reflexivity.
    - inversion Hx as [|a b _ Hrest]. subst a b.
      apply (items_open opens_plain (map snd ls)); [|exact Hrest].
      intro r. reflexivity. }
  rewrite (renderMarkdown_of s (breaks out) Hs).
  - unfold out.
    rewrite (breaks_line "<ol>" _ eq_refl).
    rewrite (breaks_joined "</ol>" items eq_refl).
    + reflexivity.
    + apply items_lines. exact Hx.
    + discriminate.
  - rewrite <- (firstn_skipn 10 markdown_stages).
    rewrite pipeline_app. rewrite (pipeline_id (firstn 10 markdown_stages) s).
    + unfold pipeline, markdown_stages. cbn [skipn fold_left].
      fold s. unfold s at 1. rewrite (numbered_replaced l ls Hok).
      change (map snd (l :: ls)) with (snd l :: map snd ls).
      rewrite (replace_list_run wrap_ordered (snd l) (map snd ls))
        by (intros m m' E; unfold wrap_ordered; rewrite E; reflexivity).
      unfold wrap_ordered at 1. cbn [matched].
      change (snd l :: map snd ls) with (map snd (l :: ls)).
      rewrite (items_no_ul l ls Hok). fold items. fold out.
      rewrite (quiet_line out Hopen ">" " ") by reflexivity.
      fold rule_re. rewrite (quiet_rule out Hopen).
      apply paragraph_stages.
    + unfold markdown_stages. cbn [firstn].
      repeat apply Forall_cons; try apply Forall_nil.
      * apply (replace_all_free false (is_char "`") fence_re);
          [reflexivity | apply (numbered_free l ls Hok); reflexivity].
      * apply (replace_all_free false (is_char "`") inline_code_re);
          [reflexivity | apply (numbered_free l ls Hok); reflexivity].
      * apply (replace_all_free false (is_char "*") bold_re);
          [reflexivity | apply (numbered_free l ls Hok); reflexivity].
      * apply (replace_all_free false (is_char "*") italic_re);
          [reflexivity | apply (numbered_free l ls Hok); reflexivity].
      * apply Hhead. reflexivity.
      * apply Hhead. reflexivity.
      * apply Hhead. reflexivity.
      * apply (replace_all_free false (is_char "[") link_re);
          [reflexivity | apply (numbered_free l ls Hok); reflexivity].
      * apply Hhead. reflexivity.
      * apply (quiet_list_run s (numbered_no_item l ls Hok)).
Qed.

Lemma numbered_lines_listed_witness :
  renderMarkdown ("1. install" ++ [LF] ++ "2. configure") =
  "<ol><li>install</li><br><li>configure</li></ol>".
Proof.
  apply (numbered_lines_listed ("1" : str, "install" : str)
           [("2" : str, "configure" : str)]).
  reflexivity.
Defined.
